(** * Scope hoisting ([packages/shared/scope-hoisting/src/hoist.js])

    A shallow embedding of the [hoist] transform and of the two visitors it
    registers on the Babel traversal: the pre-scan visitor run from
    [Program.enter] and the main [VISITOR].

    The handlers are transcribed from [hoist.js].  What they call but the
    repository does not define (the Babel node predicates, the traversal
    order, scopes, and the asset API of the bundler core) is modelled in the
    first part of the file, each piece under a comment that says where its
    behaviour comes from. *)

From Stdlib Require Import String Ascii List Bool ZArith Lia.
From stdpp Require Import base option gmap strings list fin_maps.
Import ListNotations.

Scheme All for list.
Scheme All for option.

(** ** The Babel syntax tree

    Babel trees are untyped: every node is a [Node] with a [type] tag.  One
    inductive type with one constructor per node type used by the handlers. *)

Inductive node : Type :=
| Program (directives : list node) (body : list node)
| Directive (value : node)
| DirectiveLiteral (value : string)
| Identifier (name : string)
| StringLiteral (value : string)
| NumericLiteral (value : Z)
| BooleanLiteral (value : bool)
| ThisExpression
| Import
| ObjectExpression (properties : list node)
| ObjectPattern (properties : list node)
| ObjectProperty (key : node) (value : node) (computed : bool)
| RestElement (argument : node)
| MemberExpression (object : node) (property : node) (computed : bool)
| CallExpression (callee : node) (arguments : list node)
| AssignmentExpression (operator : string) (left : node) (right : node)
| UnaryExpression (operator : string) (argument : node)
| AwaitExpression (argument : node)
| ConditionalExpression (test : node) (consequent : node) (alternate : node)
| LogicalExpression (operator : string) (left : node) (right : node)
| FunctionExpression (id : option node) (params : list node) (body : node)
| ArrowFunctionExpression (params : list node) (body : node)
| ExpressionStatement (expression : node)
| VariableDeclaration (kind : string) (declarations : list node)
| VariableDeclarator (id : node) (init : option node)
| ReturnStatement (argument : option node)
| FunctionDeclaration (id : node) (params : list node) (body : node)
| BlockStatement (directives : list node) (body : list node)
| IfStatement (test : node) (consequent : node) (alternate : option node)
| ImportDeclaration (specifiers : list node) (source : node)
| ImportSpecifier (local : node) (imported : node)
| ImportDefaultSpecifier (local : node)
| ImportNamespaceSpecifier (local : node)
| ExportNamedDeclaration (declaration : option node) (specifiers : list node)
    (source : option node)
| ExportSpecifier (local : node) (exported : node)
| ExportDefaultDeclaration (declaration : node)
| ExportAllDeclaration (source : node).

(** The field of the parent that holds a node ([path.key], with
    [path.listKey] and the index for the fields that are arrays). *)
Inductive Key : Type :=
| K_root
| K_directives (i : nat) | K_body (i : nat) | K_properties (i : nat)
| K_arguments (i : nat) | K_params (i : nat) | K_declarations (i : nat)
| K_specifiers (i : nat)
| K_value | K_key | K_argument | K_object | K_property | K_callee
| K_left | K_right | K_test | K_consequent | K_alternate | K_id
| K_fbody | K_expression | K_init | K_source | K_local | K_imported
| K_exported | K_declaration.

#[global] Instance Key_eq_dec : EqDecision Key.
Proof. solve_decision. Defined.

(** [path.key === k] for a field that is not an array. *)
Definition key_is (k : Key) (field : Key) : bool :=
  match k, field with
  | K_root, K_root | K_value, K_value | K_key, K_key
  | K_argument, K_argument | K_object, K_object | K_property, K_property
  | K_callee, K_callee | K_left, K_left | K_right, K_right | K_test, K_test
  | K_consequent, K_consequent | K_alternate, K_alternate | K_id, K_id
  | K_fbody, K_fbody | K_expression, K_expression | K_init, K_init
  | K_source, K_source | K_local, K_local | K_imported, K_imported
  | K_exported, K_exported | K_declaration, K_declaration => true
  | _, _ => false
  end.

(** [NodePath]: a node, its key, and the path of its parent. *)
Inductive NodePath : Type :=
| mkPath (node : node) (key : Key) (parentPath : option NodePath).

Definition path_node (p : NodePath) : node :=
  match p with mkPath n _ _ => n end.
Definition path_key (p : NodePath) : Key :=
  match p with mkPath _ k _ => k end.
Definition path_parentPath (p : NodePath) : option NodePath :=
  match p with mkPath _ _ pp => pp end.
Definition path_parent (p : NodePath) : option node :=
  path_node <$> path_parentPath p.
Definition path_grandparent (p : NodePath) : option node :=
  path_parentPath p ≫= path_parent.
(** The key of the parent inside the grandparent. *)
Definition path_parentKey (p : NodePath) : option Key :=
  path_key <$> path_parentPath p.

(** [path.findParent(f)]: the nearest strict ancestor satisfying [f]. *)
Fixpoint find_from (f : NodePath -> bool) (p : NodePath) : option NodePath :=
  if f p then Some p
  else match p with
       | mkPath _ _ (Some pp) => find_from f pp
       | mkPath _ _ None => None
       end.
Definition findParent (f : NodePath -> bool) (p : NodePath) : option NodePath :=
  path_parentPath p ≫= find_from f.

(** ** Node predicates of [@babel/types] *)

Definition isIdentifier (n : node) : bool :=
  match n with Identifier _ => true | _ => false end.
Definition isIdentifierNamed (n : node) (s : string) : bool :=
  match n with Identifier x => String.eqb x s | _ => false end.
Definition isStringLiteral (n : node) : bool :=
  match n with StringLiteral _ => true | _ => false end.
Definition isMemberExpression (n : node) : bool :=
  match n with MemberExpression _ _ _ => true | _ => false end.
Definition isUnaryExpression (n : node) : bool :=
  match n with UnaryExpression _ _ => true | _ => false end.
Definition isAssignmentExpression (n : node) : bool :=
  match n with AssignmentExpression _ _ _ => true | _ => false end.
Definition isCallExpression (n : node) : bool :=
  match n with CallExpression _ _ => true | _ => false end.
Definition isAwaitExpression (n : node) : bool :=
  match n with AwaitExpression _ => true | _ => false end.
Definition isObjectProperty (n : node) : bool :=
  match n with ObjectProperty _ _ _ => true | _ => false end.
Definition isFunction (n : node) : bool :=
  match n with
  | FunctionExpression _ _ _ | ArrowFunctionExpression _ _
  | FunctionDeclaration _ _ _ => true
  | _ => false
  end.
Definition isArrowFunctionExpression (n : node) : bool :=
  match n with ArrowFunctionExpression _ _ => true | _ => false end.
Definition isProgram (n : node) : bool :=
  match n with Program _ _ => true | _ => false end.
Definition isConditionalExpression (n : node) : bool :=
  match n with ConditionalExpression _ _ _ => true | _ => false end.
Definition isLogicalExpression (n : node) : bool :=
  match n with LogicalExpression _ _ _ => true | _ => false end.
Definition isStatement (n : node) : bool :=
  match n with
  | ExpressionStatement _ | VariableDeclaration _ _ | ReturnStatement _
  | FunctionDeclaration _ _ _ | BlockStatement _ _ | IfStatement _ _ _
  | ImportDeclaration _ _ | ExportNamedDeclaration _ _ _
  | ExportDefaultDeclaration _ | ExportAllDeclaration _ => true
  | _ => false
  end.

(** [t.matchesPattern(member, match)]: the chain of properties of a member
    expression, read from the innermost object outwards, equals the dotted
    parts; identifiers and string literals both count, as in Babel. *)
Fixpoint pattern_nodes (n : node) : list node :=
  match n with
  | MemberExpression o p _ => p :: pattern_nodes o
  | _ => [n]
  end.

Definition pattern_value (n : node) : option string :=
  match n with
  | Identifier x => Some x
  | StringLiteral v => Some v
  | _ => None
  end.

Fixpoint pattern_parts_match (nodes : list node) (parts : list string) : bool :=
  match nodes, parts with
  | [], [] => true
  | n :: nodes', s :: parts' =>
      match pattern_value n with
      | Some v => String.eqb s v && pattern_parts_match nodes' parts'
      | None => false
      end
  | _, _ => false
  end.

Definition matchesPattern (member : node) (parts : list string) : bool :=
  isMemberExpression member
  && pattern_parts_match (rev (pattern_nodes member)) parts.

(** [t.isReferenced(node, parent, grandparent)], restricted to the parent
    types of this tree. *)
Definition isReferenced (k : Key) (parent : node) (grandparent : option node)
  : bool :=
  match parent with
  | MemberExpression _ _ computed =>
      match k with
      | K_property => computed
      | K_object => true
      | _ => false
      end
  | VariableDeclarator _ _ => key_is k K_init
  | ArrowFunctionExpression _ _ => key_is k K_fbody
  | ExportSpecifier _ _ =>
      match grandparent with
      | Some (ExportNamedDeclaration _ _ (Some _)) => false
      | _ => key_is k K_local
      end
  | ObjectProperty _ _ computed =>
      match k with
      | K_key => computed
      | K_value =>
          match grandparent with
          | Some (ObjectPattern _) => false
          | _ => true
          end
      | _ => true
      end
  | AssignmentExpression _ _ _ => key_is k K_right
  | RestElement _ => false
  | FunctionDeclaration _ _ _ | FunctionExpression _ _ _ => false
  | ImportDefaultSpecifier _ | ImportNamespaceSpecifier _
  | ImportSpecifier _ _ => false
  | ObjectPattern _ => false
  | _ => true
  end.

(** The virtual type [ReferencedIdentifier]. *)
Definition isReferencedIdentifier (p : NodePath) : bool :=
  match path_node p, path_parent p with
  | Identifier _, Some parent =>
      isReferenced (path_key p) parent (path_grandparent p)
  | _, _ => false
  end.

(** ** Scopes

    [scope.crawl()] registers every declaration with the scope that owns
    it: [var] declarations with the enclosing function or the program, [let],
    [const] and function declarations with the enclosing block, parameters
    (and the name of a function expression) with the function, import
    specifiers with the program. *)

(** [t.getBindingIdentifiers] on a pattern. *)
Fixpoint pattern_names (n : node) : list string :=
  match n with
  | Identifier x => [x]
  | ObjectPattern props => flat_map pattern_names props
  | ObjectProperty _ v _ => pattern_names v
  | RestElement a => pattern_names a
  | _ => []
  end.

Definition declarator_names (d : node) : list string :=
  match d with
  | VariableDeclarator i _ => pattern_names i
  | _ => []
  end.

(** Names declared with [var] below a statement, not entering functions. *)
Fixpoint var_names (n : node) : list string :=
  match n with
  | VariableDeclaration kind decls =>
      if String.eqb kind "var" then flat_map declarator_names decls else []
  | BlockStatement _ b => flat_map var_names b
  | IfStatement _ c a =>
      var_names c ++ match a with Some a' => var_names a' | None => [] end
  | ExportNamedDeclaration (Some d) _ _ => var_names d
  | _ => []
  end.

(** Block-scoped names declared by one statement of a block. *)
Definition lexical_decl_names (n : node) : list string :=
  match n with
  | VariableDeclaration kind decls =>
      if String.eqb kind "var" then [] else flat_map declarator_names decls
  | FunctionDeclaration i _ _ => pattern_names i
  | _ => []
  end.

Definition lexical_names (stmts : list node) : list string :=
  flat_map (fun s =>
    match s with
    | ExportNamedDeclaration (Some d) _ _ => lexical_decl_names d
    | ExportDefaultDeclaration d => lexical_decl_names d
    | _ => lexical_decl_names s
    end) stmts.

Definition specifier_local (s : node) : list string :=
  match s with
  | ImportSpecifier l _ | ImportDefaultSpecifier l
  | ImportNamespaceSpecifier l => pattern_names l
  | _ => []
  end.

Definition import_names (stmts : list node) : list string :=
  flat_map (fun s =>
    match s with
    | ImportDeclaration specs _ => flat_map specifier_local specs
    | _ => []
    end) stmts.

(** The bindings [crawl] gives the program scope, in the order in which the
    statements of the program declare them. *)
Definition program_bindings (n : node) : list string :=
  match n with
  | Program _ b =>
      flat_map (fun s => var_names s ++ lexical_names [s] ++ import_names [s])
        b
  | _ => []
  end.

Definition body_bindings (b : node) : list string :=
  match b with
  | BlockStatement _ stmts => flat_map var_names stmts ++ lexical_names stmts
  | _ => []
  end.

Definition function_bindings (n : node) : list string :=
  match n with
  | FunctionDeclaration _ ps b | ArrowFunctionExpression ps b =>
      flat_map pattern_names ps ++ body_bindings b
  | FunctionExpression i ps b =>
      match i with Some i' => pattern_names i' | None => [] end
      ++ flat_map pattern_names ps ++ body_bindings b
  | _ => []
  end.

(** [Scope.globals] (the keys of [globals.builtin]) and
    [Scope.contextVariables]: names [hasBinding] accepts without a binding
    unless [noGlobals] is passed. *)
Definition Scope_globals : list string :=
  ["Array"; "ArrayBuffer"; "Atomics"; "BigInt"; "BigInt64Array";
   "BigUint64Array"; "Boolean"; "constructor"; "DataView"; "Date";
   "decodeURI"; "decodeURIComponent"; "encodeURI"; "encodeURIComponent";
   "Error"; "escape"; "eval"; "EvalError"; "Float32Array"; "Float64Array";
   "Function"; "globalThis"; "hasOwnProperty"; "Infinity"; "Int16Array";
   "Int32Array"; "Int8Array"; "isFinite"; "isNaN"; "isPrototypeOf"; "JSON";
   "Map"; "Math"; "NaN"; "Number"; "Object"; "parseFloat"; "parseInt";
   "Promise"; "propertyIsEnumerable"; "Proxy"; "RangeError";
   "ReferenceError"; "Reflect"; "RegExp"; "Set"; "SharedArrayBuffer";
   "String"; "Symbol"; "SyntaxError"; "toLocaleString"; "toString";
   "TypeError"; "Uint16Array"; "Uint32Array"; "Uint8Array";
   "Uint8ClampedArray"; "undefined"; "unescape"; "URIError"; "valueOf";
   "WeakMap"; "WeakSet"].

Definition Scope_contextVariables : list string :=
  ["arguments"; "undefined"; "Infinity"; "NaN"].

Definition name_in (x : string) (l : list string) : bool :=
  existsb (String.eqb x) l.

(** The scope of the program: its bindings, the free names [crawl] found
    ([globals]), the two data keys the transform stores with [setData], and
    the declarators added with [scope.push], which Babel collects in one
    [var] declaration at the top of the body. *)
Record Scope : Type := mkScope {
  bindings : list string;
  globals : list string;
  data_shouldWrap : option bool;
  data_cjsExportsReassigned : option bool;
  pushed : list node
}.

(** JavaScript truthiness of a data value that was never set, or set to a
    boolean. *)
Definition truthy (v : option bool) : bool :=
  match v with Some b => b | None => false end.

(** The bindings owned by a path when its node opens a scope.  The block
    that is the body of a function shares the scope of the function; the
    program scope is kept in the state, because the walk adds to it. *)
Definition own_bindings (sc : Scope) (p : NodePath) : list string :=
  match path_node p with
  | Program _ _ => bindings sc
  | BlockStatement _ stmts =>
      match path_parent p with
      | Some parent => if isFunction parent then [] else lexical_names stmts
      | None => lexical_names stmts
      end
  | n => function_bindings n
  end.

Fixpoint scope_chain_has (sc : Scope) (p : NodePath) (x : string) : bool :=
  name_in x (own_bindings sc p)
  || match p with
     | mkPath _ _ (Some pp) => scope_chain_has sc pp x
     | mkPath _ _ None => false
     end.

(** [path.scope.hasBinding(name, noGlobals)]. *)
Definition hasBinding (sc : Scope) (p : NodePath) (x : string)
    (noGlobals : bool) : bool :=
  scope_chain_has sc p x
  || (negb noGlobals && (name_in x Scope_globals
                         || name_in x Scope_contextVariables)).

(** [path.getFunctionParent()]. *)
Definition getFunctionParent (p : NodePath) : option NodePath :=
  findParent (fun q => isFunction (path_node q)) p.

(** ** Traversal order

    The paths below a node in the order [traverse] enters them: the node,
    then its children field by field in the order of [t.VISITOR_KEYS]. *)
Fixpoint paths (n : node) (k : Key) (pp : option NodePath) : list NodePath :=
  let me := mkPath n k pp in
  let sub (c : node) (kc : Key) := paths c kc (Some me) in
  let subs (mk : nat -> Key) :=
    fix go (i : nat) (l : list node) : list NodePath :=
      match l with
      | [] => []
      | c :: r => sub c (mk i) ++ go (S i) r
      end in
  let subo (kc : Key) (o : option node) :=
    match o with Some c => sub c kc | None => [] end in
  me ::
  match n with
  | Program ds b => subs K_directives 0%nat ds ++ subs K_body 0%nat b
  | Directive v => sub v K_value
  | ObjectExpression ps | ObjectPattern ps => subs K_properties 0%nat ps
  | ObjectProperty k' v _ => sub k' K_key ++ sub v K_value
  | RestElement a => sub a K_argument
  | MemberExpression o pr _ => sub o K_object ++ sub pr K_property
  | CallExpression c args => sub c K_callee ++ subs K_arguments 0%nat args
  | AssignmentExpression _ l r => sub l K_left ++ sub r K_right
  | UnaryExpression _ a => sub a K_argument
  | AwaitExpression a => sub a K_argument
  | ConditionalExpression t c a =>
      sub t K_test ++ sub c K_consequent ++ sub a K_alternate
  | LogicalExpression _ l r => sub l K_left ++ sub r K_right
  | FunctionExpression i ps b =>
      subo K_id i ++ subs K_params 0%nat ps ++ sub b K_fbody
  | ArrowFunctionExpression ps b => subs K_params 0%nat ps ++ sub b K_fbody
  | ExpressionStatement e => sub e K_expression
  | VariableDeclaration _ ds => subs K_declarations 0%nat ds
  | VariableDeclarator i init => sub i K_id ++ subo K_init init
  | ReturnStatement a => subo K_argument a
  | FunctionDeclaration i ps b =>
      sub i K_id ++ subs K_params 0%nat ps ++ sub b K_fbody
  | BlockStatement ds b => subs K_directives 0%nat ds ++ subs K_body 0%nat b
  | IfStatement t c a =>
      sub t K_test ++ sub c K_consequent ++ subo K_alternate a
  | ImportDeclaration ss s => subs K_specifiers 0%nat ss ++ sub s K_source
  | ImportSpecifier l i => sub l K_local ++ sub i K_imported
  | ImportDefaultSpecifier l | ImportNamespaceSpecifier l => sub l K_local
  | ExportNamedDeclaration d ss s =>
      subo K_declaration d ++ subs K_specifiers 0%nat ss ++ subo K_source s
  | ExportSpecifier l e => sub l K_local ++ sub e K_exported
  | ExportDefaultDeclaration d => sub d K_declaration
  | ExportAllDeclaration s => sub s K_source
  | DirectiveLiteral _ | Identifier _ | StringLiteral _ | NumericLiteral _
  | BooleanLiteral _ | ThisExpression | Import => []
  end.

(** [path.traverse(visitor)] on the program path enters the descendants of
    the program, not the program itself. *)
Definition program_paths (ast : node) : list NodePath :=
  tl (paths ast K_root None).

(** The children of a node with their keys, in the order in which [paths]
    goes through them; used to reason about [paths] one level at a time. *)
Definition keyed (mk : nat -> Key) (l : list node) : list (Key * node) :=
  imap (fun i c => (mk i, c)) l.
Definition keyed_option (k : Key) (o : option node) : list (Key * node) :=
  match o with Some c => [(k, c)] | None => [] end.
Definition children (n : node) : list (Key * node) :=
  match n with
  | Program ds b => keyed K_directives ds ++ keyed K_body b
  | Directive v => [(K_value, v)]
  | ObjectExpression ps | ObjectPattern ps => keyed K_properties ps
  | ObjectProperty k' v _ => [(K_key, k'); (K_value, v)]
  | RestElement a => [(K_argument, a)]
  | MemberExpression o pr _ => [(K_object, o); (K_property, pr)]
  | CallExpression c args => (K_callee, c) :: keyed K_arguments args
  | AssignmentExpression _ l r => [(K_left, l); (K_right, r)]
  | UnaryExpression _ a => [(K_argument, a)]
  | AwaitExpression a => [(K_argument, a)]
  | ConditionalExpression t c a =>
      [(K_test, t); (K_consequent, c); (K_alternate, a)]
  | LogicalExpression _ l r => [(K_left, l); (K_right, r)]
  | FunctionExpression i ps b =>
      keyed_option K_id i ++ keyed K_params ps ++ [(K_fbody, b)]
  | ArrowFunctionExpression ps b => keyed K_params ps ++ [(K_fbody, b)]
  | ExpressionStatement e => [(K_expression, e)]
  | VariableDeclaration _ ds => keyed K_declarations ds
  | VariableDeclarator i init => (K_id, i) :: keyed_option K_init init
  | ReturnStatement a => keyed_option K_argument a
  | FunctionDeclaration i ps b =>
      (K_id, i) :: keyed K_params ps ++ [(K_fbody, b)]
  | BlockStatement ds b => keyed K_directives ds ++ keyed K_body b
  | IfStatement t c a =>
      (K_test, t) :: (K_consequent, c) :: keyed_option K_alternate a
  | ImportDeclaration ss s => keyed K_specifiers ss ++ [(K_source, s)]
  | ImportSpecifier l i => [(K_local, l); (K_imported, i)]
  | ImportDefaultSpecifier l | ImportNamespaceSpecifier l => [(K_local, l)]
  | ExportNamedDeclaration d ss s =>
      keyed_option K_declaration d ++ keyed K_specifiers ss
      ++ keyed_option K_source s
  | ExportSpecifier l e => [(K_local, l); (K_exported, e)]
  | ExportDefaultDeclaration d => [(K_declaration, d)]
  | ExportAllDeclaration s => [(K_source, s)]
  | DirectiveLiteral _ | Identifier _ | StringLiteral _ | NumericLiteral _
  | BooleanLiteral _ | ThisExpression | Import => []
  end.

(** ** Assets, dependencies and symbol tables

    The asset API is provided by the bundler core; the records below follow
    sections 3 and 6 of the specification.  Source locations are left out:
    the transform copies them and never reads them. *)

Inductive Failure : Type :=
| SymbolsCleared            (* a symbol table used before [ensure()] *)
| BabelError                (* an error thrown by a Babel helper *)
| Unmodelled (what : string).

Inductive Result (A : Type) : Type :=
| Ok (a : A)
| Throw (e : Failure).
Arguments Ok {A} a.
Arguments Throw {A} e.

Definition bind {A B : Type} (r : Result A) (f : A -> Result B) : Result B :=
  match r with
  | Ok a => f a
  | Throw e => Throw e
  end.

Notation "'let*' x := r 'in' k" := (bind r (fun x => k))
  (at level 10, x pattern, r at level 100, k at level 200).

Record Symbol : Type := mkSymbol {
  sym_local : string;
  sym_isWeak : bool
}.

#[global] Instance Symbol_eq_dec : EqDecision Symbol.
Proof. solve_decision. Defined.

(** A symbol table is absent until [ensure()] is called. *)
Definition SymbolTable : Type := option (gmap string Symbol).

Definition symbols_ensure (t : SymbolTable) : SymbolTable :=
  match t with
  | Some m => Some m
  | None => Some ∅
  end.

(** [symbols.set(name, local, loc, isWeak)]: a symbol that was recorded as
    not weak stays so. *)
Definition symbols_set (t : SymbolTable) (name loc : string) (isWeak : bool)
  : Result SymbolTable :=
  match t with
  | Some m =>
      Ok (Some (<[name := mkSymbol loc
                   (isWeak && match m !! name with
                              | Some s => sym_isWeak s
                              | None => true
                              end)]> m))
  | None => Throw SymbolsCleared
  end.

Definition symbols_get (t : SymbolTable) (name : string) : option Symbol :=
  t ≫= (fun m => m !! name).

(** [exportSymbols()] followed by [delete] of each: the table is emptied. *)
Definition symbols_delete_all (t : SymbolTable) : SymbolTable :=
  match t with
  | Some _ => Some ∅
  | None => None
  end.

Record DependencyMeta : Type := mkDependencyMeta {
  dm_shouldWrap : bool;
  dm_hasDefaultImport : bool;
  dm_isCommonJS : bool
}.

Record Dependency : Type := mkDependency {
  dep_id : string;
  moduleSpecifier : string;
  isAsync : bool;
  dep_meta : DependencyMeta;
  dep_symbols : SymbolTable
}.

(** [asset.meta]; a flag that was never written reads as falsy. *)
Record Meta : Type := mkMeta {
  meta_id : option string;
  exportsIdentifier : option string;
  isES6Module : bool;
  isCommonJS : bool;
  resolveExportsBailedOut : bool
}.

Record Asset : Type := mkAsset {
  asset_id : string;
  filePath : string;
  isSource : bool;
  env_isNode : bool;
  meta : Meta;
  symbols : SymbolTable;
  dependencies : list Dependency
}.

Definition with_meta (a : Asset) (m : Meta) : Asset :=
  mkAsset (asset_id a) (filePath a) (isSource a) (env_isNode a) m
    (symbols a) (dependencies a).
Definition with_symbols (a : Asset) (t : SymbolTable) : Asset :=
  mkAsset (asset_id a) (filePath a) (isSource a) (env_isNode a) (meta a)
    t (dependencies a).
Definition with_dependencies (a : Asset) (ds : list Dependency) : Asset :=
  mkAsset (asset_id a) (filePath a) (isSource a) (env_isNode a) (meta a)
    (symbols a) ds.

Definition set_isES6Module (a : Asset) (b : bool) : Asset :=
  with_meta a (mkMeta (meta_id (meta a)) (exportsIdentifier (meta a)) b
                 (isCommonJS (meta a)) (resolveExportsBailedOut (meta a))).
Definition set_isCommonJS (a : Asset) (b : bool) : Asset :=
  with_meta a (mkMeta (meta_id (meta a)) (exportsIdentifier (meta a))
                 (isES6Module (meta a)) b (resolveExportsBailedOut (meta a))).
Definition set_resolveExportsBailedOut (a : Asset) (b : bool) : Asset :=
  with_meta a (mkMeta (meta_id (meta a)) (exportsIdentifier (meta a))
                 (isES6Module (meta a)) (isCommonJS (meta a)) b).
Definition set_meta_id (a : Asset) (i : string) : Asset :=
  with_meta a (mkMeta (Some i) (exportsIdentifier (meta a))
                 (isES6Module (meta a)) (isCommonJS (meta a))
                 (resolveExportsBailedOut (meta a))).
Definition set_exportsIdentifier (a : Asset) (x : string) : Asset :=
  with_meta a (mkMeta (meta_id (meta a)) (Some x)
                 (isES6Module (meta a)) (isCommonJS (meta a))
                 (resolveExportsBailedOut (meta a))).

(** [asset.symbols.set(name, local)] *)
Definition asset_symbols_set (a : Asset) (name loc : string) : Result Asset :=
  let* t := symbols_set (symbols a) name loc false in Ok (with_symbols a t).

(** [path.basename] of Node, for paths written with [/]: the last part of
    the path that is not empty, slashes at the end being dropped.  [last]
    is the last part read in full, [cur] the part being read. *)
Fixpoint basename_from (s last cur : string) : string :=
  match s with
  | EmptyString => if String.eqb cur "" then last else cur
  | String c r =>
      if Ascii.eqb c "/"
      then basename_from r (if String.eqb cur "" then last else cur) ""
      else basename_from r last (cur +:+ String c "")
  end.
Definition basename (s : string) : string := basename_from s "" "".

(** Modelled from the spec: [asset.addDependency({moduleSpecifier, symbols})]
    belongs to the bundler core, which is not among the sources (section 6
    lists it).  The core derives the id of the new dependency by hashing the
    id of the asset and the specifier; the model keeps the two unhashed.  An
    asset holds one dependency for each id: when it has one with the id of
    the new dependency, the core merges the new one into it
    ([mergeDependencies]): the fields of the new dependency other than
    [meta] and [symbols] are assigned to the old one, the keys of the new
    [meta] (there are none here) are assigned to the old [meta], and each
    symbol of the new dependency is set in the table of the old one, if it
    has a table. *)
Definition merge_symbols (old new : SymbolTable) : SymbolTable :=
  match old, new with
  | Some mo, Some mn => Some (mn ∪ mo)
  | _, _ => old
  end.

Definition mergeDependencies (old new : Dependency) : Dependency :=
  mkDependency (dep_id new) (moduleSpecifier new) (isAsync new) (dep_meta old)
    (merge_symbols (dep_symbols old) (dep_symbols new)).

Fixpoint add_or_merge (ds : list Dependency) (d : Dependency)
  : list Dependency :=
  match ds with
  | [] => [d]
  | x :: r =>
      if String.eqb (dep_id x) (dep_id d) then mergeDependencies x d :: r
      else x :: add_or_merge r d
  end.

Definition addDependency (a : Asset) (specifier : string)
    (syms : gmap string Symbol) : Asset :=
  with_dependencies a
    (add_or_merge (dependencies a)
       (mkDependency (asset_id a +:+ ":" +:+ specifier) specifier false
          (mkDependencyMeta false false false) (Some syms))).

(** [asset.getDependencies().find(dep => dep.moduleSpecifier === source)],
    as the index of the dependency found. *)
Fixpoint find_dependency_from (i : nat) (ds : list Dependency)
    (source : string) : option (nat * Dependency) :=
  match ds with
  | [] => None
  | d :: r =>
      if String.eqb (moduleSpecifier d) source then Some (i, d)
      else find_dependency_from (S i) r source
  end.
Definition find_dependency (a : Asset) (source : string)
  : option (nat * Dependency) :=
  find_dependency_from 0 (dependencies a) source.

(** ** Names ([./utils])

    [t.toIdentifier] of [@babel/types]: every character that is not a
    letter, a digit, [$] or [_] becomes a dash; dashes and digits at the
    start are dropped; each run of dashes is dropped and the character after
    it is put in upper case; a result that is not a valid identifier (empty,
    or a reserved word) gets [_] in front.  Strings are taken byte by byte:
    a character outside ASCII becomes a dash like any other character that
    the regular expression [/[^a-zA-Z0-9$_]/] matches. *)
Definition is_identifier_char (c : ascii) : bool :=
  let n := nat_of_ascii c in
  ((48 <=? n) && (n <=? 57)) || ((65 <=? n) && (n <=? 90))
  || ((97 <=? n) && (n <=? 122)) || (n =? 36) || (n =? 95).

Definition is_digit (c : ascii) : bool :=
  let n := nat_of_ascii c in (48 <=? n) && (n <=? 57).

Definition is_dash (c : ascii) : bool := Ascii.eqb c "-".

(** [name.replace(/[^a-zA-Z0-9$_]/g, "-")] *)
Fixpoint dashed (s : string) : string :=
  match s with
  | EmptyString => EmptyString
  | String c r => String (if is_identifier_char c then c else "-"%char) (dashed r)
  end.

(** [name.replace(/^[-0-9]+/, "")] *)
Fixpoint strip_leading (s : string) : string :=
  match s with
  | EmptyString => EmptyString
  | String c r => if is_dash c || is_digit c then strip_leading r else s
  end.

(** [c.toUpperCase()] on a character of [a-zA-Z0-9$_]. *)
Definition upper (c : ascii) : ascii :=
  let n := nat_of_ascii c in
  if (97 <=? n) && (n <=? 122) then ascii_of_nat (n - 32) else c.

(** [name.replace(/[-\s]+(.)?/g, (match, c) => c ? c.toUpperCase() : "")];
    [after_dash] tells that the characters just before were dashes. *)
Fixpoint camel_case (after_dash : bool) (s : string) : string :=
  match s with
  | EmptyString => EmptyString
  | String c r =>
      if is_dash c then camel_case true r
      else String (if after_dash then upper c else c) (camel_case false r)
  end.

(** The words [isValidIdentifier] refuses: the keywords, the words reserved
    in strict mode, [enum] and [await]. *)
Definition reserved_words : list string :=
  ["break"; "case"; "catch"; "continue"; "debugger"; "default"; "do"; "else";
   "finally"; "for"; "function"; "if"; "return"; "switch"; "throw"; "try";
   "var"; "const"; "while"; "with"; "new"; "this"; "super"; "class";
   "extends"; "export"; "import"; "null"; "true"; "false"; "in";
   "instanceof"; "typeof"; "void"; "delete";
   "implements"; "interface"; "let"; "package"; "private"; "protected";
   "public"; "static"; "yield"; "enum"; "await"].

Definition toIdentifier (s : string) : string :=
  let name := camel_case false (strip_leading (dashed s)) in
  if String.eqb name "" || existsb (String.eqb name) reserved_words
  then "_" +:+ name
  else name.

(** Modelled from the spec: [getName], [getIdentifier] and
    [getExportIdentifier] of [./utils] are not among the sources.  Section
    4.2 of the specification gives the scheme: [$<asset.id>$<type>] followed
    by [$<part>] for each further part, the parts being identifier-encoded
    (with [t.toIdentifier]; the part ['default'] is kept as it is, else the
    name of the default export would read [$<id>$export$_default]).  The id
    of the asset is taken to be identifier-shaped already, so that the
    encoding leaves it as it is. *)
Definition name_part (r : string) : string :=
  if String.eqb r "default" then r else toIdentifier r.

Definition getName (a : Asset) (type : string) (rest : list string) : string :=
  "$" +:+ asset_id a +:+ "$" +:+ type
  +:+ fold_right (fun r acc => "$" +:+ name_part r +:+ acc) "" rest.

Definition getIdentifier (a : Asset) (type : string) (rest : list string)
  : node :=
  Identifier (getName a type rest).

Definition getExportIdentifier (a : Asset) (name : string) : node :=
  getIdentifier a "export" [name].

Definition node_name (n : node) : string :=
  match n with Identifier x => x | _ => "" end.

(** ** Reading and replacing a node at a path *)

Definition get_child (n : node) (k : Key) : option node :=
  match n, k with
  | Program ds _, K_directives i => ds !! i
  | Program _ b, K_body i => b !! i
  | Directive v, K_value => Some v
  | ObjectExpression ps, K_properties i => ps !! i
  | ObjectPattern ps, K_properties i => ps !! i
  | ObjectProperty k' _ _, K_key => Some k'
  | ObjectProperty _ v _, K_value => Some v
  | RestElement a, K_argument => Some a
  | MemberExpression o _ _, K_object => Some o
  | MemberExpression _ p _, K_property => Some p
  | CallExpression c _, K_callee => Some c
  | CallExpression _ args, K_arguments i => args !! i
  | AssignmentExpression _ l _, K_left => Some l
  | AssignmentExpression _ _ r, K_right => Some r
  | UnaryExpression _ a, K_argument => Some a
  | AwaitExpression a, K_argument => Some a
  | ConditionalExpression t _ _, K_test => Some t
  | ConditionalExpression _ c _, K_consequent => Some c
  | ConditionalExpression _ _ a, K_alternate => Some a
  | LogicalExpression _ l _, K_left => Some l
  | LogicalExpression _ _ r, K_right => Some r
  | FunctionExpression i _ _, K_id => i
  | FunctionExpression _ ps _, K_params i => ps !! i
  | FunctionExpression _ _ b, K_fbody => Some b
  | ArrowFunctionExpression ps _, K_params i => ps !! i
  | ArrowFunctionExpression _ b, K_fbody => Some b
  | ExpressionStatement e, K_expression => Some e
  | VariableDeclaration _ ds, K_declarations i => ds !! i
  | VariableDeclarator i _, K_id => Some i
  | VariableDeclarator _ init, K_init => init
  | ReturnStatement a, K_argument => a
  | FunctionDeclaration i _ _, K_id => Some i
  | FunctionDeclaration _ ps _, K_params i => ps !! i
  | FunctionDeclaration _ _ b, K_fbody => Some b
  | BlockStatement ds _, K_directives i => ds !! i
  | BlockStatement _ b, K_body i => b !! i
  | IfStatement t _ _, K_test => Some t
  | IfStatement _ c _, K_consequent => Some c
  | IfStatement _ _ a, K_alternate => a
  | ImportDeclaration ss _, K_specifiers i => ss !! i
  | ImportDeclaration _ s, K_source => Some s
  | ImportSpecifier l _, K_local => Some l
  | ImportSpecifier _ i, K_imported => Some i
  | ImportDefaultSpecifier l, K_local => Some l
  | ImportNamespaceSpecifier l, K_local => Some l
  | ExportNamedDeclaration d _ _, K_declaration => d
  | ExportNamedDeclaration _ ss _, K_specifiers i => ss !! i
  | ExportNamedDeclaration _ _ s, K_source => s
  | ExportSpecifier l _, K_local => Some l
  | ExportSpecifier _ e, K_exported => Some e
  | ExportDefaultDeclaration d, K_declaration => Some d
  | ExportAllDeclaration s, K_source => Some s
  | _, _ => None
  end.

Definition set_child (n : node) (k : Key) (x : node) : node :=
  match n, k with
  | Program ds b, K_directives i => Program (<[i := x]> ds) b
  | Program ds b, K_body i => Program ds (<[i := x]> b)
  | Directive _, K_value => Directive x
  | ObjectExpression ps, K_properties i => ObjectExpression (<[i := x]> ps)
  | ObjectPattern ps, K_properties i => ObjectPattern (<[i := x]> ps)
  | ObjectProperty _ v c, K_key => ObjectProperty x v c
  | ObjectProperty k' _ c, K_value => ObjectProperty k' x c
  | RestElement _, K_argument => RestElement x
  | MemberExpression _ p c, K_object => MemberExpression x p c
  | MemberExpression o _ c, K_property => MemberExpression o x c
  | CallExpression _ args, K_callee => CallExpression x args
  | CallExpression c args, K_arguments i => CallExpression c (<[i := x]> args)
  | AssignmentExpression op _ r, K_left => AssignmentExpression op x r
  | AssignmentExpression op l _, K_right => AssignmentExpression op l x
  | UnaryExpression op _, K_argument => UnaryExpression op x
  | AwaitExpression _, K_argument => AwaitExpression x
  | ConditionalExpression _ c a, K_test => ConditionalExpression x c a
  | ConditionalExpression t _ a, K_consequent => ConditionalExpression t x a
  | ConditionalExpression t c _, K_alternate => ConditionalExpression t c x
  | LogicalExpression op _ r, K_left => LogicalExpression op x r
  | LogicalExpression op l _, K_right => LogicalExpression op l x
  | FunctionExpression (Some _) ps b, K_id => FunctionExpression (Some x) ps b
  | FunctionExpression i ps b, K_params j =>
      FunctionExpression i (<[j := x]> ps) b
  | FunctionExpression i ps _, K_fbody => FunctionExpression i ps x
  | ArrowFunctionExpression ps b, K_params j =>
      ArrowFunctionExpression (<[j := x]> ps) b
  | ArrowFunctionExpression ps _, K_fbody => ArrowFunctionExpression ps x
  | ExpressionStatement _, K_expression => ExpressionStatement x
  | VariableDeclaration kd ds, K_declarations i =>
      VariableDeclaration kd (<[i := x]> ds)
  | VariableDeclarator _ init, K_id => VariableDeclarator x init
  | VariableDeclarator i (Some _), K_init => VariableDeclarator i (Some x)
  | ReturnStatement (Some _), K_argument => ReturnStatement (Some x)
  | FunctionDeclaration _ ps b, K_id => FunctionDeclaration x ps b
  | FunctionDeclaration i ps b, K_params j =>
      FunctionDeclaration i (<[j := x]> ps) b
  | FunctionDeclaration i ps _, K_fbody => FunctionDeclaration i ps x
  | BlockStatement ds b, K_directives i => BlockStatement (<[i := x]> ds) b
  | BlockStatement ds b, K_body i => BlockStatement ds (<[i := x]> b)
  | IfStatement _ c a, K_test => IfStatement x c a
  | IfStatement t _ a, K_consequent => IfStatement t x a
  | IfStatement t c (Some _), K_alternate => IfStatement t c (Some x)
  | ImportDeclaration ss s, K_specifiers i => ImportDeclaration (<[i := x]> ss) s
  | ImportDeclaration ss _, K_source => ImportDeclaration ss x
  | ImportSpecifier _ i, K_local => ImportSpecifier x i
  | ImportSpecifier l _, K_imported => ImportSpecifier l x
  | ImportDefaultSpecifier _, K_local => ImportDefaultSpecifier x
  | ImportNamespaceSpecifier _, K_local => ImportNamespaceSpecifier x
  | ExportNamedDeclaration (Some _) ss s, K_declaration =>
      ExportNamedDeclaration (Some x) ss s
  | ExportNamedDeclaration d ss s, K_specifiers i =>
      ExportNamedDeclaration d (<[i := x]> ss) s
  | ExportNamedDeclaration d ss (Some _), K_source =>
      ExportNamedDeclaration d ss (Some x)
  | ExportSpecifier _ e, K_local => ExportSpecifier x e
  | ExportSpecifier l _, K_exported => ExportSpecifier l x
  | ExportDefaultDeclaration _, K_declaration => ExportDefaultDeclaration x
  | ExportAllDeclaration _, K_source => ExportAllDeclaration x
  | _, _ => n
  end.

(** The keys that lead from the root to a path, outermost first. *)
Fixpoint position_from (p : NodePath) (acc : list Key) : list Key :=
  match p with
  | mkPath _ _ None => acc
  | mkPath _ k (Some pp) => position_from pp (k :: acc)
  end.
Definition position (p : NodePath) : list Key := position_from p [].

Fixpoint get_at (root : node) (pos : list Key) : option node :=
  match pos with
  | [] => Some root
  | k :: pos' =>
      match get_child root k with
      | Some c => get_at c pos'
      | None => None
      end
  end.

(** [path.replaceWith(x)] seen from the root of the tree. *)
Fixpoint replace_at (root : node) (pos : list Key) (x : node) : node :=
  match pos with
  | [] => x
  | k :: pos' =>
      match get_child root k with
      | Some c => set_child root k (replace_at c pos' x)
      | None => root
      end
  end.

(** ** Field accessors on nodes that may lack the field *)

Definition node_computed (n : node) : bool :=
  match n with
  | MemberExpression _ _ c | ObjectProperty _ _ c => c
  | _ => false
  end.
Definition node_operator (n : node) : string :=
  match n with
  | UnaryExpression op _ | AssignmentExpression op _ _
  | LogicalExpression op _ _ => op
  | _ => ""
  end.
Definition node_property (n : node) : option node :=
  match n with MemberExpression _ p _ => Some p | _ => None end.
Definition property_isIdentifier (n : node) : bool :=
  from_option isIdentifier false (node_property n).
Definition property_isStringLiteral (n : node) : bool :=
  from_option isStringLiteral false (node_property n).

(** [path.scope.getData('shouldWrap')]: only the program scope carries
    data. *)
Definition getData_shouldWrap (sc : Scope) : bool := truthy (data_shouldWrap sc).
Definition getData_cjsExportsReassigned (sc : Scope) : bool :=
  truthy (data_cjsExportsReassigned sc).

(** ** The pre-scan visitor ([Program.enter], lines 113-240) *)

Record PreScan : Type := mkPreScan {
  ps_asset : Asset;
  ps_shouldWrap : bool;             (* [let shouldWrap] *)
  ps_stopped : bool;                (* [path.stop()] was called on the path
                                       being entered *)
  ps_replaced : list NodePath       (* the paths given to [replaceWith],
                                       first one first *)
}.

Definition ps_with_asset (ps : PreScan) (a : Asset) : PreScan :=
  mkPreScan a (ps_shouldWrap ps) (ps_stopped ps) (ps_replaced ps).

(** [asset.meta.isCommonJS = true; shouldWrap = true; path.stop();] *)
Definition ps_wrap_and_stop (ps : PreScan) : PreScan :=
  mkPreScan (set_isCommonJS (ps_asset ps) true) true true (ps_replaced ps).

(** [return module.exports;] *)
Definition return_module_exports : node :=
  ReturnStatement
    (Some (MemberExpression (Identifier "module") (Identifier "exports") false)).

(** The self-dependency added when resolving the exports is given up. *)
Definition bail_out (a : Asset) : Asset :=
  addDependency (set_resolveExportsBailedOut a true)
    ("./" +:+ basename (filePath a))
    {[ "*" := mkSymbol "@exports" false ]}.

(** The contexts in which [exports] or [module.exports] stays resolvable:
    [isAssignmentExpression(parent, {left: node}) ||
     (isMemberExpression(parent) &&
       ((isIdentifier(parent.property) && !parent.computed) ||
        isStringLiteral(parent.property))) ||
     path.scope.getData('shouldWrap')]. *)
Definition exports_safe (sc : Scope) (p : NodePath) (parent : node) : bool :=
  (isAssignmentExpression parent && key_is (path_key p) K_left)
  || (isMemberExpression parent
      && ((property_isIdentifier parent && negb (node_computed parent))
          || property_isStringLiteral parent))
  || getData_shouldWrap sc.

Definition prescan_ImportDeclaration (ps : PreScan) : PreScan :=
  ps_with_asset ps (set_isES6Module (ps_asset ps) true).

Definition prescan_ExportDeclaration (ps : PreScan) : PreScan :=
  ps_with_asset ps (set_isES6Module (ps_asset ps) true).

Definition prescan_CallExpression (sc : Scope) (p : NodePath) (ps : PreScan)
  : PreScan :=
  match path_node p with
  | CallExpression callee _ =>
      if isIdentifier callee
         && String.eqb (node_name callee) "eval"
         && negb (hasBinding sc p "eval" true)
      then ps_wrap_and_stop ps
      else ps
  | _ => ps
  end.

Definition prescan_ReturnStatement (p : NodePath) (ps : PreScan) : PreScan :=
  match getFunctionParent p with
  | None =>
      mkPreScan (set_isCommonJS (ps_asset ps) true) true true
        (ps_replaced ps ++ [p])
  | Some _ => ps
  end.

Definition prescan_ReferencedIdentifier (sc : Scope) (p : NodePath)
    (ps : PreScan) : PreScan :=
  match path_parent p with
  | None => ps
  | Some parent =>
      let name := node_name (path_node p) in
      let ps1 :=
        if String.eqb name "module"
           && (negb (isMemberExpression parent) || node_computed parent)
           && negb (isUnaryExpression parent
                    && String.eqb (node_operator parent) "typeof")
           && negb (hasBinding sc p "module" false)
           && negb (getData_shouldWrap sc)
        then ps_wrap_and_stop ps
        else ps in
      if String.eqb name "exports" && negb (hasBinding sc p "exports" false)
      then
        let a := set_isCommonJS (ps_asset ps1) true in
        if negb (exports_safe sc p parent)
        then ps_with_asset ps1 (bail_out a)
        else ps_with_asset ps1 a
      else ps1
  end.

Definition prescan_MemberExpression (sc : Scope) (p : NodePath) (ps : PreScan)
  : PreScan :=
  match path_parent p with
  | None => ps
  | Some parent =>
      if matchesPattern (path_node p) ["module"; "exports"]
         && negb (hasBinding sc p "module" false)
      then
        let a := set_isCommonJS (ps_asset ps) true in
        if negb (exports_safe sc p parent)
        then ps_with_asset ps (bail_out a)
        else ps_with_asset ps a
      else ps
  end.

(** The handler Babel calls on entering a path, chosen by node type. *)
Definition prescan_visit (sc : Scope) (p : NodePath) (ps : PreScan) : PreScan :=
  match path_node p with
  | ImportDeclaration _ _ => prescan_ImportDeclaration ps
  | ExportNamedDeclaration _ _ _ | ExportDefaultDeclaration _
  | ExportAllDeclaration _ => prescan_ExportDeclaration ps
  | CallExpression _ _ => prescan_CallExpression sc p ps
  | ReturnStatement _ => prescan_ReturnStatement p ps
  | Identifier _ =>
      if isReferencedIdentifier p then prescan_ReferencedIdentifier sc p ps
      else ps
  | MemberExpression _ _ _ => prescan_MemberExpression sc p ps
  | _ => ps
  end.

(** ** The traversal of the pre-scan ([path.traverse], line 120)

    [path.stop()] sets [shouldStop] on the path it is called on.  With the
    [@babel/traverse] the repository depends on (7.x before 7.18), [visit()]
    of that path then returns true without entering its children, the loop
    over the list the path is in ends, and [traverse.node] of its parent
    returns without looking at the fields that are left.  The flag is the
    path's own: [visit()] of the parent returns the parent's [shouldStop],
    which is false, so the traversal goes on with whatever follows the
    parent.  What a call of [path.stop()] cuts off is therefore everything
    that is left below the parent of the path; the paths outside the parent
    are still entered.  A path is entered with its flags down
    ([setContext]). *)

(** [pre] leads to [pos], or to a path above it. *)
Fixpoint starts_with (pre pos : list Key) : bool :=
  match pre, pos with
  | [], _ => true
  | _ :: _, [] => false
  | k :: pre', k' :: pos' => bool_decide (k = k') && starts_with pre' pos'
  end.

(** The position of [path.parentPath]. *)
Definition parent_position (p : NodePath) : list Key :=
  match path_parentPath p with
  | Some q => position q
  | None => []
  end.

(** [p] lies below a path whose visit was ended. *)
Definition skipped (ended : list (list Key)) (p : NodePath) : bool :=
  existsb (fun pos => starts_with pos (position p)) ended.

Definition ps_enter (ps : PreScan) : PreScan :=
  mkPreScan (ps_asset ps) (ps_shouldWrap ps) false (ps_replaced ps).

(** Entering one path. *)
Definition prescan_enter (sc : Scope) (ps : PreScan) (p : NodePath) : PreScan :=
  prescan_visit sc p (ps_enter ps).

Record Traversal : Type := mkTraversal {
  tr_scan : PreScan;
  tr_ended : list (list Key)        (* the paths whose visit a stop ended *)
}.

Definition prescan_step (sc : Scope) (t : Traversal) (p : NodePath)
  : Traversal :=
  if skipped (tr_ended t) p then t
  else
    let ps := prescan_enter sc (tr_scan t) p in
    mkTraversal ps
      (if ps_stopped ps then tr_ended t ++ [parent_position p]
       else tr_ended t).

Definition prescan_over (sc : Scope) (t : Traversal) (l : list NodePath)
  : Traversal :=
  fold_left (prescan_step sc) l t.

Definition prescan (sc : Scope) (a : Asset) (ast : node) : PreScan :=
  tr_scan (prescan_over sc (mkTraversal (mkPreScan a false false []) [])
             (program_paths ast)).

(** [path.replaceWith(x)] on each path of a list, first one first. *)
Definition replace_each (x : node) (l : list NodePath) (root : node) : node :=
  fold_left (fun t p => replace_at t (position p) x) l root.

(** The tree after the pre-scan: each [replaceWith] applied, in the order
    of the calls. *)
Definition prescan_ast (ast : node) (ps : PreScan) : node :=
  replace_each return_module_exports (ps_replaced ps) ast.

(** ** [scope.crawl()] on the program scope *)

Definition assigned_names (n : node) : list string :=
  match n with
  | AssignmentExpression _ l _ => pattern_names l
  | _ => []
  end.

(** Names referenced or assigned without a binding in scope. *)
Definition free_names (sc : Scope) (ast : node) : list string :=
  flat_map (fun p =>
    let used :=
      (if isReferencedIdentifier p then [node_name (path_node p)] else [])
      ++ assigned_names (path_node p) in
    List.filter (fun x => negb (scope_chain_has sc p x)) used)
    (program_paths ast).

(** Bindings and free names are rebuilt, data is reset; the declaration
    that collects pushed variables stays where it is. *)
Definition crawl (ast : node) (old : Scope) : Scope :=
  let sc := mkScope (program_bindings ast) [] None None (pushed old) in
  mkScope (bindings sc) (free_names sc ast) None None (pushed old).

Definition empty_scope : Scope := mkScope [] [] None None [].

Definition setData_shouldWrap (sc : Scope) (b : bool) : Scope :=
  mkScope (bindings sc) (globals sc) (Some b) (data_cjsExportsReassigned sc)
    (pushed sc).
Definition setData_cjsExportsReassigned (sc : Scope) (b : bool) : Scope :=
  mkScope (bindings sc) (globals sc) (data_shouldWrap sc) (Some b) (pushed sc).

(** ** [Program.enter] (lines 105-250) *)

Record State : Type := mkState {
  st_asset : Asset;
  st_scope : Scope;
  st_ast : node
}.

Definition enter_asset (a : Asset) : Asset :=
  let a1 := with_symbols a (symbols_ensure (symbols a)) in
  let a2 := set_meta_id a1 (asset_id a1) in
  set_exportsIdentifier a2 (getName a2 "exports" []).

Definition Program_enter (a : Asset) (ast : node) : Result State :=
  let a0 := enter_asset a in
  let sc := crawl ast empty_scope in
  let ps := prescan sc a0 ast in
  let* a1 := (if negb (isCommonJS (meta (ps_asset ps)))
           && negb (isES6Module (meta (ps_asset ps)))
        then asset_symbols_set (set_isCommonJS (ps_asset ps) true) "*"
               (getName (ps_asset ps) "exports" [])
        else Ok (ps_asset ps)) in
  Ok (mkState a1
        (setData_cjsExportsReassigned
           (setData_shouldWrap sc (ps_shouldWrap ps)) false)
        (prescan_ast ast ps)).

(** ** What makes the pre-scan wrap *)

(** A reference to [module] that no binding in scope captures. *)
Definition free_module_reference (sc : Scope) (p : NodePath) : bool :=
  isReferencedIdentifier p
  && String.eqb (node_name (path_node p)) "module"
  && negb (hasBinding sc p "module" false).

(** The parent is [typeof module]. *)
Definition parent_is_typeof (p : NodePath) : bool :=
  match path_parent p with
  | Some parent =>
      isUnaryExpression parent && String.eqb (node_operator parent) "typeof"
  | None => false
  end.

(** The parent is a member access written with a dot: [module.<id>]. *)
Definition parent_is_dot_access (p : NodePath) : bool :=
  match path_parent p with
  | Some parent => isMemberExpression parent && negb (node_computed parent)
  | None => false
  end.

(** The parent is a static member access in the sense of the
    specification: [module.<id>] or [module["id"]]. *)
Definition parent_is_static_access (p : NodePath) : bool :=
  match path_parent p with
  | Some parent =>
      isMemberExpression parent
      && key_is (path_key p) K_object
      && ((property_isIdentifier parent && negb (node_computed parent))
          || property_isStringLiteral parent)
  | None => false
  end.

(** A return statement with no enclosing function. *)
Definition toplevel_return (p : NodePath) : bool :=
  match path_node p with
  | ReturnStatement _ =>
      match getFunctionParent p with None => true | Some _ => false end
  | _ => false
  end.

(** A call to [eval] with no local binding for [eval]. *)
Definition free_eval_call (sc : Scope) (p : NodePath) : bool :=
  match path_node p with
  | CallExpression callee _ =>
      isIdentifierNamed callee "eval" && negb (hasBinding sc p "eval" true)
  | _ => false
  end.

(** The nodes on which the pre-scan decides to wrap. *)
Definition wrap_trigger (sc : Scope) (p : NodePath) : bool :=
  (free_module_reference sc p
   && negb (parent_is_typeof p) && negb (parent_is_dot_access p))
  || toplevel_return p
  || free_eval_call sc p.

(** The same, with the exception for member accesses as the specification
    words it. *)
Definition wrap_trigger_spec (sc : Scope) (p : NodePath) : bool :=
  (free_module_reference sc p
   && negb (parent_is_typeof p) && negb (parent_is_static_access p))
  || toplevel_return p
  || free_eval_call sc p.

(** ** Sample inputs *)

Definition sample_asset : Asset :=
  mkAsset "a1b2" "/src/index.js" true false
    (mkMeta None None false false false) None [].

(** [module["id"];] *)
Definition sample_module_string_access : node :=
  Program []
    [ExpressionStatement
       (MemberExpression (Identifier "module") (StringLiteral "id") true)].

(** [f(1);] *)
Definition sample_plain_call : node :=
  Program []
    [ExpressionStatement (CallExpression (Identifier "f") [NumericLiteral 1])].

(** [return 1; return 2;] *)
Definition sample_two_returns : node :=
  Program []
    [ReturnStatement (Some (NumericLiteral 1));
     ReturnStatement (Some (NumericLiteral 2))].

(** [if (c) { return 1; } export default 3; return 2;] *)
Definition sample_nested_return : node :=
  Program []
    [IfStatement (Identifier "c")
       (BlockStatement [] [ReturnStatement (Some (NumericLiteral 1))]) None;
     ExportDefaultDeclaration (NumericLiteral 3);
     ReturnStatement (Some (NumericLiteral 2))].

(** [if (c) { return 1; } export default 3;] *)
Definition sample_export_after_return : node :=
  Program []
    [IfStatement (Identifier "c")
       (BlockStatement [] [ReturnStatement (Some (NumericLiteral 1))]) None;
     ExportDefaultDeclaration (NumericLiteral 3)].

(** ** The main visitor ([VISITOR], lines 309-672)

    A handler reads the asset and the program scope and may write to both;
    what it does to the tree is returned as an edit of the node it was
    called on. *)

Record HState : Type := mkH {
  h_asset : Asset;
  h_scope : Scope
}.

Definition h_with_asset (st : HState) (a : Asset) : HState :=
  mkH a (h_scope st).
Definition h_with_scope (st : HState) (sc : Scope) : HState :=
  mkH (h_asset st) sc.

(** [programParent.addGlobal(id)] *)
Definition addGlobal (sc : Scope) (x : string) : Scope :=
  mkScope (bindings sc) (x :: globals sc) (data_shouldWrap sc)
    (data_cjsExportsReassigned sc) (pushed sc).

(** [scope.registerDeclaration(decl)] on the program scope. *)
Definition registerDeclaration (sc : Scope) (names : list string) : Scope :=
  mkScope (bindings sc ++ names) (globals sc) (data_shouldWrap sc)
    (data_cjsExportsReassigned sc) (pushed sc).

(** [programParent.push({id, init})]: one more declarator in the [var]
    declaration Babel keeps at the top of the program, and one more
    binding. *)
Definition scope_push (sc : Scope) (i : node) (init : option node) : Scope :=
  mkScope (bindings sc ++ pattern_names i) (globals sc) (data_shouldWrap sc)
    (data_cjsExportsReassigned sc) (pushed sc ++ [VariableDeclarator i init]).

(** [scope.hasBinding(name)] asked of the program scope itself. *)
Definition program_hasBinding (sc : Scope) (x : string) : bool :=
  name_in x (bindings sc)
  || name_in x Scope_globals || name_in x Scope_contextVariables.

(** [scope.hasGlobal(name)] *)
Definition hasGlobal (sc : Scope) (x : string) : bool :=
  name_in x (globals sc).

(** [getExportsIdentifier(asset, scope)] (lines 1030-1041) *)
Definition getExportsIdentifier (p : NodePath) (st : HState) : HState * node :=
  if getData_shouldWrap (h_scope st) then (st, Identifier "exports")
  else
    let i := getIdentifier (h_asset st) "exports" [] in
    if negb (hasBinding (h_scope st) p (node_name i) false)
    then (h_with_scope st (addGlobal (h_scope st) (node_name i)), i)
    else (st, i).

(** [getCJSExportsIdentifier(asset, scope)] (lines 1043-1056) *)
Definition getCJSExportsIdentifier (p : NodePath) (st : HState)
  : HState * node :=
  if getData_shouldWrap (h_scope st) then (st, Identifier "exports")
  else if getData_cjsExportsReassigned (h_scope st) then
    let i := getIdentifier (h_asset st) "cjs_exports" [] in
    if negb (hasBinding (h_scope st) p (node_name i) false)
    then (h_with_scope st (scope_push (h_scope st) i None), i)
    else (st, i)
  else getExportsIdentifier p st.

(** [DirectiveLiteral]: [true] when [path.parentPath.remove()] is called. *)
Definition VISITOR_DirectiveLiteral (p : NodePath) : bool :=
  match path_node p with
  | DirectiveLiteral v => String.eqb v "use strict"
  | _ => false
  end.

(** [MemberExpression] (lines 317-347); [Some n] stands for
    [path.replaceWith(n)]. *)
Definition VISITOR_MemberExpression (p : NodePath) (st : HState)
  : Result (HState * option node) :=
  if hasBinding (h_scope st) p "module" false
     || getData_shouldWrap (h_scope st)
  then Ok (st, None)
  else if matchesPattern (path_node p) ["module"; "exports"] then
    let '(st1, exportsId) := getExportsIdentifier p st in
    let* a := asset_symbols_set (h_asset st1) "*" (node_name exportsId) in
    let st2 := h_with_asset st1 a in
    let st3 :=
      if negb (hasBinding (h_scope st2) p (node_name exportsId) false)
      then h_with_scope st2
             (scope_push (h_scope st2) exportsId (Some (ObjectExpression [])))
      else st2 in
    Ok (st3, Some exportsId)
  else if matchesPattern (path_node p) ["module"; "id"] then
    Ok (st, Some (StringLiteral (asset_id (h_asset st))))
  else if matchesPattern (path_node p) ["module"; "hot"] then
    Ok (st, Some (Identifier "null"))
  else if matchesPattern (path_node p) ["module"; "require"]
          && negb (env_isNode (h_asset st)) then
    Ok (st, Some (Identifier "null"))
  else if matchesPattern (path_node p) ["module"; "bundle"; "root"]
          || matchesPattern (path_node p) ["module"; "bundle"] then
    Ok (st, Some (Identifier "parcelRequire"))
  else Ok (st, None).

(** [ReferencedIdentifier] (lines 349-362) *)
Definition VISITOR_ReferencedIdentifier (p : NodePath) (st : HState)
  : HState * option node :=
  let '(st1, r1) :=
    if String.eqb (node_name (path_node p)) "exports"
       && negb (hasBinding (h_scope st) p "exports" false)
       && negb (getData_shouldWrap (h_scope st))
    then
      let '(st', i) := getCJSExportsIdentifier p st in
      (h_with_asset st' (set_isCommonJS (h_asset st') true), Some i)
    else (st, None) in
  let current := default (path_node p) r1 in
  if String.eqb (node_name current) "global"
     && negb (hasBinding (h_scope st1) p "global" false)
  then (st1, Some (Identifier "$parcel$global"))
  else (st1, r1).

(** The loop of [ThisExpression] over the enclosing scopes: a function that
    is not an arrow function binds [this].  (Class declarations, the other
    case of the loop, are not part of this tree.) *)
Definition binds_this (p : NodePath) : bool :=
  match findParent (fun q => isFunction (path_node q)
                             && negb (isArrowFunctionExpression (path_node q)))
          p with
  | Some _ => true
  | None => false
  end.

(** [ThisExpression] (lines 364-385) *)
Definition VISITOR_ThisExpression (p : NodePath) (st : HState)
  : HState * option node :=
  if negb (getData_shouldWrap (h_scope st)) then
    if binds_this p then (st, None)
    else if isES6Module (meta (h_asset st)) then
      (st, Some (Identifier "undefined"))
    else
      let '(st1, i) := getExportsIdentifier p st in
      (h_with_asset st1 (set_isCommonJS (h_asset st1) true), Some i)
  else (st, None).

(** [TYPEOF] (lines 89-92) *)
Definition TYPEOF (x : string) : option string :=
  if String.eqb x "module" then Some "object"
  else if String.eqb x "require" then Some "function"
  else None.

(** [UnaryExpression] (lines 500-511) *)
Definition VISITOR_UnaryExpression (p : NodePath) (st : HState) : option node :=
  match path_node p with
  | UnaryExpression op arg =>
      if String.eqb op "typeof" && isIdentifier arg then
        match TYPEOF (node_name arg) with
        | Some v =>
            if negb (hasBinding (h_scope st) p (node_name arg) false)
               && negb (getData_shouldWrap (h_scope st))
            then Some (StringLiteral v)
            else None
        | None => None
        end
      else None
  | _ => None
  end.

Definition key_is_index (k : Key) : bool :=
  match k with
  | K_directives _ | K_body _ | K_properties _ | K_arguments _ | K_params _
  | K_declarations _ | K_specifiers _ => true
  | _ => false
  end.

(** [path.getStatementParent()]: the path itself or its nearest ancestor
    that is a statement held in an array; Babel throws when the search ends
    on the program. *)
Definition getStatementParent (p : NodePath) : Result NodePath :=
  match find_from (fun q =>
          match path_parentPath q with
          | None => true
          | Some _ => key_is_index (path_key q) && isStatement (path_node q)
          end) p with
  | Some q => if isProgram (path_node q) then Throw BabelError else Ok q
  | None => Throw BabelError
  end.

(** The scope of a path is the program scope: no function and no block
    between the path and the program. *)
Definition opens_scope (q : NodePath) : bool :=
  match path_node q with
  | Program _ _ => true
  | BlockStatement _ _ =>
      match path_parent q with
      | Some parent => negb (isFunction parent)
      | None => true
      end
  | n => isFunction n
  end.

Definition path_scope_is_program (p : NodePath) : bool :=
  match find_from opens_scope p with
  | Some q => isProgram (path_node q)
  | None => false
  end.

Definition node_value (n : node) : string :=
  match n with StringLiteral v | DirectiveLiteral v => v | _ => "" end.

(** What [AssignmentExpression] does to the tree. *)
Inductive AssignmentEdit : Type :=
| AE_keep
| AE_left (left' : node)
    (* [path.get('left').replaceWith(left')] *)
| AE_export (node' : node) (before : node).
    (* [left.object] and [right] replaced, giving [node'];
       [path.insertBefore(before)] *)

(** [AssignmentExpression] (lines 387-498) *)
Definition VISITOR_AssignmentExpression (p : NodePath) (st : HState)
  : Result (HState * AssignmentEdit) :=
  if getData_shouldWrap (h_scope st) then Ok (st, AE_keep)
  else
    match path_node p with
    | AssignmentExpression op lhs rhs =>
        let '(st1, e1) :=
          if isIdentifier lhs
             && String.eqb (node_name lhs) "exports"
             && negb (hasBinding (h_scope st) p "exports" false)
          then
            let st0 :=
              h_with_scope st (setData_cjsExportsReassigned (h_scope st) true) in
            let '(st', i) := getCJSExportsIdentifier p st0 in
            (h_with_asset st' (set_isCommonJS (h_asset st') true), AE_left i)
          else (st, AE_keep) in
        match lhs with
        | MemberExpression object property computed =>
            if ((isIdentifierNamed object "exports"
                 && negb (hasBinding (h_scope st1) p "exports" false))
                || (matchesPattern object ["module"; "exports"]
                    && negb (hasBinding (h_scope st1) p "module" false)))
               && ((isIdentifier property && negb computed)
                   || isStringLiteral property)
            then
              let name :=
                if isIdentifier property then node_name property
                else node_value property in
              let identifier := getExportIdentifier (h_asset st1) name in
              let '(st2, exportsId) := getExportsIdentifier p st1 in
              let node' :=
                AssignmentExpression op
                  (MemberExpression exportsId property computed) identifier in
              let assign :=
                ExpressionStatement
                  (AssignmentExpression "=" identifier rhs) in
              if negb (program_hasBinding (h_scope st2) (node_name identifier))
              then
                let* a := (if negb (String.eqb name "default")
                        && negb (String.eqb name "*")
                     then asset_symbols_set (h_asset st2) name
                            (node_name identifier)
                     else Ok (h_asset st2)) in
                let st3 := h_with_asset st2 a in
                if path_scope_is_program p then
                  let decl :=
                    VariableDeclaration "var"
                      [VariableDeclarator identifier (Some rhs)] in
                  let st4 :=
                    h_with_scope st3
                      (registerDeclaration (h_scope st3)
                         [node_name identifier]) in
                  Ok (h_with_asset st4 (set_isCommonJS (h_asset st4) true),
                      AE_export node' decl)
                else
                  let st4 :=
                    h_with_scope st3 (scope_push (h_scope st3) identifier None) in
                  Ok (h_with_asset st4 (set_isCommonJS (h_asset st4) true),
                      AE_export node' assign)
              else
                Ok (h_with_asset st2 (set_isCommonJS (h_asset st2) true),
                    AE_export node' assign)
            else Ok (st1, e1)
        | _ => Ok (st1, e1)
        end
    | _ => Ok (st, AE_keep)
    end.

(** A binding as [scope.getBinding] returns it. *)
Record Binding : Type := mkBinding {
  constant : bool;
  referencePaths : list NodePath
}.

(** The two places where [CallExpression] looks a binding up: the scope of
    the body of the callback given to [then], and the scope of the
    declarator that receives the awaited value. *)
Inductive BindingSite : Type := CallbackBody | DeclaratorScope.

Definition with_dep_meta (d : Dependency) (m : DependencyMeta) : Dependency :=
  mkDependency (dep_id d) (moduleSpecifier d) (isAsync d) m (dep_symbols d).
Definition with_dep_symbols (d : Dependency) (t : SymbolTable) : Dependency :=
  mkDependency (dep_id d) (moduleSpecifier d) (isAsync d) (dep_meta d) t.
Definition dep_set_shouldWrap (d : Dependency) : Dependency :=
  with_dep_meta d (mkDependencyMeta true (dm_hasDefaultImport (dep_meta d))
                     (dm_isCommonJS (dep_meta d))).
Definition dep_set_isCommonJS (d : Dependency) : Dependency :=
  with_dep_meta d (mkDependencyMeta (dm_shouldWrap (dep_meta d))
                     (dm_hasDefaultImport (dep_meta d)) true).

(** [dep.symbols.set(name, local)] *)
Definition dep_symbols_set (d : Dependency) (name loc : string)
  : Result Dependency :=
  let* t := symbols_set (dep_symbols d) name loc false in Ok (with_dep_symbols d t).

Definition REQUIRE_CALL_TEMPLATE (ID SOURCE : node) : node :=
  CallExpression (Identifier "$parcel$require") [ID; SOURCE].
Definition REQUIRE_RESOLVE_CALL_TEMPLATE (ID SOURCE : node) : node :=
  CallExpression (Identifier "$parcel$require$resolve") [ID; SOURCE].

(** [properties.every(p => isObjectProperty(p) && isIdentifier(p.key))] *)
Definition property_has_identifier_key (n : node) : bool :=
  match n with
  | ObjectProperty k _ _ => isIdentifier k
  | _ => false
  end.
Definition property_key_name (n : node) : string :=
  match n with
  | ObjectProperty k _ _ => node_name k
  | _ => ""
  end.

(** The test applied to each reference of a namespace binding:
    [isMemberExpression(parent, {object: node}) &&
     ((!parent.computed && isIdentifier(parent.property)) ||
      isStringLiteral(parent.property))]. *)
Definition is_static_member_reference (r : NodePath) : bool :=
  match path_parent r with
  | Some parent =>
      isMemberExpression parent
      && key_is (path_key r) K_object
      && ((negb (node_computed parent) && property_isIdentifier parent)
          || property_isStringLiteral parent)
  | None => false
  end.

(** [parent.property.name ?? parent.property.value] *)
Definition member_reference_name (r : NodePath) : string :=
  match path_parent r ≫= node_property with
  | Some (Identifier x) => x
  | Some (StringLiteral v) => v
  | _ => ""
  end.

(** The condition under which a [require] is not at the top level (lines
    542-550). *)
Definition not_top_level (p : NodePath) : Result bool :=
  let* sp := getStatementParent p in
  Ok (negb (from_option (fun q => isProgram (path_node q)) false
              (path_parentPath sp))
      || match findParent (fun q =>
                 isConditionalExpression (path_node q)
                 || isLogicalExpression (path_node q)
                 || isFunction (path_node q)) p with
         | Some _ => true
         | None => false
         end).

(** The continuation of a dynamic import (lines 560-601): the pattern that
    destructures it, or the binding that holds it. *)
Definition import_continuation
    (getBinding : BindingSite -> string -> Result (option Binding))
    (p : NodePath) : Result (option (list node) * option Binding) :=
  match path_parent p, path_grandparent p with
  | Some parent, Some grandparent =>
      if isMemberExpression parent
         && key_is (path_key p) K_object
         && from_option (fun pr => isIdentifierNamed pr "then") false
              (node_property parent)
         && isCallExpression grandparent
         && from_option (fun k => key_is k K_callee) false (path_parentKey p)
         && match grandparent with
            | CallExpression _ [f] =>
                isFunction f
                && match f with
                   | FunctionExpression _ [_] _ | ArrowFunctionExpression [_] _
                   | FunctionDeclaration _ [_] _ => true
                   | _ => false
                   end
            | _ => false
            end
      then
        match grandparent with
        | CallExpression _ [FunctionExpression _ [param] _]
        | CallExpression _ [ArrowFunctionExpression [param] _]
        | CallExpression _ [FunctionDeclaration _ [param] _] =>
            match param with
            | ObjectPattern props => Ok (Some props, None)
            | Identifier x =>
                let* b := getBinding CallbackBody x in Ok (None, b)
            | _ => Ok (None, None)
            end
        | _ => Ok (None, None)
        end
      else if isAwaitExpression parent
              && key_is (path_key p) K_argument
      then
        match grandparent with
        | VariableDeclarator i _ =>
            if from_option (fun k => key_is k K_init) false (path_parentKey p) then
              match i with
              | ObjectPattern props => Ok (Some props, None)
              | Identifier x =>
                  let* b := getBinding DeclaratorScope x in Ok (None, b)
              | _ => Ok (None, None)
              end
            else Ok (None, None)
        | AssignmentExpression _ (ObjectPattern props) _ =>
            if from_option (fun k => key_is k K_right) false (path_parentKey p)
            then Ok (Some props, None)
            else Ok (None, None)
        | _ => Ok (None, None)
        end
      else Ok (None, None)
  | _, _ => Ok (None, None)
  end.

(** The members read from a dynamic import, when they can be listed (lines
    603-633). *)
Definition member_accesses (sc : Scope) (properties : option (list node))
    (binding : option Binding) : option (list string) :=
  let from_binding :=
    match binding with
    | Some b =>
        if negb (getData_shouldWrap sc) && constant b
           && forallb is_static_member_reference (referencePaths b)
        then Some (map member_reference_name (referencePaths b))
        else None
    | None => None
    end in
  match properties with
  | Some props =>
      if forallb property_has_identifier_key props
      then Some (map property_key_name props)
      else from_binding
  | None => from_binding
  end.

(** The loop of lines 639-645. *)
Fixpoint set_import_symbols (a : Asset) (d : Dependency) (names : list string)
  : Result Dependency :=
  match names with
  | [] => Ok d
  | name :: rest =>
      let* d' := dep_symbols_set d name
             (getName a "importAsync" [dep_id d; name]) in
      set_import_symbols a d' rest
  end.

(** [CallExpression] (lines 513-672) *)
Definition VISITOR_CallExpression
    (getBinding : BindingSite -> string -> Result (option Binding))
    (p : NodePath) (st : HState) : Result (HState * option node) :=
  match path_node p with
  | CallExpression callee [arg] =>
      if negb (isStringLiteral arg)
         || hasBinding (h_scope st) p "require" false
      then Ok (st, None)
      else if isIdentifierNamed callee "require" then
        let source := node_value arg in
        match find_dependency (h_asset st) source with
        | None => Ok (st, None)
        | Some (i, dep) =>
            let a1 :=
              if negb (isAsync dep) then set_isCommonJS (h_asset st) true
              else h_asset st in
            let* nested := not_top_level p in
            let dep1 := if nested then dep_set_shouldWrap dep else dep in
            let* accesses :=
              (if isAsync dep1 then
                 let* found := import_continuation getBinding p in
                 Ok (member_accesses (h_scope st) (fst found) (snd found))
               else Ok None) in
            let dep2 :=
              with_dep_symbols dep1 (symbols_ensure (dep_symbols dep1)) in
            let* dep3 :=
              match accesses with
              | Some names => set_import_symbols a1 dep2 names
              | None =>
                  dep_symbols_set (dep_set_isCommonJS dep2) "*"
                    (getName a1 "require" [source])
              end in
            let a2 := with_dependencies a1 (<[i := dep3]> (dependencies a1)) in
            Ok (h_with_asset st a2,
                Some (REQUIRE_CALL_TEMPLATE (StringLiteral (asset_id a2))
                        (StringLiteral (node_value arg))))
        end
      else if matchesPattern callee ["require"; "resolve"] then
        Ok (st,
            Some (REQUIRE_RESOLVE_CALL_TEMPLATE
                    (StringLiteral (asset_id (h_asset st))) arg))
      else Ok (st, None)
  | _ => Ok (st, None)
  end.

(** ** Templates (lines 57-88) *)

Definition WRAPPER_TEMPLATE (NAME : node) (BODY : list node) : node :=
  VariableDeclaration "var"
    [VariableDeclarator NAME
       (Some
          (CallExpression
             (MemberExpression
                (FunctionExpression None []
                   (BlockStatement []
                      ([VariableDeclaration "var"
                          [VariableDeclarator (Identifier "exports")
                             (Some ThisExpression)];
                        VariableDeclaration "var"
                          [VariableDeclarator (Identifier "module")
                             (Some
                                (ObjectExpression
                                   [ObjectProperty (Identifier "exports")
                                      ThisExpression false]))]]
                       ++ BODY
                       ++ [return_module_exports])))
                (Identifier "call") false)
             [ObjectExpression []]))].

Definition ESMODULE_TEMPLATE : node :=
  ExpressionStatement
    (AssignmentExpression "="
       (MemberExpression (Identifier "exports") (Identifier "__esModule") false)
       (BooleanLiteral true)).

(** ** [Program.exit] (lines 252-306)

    While the program is walked the state keeps its body without the [var]
    declaration that collects the pushed variables; [with_pushed] puts that
    declaration back at the top, where Babel has it. *)

Definition with_pushed (sc : Scope) (body : list node) : list node :=
  match pushed sc with
  | [] => body
  | ds => VariableDeclaration "var" ds :: body
  end.

Section Exit.
(** Modelled from the spec: [./renamer] is not among the sources.  It
    renames a binding and every reference to it (section 4.2); the model
    takes it as a function on the statements of the program. *)
Variable rename : string -> string -> list node -> list node.

(** The loop of lines 279-284: the statements and the bindings after it. *)
Definition rename_bindings (a : Asset) (names : list string)
    (body : list node) : list node * list string :=
  fold_left (fun acc name =>
    if String.prefix ("$" +:+ asset_id a) name
    then (fst acc, snd acc ++ [name])
    else
      let newName := getName a "var" [name] in
      (rename name newName (fst acc), snd acc ++ [newName]))
    names (body, []).

Definition Program_exit (st : State) : Result (Asset * node) :=
  let a := st_asset st in
  let sc := st_scope st in
  let exportsIdentifier := getIdentifier a "exports" [] in
  match st_ast st with
  | Program ds body =>
      if getData_shouldWrap sc then
        let body1 := with_pushed sc body in
        let body2 :=
          if isES6Module (meta a) then ESMODULE_TEMPLATE :: body1
          else body1 in
        let* a1 := asset_symbols_set a "*" (node_name exportsIdentifier) in
        Ok (set_isES6Module (set_isCommonJS a1 true) false,
            Program [] [WRAPPER_TEMPLATE exportsIdentifier body2])
      else
        let sc1 := crawl (Program ds (with_pushed sc body)) sc in
        let renamed := rename_bindings a (bindings sc1) body in
        let sc2 :=
          mkScope (snd renamed) (globals sc1) (data_shouldWrap sc1)
            (data_cjsExportsReassigned sc1) (pushed sc1) in
        let sc3 :=
          if hasGlobal sc2 (node_name exportsIdentifier)
             && negb (program_hasBinding sc2 (node_name exportsIdentifier))
          then scope_push sc2 exportsIdentifier (Some (ObjectExpression []))
          else sc2 in
        let* a1 :=
          (if isCommonJS (meta a) then
             let a0 :=
               if resolveExportsBailedOut (meta a)
               then with_symbols a (symbols_delete_all (symbols a))
               else a in
             asset_symbols_set a0 "*" (node_name exportsIdentifier)
           else Ok a) in
        Ok (a1, Program ds (with_pushed sc3 (fst renamed)))
  | _ => Throw BabelError
  end.
End Exit.

(** ** The walk of the main visitor

    A model of [traverse(ast.program, VISITOR, null, asset)] between
    [Program.enter] and [Program.exit].  Each node is entered (its handler
    runs), then its children are walked in the order of [t.VISITOR_KEYS],
    with the state threaded through.

    - A node put in place by [replaceWith] is entered again by Babel; every
      node the handlers produce ([$...] identifiers, string literals, the
      two [$parcel$require] calls) is one on which no handler acts, so the
      walk leaves it as it is.
    - A statement given to [insertBefore] joins the end of the queue of the
      statement list it lands in: it is entered after the statements that
      were already queued.  The walk keeps it as a [Pending] computation and
      runs it when the list is done.
    - [scope.getBinding] needs the reference paths collected by the crawl;
      the walk does not model them and fails with [Unmodelled] when a
      handler asks.  So do the import and export declarations, whose
      handlers are not part of this development, and [insertBefore] from a
      place that is not a statement of a statement list. *)

Definition no_bindings (site : BindingSite) (x : string)
  : Result (option Binding) :=
  Throw (Unmodelled "scope.getBinding").

(** A statement to be finished at the end of the queue. *)
Record Pending : Type := mkPending {
  finish : HState -> Result (HState * node)
}.

Definition Walked (A : Type) : Type := Result (HState * A * list Pending).

Inductive Item : Type :=
| Stmt (s : node)
| Todo (f : Pending).

Fixpoint finish_items (items : list Item) (st : HState)
  : Result (HState * list node) :=
  match items with
  | [] => Ok (st, [])
  | Stmt s :: r =>
      let* done := finish_items r st in
      Ok (fst done, s :: snd done)
  | Todo f :: r =>
      let* first := finish f st in
      let* done := finish_items r (fst first) in
      Ok (fst done, snd first :: snd done)
  end.

(** [path.parentPath.remove()] from [DirectiveLiteral]. *)
Definition removes_itself (d : node) : bool :=
  match d with
  | Directive v => VISITOR_DirectiveLiteral (mkPath v K_value None)
  | _ => false
  end.

Definition no_pending (w : Walked node) : Result (HState * node) :=
  let* r := w in
  match snd r with
  | [] => Ok (fst r)
  | _ => Throw (Unmodelled "insertBefore")
  end.

(** The children held in an array, entered one after the other by [enter],
    which is given each child and its key. *)
Definition each_child (enter : node -> Key -> HState -> Walked node)
    (mk : nat -> Key) : nat -> list node -> HState -> Walked (list node) :=
  fix go (i : nat) (l : list node) (st : HState) : Walked (list node) :=
    match l with
    | [] => Ok (st, [], [])
    | c :: r =>
        let* r1 := enter c (mk i) st in
        let* r2 := go (S i) r (fst (fst r1)) in
        Ok (fst (fst r2), snd (fst r1) :: snd (fst r2), snd r1 ++ snd r2)
    end.

(** The directives of a program or of a block: ['use strict'] goes. *)
Definition each_directive (enter : node -> Key -> HState -> Walked node)
  : nat -> list node -> HState -> Walked (list node) :=
  fix go (i : nat) (l : list node) (st : HState) : Walked (list node) :=
    match l with
    | [] => Ok (st, [], [])
    | d :: r =>
        if removes_itself d then go (S i) r st
        else
          let* r1 := enter d (K_directives i) st in
          let* r2 := go (S i) r (fst (fst r1)) in
          Ok (fst (fst r2), snd (fst r1) :: snd (fst r2), snd r1 ++ snd r2)
    end.

(** The statements of a program or of a block, each preceded by what it
    inserted before itself. *)
Definition each_statement (enter : node -> Key -> HState -> Walked node)
  : nat -> list node -> HState -> Result (HState * list Item) :=
  fix go (i : nat) (l : list node) (st : HState)
      : Result (HState * list Item) :=
    match l with
    | [] => Ok (st, [])
    | s :: r =>
        let* r1 := enter s (K_body i) st in
        let* r2 := go (S i) r (fst (fst r1)) in
        Ok (fst r2, map Todo (snd r1) ++ Stmt (snd (fst r1)) :: snd r2)
    end.

(** A field that may be absent. *)
Definition optional_child (enter : node -> Key -> HState -> Walked node)
    (o : option node) (kc : Key) (st : HState) : Walked (option node) :=
  match o with
  | Some c =>
      let* r := enter c kc st in
      Ok (fst (fst r), Some (snd (fst r)), snd r)
  | None => Ok (st, None, [])
  end.

(** The statements of a list and then the statements they inserted. *)
Definition statement_list (enter : node -> Key -> HState -> Walked node)
    (l : list node) (st : HState) : Result (HState * list node) :=
  let* r := each_statement enter 0%nat l st in
  finish_items (snd r) (fst r).

Fixpoint walk (n : node) (k : Key) (pp : option NodePath) (st : HState)
    {struct n} : Walked node :=
  let me := mkPath n k pp in
  let sub (parent : node) (c : node) (kc : Key) (st : HState) : Walked node :=
    walk c kc (Some (mkPath parent k pp)) st in
  let subo (parent : node) := optional_child (sub parent) in
  let subs (parent : node) := each_child (sub parent) in
  let dirs (parent : node) := each_directive (sub parent) in
  let block (parent : node) := statement_list (sub parent) in
  match n with
  | Identifier _ =>
      if isReferencedIdentifier me then
        let r := VISITOR_ReferencedIdentifier me st in
        Ok (fst r, default n (snd r), [])
      else Ok (st, n, [])
  | ThisExpression =>
      let r := VISITOR_ThisExpression me st in
      Ok (fst r, default n (snd r), [])
  | MemberExpression o pr c =>
      let* r := VISITOR_MemberExpression me st in
      match snd r with
      | Some n' => Ok (fst r, n', [])
      | None =>
          let* r1 := sub n o K_object (fst r) in
          let* r2 := sub n pr K_property (fst (fst r1)) in
          Ok (fst (fst r2), MemberExpression (snd (fst r1)) (snd (fst r2)) c,
              snd r1 ++ snd r2)
      end
  | UnaryExpression op a =>
      match VISITOR_UnaryExpression me st with
      | Some n' => Ok (st, n', [])
      | None =>
          let* r1 := sub n a K_argument st in
          Ok (fst (fst r1), UnaryExpression op (snd (fst r1)), snd r1)
      end
  | CallExpression c args =>
      let* r := VISITOR_CallExpression no_bindings me st in
      match snd r with
      | Some n' => Ok (fst r, n', [])
      | None =>
          let* r1 := sub n c K_callee (fst r) in
          let* r2 := subs n K_arguments 0%nat args (fst (fst r1)) in
          Ok (fst (fst r2), CallExpression (snd (fst r1)) (snd (fst r2)),
              snd r1 ++ snd r2)
      end
  | AssignmentExpression op l r =>
      let* h := VISITOR_AssignmentExpression me st in
      match snd h with
      | AE_keep =>
          let* r1 := sub n l K_left (fst h) in
          let* r2 := sub n r K_right (fst (fst r1)) in
          Ok (fst (fst r2),
              AssignmentExpression op (snd (fst r1)) (snd (fst r2)),
              snd r1 ++ snd r2)
      | AE_left l' =>
          let* r2 := sub (AssignmentExpression op l' r) r K_right (fst h) in
          Ok (fst (fst r2), AssignmentExpression op l' (snd (fst r2)), snd r2)
      | AE_export node' before =>
          match pp with
          | Some (mkPath (ExpressionStatement _) kp gp) =>
              if key_is_index kp then
                match before with
                | VariableDeclaration kd [VariableDeclarator i (Some _)] =>
                    Ok (fst h, node',
                        [mkPending (fun st' =>
                           let* r' :=
                             no_pending
                               (walk r K_init
                                  (Some (mkPath (VariableDeclarator i (Some r))
                                           (K_declarations 0%nat)
                                           (Some (mkPath before kp gp))))
                                  st') in
                           Ok (fst r',
                               VariableDeclaration kd
                                 [VariableDeclarator i (Some (snd r'))]))])
                | ExpressionStatement (AssignmentExpression o i _) =>
                    Ok (fst h, node',
                        [mkPending (fun st' =>
                           let* r' :=
                             no_pending
                               (walk r K_right
                                  (Some (mkPath (AssignmentExpression o i r)
                                           K_expression
                                           (Some (mkPath before kp gp))))
                                  st') in
                           Ok (fst r',
                               ExpressionStatement
                                 (AssignmentExpression o i (snd r'))))])
                | _ => Throw (Unmodelled "insertBefore")
                end
              else Throw (Unmodelled "insertBefore")
          | _ => Throw (Unmodelled "insertBefore")
          end
      end
  | ExpressionStatement e =>
      let* r1 := sub n e K_expression st in
      match snd r1 with
      | [] => Ok (fst (fst r1), ExpressionStatement (snd (fst r1)), [])
      | pending =>
          if key_is_index k
          then Ok (fst (fst r1), ExpressionStatement (snd (fst r1)), pending)
          else Throw (Unmodelled "insertBefore")
      end
  | BlockStatement ds b =>
      let* r1 := dirs n 0%nat ds st in
      let* r2 := block n b (fst (fst r1)) in
      Ok (fst r2, BlockStatement (snd (fst r1)) (snd r2), snd r1)
  | Directive v =>
      let* r1 := sub n v K_value st in
      Ok (fst (fst r1), Directive (snd (fst r1)), snd r1)
  | DirectiveLiteral v =>
      if VISITOR_DirectiveLiteral me then Throw (Unmodelled "remove")
      else Ok (st, n, [])
  | ObjectExpression ps =>
      let* r1 := subs n K_properties 0%nat ps st in
      Ok (fst (fst r1), ObjectExpression (snd (fst r1)), snd r1)
  | ObjectPattern ps =>
      let* r1 := subs n K_properties 0%nat ps st in
      Ok (fst (fst r1), ObjectPattern (snd (fst r1)), snd r1)
  | ObjectProperty k' v c =>
      let* r1 := sub n k' K_key st in
      let* r2 := sub n v K_value (fst (fst r1)) in
      Ok (fst (fst r2), ObjectProperty (snd (fst r1)) (snd (fst r2)) c,
          snd r1 ++ snd r2)
  | RestElement a =>
      let* r1 := sub n a K_argument st in
      Ok (fst (fst r1), RestElement (snd (fst r1)), snd r1)
  | AwaitExpression a =>
      let* r1 := sub n a K_argument st in
      Ok (fst (fst r1), AwaitExpression (snd (fst r1)), snd r1)
  | ConditionalExpression t c a =>
      let* r1 := sub n t K_test st in
      let* r2 := sub n c K_consequent (fst (fst r1)) in
      let* r3 := sub n a K_alternate (fst (fst r2)) in
      Ok (fst (fst r3),
          ConditionalExpression (snd (fst r1)) (snd (fst r2)) (snd (fst r3)),
          snd r1 ++ snd r2 ++ snd r3)
  | LogicalExpression op l r =>
      let* r1 := sub n l K_left st in
      let* r2 := sub n r K_right (fst (fst r1)) in
      Ok (fst (fst r2), LogicalExpression op (snd (fst r1)) (snd (fst r2)),
          snd r1 ++ snd r2)
  | FunctionExpression i ps b =>
      let* r1 := subo n i K_id st in
      let* r2 := subs n K_params 0%nat ps (fst (fst r1)) in
      let* r3 := sub n b K_fbody (fst (fst r2)) in
      Ok (fst (fst r3),
          FunctionExpression (snd (fst r1)) (snd (fst r2)) (snd (fst r3)),
          snd r1 ++ snd r2 ++ snd r3)
  | ArrowFunctionExpression ps b =>
      let* r2 := subs n K_params 0%nat ps st in
      let* r3 := sub n b K_fbody (fst (fst r2)) in
      Ok (fst (fst r3),
          ArrowFunctionExpression (snd (fst r2)) (snd (fst r3)),
          snd r2 ++ snd r3)
  | FunctionDeclaration i ps b =>
      let* r1 := sub n i K_id st in
      let* r2 := subs n K_params 0%nat ps (fst (fst r1)) in
      let* r3 := sub n b K_fbody (fst (fst r2)) in
      Ok (fst (fst r3),
          FunctionDeclaration (snd (fst r1)) (snd (fst r2)) (snd (fst r3)),
          snd r1 ++ snd r2 ++ snd r3)
  | VariableDeclaration kd ds =>
      let* r1 := subs n K_declarations 0%nat ds st in
      Ok (fst (fst r1), VariableDeclaration kd (snd (fst r1)), snd r1)
  | VariableDeclarator i init =>
      let* r1 := sub n i K_id st in
      let* r2 := subo n init K_init (fst (fst r1)) in
      Ok (fst (fst r2), VariableDeclarator (snd (fst r1)) (snd (fst r2)),
          snd r1 ++ snd r2)
  | ReturnStatement a =>
      let* r1 := subo n a K_argument st in
      Ok (fst (fst r1), ReturnStatement (snd (fst r1)), snd r1)
  | IfStatement t c a =>
      let* r1 := sub n t K_test st in
      let* r2 := sub n c K_consequent (fst (fst r1)) in
      let* r3 := subo n a K_alternate (fst (fst r2)) in
      Ok (fst (fst r3),
          IfStatement (snd (fst r1)) (snd (fst r2)) (snd (fst r3)),
          snd r1 ++ snd r2 ++ snd r3)
  | StringLiteral _ | NumericLiteral _ | BooleanLiteral _ | Import =>
      Ok (st, n, [])
  | Program _ _ => Throw (Unmodelled "nested program")
  | ImportDeclaration _ _ | ImportSpecifier _ _ | ImportDefaultSpecifier _
  | ImportNamespaceSpecifier _ | ExportNamedDeclaration _ _ _
  | ExportSpecifier _ _ | ExportDefaultDeclaration _
  | ExportAllDeclaration _ => Throw (Unmodelled "import and export declarations")
  end.

(** The walk of the children of the program: its directives, then its
    statements, then the statements inserted meanwhile. *)
Definition walk_program (st : State) : Result State :=
  match st_ast st with
  | Program ds b =>
      let enter (c : node) (kc : Key) :=
        walk c kc (Some (mkPath (st_ast st) K_root None)) in
      let* r1 :=
        each_directive enter 0%nat ds (mkH (st_asset st) (st_scope st)) in
      let* r2 := statement_list enter b (fst (fst r1)) in
      Ok (mkState (h_asset (fst r2)) (h_scope (fst r2))
            (Program (snd (fst r1)) (snd r2)))
  | _ => Throw BabelError
  end.

(** ** [hoist] (lines 94-101) *)

Record AST : Type := mkAST {
  ast_type : string;
  ast_version : string;
  ast_program : node
}.

(** How a call of [hoist] ends.  [Hoisted a ast]: it returned, after
    [asset.setAST(ast)], leaving the asset [a] and the tree [ast].
    [UnsupportedAST a ast]: it threw 'Asset does not have a babel AST',
    leaving the asset [a] and the tree [ast].  [Failed e]: the traversal
    threw [e]; what it had written by then is not tracked. *)
Inductive Outcome : Type :=
| Hoisted (a : Asset) (ast : AST)
| UnsupportedAST (a : Asset) (ast : AST)
| Failed (e : Failure).

Section Hoist.
Variable rename : string -> string -> list node -> list node.

(** [traverse(ast.program, VISITOR, null, asset)] *)
Definition traverse_program (a : Asset) (program : node)
  : Result (Asset * node) :=
  let* st := Program_enter a program in
  let* st' := walk_program st in
  Program_exit rename st'.

Definition hoist (a : Asset) (ast : AST) : Outcome :=
  if negb (String.eqb (ast_type ast) "babel")
     || negb (String.eqb (ast_version ast) "7.0.0")
  then UnsupportedAST a ast
  else
    match traverse_program a (ast_program ast) with
    | Ok r => Hoisted (fst r) (mkAST (ast_type ast) (ast_version ast) (snd r))
    | Throw e => Failed e
    end.
End Hoist.

(** ** The steps of the main visitor on the state

    One step is one call of a handler that can write to the asset or to the
    program scope, at any path.  For the import and export handlers (lines
    674-1028) a step is one of their writes: to the symbol table of the
    asset, to the dependencies, or to the program scope. *)
Inductive handler_step : HState -> HState -> Prop :=
| step_MemberExpression p st st' r :
    VISITOR_MemberExpression p st = Ok (st', r) -> handler_step st st'
| step_ReferencedIdentifier p st :
    handler_step st (fst (VISITOR_ReferencedIdentifier p st))
| step_ThisExpression p st :
    handler_step st (fst (VISITOR_ThisExpression p st))
| step_AssignmentExpression p st st' e :
    VISITOR_AssignmentExpression p st = Ok (st', e) -> handler_step st st'
| step_CallExpression getBinding p st st' r :
    VISITOR_CallExpression getBinding p st = Ok (st', r) -> handler_step st st'
(* what the import and export handlers (lines 674-937) write to the asset:
   entries of its symbol table, and the symbol tables and the [meta] of its
   dependencies *)
| step_symbols_set st name loc a' :
    asset_symbols_set (h_asset st) name loc = Ok a' ->
    handler_step st (h_with_asset st a')
| step_dependencies st ds :
    handler_step st (h_with_asset st (with_dependencies (h_asset st) ds))
(* what they write to the program scope: bindings that are registered
   ([registerDeclaration]), renamed ([rename]) or removed ([path.remove()]),
   variables pushed, and the data [hoistedImport]; the data [shouldWrap] is
   written by [Program.enter] alone (line 248) *)
| step_scope st sc' :
    data_shouldWrap sc' = data_shouldWrap (h_scope st) ->
    handler_step st (h_with_scope st sc').

(** The steps of the handlers transcribed above, which are the steps of the
    walk of this development. *)
Inductive visitor_step : HState -> HState -> Prop :=
| visit_MemberExpression p st st' r :
    VISITOR_MemberExpression p st = Ok (st', r) -> visitor_step st st'
| visit_ReferencedIdentifier p st :
    visitor_step st (fst (VISITOR_ReferencedIdentifier p st))
| visit_ThisExpression p st :
    visitor_step st (fst (VISITOR_ThisExpression p st))
| visit_AssignmentExpression p st st' e :
    VISITOR_AssignmentExpression p st = Ok (st', e) -> visitor_step st st'
| visit_CallExpression getBinding p st st' r :
    VISITOR_CallExpression getBinding p st = Ok (st', r) -> visitor_step st st'.

(** ** More sample inputs *)

(** The path of [e] in the program [e;]. *)
Definition statement_expression_path (e : node) : NodePath :=
  mkPath e K_expression
    (Some (mkPath (ExpressionStatement e) (K_body 0%nat)
             (Some (mkPath (Program [] [ExpressionStatement e]) K_root None)))).

(** A state in which the program scope is marked [shouldWrap]. *)
Definition sample_wrapped_state : HState :=
  mkH (enter_asset sample_asset)
    (setData_cjsExportsReassigned (setData_shouldWrap empty_scope true) false).

Definition sample_state : HState :=
  mkH (enter_asset sample_asset)
    (setData_cjsExportsReassigned (setData_shouldWrap empty_scope false) false).

(** [require("./missing")] *)
Definition sample_require_missing : node :=
  CallExpression (Identifier "require") [StringLiteral "./missing"].

(** [require.resolve("./missing")] *)
Definition sample_resolve_missing : node :=
  CallExpression
    (MemberExpression (Identifier "require") (Identifier "resolve") false)
    [StringLiteral "./missing"].

(** [eval("x");] *)
Definition sample_eval : node :=
  Program []
    [ExpressionStatement
       (CallExpression (Identifier "eval") [StringLiteral "x"])].

Definition sample_ast (program : node) : AST := mkAST "babel" "7.0.0" program.

(** The state in which [Program.enter] leaves [eval("x");]. *)
Definition sample_eval_entered : State :=
  match Program_enter sample_asset sample_eval with
  | Ok st => st
  | Throw _ => mkState sample_asset empty_scope sample_eval
  end.

(** [exports.foo = 1;] *)
Definition sample_exports_foo : node :=
  Program []
    [ExpressionStatement
       (AssignmentExpression "="
          (MemberExpression (Identifier "exports") (Identifier "foo") false)
          (NumericLiteral 1))].

(** [let {a, b} = await e;] *)
Definition destructured_await (e : node) : node :=
  Program []
    [VariableDeclaration "let"
       [VariableDeclarator
          (ObjectPattern
             [ObjectProperty (Identifier "a") (Identifier "a") false;
              ObjectProperty (Identifier "b") (Identifier "b") false])
          (Some (AwaitExpression e))]].

(** [import("./m")] as the parser leaves it, and [require("./m")], which
    the dependency pass puts in its place before [hoist] runs (line 535). *)
Definition import_m : node := CallExpression Import [StringLiteral "./m"].
Definition require_m : node :=
  CallExpression (Identifier "require") [StringLiteral "./m"].

(** An asynchronous dependency on ["./m"]. *)
Definition sample_async_dependency : Dependency :=
  mkDependency "d9" "./m" true (mkDependencyMeta false false false) None.

Definition sample_importing_asset : Asset :=
  with_dependencies sample_asset [sample_async_dependency].

(** The same with a dependency whose id starts with a digit, as the hashes
    the core gives for ids mostly do. *)
Definition sample_digit_importing_asset : Asset :=
  with_dependencies sample_asset
    [mkDependency "9d" "./m" true (mkDependencyMeta false false false) None].

(** Some call of the tree has the identifier [callee] as its callee. *)
Definition calls (callee : string) (ast : node) : bool :=
  existsb (fun p =>
    match path_node p with
    | CallExpression c _ => isIdentifierNamed c callee
    | _ => false
    end) (paths ast K_root None).

(** Some identifier of the tree is named [x]. *)
Definition mentions (x : string) (ast : node) : bool :=
  existsb (fun p => isIdentifierNamed (path_node p) x) (paths ast K_root None).

(** A renamer that renames nothing, for the sample runs. *)
Definition no_rename (from to : string) (body : list node) : list node := body.

(** The statements [hoist] leaves for [exports.foo = 1;]:
    [var $<id>$exports = {};  var $<id>$export$foo = 1;
     $<id>$exports.foo = $<id>$export$foo;] *)
Definition exports_foo_body (i : string) : list node :=
  [VariableDeclaration "var"
     [VariableDeclarator (Identifier ("$" +:+ i +:+ "$export$foo"))
        (Some (NumericLiteral 1))];
   ExpressionStatement
     (AssignmentExpression "="
        (MemberExpression (Identifier ("$" +:+ i +:+ "$exports"))
           (Identifier "foo") false)
        (Identifier ("$" +:+ i +:+ "$export$foo")))].

Definition exports_foo_hoisted (i : string) : node :=
  Program []
    (VariableDeclaration "var"
       [VariableDeclarator (Identifier ("$" +:+ i +:+ "$exports"))
          (Some (ObjectExpression []))]
     :: exports_foo_body i).


(** ** Relations used in the statements *)

(** Same id, file path and symbol table. *)
Definition same_identity (a a' : Asset) : Prop :=
  asset_id a' = asset_id a /\ filePath a' = filePath a
  /\ symbols a' = symbols a.

(** A walk, and the statements it leaves to be finished, move the state by
    steps of the handlers. *)
Definition pending_steps (f : Pending) : Prop :=
  forall s s' m, finish f s = Ok (s', m) -> rtc visitor_step s s'.

Definition walked_steps {A : Type} (st : HState) (w : Walked A) : Prop :=
  forall st' x pending,
    w = Ok (st', x, pending) ->
    rtc visitor_step st st' /\ Forall pending_steps pending.

Definition item_steps (it : Item) : Prop :=
  match it with
  | Stmt _ => True
  | Todo f => pending_steps f
  end.

(** What the handlers keep when the scope is marked [shouldWrap]. *)
Definition wrapped_state (i : string) (st : HState) : Prop :=
  getData_shouldWrap (h_scope st) = true
  /\ is_Some (symbols (h_asset st))
  /\ asset_id (h_asset st) = i.

(** [eval("x"); global;] *)
Definition sample_eval_global : node :=
  Program []
    [ExpressionStatement
       (CallExpression (Identifier "eval") [StringLiteral "x"]);
     ExpressionStatement (Identifier "global")].

(** ** What the pre-scan enters and reads

    Relations used to state what [Program.enter] leaves in [asset.meta]. *)

(** [q] is the parent path of [p]. *)
Definition parent_of (q p : NodePath) : Prop := path_parentPath p = Some q.

(** The paths the pre-scan enters: a path is left out when it lies below
    the parent of a path that came before it, was entered, and made the
    pre-scan call [path.stop()]. *)
Fixpoint entered_from (sc : Scope) (ended : list (list Key))
    (l : list NodePath) : list NodePath :=
  match l with
  | [] => []
  | p :: r =>
      if skipped ended p then entered_from sc ended r
      else p :: entered_from sc
                  (if wrap_trigger sc p then ended ++ [parent_position p]
                   else ended) r
  end.
Definition entered (sc : Scope) (l : list NodePath) : list NodePath :=
  entered_from sc [] l.

(** [q] does not lie below the parent of [p]. *)
Definition outside_parent (p q : NodePath) : bool :=
  negb (starts_with (parent_position p) (position q)).

(** [q] lies at [me] or below it, where the tree [n] at [me] has the node
    of [q]. *)
Definition path_in (n : node) (me q : NodePath) : Prop :=
  exists rel, position q = position me ++ rel
              /\ get_at n rel = Some (path_node q).

(** [q2] does not lie above [q1], nor at it. *)
Definition not_above (q1 q2 : NodePath) : Prop :=
  ¬ position q2 `prefix_of` position q1.

(** If [q1] is a trigger, [q2] does not lie below the parent of [q1]. *)
Definition cut_off (sc : Scope) (q1 q2 : NodePath) : Prop :=
  wrap_trigger sc q1 = true ->
  starts_with (parent_position q1) (position q2) = false.

(** Neither position leads to the other. *)
Definition apart (a b : list Key) : Prop :=
  ¬ a `prefix_of` b /\ ¬ b `prefix_of` a.

(** [ImportDeclaration] and the alias [ExportDeclaration]. *)
Definition is_module_declaration (p : NodePath) : bool :=
  match path_node p with
  | ImportDeclaration _ _ | ExportNamedDeclaration _ _ _
  | ExportDefaultDeclaration _ | ExportAllDeclaration _ => true
  | _ => false
  end.

(** The test of line 172 on a referenced identifier. *)
Definition free_exports_reference (sc : Scope) (p : NodePath) : bool :=
  isReferencedIdentifier p
  && String.eqb (node_name (path_node p)) "exports"
  && negb (hasBinding sc p "exports" false).

(** The test of lines 209-210 on a member expression. *)
Definition free_module_exports (sc : Scope) (p : NodePath) : bool :=
  matchesPattern (path_node p) ["module"; "exports"]
  && negb (hasBinding sc p "module" false).

(** A free [exports] or [module.exports] in a place from which the exports
    object may escape (the tests of lines 174-182 and 213-221 fail). *)
Definition unsafe_exports_use (sc : Scope) (p : NodePath) : bool :=
  (free_exports_reference sc p || free_module_exports sc p)
  && match path_parent p with
     | Some parent => negb (exports_safe sc p parent)
     | None => false
     end.

(** [foo(exports);] *)
Definition sample_exports_escape : node :=
  Program []
    [ExpressionStatement
       (CallExpression (Identifier "foo") [Identifier "exports"])].

(** [if (c) { return 1; } foo(exports);] *)
Definition sample_escape_after_return : node :=
  Program []
    [IfStatement (Identifier "c")
       (BlockStatement [] [ReturnStatement (Some (NumericLiteral 1))]) None;
     ExpressionStatement
       (CallExpression (Identifier "foo") [Identifier "exports"])].

(** The dependency of an asset on itself that the pre-scan asks for,
    [./<basename>] with ["*"] read as [@exports], before the core merges it
    into a dependency the asset may already have with that id. *)
Definition self_specifier (a : Asset) : string :=
  "./" +:+ basename (filePath a).
Definition self_id (a : Asset) : string :=
  asset_id a +:+ ":" +:+ self_specifier a.
Definition self_dependency (a : Asset) : Dependency :=
  mkDependency (self_id a) (self_specifier a) false
    (mkDependencyMeta false false false)
    (Some {[ "*" := mkSymbol "@exports" false ]}).

(** ** What the walk keeps *)

(** What identifies a dependency. *)
Definition dep_identity (d : Dependency) : string * string * bool :=
  (dep_id d, moduleSpecifier d, isAsync d).

(** What every handler of the main visitor keeps of the asset and of the
    program scope, and what it can only add to. *)
Record kept (st st' : HState) : Prop := mk_kept {
  kept_id : asset_id (h_asset st') = asset_id (h_asset st);
  kept_filePath : filePath (h_asset st') = filePath (h_asset st);
  kept_isSource : isSource (h_asset st') = isSource (h_asset st);
  kept_env : env_isNode (h_asset st') = env_isNode (h_asset st);
  kept_meta_id : meta_id (meta (h_asset st')) = meta_id (meta (h_asset st));
  kept_exportsIdentifier :
    exportsIdentifier (meta (h_asset st'))
    = exportsIdentifier (meta (h_asset st));
  kept_isES6Module :
    isES6Module (meta (h_asset st')) = isES6Module (meta (h_asset st));
  kept_bailedOut :
    resolveExportsBailedOut (meta (h_asset st'))
    = resolveExportsBailedOut (meta (h_asset st));
  kept_isCommonJS :
    isCommonJS (meta (h_asset st)) = true ->
    isCommonJS (meta (h_asset st')) = true;
  kept_shouldWrap :
    data_shouldWrap (h_scope st') = data_shouldWrap (h_scope st);
  kept_reassigned :
    getData_cjsExportsReassigned (h_scope st) = true ->
    getData_cjsExportsReassigned (h_scope st') = true;
  kept_symbols :
    is_Some (symbols (h_asset st)) -> is_Some (symbols (h_asset st'));
  kept_symbol :
    forall x, is_Some (symbols_get (symbols (h_asset st)) x) ->
              is_Some (symbols_get (symbols (h_asset st')) x);
  kept_dependencies :
    map dep_identity (dependencies (h_asset st'))
    = map dep_identity (dependencies (h_asset st));
  kept_bindings : bindings (h_scope st) `prefix_of` bindings (h_scope st');
  kept_pushed : pushed (h_scope st) `prefix_of` pushed (h_scope st')
}.

(** The path lies in a program: it or one of its ancestors is the
    [Program] node. *)
Fixpoint below_program (p : NodePath) : bool :=
  match p with
  | mkPath n _ None => isProgram n
  | mkPath n _ (Some pp) => isProgram n || below_program pp
  end.

(** [exports = 1;] and the path of the assignment in it. *)
Definition exports_reassigned : node :=
  Program []
    [ExpressionStatement
       (AssignmentExpression "=" (Identifier "exports") (NumericLiteral 1))].

Definition exports_reassigned_path : NodePath :=
  statement_expression_path
    (AssignmentExpression "=" (Identifier "exports") (NumericLiteral 1)).

(** The path of [module.exports] in the program [module.exports;]. *)
Definition module_exports_path : NodePath :=
  statement_expression_path
    (MemberExpression (Identifier "module") (Identifier "exports") false).

(** The path of the call in [if (c) require("x");], the [i]-th statement of
    a program, and in [if (c) { require("x"); }]. *)
Definition unbraced_require_path (prog c : node) (alt : option node)
    (i : nat) (x : string) : NodePath :=
  let call := CallExpression (Identifier "require") [StringLiteral x] in
  mkPath call K_expression
    (Some (mkPath (ExpressionStatement call) K_consequent
       (Some (mkPath (IfStatement c (ExpressionStatement call) alt) (K_body i)
          (Some (mkPath prog K_root None)))))).

Definition braced_require_path (prog c : node) (alt : option node)
    (i : nat) (x : string) : NodePath :=
  let call := CallExpression (Identifier "require") [StringLiteral x] in
  let block := BlockStatement [] [ExpressionStatement call] in
  mkPath call K_expression
    (Some (mkPath (ExpressionStatement call) (K_body 0%nat)
       (Some (mkPath block K_consequent
          (Some (mkPath (IfStatement c block alt) (K_body i)
             (Some (mkPath prog K_root None)))))))).

(** An asset with one dependency, [./m], that is not async. *)
Definition sample_requiring_asset : Asset :=
  mkAsset "a1b2" "/src/index.js" true false
    (mkMeta None None false false false) (Some ∅)
    [mkDependency "d1" "./m" false (mkDependencyMeta false false false) None].

(** ** Trees without ['use strict'] *)

(** No directive ['use strict'] anywhere in the tree. *)
Fixpoint strict_free (n : node) : bool :=
  let all := forallb strict_free in
  let opt (o : option node) :=
    match o with Some c => strict_free c | None => true end in
  match n with
  | DirectiveLiteral v => negb (String.eqb v "use strict")
  | Program ds b | BlockStatement ds b => all ds && all b
  | Directive v | RestElement v | AwaitExpression v | ExpressionStatement v
  | UnaryExpression _ v | ImportDefaultSpecifier v
  | ImportNamespaceSpecifier v | ExportDefaultDeclaration v
  | ExportAllDeclaration v => strict_free v
  | ObjectExpression ps | ObjectPattern ps | VariableDeclaration _ ps => all ps
  | ObjectProperty a b _ | MemberExpression a b _
  | AssignmentExpression _ a b | LogicalExpression _ a b
  | ImportSpecifier a b | ExportSpecifier a b =>
      strict_free a && strict_free b
  | CallExpression c args => strict_free c && all args
  | ConditionalExpression a b c =>
      strict_free a && strict_free b && strict_free c
  | FunctionExpression i ps b => opt i && all ps && strict_free b
  | ArrowFunctionExpression ps b => all ps && strict_free b
  | FunctionDeclaration i ps b => strict_free i && all ps && strict_free b
  | VariableDeclarator i init => strict_free i && opt init
  | ReturnStatement a => opt a
  | IfStatement t c a => strict_free t && strict_free c && opt a
  | ImportDeclaration ss s => all ss && strict_free s
  | ExportNamedDeclaration d ss s => opt d && all ss && opt s
  | Identifier _ | StringLiteral _ | NumericLiteral _ | BooleanLiteral _
  | ThisExpression | Import => true
  end.

(** What a statement left to be finished turns into has no
    ['use strict']. *)
Definition finishes_strict_free (f : Pending) : Prop :=
  forall s s' m, finish f s = Ok (s', m) -> strict_free m = true.

Definition walked_strict_free (w : Walked node) : Prop :=
  forall st' x pending,
    w = Ok (st', x, pending) ->
    strict_free x = true /\ Forall finishes_strict_free pending.

Definition walked_all_strict_free (w : Walked (list node)) : Prop :=
  forall st' l pending,
    w = Ok (st', l, pending) ->
    forallb strict_free l = true /\ Forall finishes_strict_free pending.

Definition item_strict_free (it : Item) : Prop :=
  match it with
  | Stmt s => strict_free s = true
  | Todo f => finishes_strict_free f
  end.

(** A directive as the parser makes it: [Directive] around a
    [DirectiveLiteral]. *)
Definition is_directive (d : node) : bool :=
  match d with
  | Directive (DirectiveLiteral _) => true
  | _ => false
  end.

(** ['use asm'; 'use strict'; function f() { 'use strict'; 'use asm'; }] *)
Definition sample_directives : node :=
  Program [Directive (DirectiveLiteral "use asm");
           Directive (DirectiveLiteral "use strict")]
    [FunctionDeclaration (Identifier "f") []
       (BlockStatement
          [Directive (DirectiveLiteral "use strict");
           Directive (DirectiveLiteral "use asm")] [])].

(** A CommonJS asset on which the pre-scan gave up resolving exports, with
    two symbols recorded meanwhile. *)
Definition sample_bailed_out_asset : Asset :=
  mkAsset "a1b2" "/src/index.js" true false
    (mkMeta (Some "a1b2") (Some "$a1b2$exports") false true true)
    (Some {[ "foo" := mkSymbol "$a1b2$export$foo" false;
             "bar" := mkSymbol "$a1b2$export$bar" false ]})
    [].

(** ** Import and export declarations (lines 674-1028)

    Import and export declarations are statements of the program.  Their
    handlers write to the asset and to its dependencies, and they edit the
    list of statements of the program: they insert statements after the
    declaration, hoist a [$parcel$require] statement to the top, replace or
    remove the declaration.  The model keeps the statements of the program
    as a list and the two paths the handlers hold as indices into it.

    Source locations are left out, as everywhere.  As in [Program.exit],
    the list of statements is kept without the [var] declaration that
    collects the variables pushed on the program scope.  The errors of
    [nullthrows] and [invariant] are not told from those of Babel.

    The walk above stops with [Unmodelled] at these declarations; their
    handlers are transcribed here on their own, each as a function of the
    module at the time the traversal enters the declaration. *)

(** Modelled from the spec: [symbols.hasExportSymbol] and
    [symbols.hasLocalSymbol] belong to the bundler core and are not among
    the sources.  Section 3 of the specification describes the symbol table
    as a map from exported names to records with a local name, with a
    reverse lookup by local name. *)
Definition symbols_hasExportSymbol (t : SymbolTable) (name : string) : bool :=
  match symbols_get t name with
  | Some _ => true
  | None => false
  end.

Definition symbols_hasLocalSymbol (t : SymbolTable) (local : string) : bool :=
  match t with
  | Some m =>
      existsb (fun kv => String.eqb (sym_local (snd kv)) local) (map_to_list m)
  | None => false
  end.

(** [symbols.get(name)?.local], read as a condition: an empty string is
    falsy. *)
Definition existing_local (t : SymbolTable) (name : string) : option string :=
  match symbols_get t name with
  | Some s => if String.eqb (sym_local s) "" then None else Some (sym_local s)
  | None => None
  end.

(** [dep.symbols.set(name, local, loc, isWeak)] *)
Definition dep_symbols_set_weak (d : Dependency) (name local : string)
    (isWeak : bool) : Result Dependency :=
  let* t := symbols_set (dep_symbols d) name local isWeak in
  Ok (with_dep_symbols d t).

Definition dep_set_hasDefaultImport (d : Dependency) : Dependency :=
  with_dep_meta d (mkDependencyMeta (dm_shouldWrap (dep_meta d)) true
                     (dm_isCommonJS (dep_meta d))).

(** A dependency is an object shared with the asset: reading and writing it
    goes through its place in the list of dependencies. *)
Definition dep_at (a : Asset) (k : nat) : Result Dependency :=
  match dependencies a !! k with
  | Some d => Ok d
  | None => Throw BabelError
  end.

Definition set_dep (a : Asset) (k : nat) (d : Dependency) : Asset :=
  with_dependencies a (<[k := d]> (dependencies a)).

(** [hasImport] (lines 994-1002) *)
Definition hasImport (a : Asset) (id : string) : bool :=
  existsb (fun dep => symbols_hasLocalSymbol (dep_symbols dep) id)
    (dependencies a).

(** [hasExport] (lines 1004-1006) *)
Definition hasExport (a : Asset) (id : string) : bool :=
  symbols_hasLocalSymbol (symbols a) id.

(** [EXPORT_TEMPLATE] and [EXPORT_ALL_TEMPLATE] (lines 73-80) *)
Definition EXPORT_TEMPLATE (EXPORTS NAME LOCAL : node) : node :=
  ExpressionStatement
    (CallExpression (Identifier "$parcel$export")
       [EXPORTS; NAME;
        FunctionExpression None []
          (BlockStatement [] [ReturnStatement (Some LOCAL)])]).

Definition EXPORT_ALL_TEMPLATE (OLD_NAME ID SOURCE : node) : node :=
  ExpressionStatement
    (CallExpression (Identifier "$parcel$exportWildcard")
       [OLD_NAME; CallExpression (Identifier "$parcel$require") [ID; SOURCE]]).

(** A path to a statement of the program, as a handler holds it: no path
    ([undefined]), the path of a statement that was removed since, or the
    path of the [i]-th statement. *)
Inductive PathRef : Type :=
| NoPath
| Removed
| At (i : nat).

(** What a handler of declarations works on. *)
Record Module : Type := mkModule {
  m_asset : Asset;
  m_scope : Scope;
  m_directives : list node;
  m_body : list node;
  m_path : PathRef;            (* [path], the declaration being visited *)
  m_hoistedImport : PathRef    (* [scope.getData('hoistedImport')] *)
}.

Definition m_with_asset (m : Module) (a : Asset) : Module :=
  mkModule a (m_scope m) (m_directives m) (m_body m) (m_path m)
    (m_hoistedImport m).
Definition m_with_scope (m : Module) (sc : Scope) : Module :=
  mkModule (m_asset m) sc (m_directives m) (m_body m) (m_path m)
    (m_hoistedImport m).
Definition m_with_hoistedImport (m : Module) (h : PathRef) : Module :=
  mkModule (m_asset m) (m_scope m) (m_directives m) (m_body m) (m_path m) h.

(** Babel keeps the keys of the paths of a list up to date: a path at or
    after the place of an insertion moves by one. *)
Definition ref_inserted (j : nat) (r : PathRef) : PathRef :=
  match r with
  | At k => if (j <=? k)%nat then At (S k) else At k
  | _ => r
  end.

(** A path after the place of a removal moves back by one; the path of the
    removed statement is a removed path. *)
Definition ref_removed (j : nat) (r : PathRef) : PathRef :=
  match r with
  | At k =>
      if (k =? j)%nat then Removed
      else if (j <? k)%nat then At (pred k) else At k
  | _ => r
  end.

Definition insert_at (j : nat) (x : node) (l : list node) : list node :=
  take j l ++ x :: drop j l.

(** The statement [stmt] placed at index [j] of the body. *)
Definition body_insert (j : nat) (stmt : node) (m : Module) : Module :=
  mkModule (m_asset m) (m_scope m) (m_directives m)
    (insert_at j stmt (m_body m))
    (ref_inserted j (m_path m)) (ref_inserted j (m_hoistedImport m)).

(** [ref.insertAfter(stmt)], for [ref] the path of a statement: the new
    module and the index of the new statement.  Babel throws on a removed
    path. *)
Definition insertAfter (ref : PathRef) (stmt : node) (m : Module)
  : Result (Module * nat) :=
  match ref with
  | At i =>
      if (i <? length (m_body m))%nat
      then Ok (body_insert (S i) stmt m, S i)
      else Throw BabelError
  | _ => Throw BabelError
  end.

(** [path.parentPath.unshiftContainer('body', [stmt])] *)
Definition unshiftContainer (stmt : node) (m : Module) : Module * nat :=
  (body_insert 0 stmt m, 0%nat).

(** [path.getBindingIdentifiers()] at a statement: the names the statement
    declares ([t.getBindingIdentifiers.keys]).  An import declaration
    declares the local names of its specifiers; an export declaration
    declares what the declaration it holds declares, and nothing when it
    holds an expression or no declaration; a function declaration gives its
    name and its parameters. *)
Definition getBindingIdentifiers (n : node) : list string :=
  let declared (d : node) :=
    match d with
    | VariableDeclaration _ decls => flat_map declarator_names decls
    | FunctionDeclaration i params _ =>
        pattern_names i ++ flat_map pattern_names params
    | _ => []
    end in
  match n with
  | ImportDeclaration specifiers _ => flat_map specifier_local specifiers
  | ExportNamedDeclaration (Some d) _ _ | ExportDefaultDeclaration d =>
      declared d
  | ExportNamedDeclaration None _ _ | ExportAllDeclaration _ => []
  | _ => declared n
  end.

(** [scope.removeBinding(name)] for each of the names. *)
Definition removeBindings (sc : Scope) (names : list string) : Scope :=
  mkScope (List.filter (fun x => negb (name_in x names)) (bindings sc))
    (globals sc) (data_shouldWrap sc) (data_cjsExportsReassigned sc)
    (pushed sc).

(** [path.remove()]: the bindings the statement declares are removed from
    the scope ([_removeFromScope]), then the statement from its list. *)
Definition path_remove (m : Module) : Result Module :=
  match m_path m with
  | At i =>
      match m_body m !! i with
      | Some stmt =>
          Ok (mkModule (m_asset m)
                (removeBindings (m_scope m) (getBindingIdentifiers stmt))
                (m_directives m)
                (delete i (m_body m))
                Removed (ref_removed i (m_hoistedImport m)))
      | None => Throw BabelError
      end
  | _ => Throw BabelError
  end.

(** [path.replaceWith(stmt)] *)
Definition path_replaceWith (stmt : node) (m : Module) : Result Module :=
  match m_path m with
  | At i =>
      if (i <? length (m_body m))%nat
      then Ok (mkModule (m_asset m) (m_scope m) (m_directives m)
                 (<[i := stmt]> (m_body m))
                 (m_path m) (m_hoistedImport m))
      else Throw BabelError
  | _ => Throw BabelError
  end.

(** [path.node], the declaration being visited. *)
Definition path_statement (m : Module) : Result node :=
  match m_path m with
  | At i =>
      match m_body m !! i with
      | Some n => Ok n
      | None => Throw BabelError
      end
  | _ => Throw BabelError
  end.

(** The path of the program; the scope of a declaration is the scope of the
    program. *)
Definition program_path (m : Module) : NodePath :=
  mkPath (Program (m_directives m) (m_body m)) K_root None.

(** [getExportsIdentifier(asset, path.scope)] from a declaration. *)
Definition module_exportsIdentifier (m : Module) : Module * node :=
  let r := getExportsIdentifier (program_path m) (mkH (m_asset m) (m_scope m)) in
  (m_with_scope (m_with_asset m (h_asset (fst r))) (h_scope (fst r)), snd r).

(** The name of the identifier [getExportsIdentifier] returns. *)
Definition exports_name (m : Module) : string :=
  if getData_shouldWrap (m_scope m) then "exports"
  else getName (m_asset m) "exports" [].

(** [addImport] (lines 940-961); [source] is [path.node.source]. *)
Definition addImport (source : option node) (m : Module) : Result Module :=
  match source with
  | None => Throw BabelError              (* [nullthrows] *)
  | Some s =>
      let requireStmt :=
        ExpressionStatement
          (REQUIRE_CALL_TEMPLATE (StringLiteral (asset_id (m_asset m)))
             (StringLiteral (node_value s))) in
      match m_hoistedImport m with
      | NoPath =>
          let r := unshiftContainer requireStmt m in
          Ok (m_with_hoistedImport (fst r) (At (snd r)))
      | lastImport =>
          let* r := insertAfter lastImport requireStmt m in
          Ok (m_with_hoistedImport (fst r) (At (snd r)))
      end
  end.

(** The statement [addImport] hoists for a declaration with source [s]. *)
Definition hoisted_require (a : Asset) (s : node) : node :=
  ExpressionStatement
    (REQUIRE_CALL_TEMPLATE (StringLiteral (asset_id a))
       (StringLiteral (node_value s))).

(** [addImport] for the declarations of a run, one after the other. *)
Fixpoint addImports (sources : list node) (m : Module) : Result Module :=
  match sources with
  | [] => Ok m
  | s :: r => let* m1 := addImport (Some s) m in addImports r m1
  end.

(** How many statements the hoisted prefix of the program takes: up to the
    statement hoisted last. *)
Definition hoisted_end (r : PathRef) : nat :=
  match r with
  | At h => S h
  | _ => 0
  end.

(** [ExportAllDeclaration] (lines 911-937) *)
Definition VISITOR_ExportAllDeclaration (m : Module) : Result Module :=
  let* n := path_statement m in
  match n with
  | ExportAllDeclaration source =>
      let* a1 :=
        match find_dependency (m_asset m) (node_value source) with
        | Some (k, dep) =>
            let dep1 := with_dep_symbols dep (symbols_ensure (dep_symbols dep)) in
            let* dep2 := dep_symbols_set_weak dep1 "*" "*" true in
            Ok (set_dep (m_asset m) k dep2)
        | None => Ok (m_asset m)
        end in
      let '(m2, exportsId) := module_exportsIdentifier (m_with_asset m a1) in
      let replacement :=
        EXPORT_ALL_TEMPLATE exportsId
          (StringLiteral (asset_id (m_asset m2)))
          (StringLiteral (node_value source)) in
      let* m3 := path_remove m2 in
      match m_hoistedImport m3 with
      | NoPath =>
          let r := unshiftContainer replacement m3 in
          Ok (m_with_hoistedImport (fst r) (At (snd r)))
      | lastImport =>
          let* r := insertAfter lastImport replacement m3 in
          Ok (m_with_hoistedImport (fst r) (At (snd r)))
      end
  | _ => Throw BabelError
  end.

(** A binding of the program scope as the handlers of declarations read
    it. *)
Record DeclBinding : Type := mkDeclBinding {
  b_constant : bool;
  b_referenced : bool;
  b_referencePaths : list NodePath
}.

(** [Object.keys] of the object [t.getBindingIdentifiers] builds: each name
    once, in the order of its first occurrence.  [getBindingIdentifiers]
    searches breadth first; the model keeps to declarations whose
    declarators bind plain identifiers, where that is the order of the
    declarators.  The names are read once: the renamer is taken to write
    only to the binding it renames and to the references to it. *)
Definition declares_identifier (d : node) : bool :=
  match d with
  | VariableDeclarator (Identifier _) _ => true
  | _ => false
  end.

Fixpoint object_keys (seen names : list string) : list string :=
  match names with
  | [] => []
  | x :: r =>
      if name_in x seen then object_keys seen r
      else x :: object_keys (x :: seen) r
  end.

(** The local name the dependency at place [k] records for a name, and the
    local name the asset records for an export. *)
Definition dep_local (a : Asset) (k : nat) (name : string) : option string :=
  dependencies a !! k ≫= fun dep =>
  sym_local <$> symbols_get (dep_symbols dep) name.

Definition export_local (a : Asset) (name : string) : option string :=
  sym_local <$> symbols_get (symbols a) name.

(** [specifier.exported.name] *)
Definition specifier_exported (s : node) : string :=
  match s with
  | ExportSpecifier _ e => node_name e
  | _ => ""
  end.

(** A renamer that finds nothing to rename. *)
Definition rename_nothing (sc : Scope) (from to : string) (body : list node)
  : Result (Scope * list node) := Ok (sc, body).

(** A module of three statements, the second one being visited, whose
    asset has a dependency on ['./m']. *)
Definition sample_module (stmt : node) : Module :=
  mkModule
    (mkAsset "a1b2" "/src/index.js" true false
       (mkMeta (Some "a1b2") (Some "$a1b2$exports") true false false) (Some ∅)
       [mkDependency "d0" "./k" false (mkDependencyMeta false false false) None;
        mkDependency "d1" "./m" false (mkDependencyMeta false false false) None])
    (mkScope ["x"; "f"] [] None None [])
    []
    [ExpressionStatement (CallExpression (Identifier "f") []);
     stmt;
     ExpressionStatement (CallExpression (Identifier "f") [Identifier "x"])]
    (At 1) NoPath.

Section Declarations.
(** Modelled from the spec: [./renamer] is not among the sources.  It
    renames a binding of a scope and the references to it (section 4.2);
    here it is given the program scope and the statements of the program,
    and it may throw. *)
Variable rename :
  Scope -> string -> string -> list node -> Result (Scope * list node).

(** [path.scope.getBinding(name)] on the program scope, for the tree as it
    is when the handler asks. *)
Variable getBinding : Scope -> list node -> string -> option DeclBinding.

(** [rename(scope, from, to)] *)
Definition module_rename (from to : string) (m : Module) : Result Module :=
  let* r := rename (m_scope m) from to (m_body m) in
  Ok (mkModule (m_asset m) (fst r) (m_directives m) (snd r) (m_path m)
        (m_hoistedImport m)).

(** [addExport] (lines 963-992) *)
Definition addExport (local exported : string) (m : Module) : Result Module :=
  let identifier :=
    if hasImport (m_asset m) local || hasExport (m_asset m) local
    then local
    else node_name (getExportIdentifier (m_asset m) exported) in
  let '(m1, exportsId) := module_exportsIdentifier m in
  let assignNode :=
    EXPORT_TEMPLATE exportsId (StringLiteral exported) (Identifier identifier) in
  let* a2 :=
    (if negb (symbols_hasExportSymbol (symbols (m_asset m1)) exported)
     then asset_symbols_set (m_asset m1) exported identifier
     else Ok (m_asset m1)) in
  let* m3 := module_rename local identifier (m_with_asset m1 a2) in
  let* r := insertAfter (m_path m3) assignNode m3 in
  Ok (fst r).

(** One turn of the loop of lines 845-887, for [export {local as exported}
    from '...']; [k] is the place of the dependency, when there is one. *)
Definition reexport_specifier (k : option nat) (specifier : node) (m : Module)
  : Result Module :=
  match specifier with
  | ExportSpecifier (Identifier imported) (Identifier exported) =>
      let id0 := getName (m_asset m) "import" [exported] in
      let* r1 :=
        match k with
        | Some k' =>
            if negb (String.eqb imported "") then
              let* dep := dep_at (m_asset m) k' in
              let id := default id0 (existing_local (dep_symbols dep) imported) in
              let* dep' := dep_symbols_set_weak dep imported id true in
              Ok (set_dep (m_asset m) k' dep', id)
            else Ok (m_asset m, id0)
        | None => Ok (m_asset m, id0)
        end in
      let* a2 := asset_symbols_set (fst r1) exported (snd r1) in
      let '(m3, exportsId) := module_exportsIdentifier (m_with_asset m a2) in
      let* r :=
        insertAfter (m_path m3)
          (EXPORT_TEMPLATE exportsId (StringLiteral exported)
             (Identifier (snd r1))) m3 in
      Ok (fst r)
  | _ => Throw (Unmodelled "export specifier")
  end.

Fixpoint each_specifier (f : node -> Module -> Result Module)
    (specifiers : list node) (m : Module) : Result Module :=
  match specifiers with
  | [] => Ok m
  | s :: r => let* m1 := f s m in each_specifier f r m1
  end.

(** [path.node.specifiers] *)
Definition node_specifiers (n : node) : list node :=
  match n with
  | ImportDeclaration ss _ | ExportNamedDeclaration _ ss _ => ss
  | _ => []
  end.

(** [for (let specifier of path.node.specifiers)] when the body of the loop
    calls the renamer: the renamer writes to nodes of the declaration the
    loop is yet to read, so each turn reads its specifier from the tree as
    it is then. *)
Fixpoint each_live_specifier (f : node -> Module -> Result Module)
    (j count : nat) (m : Module) : Result Module :=
  match count with
  | O => Ok m
  | S c =>
      let* n := path_statement m in
      match node_specifiers n !! j with
      | Some s =>
          let* m1 := f s m in
          each_live_specifier f (S j) c m1
      | None => Throw BabelError
      end
  end.

Fixpoint each_name (f : string -> Module -> Result Module)
    (names : list string) (m : Module) : Result Module :=
  match names with
  | [] => Ok m
  | x :: r => let* m1 := f x m in each_name f r m1
  end.

(** [ExportNamedDeclaration] (lines 835-909) *)
Definition VISITOR_ExportNamedDeclaration (m : Module) : Result Module :=
  let* n := path_statement m in
  match n with
  | ExportNamedDeclaration declaration specifiers source =>
      match source, declaration with
      | Some s, _ =>
          let* r1 :=
            match find_dependency (m_asset m) (node_value s) with
            | Some (k, dep) =>
                Ok (set_dep (m_asset m) k
                      (with_dep_symbols dep (symbols_ensure (dep_symbols dep))),
                    Some k)
            | None => Ok (m_asset m, None)
            end in
          let* m2 :=
            each_specifier (reexport_specifier (snd r1)) specifiers
              (m_with_asset m (fst r1)) in
          let* m3 := addImport source m2 in
          path_remove m3
      | None, Some d =>
          let* m1 := path_replaceWith d m in
          match d with
          | FunctionDeclaration (Identifier x) _ _ => addExport x x m1
          | VariableDeclaration _ decls =>
              if forallb declares_identifier decls then
                each_name (fun x => addExport x x)
                  (object_keys [] (flat_map declarator_names decls)) m1
              else Throw (Unmodelled "exported pattern")
          | _ => Throw (Unmodelled "exported declaration")
          end
      | None, None =>
          let* m1 :=
            each_live_specifier
              (fun specifier m' =>
                 match specifier with
                 | ExportSpecifier (Identifier l) (Identifier e) =>
                     addExport l e m'
                 | _ => Throw (Unmodelled "export specifier")
                 end) 0 (length specifiers) m in
          path_remove m1
      end
  | _ => Throw BabelError
  end.

(** [safeRename] (lines 1008-1028).  The reference [binding.reference]
    records is kept by the binding, which the model does not hold. *)
Definition safeRename (from to : string) (m : Module) : Result Module :=
  if String.eqb from to then Ok m
  else
    match getBinding (m_scope m) (m_body m) from with
    | None => Throw BabelError            (* [nullthrows] *)
    | Some binding =>
        if b_constant binding then module_rename from to m
        else
          let decl :=
            VariableDeclaration "var"
              [VariableDeclarator (Identifier to) (Some (Identifier from))] in
          let* r := insertAfter (m_path m) decl m in
          Ok (m_with_scope (fst r)
                (registerDeclaration (m_scope (fst r)) [to]))
    end.

(** [t.isExpression] on this tree. *)
Definition isExpression (n : node) : bool :=
  match n with
  | Identifier _ | StringLiteral _ | NumericLiteral _ | BooleanLiteral _
  | ThisExpression | Import | ObjectExpression _ | MemberExpression _ _ _
  | CallExpression _ _ | AssignmentExpression _ _ _ | UnaryExpression _ _
  | AwaitExpression _ | ConditionalExpression _ _ _ | LogicalExpression _ _ _
  | FunctionExpression _ _ _ | ArrowFunctionExpression _ _ => true
  | _ => false
  end.

(** [t.toExpression] *)
Definition toExpression (n : node) : Result node :=
  let n1 := match n with ExpressionStatement e => e | _ => n end in
  if isExpression n1 then Ok n1
  else
    match n1 with
    | FunctionDeclaration i ps b => Ok (FunctionExpression (Some i) ps b)
    | _ => Throw BabelError
    end.

(** [declaration.id], for the nodes that have the field. *)
Definition node_id (n : node) : option node :=
  match n with
  | FunctionDeclaration i _ _ | VariableDeclarator i _ => Some i
  | FunctionExpression i _ _ => i
  | _ => None
  end.

(** [ExportDefaultDeclaration] (lines 782-833) *)
Definition VISITOR_ExportDefaultDeclaration (m : Module) : Result Module :=
  let* n := path_statement m in
  match n with
  | ExportDefaultDeclaration declaration =>
      let name : option string :=
        match declaration with
        | FunctionDeclaration (Identifier x) _ _ => Some x
        | Identifier x => Some x
        | _ => None
        end in
      let identifier :=
        match name with
        | Some x =>
            if negb (String.eqb x "") && hasExport (m_asset m) x then x
            else node_name (getExportIdentifier (m_asset m) "default")
        | None => node_name (getExportIdentifier (m_asset m) "default")
        end in
      let '(m1, exportsId) := module_exportsIdentifier m in
      let* r1 :=
        insertAfter (m_path m1)
          (EXPORT_TEMPLATE exportsId (StringLiteral "default")
             (Identifier identifier)) m1 in
      let m2 := fst r1 in
      let* m3 :=
        match declaration with
        | Identifier x =>
            if program_hasBinding (m_scope m2) x then
              let* m' := safeRename x identifier m2 in
              path_remove m'
            else
              let* m' :=
                path_replaceWith
                  (VariableDeclaration "var"
                     [VariableDeclarator (Identifier identifier)
                        (Some declaration)]) m2 in
              Ok (m_with_scope m'
                    (registerDeclaration (m_scope m') [identifier]))
        | _ =>
            if isExpression declaration
               || match node_id declaration with
                  | Some _ => false
                  | None => true
                  end
            then
              let* declarationExpr := toExpression declaration in
              let* m' :=
                path_replaceWith
                  (VariableDeclaration "var"
                     [VariableDeclarator (Identifier identifier)
                        (Some declarationExpr)]) m2 in
              Ok (m_with_scope m'
                    (registerDeclaration (m_scope m') [identifier]))
            else
              match node_id declaration with
              | Some (Identifier x) =>
                  let* m' := safeRename x identifier m2 in
                  (* [declaration] is the node in the tree, which the
                     renamer may have written to *)
                  let* n' := path_statement m' in
                  match n' with
                  | ExportDefaultDeclaration declaration' =>
                      path_replaceWith declaration' m'
                  | _ => Throw BabelError
                  end
              | _ => Throw BabelError       (* [invariant] *)
              end
        end in
      let* a4 :=
        (if negb (symbols_hasExportSymbol (symbols (m_asset m3)) "default")
         then asset_symbols_set (m_asset m3) "default" identifier
         else Ok (m_asset m3)) in
      Ok (m_with_asset m3 a4)
  | _ => Throw BabelError
  end.

(** [p.parentPath.replaceWith(x)] for a path [p] of the program. *)
Definition replace_parent (p : NodePath) (x : node) (m : Module)
  : Result Module :=
  match path_parentPath p with
  | Some pp =>
      match replace_at (Program (m_directives m) (m_body m)) (position pp) x with
      | Program ds b =>
          Ok (mkModule (m_asset m) (m_scope m) ds b (m_path m)
                (m_hoistedImport m))
      | _ => Throw BabelError
      end
  | None => Throw BabelError
  end.

(** One turn of the loop of lines 698-734 over the references of a
    namespace: the module and [bailedOut].  [dereferenceIdentifier] of
    [./utils] takes the reference off the binding, which the model does not
    hold. *)
Definition namespace_reference (k : nat) (local : string)
    (acc : Module * bool) (p : NodePath) : Result (Module * bool) :=
  let m := fst acc in
  if isIdentifier (path_node p) && is_static_member_reference p then
    let imported := member_reference_name p in
    let* dep := dep_at (m_asset m) k in
    let id :=
      default (getName (m_asset m) "import" [local; imported])
        (existing_local (dep_symbols dep) imported) in
    let* dep' := dep_symbols_set_weak dep imported id false in
    let* m' :=
      replace_parent p (Identifier id) (m_with_asset m (set_dep (m_asset m) k dep')) in
    Ok (m', snd acc)
  else Ok (m, true).

Fixpoint each_reference (k : nat) (local : string)
    (refs : list NodePath) (acc : Module * bool) : Result (Module * bool) :=
  match refs with
  | [] => Ok acc
  | p :: r =>
      let* acc' := namespace_reference k local acc p in
      each_reference k local r acc'
  end.

(** [binding.referencePaths.length === 1 &&
     isExportSpecifier(binding.referencePaths[0].parent,
                       {local: binding.referencePaths[0].node})] *)
Definition only_reexported (binding : DeclBinding) : bool :=
  match b_referencePaths binding with
  | [r] =>
      match path_parent r with
      | Some (ExportSpecifier _ _) => key_is (path_key r) K_local
      | _ => false
      end
  | _ => false
  end.

(** One turn of the loop of lines 683-776 over the specifiers; [k] is the
    place of the dependency, when there is one. *)
Definition import_specifier (k : option nat) (specifier : node) (m : Module)
  : Result Module :=
  match specifier_local specifier with
  | [local] =>
      match getBinding (m_scope m) (m_body m) local with
      | None => Throw BabelError              (* [nullthrows] *)
      | Some binding =>
          if negb (b_referenced binding) && negb (isSource (m_asset m))
          then Ok m
          else
            let id0 := getName (m_asset m) "import" [local] in
            let* r :=
              match k with
              | None => Ok (m, id0)
              | Some k' =>
                  match specifier with
                  | ImportNamespaceSpecifier _ =>
                      let* r1 :=
                        each_reference k' local (b_referencePaths binding)
                          (m, false) in
                      if snd r1 then
                        let m1 := fst r1 in
                        let* dep := dep_at (m_asset m1) k' in
                        let id :=
                          default id0 (existing_local (dep_symbols dep) "*") in
                        let* dep' := dep_symbols_set_weak dep "*" id false in
                        Ok (m_with_asset m1 (set_dep (m_asset m1) k' dep'), id)
                      else Ok (fst r1, id0)
                  | _ =>
                      let isWeak := only_reexported binding in
                      let* dep := dep_at (m_asset m) k' in
                      let* r1 :=
                        match specifier with
                        | ImportDefaultSpecifier _ =>
                            Ok ("default", dep_set_hasDefaultImport dep)
                        | ImportSpecifier _ (Identifier imported) =>
                            Ok (imported, dep)
                        | ImportSpecifier _ _ =>
                            Throw (Unmodelled "imported name")
                        | _ => Throw BabelError
                                 (* 'Unknown import construct' *)
                        end in
                      let id :=
                        default id0
                          (existing_local (dep_symbols (snd r1)) (fst r1)) in
                      let* dep' :=
                        dep_symbols_set_weak (snd r1) (fst r1) id isWeak in
                      Ok (m_with_asset m (set_dep (m_asset m) k' dep'), id)
                  end
              end in
            module_rename local (snd r) (fst r)
      end
  | _ => Throw (Unmodelled "import specifier")
  end.

(** [ImportDeclaration] (lines 674-780) *)
Definition VISITOR_ImportDeclaration (m : Module) : Result Module :=
  let* n := path_statement m in
  match n with
  | ImportDeclaration specifiers source =>
      let r1 :=
        match find_dependency (m_asset m) (node_value source) with
        | Some (k, dep) =>
            (set_dep (m_asset m) k
               (with_dep_symbols dep (symbols_ensure (dep_symbols dep))),
             Some k)
        | None => (m_asset m, None)
        end in
      let* m2 :=
        each_live_specifier (import_specifier (snd r1)) 0 (length specifiers)
          (m_with_asset m (fst r1)) in
      let* m3 := addImport (Some source) m2 in
      path_remove m3
  | _ => Throw BabelError
  end.
End Declarations.

(** What is left of an asset when nothing but the symbols and the meta data
    of the dependency at place [k] was written to; with no [k], nothing
    was. *)
Record writes_dep (k : option nat) (a a' : Asset) : Prop := mkWritesDep {
  wd_id : asset_id a' = asset_id a;
  wd_filePath : filePath a' = filePath a;
  wd_isSource : isSource a' = isSource a;
  wd_symbols : symbols a' = symbols a;
  wd_meta : meta a' = meta a;
  wd_length : length (dependencies a') = length (dependencies a);
  wd_others :
    forall j, Some j <> k -> dependencies a' !! j = dependencies a !! j;
  wd_same :
    forall j d d',
      dependencies a !! j = Some d -> dependencies a' !! j = Some d' ->
      dep_id d' = dep_id d /\ moduleSpecifier d' = moduleSpecifier d /\
      isAsync d' = isAsync d
}.

(** The two paths of a module are where they were. *)
Definition same_paths (m m' : Module) : Prop :=
  m_path m' = m_path m /\ m_hoistedImport m' = m_hoistedImport m.

(** A reference to a namespace that reads one member of it by name, the
    condition of lines 704-709. *)
Definition static_member_use (p : NodePath) : bool :=
  isIdentifier (path_node p) && is_static_member_reference p.

(** The name [addExport] exports a binding under (lines 965-973). *)
Definition export_identifier (a : Asset) (local exported : string) : string :=
  if hasImport a local || hasExport a local then local
  else getName a "export" [exported].

(** [export {a as b, a as c} from './m'] in the sample module, and what the
    handler makes of it. *)
Definition sample_reexport : Module :=
  sample_module
    (ExportNamedDeclaration None
       [ExportSpecifier (Identifier "a") (Identifier "b");
        ExportSpecifier (Identifier "a") (Identifier "c")]
       (Some (StringLiteral "./m"))).

Definition sample_reexported : Module :=
  match VISITOR_ExportNamedDeclaration rename_nothing sample_reexport with
  | Ok m' => m'
  | Throw _ => sample_reexport
  end.

(** [export {x as y}] in the sample module, after [addExport]. *)
Definition sample_exported : Module :=
  match addExport rename_nothing "x" "y"
          (sample_module
             (ExportNamedDeclaration None
                [ExportSpecifier (Identifier "x") (Identifier "y")] None)) with
  | Ok m' => m'
  | Throw _ => sample_module (Identifier "x")
  end.

(** [import {y as x} from './m'] in the sample module, with a binding [x]
    that is referenced, and what the handler makes of it. *)
Definition sample_import : Module :=
  sample_module
    (ImportDeclaration [ImportSpecifier (Identifier "x") (Identifier "y")]
       (StringLiteral "./m")).

Definition referenced_binding (sc : Scope) (body : list node) (x : string)
  : option DeclBinding := Some (mkDeclBinding true true []).

Definition sample_imported : Module :=
  match VISITOR_ImportDeclaration rename_nothing referenced_binding
          sample_import with
  | Ok m' => m'
  | Throw _ => sample_import
  end.

(** [import x, {y} from './m'] in an asset of a library, with bindings that
    are not referenced and a renamer that throws whenever it is called. *)
Definition sample_library_import : Module :=
  mkModule
    (mkAsset "c3d4" "/node_modules/lib/index.js" false false
       (mkMeta (Some "c3d4") (Some "$c3d4$exports") true false false) (Some ∅)
       [mkDependency "d0" "./m" false (mkDependencyMeta false false false) None])
    (mkScope ["x"; "y"] [] None None [])
    []
    [ImportDeclaration
       [ImportDefaultSpecifier (Identifier "x");
        ImportSpecifier (Identifier "y") (Identifier "y")]
       (StringLiteral "./m");
     ExpressionStatement (CallExpression (Identifier "f") [])]
    (At 0) NoPath.

Definition unreferenced_binding (sc : Scope) (body : list node) (x : string)
  : option DeclBinding := Some (mkDeclBinding true false []).

Definition rename_throws (sc : Scope) (from to : string) (body : list node)
  : Result (Scope * list node) := Throw BabelError.

(** [import x from './m'] in an asset whose dependency on ['./m'] has a
    local name for the default export already, and the module after the
    turn of the loop for [x]. *)
Definition sample_second_import : Module :=
  mkModule
    (mkAsset "a1b2" "/src/index.js" true false
       (mkMeta (Some "a1b2") (Some "$a1b2$exports") true false false) (Some ∅)
       [mkDependency "d0" "./m" false (mkDependencyMeta false true false)
          (Some {[ "default" := mkSymbol "$a1b2$import$z" false ]})])
    (mkScope ["x"] [] None None [])
    []
    [ImportDeclaration [ImportDefaultSpecifier (Identifier "x")]
       (StringLiteral "./m");
     ExpressionStatement (CallExpression (Identifier "x") [])]
    (At 0) NoPath.

Definition sample_second_imported : Module :=
  match import_specifier rename_nothing referenced_binding (Some 0)
          (ImportDefaultSpecifier (Identifier "x")) sample_second_import with
  | Ok m' => m'
  | Throw _ => sample_second_import
  end.

(** [import * as ns from './m'; ns.a(); f(ns);] with the binding Babel
    holds for [ns], and the module after the turn of the loop for [ns]. *)
Definition sample_namespace_import : Module :=
  mkModule
    (mkAsset "a1b2" "/src/index.js" true false
       (mkMeta (Some "a1b2") (Some "$a1b2$exports") true false false) (Some ∅)
       [mkDependency "d0" "./m" false (mkDependencyMeta false false false)
          (Some ∅)])
    (mkScope ["ns"; "f"] [] None None [])
    []
    [ImportDeclaration [ImportNamespaceSpecifier (Identifier "ns")]
       (StringLiteral "./m");
     ExpressionStatement
       (CallExpression
          (MemberExpression (Identifier "ns") (Identifier "a") false) []);
     ExpressionStatement (CallExpression (Identifier "f") [Identifier "ns"])]
    (At 0) NoPath.

Definition references_of (body : list node) (x : string) : list NodePath :=
  filter (fun p => isIdentifierNamed (path_node p) x
                   && negb (key_is (path_key p) K_local))
    (program_paths (Program [] body)).

Definition sample_namespace_binding : DeclBinding :=
  mkDeclBinding true true
    (references_of (m_body sample_namespace_import) "ns").

Definition sample_namespace_imported : Module :=
  match import_specifier rename_nothing
          (fun _ _ _ => Some sample_namespace_binding) (Some 0)
          (ImportNamespaceSpecifier (Identifier "ns"))
          sample_namespace_import with
  | Ok m' => m'
  | Throw _ => sample_namespace_import
  end.

(** * The paths of a tree *)

Lemma list_all_Forall (P : node -> Prop) (l : list node) :
  list_all node P l -> Forall P l.
Proof. induction 1; constructor; auto. Qed.

(** ** The paths of a tree, one level at a time *)

Lemma subs_flat_map (f : node -> Key -> list NodePath) (mk : nat -> Key)
    (l : list node) : forall i,
  (fix go (i : nat) (l : list node) {struct l} : list NodePath :=
     match l with
     | [] => []
     | c :: r => f c (mk i) ++ go (S i) r
     end) i l
  = flat_map (fun kc : Key * node => f kc.2 kc.1)
      (imap (fun j c => (mk (i + j)%nat, c)) l).
Proof.
  induction l as [|c l IH]; intros i; simpl; [reflexivity |].
  rewrite Nat.add_0_r. f_equal. rewrite IH. f_equal.
  apply imap_ext. intros j x _. simpl. f_equal. f_equal. lia.
Qed.

Lemma paths_children n k pp :
  paths n k pp
  = mkPath n k pp
    :: flat_map (fun kc : Key * node => paths kc.2 kc.1 (Some (mkPath n k pp)))
         (children n).
Proof.
  destruct n;
    repeat match goal with
    | o : option node |- _ => destruct o
    end;
    cbn [paths children keyed_option]; f_equal; unfold keyed;
    repeat match goal with
    | |- context [(fix go (i : nat) (x : list node) {struct x} : list NodePath :=
                     match x with
                     | [] => []
                     | c :: r => paths c (?mk i) ?pp ++ go (S i) r
                     end) 0%nat ?ll] =>
        rewrite (subs_flat_map (fun c k => paths c k pp) mk ll 0%nat)
    end; cbn [Nat.add];
    repeat (rewrite ?flat_map_app; cbn [flat_map fst snd app];
            rewrite ?app_nil_r);
    rewrite <- ?app_assoc; reflexivity.
Qed.

Lemma keyed_elem mk l k c :
  (k, c) ∈ keyed mk l -> exists i, k = mk i /\ l !! i = Some c.
Proof.
  unfold keyed. intros H. apply elem_of_lookup_imap in H as (i & y & E & Hy).
  inversion E; subst. eauto.
Qed.

Lemma keyed_option_elem k0 o k c :
  (k, c) ∈ keyed_option k0 o -> k = k0 /\ o = Some c.
Proof.
  destruct o; simpl; intros H.
  - apply list_elem_of_singleton in H. inversion H; subst. auto.
  - inversion H.
Qed.

(** What is known of a child from the part of [children] it is in. *)
Ltac child_cases :=
  repeat match goal with
  | H : _ ∈ _ ++ _ |- _ =>
      let H' := fresh "Hc" in
      apply elem_of_app in H as [H'|H']
  | H : _ ∈ _ :: _ |- _ =>
      let H' := fresh "Hc" in
      apply elem_of_cons in H as [H'|H']
  | H : _ ∈ [] |- _ => inversion H
  | H : (_, _) = (_, _) |- _ =>
      first [discriminate H | inversion H; subst; clear H]
  | H : _ ∈ keyed _ _ |- _ =>
      let i := fresh "i" in
      let E := fresh "E" in
      let H' := fresh "Hc" in
      apply keyed_elem in H as (i & E & H');
      first [discriminate E | subst | inversion E; subst; clear E]
  | H : _ ∈ keyed_option _ _ |- _ =>
      let E := fresh "E" in
      let E' := fresh "E" in
      apply keyed_option_elem in H as [E E'];
      first [discriminate E | subst | inversion E; subst; clear E]
  end.

Lemma children_get_child n k c :
  (k, c) ∈ children n -> get_child n k = Some c.
Proof.
  intros Hin. destruct n; cbn [children] in Hin; child_cases; simpl; auto.
Qed.

Lemma node_children_ind (Q : node -> Prop) :
  (forall n, (forall k c, (k, c) ∈ children n -> Q c) -> Q n) ->
  forall n, Q n.
Proof.
  intros Hstep. induction n; apply Hstep; intros k c Hin;
    cbn [children] in Hin; child_cases;
    repeat match goal with
    | IH : list_all node _ ?l, E : ?l !! _ = Some _ |- _ =>
        apply list_all_Forall in IH;
        exact (proj1 (Forall_lookup _ _) IH _ _ E)
    | IH : option_all node _ (Some _) |- _ => inversion IH; subst; clear IH
    end; auto.
Qed.

(** No two children of a node have the same key. *)
Lemma keyed_NoDup mk l :
  (forall i j, mk i = mk j -> i = j) -> NoDup (keyed mk l).*1.
Proof.
  intros Hinj. unfold keyed. apply NoDup_alt. intros i j k Hi Hj.
  rewrite list_lookup_fmap in Hi, Hj.
  rewrite list_lookup_imap in Hi, Hj.
  destruct (l !! i); [| discriminate]. destruct (l !! j); [| discriminate].
  simpl in Hi, Hj. apply Hinj. congruence.
Qed.

Lemma keyed_option_NoDup k o : NoDup (keyed_option k o).*1.
Proof. destruct o; simpl; repeat constructor. set_solver. Qed.

Lemma elem_of_fst_inv (l : list (Key * node)) k :
  k ∈ l.*1 -> exists c, (k, c) ∈ l.
Proof.
  intros H. apply list_elem_of_fmap in H as ([k' c] & -> & H). eauto.
Qed.

Lemma NoDup_fst_app (l1 l2 : list (Key * node)) :
  NoDup l1.*1 -> NoDup l2.*1 ->
  (forall k c1 c2, (k, c1) ∈ l1 -> (k, c2) ∈ l2 -> False) ->
  NoDup (l1 ++ l2).*1.
Proof.
  intros H1 H2 H. rewrite fmap_app. apply NoDup_app. split; [exact H1 |].
  split; [| exact H2]. intros k Hk1 Hk2.
  apply elem_of_fst_inv in Hk1 as [c1 Hk1].
  apply elem_of_fst_inv in Hk2 as [c2 Hk2]. eauto.
Qed.

Lemma NoDup_fst_cons k c (l : list (Key * node)) :
  (forall c', (k, c') ∈ l -> False) -> NoDup l.*1 -> NoDup ((k, c) :: l).*1.
Proof.
  intros H1 H2. rewrite fmap_cons. apply NoDup_cons. split; [| exact H2].
  intros Hk. apply elem_of_fst_inv in Hk as [c' Hk]. eauto.
Qed.

Lemma children_NoDup n : NoDup (children n).*1.
Proof.
  destruct n; cbn [children];
    repeat first
      [ apply NoDup_fst_app;
        [| | intros; child_cases; discriminate]
      | apply NoDup_fst_cons; [intros; child_cases; discriminate |]
      | apply keyed_option_NoDup
      | apply keyed_NoDup; intros ? ? ?; congruence
      | apply NoDup_nil_2 ].
Qed.

(** ** Positions *)

Lemma position_from_app p : forall acc,
  position_from p acc = position p ++ acc.
Proof.
  unfold position. induction p as [n k pp IH]; intros acc.
  destruct IH as [q IH|]; simpl; [| reflexivity].
  rewrite (IH [k]), (IH (k :: acc)), <- app_assoc. reflexivity.
Qed.

Lemma position_child c kc me :
  position (mkPath c kc (Some me)) = position me ++ [kc].
Proof. unfold position at 1. simpl. apply position_from_app. Qed.

Lemma parent_position_prefix p : parent_position p `prefix_of` position p.
Proof.
  destruct p as [n k [q|]]; unfold parent_position; simpl.
  - rewrite position_child. apply prefix_app_r. reflexivity.
  - apply prefix_nil.
Qed.

Lemma starts_with_prefix pre pos :
  starts_with pre pos = true <-> pre `prefix_of` pos.
Proof.
  revert pos; induction pre as [|k pre IH]; intros pos; simpl.
  - split; [intros _; apply prefix_nil | reflexivity].
  - destruct pos as [|k' pos].
    + split; [discriminate |]. intros H. apply prefix_nil_inv in H.
      discriminate.
    + rewrite andb_true_iff, bool_decide_eq_true, IH. split.
      * intros [-> H]. apply prefix_cons, H.
      * intros H. split; [eapply prefix_cons_inv_1, H |
                          eapply prefix_cons_inv_2, H].
Qed.

(** Every path of [paths n k pp] lies at or below [n], where the tree has
    the node of the path. *)
Lemma paths_valid n : forall k pp,
  Forall (path_in n (mkPath n k pp)) (paths n k pp).
Proof.
  induction n as [n IH] using node_children_ind; intros k pp.
  rewrite paths_children. constructor.
  - exists []. rewrite app_nil_r. auto.
  - apply Forall_flat_map, Forall_forall. intros [kc c] Hc. simpl.
    eapply Forall_impl; [apply (IH kc c Hc) |].
    intros q (rel & Hpos & Hget). exists (kc :: rel). split.
    + rewrite Hpos, position_child, <- app_assoc. reflexivity.
    + simpl. rewrite (children_get_child _ _ _ Hc). exact Hget.
Qed.

(** Below a child. *)
Lemma paths_child_position n k pp kc c q :
  q ∈ paths c kc (Some (mkPath n k pp)) ->
  exists rel, position q = position (mkPath n k pp) ++ kc :: rel.
Proof.
  intros Hq.
  pose proof (paths_valid c kc (Some (mkPath n k pp))) as H.
  rewrite Forall_forall in H.
  destruct (H q Hq) as (rel & Hpos & _). exists rel.
  rewrite Hpos, position_child, <- app_assoc. reflexivity.
Qed.

Lemma ForallOrdPairs_app {A} (R : A -> A -> Prop) (l1 l2 : list A) :
  ForallOrdPairs R l1 -> ForallOrdPairs R l2 ->
  (forall a b, a ∈ l1 -> b ∈ l2 -> R a b) ->
  ForallOrdPairs R (l1 ++ l2).
Proof.
  intros H1 H2 H. induction H1 as [|a l1 Ha H1 IH]; simpl; [exact H2 |].
  constructor.
  - apply Forall_app. split; [exact Ha |].
    apply Forall_forall. intros b Hb. apply H; [left | exact Hb].
  - apply IH. intros x y Hx Hy. apply H; [right; exact Hx | exact Hy].
Qed.

(** A path is entered before the paths below it: no path of [paths] lies
    above one that comes before it. *)
Lemma paths_ordered n : forall k pp,
  ForallOrdPairs not_above (paths n k pp).
Proof.
  induction n as [n IH] using node_children_ind; intros k pp.
  rewrite paths_children. constructor.
  - apply Forall_flat_map, Forall_forall. intros [kc c] Hc. simpl.
    apply Forall_forall. intros q Hq.
    destruct (paths_child_position _ _ _ _ _ _ Hq) as (rel & Hpos).
    unfold not_above. rewrite Hpos. intros Hpre.
    apply prefix_length in Hpre. rewrite length_app in Hpre. simpl in Hpre.
    lia.
  - assert (Hgen : forall ch,
               NoDup ch.*1 ->
               (forall kc c, (kc, c) ∈ ch -> (kc, c) ∈ children n) ->
               ForallOrdPairs not_above
                 (flat_map (fun kc : Key * node =>
                              paths kc.2 kc.1 (Some (mkPath n k pp))) ch));
      [| apply Hgen; [apply children_NoDup | auto]].
    intros ch.
    induction ch as [|[kx x] ch IHch]; intros Hnd Hsub; simpl; [constructor |].
    rewrite fmap_cons in Hnd. apply NoDup_cons in Hnd as [Hx Hnd].
    apply ForallOrdPairs_app.
    + apply (IH kx x). apply Hsub. left.
    + apply IHch; [exact Hnd |]. intros kc c Hc. apply Hsub. right. exact Hc.
    + intros a b Ha Hb.
      apply list_elem_of_In, in_flat_map in Hb as ([ky y] & Hy & Hb).
      simpl in Hb. apply list_elem_of_In in Hb. apply list_elem_of_In in Hy.
      destruct (paths_child_position _ _ _ _ _ _ Ha) as (ra & Hpa).
      destruct (paths_child_position _ _ _ _ _ _ Hb) as (rb & Hpb).
      unfold not_above. rewrite Hpa, Hpb. intros Hpre.
      apply prefix_app_inv in Hpre. apply prefix_cons_inv_1 in Hpre.
      subst ky. apply Hx. apply list_elem_of_fmap. exists (kx, y). auto.
Qed.

(** * Properties of the pre-scan *)

Section PreScanFacts.
Variable sc : Scope.
Hypothesis fresh_data : getData_shouldWrap sc = false.

Lemma isIdentifierNamed_spec n s :
  isIdentifierNamed n s = isIdentifier n && String.eqb (node_name n) s.
Proof. destruct n; reflexivity. Qed.

Lemma prescan_ReferencedIdentifier_trigger p ps :
  isReferencedIdentifier p = true ->
  let ps' := prescan_ReferencedIdentifier sc p ps in
  let t := free_module_reference sc p
           && negb (parent_is_typeof p) && negb (parent_is_dot_access p) in
  ps_shouldWrap ps' = (ps_shouldWrap ps || t)
  /\ ps_stopped ps' = (ps_stopped ps || t).
Proof.
  intros Href; cbv zeta.
  unfold free_module_reference, parent_is_typeof, parent_is_dot_access,
    prescan_ReferencedIdentifier.
  rewrite Href, fresh_data; simpl.
  destruct (path_parent p) as [parent|] eqn:Hp; simpl.
  2: { unfold isReferencedIdentifier in Href. rewrite Hp in Href.
       destruct (path_node p); discriminate. }
  rewrite ?andb_true_r.
  destruct (String.eqb_spec (node_name (path_node p)) "module") as [->|Hne];
    simpl.
  - destruct (isMemberExpression parent), (node_computed parent),
      (isUnaryExpression parent && String.eqb (node_operator parent) "typeof"),
      (hasBinding sc p "module" false); simpl;
      rewrite ?orb_false_r, ?orb_true_r; auto.
  - destruct (String.eqb (node_name (path_node p)) "exports"
              && negb (hasBinding sc p "exports" false)); simpl;
      [destruct (negb (exports_safe sc p parent)) |]; simpl;
      rewrite ?orb_false_r; auto.
Qed.

Lemma prescan_MemberExpression_inert p ps :
  ps_shouldWrap (prescan_MemberExpression sc p ps) = ps_shouldWrap ps
  /\ ps_stopped (prescan_MemberExpression sc p ps) = ps_stopped ps.
Proof.
  unfold prescan_MemberExpression.
  destruct (path_parent p); simpl; [| auto].
  destruct (matchesPattern _ _ && _); simpl;
    [destruct (negb (exports_safe sc p n)) |]; simpl; auto.
Qed.

Lemma prescan_CallExpression_trigger p ps :
  ps_shouldWrap (prescan_CallExpression sc p ps)
    = (ps_shouldWrap ps || free_eval_call sc p)
  /\ ps_stopped (prescan_CallExpression sc p ps)
    = (ps_stopped ps || free_eval_call sc p).
Proof.
  unfold prescan_CallExpression, free_eval_call.
  destruct (path_node p); simpl; rewrite ?orb_false_r; auto.
  rewrite isIdentifierNamed_spec.
  destruct (isIdentifier _ && String.eqb _ "eval"
            && negb (hasBinding sc p "eval" true)); simpl;
    rewrite ?orb_false_r, ?orb_true_r; auto.
Qed.

Lemma prescan_ReturnStatement_trigger p ps :
  let t := match getFunctionParent p with None => true | Some _ => false end in
  ps_shouldWrap (prescan_ReturnStatement p ps) = (ps_shouldWrap ps || t)
  /\ ps_stopped (prescan_ReturnStatement p ps) = (ps_stopped ps || t).
Proof.
  unfold prescan_ReturnStatement.
  destruct (getFunctionParent p); simpl; rewrite ?orb_false_r, ?orb_true_r;
    auto.
Qed.

(** Entering one path: the walk stops, and [shouldWrap] becomes true,
    exactly on a trigger. *)
Lemma prescan_visit_trigger p ps :
  ps_shouldWrap (prescan_visit sc p ps)
    = (ps_shouldWrap ps || wrap_trigger sc p)
  /\ ps_stopped (prescan_visit sc p ps)
    = (ps_stopped ps || wrap_trigger sc p).
Proof.
  unfold wrap_trigger, prescan_visit.
  destruct (path_node p) eqn:Hn;
    try (unfold free_module_reference, isReferencedIdentifier,
           toplevel_return, free_eval_call; rewrite Hn; simpl;
         rewrite ?orb_false_r; split; reflexivity).
  - (* Identifier *)
    destruct (isReferencedIdentifier p) eqn:Href.
    + destruct (prescan_ReferencedIdentifier_trigger p ps Href) as [-> ->].
      unfold toplevel_return, free_eval_call; rewrite Hn, !orb_false_r; auto.
    + unfold free_module_reference, toplevel_return, free_eval_call.
      rewrite Href, Hn; simpl. rewrite !orb_false_r; auto.
  - (* MemberExpression *)
    destruct (prescan_MemberExpression_inert p ps) as [-> ->].
    unfold free_module_reference, isReferencedIdentifier,
      toplevel_return, free_eval_call; rewrite Hn; simpl.
    rewrite !orb_false_r; auto.
  - (* CallExpression *)
    destruct (prescan_CallExpression_trigger p ps) as [-> ->].
    unfold free_module_reference, isReferencedIdentifier, toplevel_return.
    rewrite Hn; simpl. auto.
  - (* ReturnStatement *)
    destruct (prescan_ReturnStatement_trigger p ps) as [-> ->].
    unfold free_module_reference, isReferencedIdentifier, toplevel_return,
      free_eval_call.
    rewrite Hn; simpl. rewrite !orb_false_r; auto.
Qed.

(** Entering a path: [path.stop()] is called exactly on a trigger, and
    [shouldWrap] becomes true there. *)
Lemma prescan_enter_trigger p ps :
  ps_shouldWrap (prescan_enter sc ps p)
    = (ps_shouldWrap ps || wrap_trigger sc p)
  /\ ps_stopped (prescan_enter sc ps p) = wrap_trigger sc p.
Proof.
  unfold prescan_enter.
  destruct (prescan_visit_trigger p (ps_enter ps)) as [-> ->]. auto.
Qed.

(** The walk enters the paths of [entered_from], one after the other. *)
Lemma prescan_over_entered l : forall t,
  tr_scan (prescan_over sc t l)
  = fold_left (prescan_enter sc) (entered_from sc (tr_ended t) l) (tr_scan t).
Proof.
  induction l as [|p l IH]; intros t; [reflexivity |].
  cbn [prescan_over fold_left entered_from].
  fold (prescan_over sc (prescan_step sc t p) l). rewrite IH.
  unfold prescan_step.
  destruct (skipped (tr_ended t) p); [reflexivity |].
  cbn [tr_scan tr_ended fold_left].
  destruct (prescan_enter_trigger p (tr_scan t)) as [_ ->]. reflexivity.
Qed.

Lemma fold_enter_shouldWrap l : forall ps,
  ps_shouldWrap (fold_left (prescan_enter sc) l ps)
  = ps_shouldWrap ps || existsb (wrap_trigger sc) l.
Proof.
  induction l as [|p l IH]; intros ps; simpl; [rewrite orb_false_r; auto |].
  rewrite IH. destruct (prescan_enter_trigger p ps) as [-> _].
  rewrite orb_assoc. reflexivity.
Qed.

(** The first trigger of a list is entered. *)
Lemma entered_trigger l :
  existsb (wrap_trigger sc) (entered sc l) = existsb (wrap_trigger sc) l.
Proof.
  unfold entered. induction l as [|p l IH]; simpl; [reflexivity |].
  destruct (wrap_trigger sc p); simpl; [reflexivity | exact IH].
Qed.

(** [shouldWrap] ends up true exactly when the list holds a trigger. *)
Lemma prescan_over_trigger l ps :
  ps_shouldWrap (tr_scan (prescan_over sc (mkTraversal ps []) l))
  = ps_shouldWrap ps || existsb (wrap_trigger sc) l.
Proof.
  rewrite prescan_over_entered. cbn [tr_scan tr_ended].
  rewrite fold_enter_shouldWrap. fold (entered sc l).
  rewrite entered_trigger. reflexivity.
Qed.
End PreScanFacts.

(** ** Reading around a replaced node *)

Lemma get_set_child_ne n k k' x :
k ≠ k' -> get_child (set_child n k x) k' = get_child n k'.
Proof.
intros Hne.
destruct n; destruct k; simpl;
  repeat match goal with
    | |- context [match ?o with Some _ => _ | None => _ end] =>
        is_var o; destruct o; simpl
    end;
  try reflexivity;
  destruct k'; simpl; try reflexivity; try congruence;
  apply list_lookup_insert_ne; congruence.
Qed.

Lemma get_set_child_eq n k x c :
get_child n k = Some c -> get_child (set_child n k x) k = Some x.
Proof.
destruct n; destruct k; simpl; try discriminate; intros H;
  repeat match goal with
    | |- context [match ?o with Some _ => _ | None => _ end] =>
        is_var o; destruct o; simpl
    end;
  try reflexivity; try discriminate;
  apply list_lookup_insert_eq; eapply lookup_lt_Some; exact H.
Qed.

Lemma get_at_replace_at_disjoint pos : forall root pos' x,
¬ pos `prefix_of` pos' -> ¬ pos' `prefix_of` pos ->
get_at (replace_at root pos x) pos' = get_at root pos'.
Proof.
induction pos as [|k r IH]; intros root pos' x H1 H2.
- exfalso; apply H1, prefix_nil.
- destruct pos' as [|k' r']; [exfalso; apply H2, prefix_nil |].
  simpl. destruct (get_child root k) as [c|] eqn:Hc; [| reflexivity].
  destruct (decide (k = k')) as [<-|Hne].
  + rewrite (get_set_child_eq _ _ _ _ Hc), Hc.
    apply IH.
    * intros Hp; apply H1, prefix_cons, Hp.
    * intros Hp; apply H2, prefix_cons, Hp.
  + rewrite get_set_child_ne by exact Hne. reflexivity.
Qed.

(** ** What the pre-scan leaves alone *)

Section PreScanFrame.
Variable sc : Scope.

(** The pre-scan writes to [asset.meta] and adds dependencies; the id, the
    file path and the symbol table of the asset stay as they are. *)

Lemma same_identity_refl a : same_identity a a.
Proof. repeat split. Qed.

Lemma prescan_visit_identity p ps :
  same_identity (ps_asset ps) (ps_asset (prescan_visit sc p ps)).
Proof.
  unfold prescan_visit, prescan_ImportDeclaration, prescan_ExportDeclaration,
    prescan_CallExpression, prescan_ReturnStatement,
    prescan_ReferencedIdentifier, prescan_MemberExpression.
  destruct (path_node p); simpl;
    repeat match goal with
      | |- context [if ?c then _ else _] => destruct c; simpl
      | |- context [match ?o with Some _ => _ | None => _ end] =>
          destruct o; simpl
      end;
    unfold same_identity; simpl; auto.
Qed.

Lemma prescan_enter_identity p ps :
  same_identity (ps_asset ps) (ps_asset (prescan_enter sc ps p)).
Proof. apply (prescan_visit_identity p (ps_enter ps)). Qed.

Lemma fold_enter_identity l : forall ps,
  same_identity (ps_asset ps) (ps_asset (fold_left (prescan_enter sc) l ps)).
Proof.
  induction l as [|p l IH]; intros ps; simpl; [apply same_identity_refl |].
  destruct (prescan_enter_identity p ps) as (H1 & H2 & H3).
  destruct (IH (prescan_enter sc ps p)) as (I1 & I2 & I3).
  repeat split; congruence.
Qed.

(** [replaceWith] is called on the top-level return statements only. *)
Lemma prescan_visit_replaced p ps :
  ps_replaced (prescan_visit sc p ps)
  = ps_replaced ps ++ (if toplevel_return p then [p] else []).
Proof.
  unfold prescan_visit, toplevel_return, prescan_ImportDeclaration,
    prescan_ExportDeclaration, prescan_CallExpression,
    prescan_ReturnStatement, prescan_ReferencedIdentifier,
    prescan_MemberExpression.
  destruct (path_node p); simpl;
    repeat match goal with
      | |- context [if ?c then _ else _] => destruct c; simpl
      | |- context [match ?o with Some _ => _ | None => _ end] =>
          destruct o; simpl
      end;
    rewrite ?app_nil_r; reflexivity.
Qed.

Lemma fold_enter_replaced l : forall ps,
  ps_replaced (fold_left (prescan_enter sc) l ps)
  = ps_replaced ps ++ List.filter toplevel_return l.
Proof.
  induction l as [|p l IH]; intros ps; simpl; [rewrite app_nil_r; auto |].
  rewrite IH. unfold prescan_enter at 1. rewrite prescan_visit_replaced.
  simpl. rewrite <- app_assoc.
  destruct (toplevel_return p); reflexivity.
Qed.

Lemma toplevel_return_is_trigger p :
  toplevel_return p = true -> wrap_trigger sc p = true.
Proof.
  intros H. unfold wrap_trigger. rewrite H.
  rewrite orb_true_r. reflexivity.
Qed.

(** ** The paths the pre-scan enters *)

Lemma skipped_app e e' q : skipped (e ++ e') q = skipped e q || skipped e' q.
Proof. unfold skipped. apply existsb_app. Qed.

Lemma skipped_below e q r :
  skipped e q = true -> position q `prefix_of` position r ->
  skipped e r = true.
Proof.
  unfold skipped. rewrite !existsb_exists. intros (pos & Hin & Hs) Hqr.
  exists pos. split; [exact Hin |].
  apply starts_with_prefix. apply starts_with_prefix in Hs.
  etrans; eassumption.
Qed.

(** Leaving out from the start what lies below a path whose visit was
    ended. *)
Lemma entered_from_cons e l : forall es,
  entered_from sc (e :: es) l
  = entered_from sc es
      (List.filter (fun q => negb (starts_with e (position q))) l).
Proof.
  induction l as [|p l IH]; intros es; [reflexivity |].
  cbn [entered_from List.filter]. unfold skipped at 1. cbn [existsb].
  fold (skipped es p).
  destruct (starts_with e (position p)); cbn [negb orb]; [apply IH |].
  cbn [entered_from].
  destruct (skipped es p); [apply IH |].
  f_equal. destruct (wrap_trigger sc p); apply IH.
Qed.

Lemma entered_before_trigger l1 r :
  existsb (wrap_trigger sc) l1 = false ->
  entered sc (l1 ++ r) = l1 ++ entered sc r.
Proof.
  unfold entered. induction l1 as [|p l1 IH]; intros H; [reflexivity |].
  simpl in H. apply orb_false_iff in H as [Hp H].
  cbn [app entered_from skipped existsb]. rewrite Hp, IH by exact H.
  reflexivity.
Qed.

Lemma entered_first_trigger l1 p l2 :
  existsb (wrap_trigger sc) l1 = false -> wrap_trigger sc p = true ->
  entered sc (l1 ++ p :: l2)
  = l1 ++ p :: entered sc (List.filter (outside_parent p) l2).
Proof.
  intros H1 Hp. rewrite entered_before_trigger by exact H1. f_equal.
  unfold entered. cbn [entered_from skipped existsb app]. rewrite Hp.
  f_equal. apply entered_from_cons.
Qed.

Lemma entered_from_sublist l : forall e, sublist (entered_from sc e l) l.
Proof.
  induction l as [|p l IH]; intros e; simpl; [constructor |].
  destruct (skipped e p); [apply sublist_cons, IH | apply sublist_skip, IH].
Qed.

Lemma entered_from_not_skipped l : forall e,
  Forall (fun q => skipped e q = false) (entered_from sc e l).
Proof.
  induction l as [|p l IH]; intros e; simpl; [constructor |].
  destruct (skipped e p) eqn:Hs; [apply IH |].
  constructor; [exact Hs |].
  eapply Forall_impl; [apply IH |]. intros q Hq. simpl in Hq.
  destruct (wrap_trigger sc p); [| exact Hq].
  rewrite skipped_app in Hq. apply orb_false_iff in Hq as [Hq _]. exact Hq.
Qed.

(** What a trigger cuts off: no path that is entered after a trigger lies
    below the parent of the trigger. *)
Lemma entered_from_cut_off l : forall e,
  ForallOrdPairs (cut_off sc) (entered_from sc e l).
Proof.
  induction l as [|p l IH]; intros e; simpl; [constructor |].
  destruct (skipped e p); [apply IH |].
  constructor; [| apply IH].
  eapply Forall_impl; [apply entered_from_not_skipped |].
  intros q Hq Hp. simpl in Hq. rewrite Hp, skipped_app in Hq.
  apply orb_false_iff in Hq as [_ Hq]. unfold skipped in Hq. simpl in Hq.
  rewrite orb_false_r in Hq. exact Hq.
Qed.

(** The list of ended visits after a list of paths. *)
Lemma entered_from_app l1 : forall e l2,
  exists e',
    entered_from sc e (l1 ++ l2)
    = entered_from sc e l1 ++ entered_from sc (e ++ e') l2.
Proof.
  induction l1 as [|p l1 IH]; intros e l2.
  - exists []. rewrite app_nil_r. reflexivity.
  - cbn [app entered_from]. destruct (skipped e p).
    + apply IH.
    + destruct (wrap_trigger sc p).
      * destruct (IH (e ++ [parent_position p]) l2) as [e' ->].
        exists (parent_position p :: e'). rewrite <- app_assoc. reflexivity.
      * destruct (IH e l2) as [e' ->]. exists e'. reflexivity.
Qed.

(** A path that is left out has nothing entered below it. *)
Lemma left_out_below l1 q l2 r :
  q ∉ entered sc (l1 ++ q :: l2) ->
  r ∈ entered sc (l1 ++ q :: l2) ->
  position q `prefix_of` position r ->
  r ∈ entered sc l1.
Proof.
  unfold entered. intros Hq Hr Hqr.
  destruct (entered_from_app l1 [] (q :: l2)) as [e' E].
  rewrite E in Hq, Hr. clear E. simpl in Hq, Hr.
  apply elem_of_app in Hr as [Hr|Hr]; [exact Hr | exfalso].
  destruct (skipped e' q) eqn:Hs.
  - pose proof (entered_from_not_skipped l2 e') as Hn.
    rewrite Forall_forall in Hn. specialize (Hn r Hr).
    rewrite (skipped_below e' q r Hs Hqr) in Hn. discriminate.
  - apply Hq, elem_of_app. right. left.
Qed.
End PreScanFrame.

Lemma crawl_fresh_data ast old : getData_shouldWrap (crawl ast old) = false.
Proof. reflexivity. Qed.

(** The pre-scan of a program enters the paths of [entered], one after the
    other. *)
Lemma prescan_entered a ast :
  let sc := crawl ast empty_scope in
  prescan sc a ast
  = fold_left (prescan_enter sc) (entered sc (program_paths ast))
      (mkPreScan a false false []).
Proof.
  intros sc. unfold prescan.
  rewrite (prescan_over_entered sc (crawl_fresh_data _ _)). reflexivity.
Qed.

Lemma prescan_identity a ast :
  same_identity a (ps_asset (prescan (crawl ast empty_scope) a ast)).
Proof.
  rewrite prescan_entered.
  apply (fold_enter_identity _ _ (mkPreScan a false false [])).
Qed.

(** ** The wrap decision *)

(** C1 (as amended).  For every input tree the pre-scan sets [shouldWrap] to
    true exactly when the tree holds a free reference to [module] whose parent
    is neither [typeof module] nor a member access written with a dot
    ([module.<id>]; a computed access such as [module["id"]] does make it
    wrap), or a return statement with no enclosing function, or a call to
    [eval] with no local binding for [eval]; otherwise [shouldWrap] stays
    false. *)
Theorem prescan_shouldWrap_exactly (a : Asset) (ast : node) :
  ps_shouldWrap (prescan (crawl ast empty_scope) a ast)
  = existsb (wrap_trigger (crawl ast empty_scope)) (program_paths ast).
Proof.
  unfold prescan.
  apply (prescan_over_trigger (crawl ast empty_scope)
           (crawl_fresh_data ast empty_scope)).
Qed.

(** C1 as the specification words it fails on [module["id"];]: no path of
    that tree is a trigger in the sense of the specification, yet the
    pre-scan sets [shouldWrap]. *)
Lemma prescan_wraps_on_module_string_access :
  let ast := sample_module_string_access in
  let sc := crawl ast empty_scope in
  existsb (wrap_trigger_spec sc) (program_paths ast) = false
  /\ ps_shouldWrap (prescan sc sample_asset ast) = true.
Proof. split; vm_compute; reflexivity. Qed.

(** ** The default to CommonJS *)

Lemma getName_exports a :
  getName a "exports" [] = "$" +:+ asset_id a +:+ "$exports".
Proof. reflexivity. Qed.

(** C4.  When the pre-scan leaves both [isES6Module] and [isCommonJS] unset,
    [Program.enter] ends with [asset.meta.isCommonJS] true and with the
    symbol table of the asset mapping ["*"] to [$<asset.id>$exports]. *)
Theorem enter_defaults_to_CommonJS (a : Asset) (ast : node) :
  let ps := prescan (crawl ast empty_scope) (enter_asset a) ast in
  isES6Module (meta (ps_asset ps)) = false ->
  isCommonJS (meta (ps_asset ps)) = false ->
  exists st,
    Program_enter a ast = Ok st
    /\ isCommonJS (meta (st_asset st)) = true
    /\ symbols_get (symbols (st_asset st)) "*"
       = Some (mkSymbol ("$" +:+ asset_id a +:+ "$exports") false).
Proof.
  intros ps Hes Hcjs.
  destruct (prescan_identity (enter_asset a) ast) as (Hid & _ & Hsym).
  fold ps in Hid, Hsym. simpl in Hid, Hsym.
  unfold Program_enter. fold ps. rewrite Hes, Hcjs. simpl.
  unfold asset_symbols_set; simpl. rewrite Hsym.
  destruct (symbols a) as [m|]; simpl;
    (eexists; split; [reflexivity |]; simpl; split; [reflexivity |];
     rewrite lookup_insert_eq; unfold getName; rewrite Hid; reflexivity).
Qed.

Lemma enter_defaults_to_CommonJS_witness :
  exists st,
    Program_enter sample_asset sample_plain_call = Ok st
    /\ isCommonJS (meta (st_asset st)) = true
    /\ symbols_get (symbols (st_asset st)) "*"
       = Some (mkSymbol "$a1b2$exports" false).
Proof.
  apply (enter_defaults_to_CommonJS sample_asset sample_plain_call);
    vm_compute; reflexivity.
Defined.

(** ** Pairs of a list, in the order of the list *)

Lemma ForallOrdPairs_sublist {A} (R : A -> A -> Prop) (l' l : list A) :
  sublist l' l -> ForallOrdPairs R l -> ForallOrdPairs R l'.
Proof.
  induction 1 as [|x l1 l2 Hs IH|x l1 l2 Hs IH]; intros H;
    [constructor | |]; inversion H as [|? ? Hx Hl]; subst.
  - constructor; [| apply IH, Hl].
    rewrite Forall_forall in Hx. apply Forall_forall. intros b Hb.
    apply Hx. eapply elem_of_sublist; eassumption.
  - apply IH, Hl.
Qed.

Lemma ForallOrdPairs_and {A} (R1 R2 : A -> A -> Prop) (l : list A) :
  ForallOrdPairs R1 l -> ForallOrdPairs R2 l ->
  ForallOrdPairs (fun a b => R1 a b /\ R2 a b) l.
Proof.
  induction 1 as [|a l Ha Hl IH]; intros H2; [constructor |].
  inversion H2 as [|? ? Ha2 Hl2]; subst. constructor; [| apply IH, Hl2].
  rewrite Forall_forall in Ha, Ha2. apply Forall_forall. auto.
Qed.

Lemma ForallOrdPairs_impl_elem {A} (R R' : A -> A -> Prop) (l : list A) :
  (forall a b, a ∈ l -> b ∈ l -> R a b -> R' a b) ->
  ForallOrdPairs R l -> ForallOrdPairs R' l.
Proof.
  intros Himp H. induction H as [|a l Ha Hl IH]; [constructor |].
  constructor.
  - rewrite Forall_forall in Ha. apply Forall_forall. intros b Hb.
    apply Himp; [left | right; exact Hb | apply Ha, Hb].
  - apply IH. intros x y Hx Hy. apply Himp; right; assumption.
Qed.

Lemma ForallOrdPairs_split {A} (R : A -> A -> Prop) (l1 l2 : list A) x :
  ForallOrdPairs R (l1 ++ x :: l2) -> Forall (fun a => R a x) l1.
Proof.
  induction l1 as [|a l1 IH]; simpl; intros H; [constructor |].
  inversion H as [|? ? Ha Hl]; subst. constructor; [| apply IH, Hl].
  rewrite Forall_forall in Ha. apply Ha, elem_of_app. right. left.
Qed.

Lemma filter_sublist {A} (f : A -> bool) (l : list A) :
  sublist (List.filter f l) l.
Proof.
  induction l as [|x l IH]; simpl; [constructor |].
  destruct (f x); [apply sublist_skip, IH | apply sublist_cons, IH].
Qed.

Lemma elem_of_filter_bool {A} (f : A -> bool) (l : list A) x :
  x ∈ List.filter f l <-> x ∈ l /\ f x = true.
Proof. rewrite !list_elem_of_In. apply filter_In. Qed.

(** ** Reading a tree after replacements *)

Lemma get_at_replace_at_same pos : forall root x,
  is_Some (get_at root pos) -> get_at (replace_at root pos x) pos = Some x.
Proof.
  induction pos as [|k pos IH]; intros root x H; simpl; [reflexivity |].
  simpl in H. destruct (get_child root k) as [c|] eqn:Hc.
  - rewrite (get_set_child_eq _ _ _ _ Hc). apply IH, H.
  - destruct H as [? H]. discriminate.
Qed.

Section Replacements.
Variable x : node.

Lemma replace_each_frame l : forall root pos,
  Forall (fun r => apart (position r) pos) l ->
  get_at (replace_each x l root) pos = get_at root pos.
Proof.
  induction l as [|r l IH]; intros root pos H; [reflexivity |].
  inversion H as [|? ? [H1 H2] Hl]; subst.
  cbn [replace_each fold_left].
  fold (replace_each x l (replace_at root (position r) x)).
  rewrite IH by exact Hl.
  apply get_at_replace_at_disjoint; assumption.
Qed.

Lemma replace_each_read l : forall root,
  ForallOrdPairs (fun a b => apart (position a) (position b)) l ->
  Forall (fun r => is_Some (get_at root (position r))) l ->
  Forall (fun r => get_at (replace_each x l root) (position r) = Some x) l.
Proof.
  induction l as [|r l IH]; intros root Hp Hv; [constructor |].
  inversion Hp as [|? ? Hr Hl]; subst.
  inversion Hv as [|? ? Hvr Hvl]; subst.
  constructor.
  - cbn [replace_each fold_left].
    fold (replace_each x l (replace_at root (position r) x)).
    rewrite replace_each_frame.
    + apply get_at_replace_at_same, Hvr.
    + eapply Forall_impl; [exact Hr |]. intros b [H1 H2]. split; assumption.
  - cbn [replace_each fold_left].
    fold (replace_each x l (replace_at root (position r) x)).
    apply IH; [exact Hl |].
    rewrite Forall_forall in Hr, Hvl. apply Forall_forall. intros b Hb.
    destruct (Hr b Hb) as [H1 H2].
    rewrite get_at_replace_at_disjoint by assumption. apply Hvl, Hb.
Qed.
End Replacements.

(** ** The paths of a program *)

Lemma program_paths_valid ast q :
  q ∈ program_paths ast -> get_at ast (position q) = Some (path_node q).
Proof.
  intros Hq. pose proof (paths_valid ast K_root None) as H.
  rewrite Forall_forall in H.
  destruct (H q) as (rel & Hpos & Hget).
  - unfold program_paths in Hq. rewrite paths_children in *. right. exact Hq.
  - rewrite Hpos. exact Hget.
Qed.

Lemma program_paths_ordered ast :
  ForallOrdPairs not_above (program_paths ast).
Proof.
  pose proof (paths_ordered ast K_root None) as H.
  unfold program_paths. rewrite paths_children in *.
  inversion H; subst. assumption.
Qed.

(** ** Where the pre-scan stops *)

(** The replaced paths lie apart from one another. *)
Lemma replaced_apart sc ast :
  ForallOrdPairs (fun a b => apart (position a) (position b))
    (List.filter toplevel_return (entered sc (program_paths ast))).
Proof.
  eapply ForallOrdPairs_impl_elem;
    [| eapply ForallOrdPairs_sublist;
       [apply filter_sublist |
        apply ForallOrdPairs_and;
        [apply entered_from_cut_off |
         eapply ForallOrdPairs_sublist;
         [apply entered_from_sublist | apply program_paths_ordered]]]].
  intros a b Ha _ [Hcut Hord].
  apply elem_of_filter_bool in Ha as [_ Ha].
  apply (toplevel_return_is_trigger sc) in Ha. specialize (Hcut Ha).
  split; [| exact Hord].
  intros Hpre. apply not_true_iff_false in Hcut. apply Hcut.
  apply starts_with_prefix. etrans; [apply parent_position_prefix | exact Hpre].
Qed.

(** C10 (as amended).  [path.stop()] does not end the pre-scan: at the
    first path that sets [shouldWrap] the walk leaves out what is left below
    the parent of that path, and goes on with the paths outside the parent,
    where it may stop again in the same way.  So:
    - the paths entered are those up to the first trigger [p], and of the
      later ones those that the walk enters when it is run on the paths that
      do not lie below the parent of [p]; when [p] is a statement of the
      program itself nothing after it is entered;
    - the state the pre-scan ends with is the one the entered paths make,
      one after the other, so a path that is not entered updates nothing;
    - the paths replaced are the top-level return statements entered; each
      of them reads [return module.exports;] afterwards, and a path of the
      program that is not entered, a later top-level return for one, still
      holds its node (unless it lies inside a return statement that was
      replaced). *)
Theorem prescan_stop_ends_parent_only
    (a : Asset) (ast : node) (l1 l2 : list NodePath) (p : NodePath) :
  let sc := crawl ast empty_scope in
  program_paths ast = l1 ++ p :: l2 ->
  existsb (wrap_trigger sc) l1 = false ->
  wrap_trigger sc p = true ->
  let ps := prescan sc a ast in
  let seen := entered sc (program_paths ast) in
  seen = l1 ++ p :: entered sc (List.filter (outside_parent p) l2)
  /\ (parent_position p = [] -> seen = l1 ++ [p])
  /\ ps = fold_left (prescan_enter sc) seen (mkPreScan a false false [])
  /\ ps_replaced ps = List.filter toplevel_return seen
  /\ (forall q, q ∈ seen -> toplevel_return q = true ->
      get_at (prescan_ast ast ps) (position q)
      = Some (ReturnStatement
                (Some (MemberExpression (Identifier "module")
                         (Identifier "exports") false))))
  /\ (forall q, q ∈ program_paths ast -> q ∉ seen ->
      (forall r, r ∈ seen -> toplevel_return r = true ->
                 ¬ position r `prefix_of` position q) ->
      get_at (prescan_ast ast ps) (position q) = Some (path_node q)).
Proof.
  intros sc Hsplit Hl1 Hp ps seen.
  assert (Hfresh : getData_shouldWrap sc = false) by reflexivity.
  assert (Hseen : seen
                  = l1 ++ p :: entered sc (List.filter (outside_parent p) l2)).
  { unfold seen. rewrite Hsplit. apply entered_first_trigger; assumption. }
  assert (Hps : ps = fold_left (prescan_enter sc) seen
                       (mkPreScan a false false [])).
  { unfold ps, prescan. rewrite (prescan_over_entered sc Hfresh). reflexivity. }
  assert (Hrep : ps_replaced ps = List.filter toplevel_return seen).
  { rewrite Hps, fold_enter_replaced. reflexivity. }
  assert (Hast : prescan_ast ast ps
                 = replace_each return_module_exports
                     (List.filter toplevel_return seen) ast).
  { unfold prescan_ast. rewrite Hrep. reflexivity. }
  assert (Hin : forall q, q ∈ seen -> q ∈ program_paths ast).
  { intros q Hq. eapply elem_of_sublist; [exact Hq |].
    apply entered_from_sublist. }
  split; [exact Hseen |]. split; [| split; [exact Hps |]].
  { intros Hpp. rewrite Hseen. f_equal. f_equal.
    replace (List.filter (outside_parent p) l2) with (@nil NodePath);
      [reflexivity |].
    symmetry. clear - Hpp. induction l2 as [|q l2 IH]; simpl; [reflexivity |].
    unfold outside_parent at 1. rewrite Hpp. simpl. exact IH. }
  split; [exact Hrep |]. split.
  - intros q Hq Hret. rewrite Hast.
    assert (Hv : Forall (fun r => is_Some (get_at ast (position r)))
                   (List.filter toplevel_return seen)).
    { apply Forall_forall. intros r Hr.
      apply elem_of_filter_bool in Hr as [Hr _].
      rewrite (program_paths_valid ast r (Hin r Hr)). eauto. }
    pose proof (replace_each_read return_module_exports
                  (List.filter toplevel_return seen) ast
                  (replaced_apart sc ast) Hv) as Hread.
    rewrite Forall_forall in Hread. apply Hread.
    apply elem_of_filter_bool. auto.
  - intros q Hq Hout Hbelow. rewrite Hast, replace_each_frame.
    + apply program_paths_valid, Hq.
    + apply Forall_forall. intros r Hr.
      apply elem_of_filter_bool in Hr as [Hr Hret].
      split; [apply Hbelow; assumption |].
      intros Habove.
      apply list_elem_of_split in Hq as (m1 & m2 & Hm).
      unfold seen in Hout, Hr. rewrite Hm in Hout, Hr.
      pose proof (left_out_below sc m1 q m2 r Hout Hr Habove) as Hr1.
      assert (Hrm : r ∈ m1).
      { eapply elem_of_sublist; [exact Hr1 | apply entered_from_sublist]. }
      pose proof (program_paths_ordered ast) as Hord. rewrite Hm in Hord.
      apply ForallOrdPairs_split in Hord. rewrite Forall_forall in Hord.
      exact (Hord r Hrm Habove).
Qed.

(** On [if (c) { return 1; } export default 3; return 2;] the walk stops in
    the block, leaves out the literal [1], and goes on: it enters the export
    declaration and the second return, and replaces both returns.  On
    [return 1; return 2;] the first trigger is a statement of the program:
    nothing after it is entered and the second return is still
    [return 2;]. *)
Lemma prescan_stop_ends_parent_only_witness :
  (let ast := sample_two_returns in
   let ps := prescan (crawl ast empty_scope) sample_asset ast in
   map position (entered (crawl ast empty_scope) (program_paths ast))
   = [[K_body 0%nat]]
   /\ get_at (prescan_ast ast ps) [K_body 0%nat]
      = Some (ReturnStatement
                (Some (MemberExpression (Identifier "module")
                         (Identifier "exports") false)))
   /\ get_at (prescan_ast ast ps) [K_body 1%nat]
      = Some (ReturnStatement (Some (NumericLiteral 2)))) /\
  let ast := sample_nested_return in
  let ps := prescan (crawl ast empty_scope) sample_asset ast in
  map position (entered (crawl ast empty_scope) (program_paths ast))
  = [[K_body 0]; [K_body 0; K_test]; [K_body 0; K_consequent];
     [K_body 0; K_consequent; K_body 0];
     [K_body 1]; [K_body 1; K_declaration]; [K_body 2]]%nat
  /\ get_at (prescan_ast ast ps) [K_body 0; K_consequent; K_body 0]%nat
     = Some (ReturnStatement
               (Some (MemberExpression (Identifier "module")
                        (Identifier "exports") false)))
  /\ get_at (prescan_ast ast ps) [K_body 2]%nat
     = Some (ReturnStatement
               (Some (MemberExpression (Identifier "module")
                        (Identifier "exports") false)))
  /\ isES6Module (meta (ps_asset ps)) = true.
Proof.
  split.
  { intros ast ps.
    destruct (prescan_stop_ends_parent_only sample_asset ast []
                (drop 1 (program_paths ast))
                (mkPath (ReturnStatement (Some (NumericLiteral 1)))
                   (K_body 0%nat) (Some (mkPath ast K_root None)))
                eq_refl eq_refl eq_refl)
      as (_ & Hend & _ & _ & Hread & Hkeep).
    specialize (Hend eq_refl).
    split; [rewrite Hend; reflexivity |]. split.
    - apply (Hread (mkPath (ReturnStatement (Some (NumericLiteral 1)))
                      (K_body 0%nat) (Some (mkPath ast K_root None)))).
      + rewrite Hend. left.
      + reflexivity.
    - apply (Hkeep (mkPath (ReturnStatement (Some (NumericLiteral 2)))
                      (K_body 1%nat) (Some (mkPath ast K_root None)))).
      + apply list_elem_of_In. vm_compute. tauto.
      + rewrite Hend. intros H. apply list_elem_of_singleton in H.
        discriminate H.
      + intros r Hr _. rewrite Hend in Hr.
        apply list_elem_of_singleton in Hr. subst r.
        intros [k Hk]. vm_compute in Hk. discriminate Hk. }
  intros ast ps.
  destruct (prescan_stop_ends_parent_only sample_asset ast
              (take 3 (program_paths ast))
              (drop 4 (program_paths ast))
              (mkPath (ReturnStatement (Some (NumericLiteral 1)))
                 (K_body 0%nat)
                 (Some (mkPath
                          (BlockStatement []
                             [ReturnStatement (Some (NumericLiteral 1))])
                          K_consequent
                          (Some (mkPath
                                   (IfStatement (Identifier "c")
                                      (BlockStatement []
                                         [ReturnStatement
                                            (Some (NumericLiteral 1))])
                                      None)
                                   (K_body 0%nat)
                                   (Some (mkPath ast K_root None)))))))
              eq_refl eq_refl eq_refl)
    as (Hseen & _ & Hps & _ & Hread & _).
  split; [rewrite Hseen; reflexivity |].
  split; [| split].
  - apply (Hread (mkPath (ReturnStatement (Some (NumericLiteral 1)))
                 (K_body 0%nat)
                 (Some (mkPath
                          (BlockStatement []
                             [ReturnStatement (Some (NumericLiteral 1))])
                          K_consequent
                          (Some (mkPath
                                   (IfStatement (Identifier "c")
                                      (BlockStatement []
                                         [ReturnStatement
                                            (Some (NumericLiteral 1))])
                                      None)
                                   (K_body 0%nat)
                                   (Some (mkPath ast K_root None)))))))).
    + rewrite Hseen. apply list_elem_of_In. vm_compute. tauto.
    + reflexivity.
  - apply (Hread (mkPath (ReturnStatement (Some (NumericLiteral 2)))
                    (K_body 2%nat) (Some (mkPath ast K_root None)))).
    + rewrite Hseen. apply list_elem_of_In. vm_compute. tauto.
    + reflexivity.
  - fold ps in Hps. rewrite Hps, Hseen. reflexivity.
Defined.

(** C10 as stated fails on
    [if (c) { return 1; } export default 3; return 2;]: the first trigger is
    the return in the block, yet [Program.enter] also replaces the later
    top-level return, whose argument [2] is lost, and the export declaration
    that comes after the first trigger sets [isES6Module]. *)
Lemma later_return_replaced :
  let ast := sample_nested_return in
  let sc := crawl ast empty_scope in
  position <$> List.find (wrap_trigger sc) (program_paths ast)
  = Some [K_body 0; K_consequent; K_body 0]%nat
  /\ get_at ast [K_body 2]%nat
     = Some (ReturnStatement (Some (NumericLiteral 2)))
  /\ isES6Module (meta sample_asset) = false
  /\ match Program_enter sample_asset ast with
     | Ok st =>
         get_at (st_ast st) [K_body 2]%nat
         = Some (ReturnStatement
                   (Some (MemberExpression (Identifier "module")
                            (Identifier "exports") false)))
         /\ isES6Module (meta (st_asset st)) = true
     | Throw _ => False
     end.
Proof. vm_compute. repeat split. Qed.

(** * Properties of the main visitor *)

(** ** The CommonJS rewriter on a wrapped module *)

(** C6 as stated fails: on a scope marked [shouldWrap] a free [global] is
    still rewritten to [$parcel$global]; [hoist] wraps [eval("x"); global;]
    and the wrapped body reads [$parcel$global]. *)
Lemma global_rewritten_in_wrapped_module :
  getData_shouldWrap (h_scope sample_wrapped_state) = true
  /\ VISITOR_ReferencedIdentifier
       (statement_expression_path (Identifier "global")) sample_wrapped_state
     = (sample_wrapped_state, Some (Identifier "$parcel$global"))
  /\ match hoist no_rename sample_asset (sample_ast sample_eval_global) with
     | Hoisted _ ast' =>
         mentions "$parcel$global" (ast_program ast') = true
         /\ mentions "global" (ast_program ast') = false
     | _ => False
     end.
Proof.
  split; [reflexivity |]. split; [reflexivity |].
  vm_compute. split; reflexivity.
Qed.

(** The handlers that test [shouldWrap], on a scope that is marked. *)
Lemma wrapped_handlers_inert (p : NodePath) (st : HState) :
  getData_shouldWrap (h_scope st) = true ->
  VISITOR_MemberExpression p st = Ok (st, None)
  /\ VISITOR_ThisExpression p st = (st, None)
  /\ VISITOR_UnaryExpression p st = None
  /\ VISITOR_AssignmentExpression p st = Ok (st, AE_keep)
  /\ VISITOR_ReferencedIdentifier p st
     = (st,
        if String.eqb (node_name (path_node p)) "global"
           && negb (hasBinding (h_scope st) p "global" false)
        then Some (Identifier "$parcel$global")
        else None).
Proof.
  intros Hw. repeat split.
  - unfold VISITOR_MemberExpression. rewrite Hw, orb_true_r. reflexivity.
  - unfold VISITOR_ThisExpression. rewrite Hw. reflexivity.
  - unfold VISITOR_UnaryExpression. rewrite Hw.
    destruct (path_node p); try reflexivity.
    destruct (String.eqb operator "typeof" && isIdentifier n); try reflexivity.
    destruct (TYPEOF (node_name n)); try reflexivity.
    rewrite andb_false_r. reflexivity.
  - unfold VISITOR_AssignmentExpression. rewrite Hw. reflexivity.
  - unfold VISITOR_ReferencedIdentifier. rewrite Hw.
    rewrite andb_false_r. simpl.
    destruct (String.eqb (node_name (path_node p)) "global"
              && negb (hasBinding (h_scope st) p "global" false));
      reflexivity.
Qed.


(** C6 (as amended).  On a program scope marked [shouldWrap] the handlers of
    the CommonJS rewriter leave the node and the state as they are: no
    [module.*] member, no [exports], no [this], no [typeof], no assignment
    is rewritten.  The one exception is a free [global], which is rewritten
    to [$parcel$global] whether or not the scope is marked. *)
Theorem no_CommonJS_rewrite_when_wrapped (p : NodePath) (st : HState) :
  getData_shouldWrap (h_scope st) = true ->
  VISITOR_MemberExpression p st = Ok (st, None)
  /\ VISITOR_ThisExpression p st = (st, None)
  /\ VISITOR_UnaryExpression p st = None
  /\ VISITOR_AssignmentExpression p st = Ok (st, AE_keep)
  /\ VISITOR_ReferencedIdentifier p st
     = (st,
        if String.eqb (node_name (path_node p)) "global"
           && negb (hasBinding (h_scope st) p "global" false)
        then Some (Identifier "$parcel$global")
        else None).
Proof. exact (wrapped_handlers_inert p st). Qed.

Lemma no_CommonJS_rewrite_when_wrapped_witness :
  VISITOR_MemberExpression
    (statement_expression_path
       (MemberExpression (Identifier "module") (Identifier "exports") false))
    sample_wrapped_state
  = Ok (sample_wrapped_state, None).
Proof.
  apply (no_CommonJS_rewrite_when_wrapped
           (statement_expression_path
              (MemberExpression (Identifier "module") (Identifier "exports")
                 false))
           sample_wrapped_state).
  reflexivity.
Defined.

(** ** [require] of a module that is not a dependency *)

Lemma find_dependency_from_none ds x i :
  Forall (fun d => moduleSpecifier d ≠ x) ds ->
  find_dependency_from i ds x = None.
Proof.
  intros H; revert i; induction H as [|d ds Hd _ IH]; intros i; simpl;
    [reflexivity |].
  destruct (String.eqb_spec (moduleSpecifier d) x); [contradiction | apply IH].
Qed.

(** C7.  A call [require(x)] with one string-literal argument and no local
    binding for [require], where [x] is the module specifier of no
    dependency of the asset, is left as it is, and the handler changes
    nothing in the asset, its dependencies or the program scope. *)
Theorem require_of_unknown_dependency_untouched
    (getBinding : BindingSite -> string -> Result (option Binding))
    (p : NodePath) (st : HState) (x : string) :
  path_node p = CallExpression (Identifier "require") [StringLiteral x] ->
  hasBinding (h_scope st) p "require" false = false ->
  Forall (fun d => moduleSpecifier d ≠ x) (dependencies (h_asset st)) ->
  VISITOR_CallExpression getBinding p st = Ok (st, None).
Proof.
  intros Hn Hb Hd. unfold VISITOR_CallExpression. rewrite Hn, Hb. simpl.
  unfold find_dependency. rewrite find_dependency_from_none by exact Hd.
  reflexivity.
Qed.

Lemma require_of_unknown_dependency_untouched_witness :
  VISITOR_CallExpression no_bindings
    (statement_expression_path sample_require_missing) sample_state
  = Ok (sample_state, None).
Proof.
  apply (require_of_unknown_dependency_untouched no_bindings
           (statement_expression_path sample_require_missing) sample_state
           "./missing").
  - reflexivity.
  - reflexivity.
  - simpl. constructor.
Defined.

(** ** [require.resolve] *)

(** C9.  A call [require.resolve(s)] with one string-literal argument and no
    local binding for [require] is replaced by
    [$parcel$require$resolve(asset.id, s)] whatever the dependencies of the
    asset are: none is looked up, and the state is not changed. *)
Theorem require_resolve_always_rewritten
    (getBinding : BindingSite -> string -> Result (option Binding))
    (p : NodePath) (st : HState) (s : string) :
  path_node p
  = CallExpression
      (MemberExpression (Identifier "require") (Identifier "resolve") false)
      [StringLiteral s] ->
  hasBinding (h_scope st) p "require" false = false ->
  VISITOR_CallExpression getBinding p st
  = Ok (st,
        Some (CallExpression (Identifier "$parcel$require$resolve")
                [StringLiteral (asset_id (h_asset st)); StringLiteral s])).
Proof.
  intros Hn Hb. unfold VISITOR_CallExpression. rewrite Hn, Hb. reflexivity.
Qed.

(** With no dependency declared at all, [require.resolve("./missing")] is
    rewritten and [require("./missing")] is not. *)
Lemma require_resolve_always_rewritten_witness :
  dependencies (h_asset sample_state) = []
  /\ VISITOR_CallExpression no_bindings
       (statement_expression_path sample_resolve_missing) sample_state
     = Ok (sample_state,
           Some (CallExpression (Identifier "$parcel$require$resolve")
                   [StringLiteral "a1b2"; StringLiteral "./missing"]))
  /\ VISITOR_CallExpression no_bindings
       (statement_expression_path sample_require_missing) sample_state
     = Ok (sample_state, None).
Proof.
  split; [reflexivity |]. split; [| reflexivity].
  apply (require_resolve_always_rewritten no_bindings
           (statement_expression_path sample_resolve_missing) sample_state
           "./missing"); reflexivity.
Defined.

(** ** Trees [hoist] does not accept *)

(** C8.  When the type tag of the tree is not ['babel'] or its version is
    not ['7.0.0'], [hoist] throws and leaves the asset and the tree as they
    were; on a tree with that tag and that version it does not throw this
    error. *)
Theorem hoist_rejects_unrecognised_trees
    (rename : string -> string -> list node -> list node)
    (a : Asset) (ast : AST) :
  (ast_type ast ≠ "babel" \/ ast_version ast ≠ "7.0.0" ->
   hoist rename a ast = UnsupportedAST a ast)
  /\ (ast_type ast = "babel" /\ ast_version ast = "7.0.0" ->
      forall a' ast', hoist rename a ast ≠ UnsupportedAST a' ast').
Proof.
  unfold hoist. split.
  - intros [H | H].
    + destruct (String.eqb_spec (ast_type ast) "babel"); [contradiction |].
      reflexivity.
    + destruct (String.eqb_spec (ast_version ast) "7.0.0"); [contradiction |].
      rewrite orb_true_r. reflexivity.
  - intros [-> ->] a' ast'. simpl.
    destruct (traverse_program rename a (ast_program ast)); discriminate.
Qed.

Lemma hoist_rejects_unrecognised_trees_witness :
  hoist (fun _ _ body => body) sample_asset (mkAST "babel" "6.0.0" sample_eval)
  = UnsupportedAST sample_asset (mkAST "babel" "6.0.0" sample_eval)
  /\ forall a' ast',
       hoist (fun _ _ body => body) sample_asset (sample_ast sample_eval)
       ≠ UnsupportedAST a' ast'.
Proof.
  split.
  - apply (hoist_rejects_unrecognised_trees (fun _ _ body => body)
             sample_asset (mkAST "babel" "6.0.0" sample_eval)).
    right. simpl. discriminate.
  - apply (hoist_rejects_unrecognised_trees (fun _ _ body => body)
             sample_asset (sample_ast sample_eval)).
    split; reflexivity.
Defined.

(** ** The wrapper *)

(** [Program.enter] always returns: it stores what the pre-scan decided on
    the program scope, with the symbol table of the asset in place. *)
Lemma Program_enter_returns (a : Asset) (ast : node) :
  exists st,
    Program_enter a ast = Ok st
    /\ data_shouldWrap (st_scope st)
       = Some (ps_shouldWrap (prescan (crawl ast empty_scope) (enter_asset a) ast))
    /\ is_Some (symbols (st_asset st))
    /\ asset_id (st_asset st) = asset_id a.
Proof.
  destruct (prescan_identity (enter_asset a) ast) as (Hid & _ & Hsym).
  simpl in Hid, Hsym.
  assert (Hens : is_Some (symbols_ensure (symbols a)))
    by (destruct (symbols a); simpl; eauto).
  unfold Program_enter.
  set (ps := prescan (crawl ast empty_scope) (enter_asset a) ast) in *.
  destruct (negb (isCommonJS (meta (ps_asset ps)))
            && negb (isES6Module (meta (ps_asset ps)))); simpl.
  - unfold asset_symbols_set; simpl. rewrite Hsym.
    destruct Hens as [m ->]. simpl.
    eexists; repeat split; simpl; eauto.
  - eexists; repeat split; simpl; eauto. rewrite Hsym. exact Hens.
Qed.


Lemma VISITOR_CallExpression_frame getBinding p st st' r :
  VISITOR_CallExpression getBinding p st = Ok (st', r) ->
  h_scope st' = h_scope st
  /\ symbols (h_asset st') = symbols (h_asset st)
  /\ asset_id (h_asset st') = asset_id (h_asset st).
Proof.
  unfold VISITOR_CallExpression, bind.
  repeat match goal with
    | |- context [match ?x with _ => _ end] =>
        lazymatch x with
        | context [match _ with _ => _ end] => fail
        | _ => destruct x eqn:?; simpl
        end
    end;
    try discriminate;
    intros H; inversion H; subst; clear H; simpl;
    repeat match goal with
      | |- context [if ?c then _ else _] => destruct c; simpl
      end;
    auto.
Qed.

Lemma handler_step_wrapped i st st' :
  handler_step st st' -> wrapped_state i st -> wrapped_state i st'.
Proof.
  intros Hstep (Hw & Hs & Hi).
  destruct Hstep as [p st st' r H | p st | p st | p st st' e H
                    | gb p st st' r H | st name loc a' H | st ds
                    | st sc' Hdata].
  - destruct (wrapped_handlers_inert p st Hw) as (E & _).
    rewrite E in H. inversion H; subst. repeat split; assumption.
  - destruct (wrapped_handlers_inert p st Hw) as (_ & _ & _ & _ & E).
    rewrite E. repeat split; assumption.
  - destruct (wrapped_handlers_inert p st Hw) as (_ & E & _).
    rewrite E. repeat split; assumption.
  - destruct (wrapped_handlers_inert p st Hw) as (_ & _ & _ & E & _).
    rewrite E in H. inversion H; subst. repeat split; assumption.
  - destruct (VISITOR_CallExpression_frame gb p st st' r H) as (E1 & E2 & E3).
    unfold wrapped_state. rewrite E1, E2, E3. repeat split; assumption.
  - unfold asset_symbols_set, symbols_set, bind in H.
    destruct (symbols (h_asset st)); [| discriminate].
    inversion H; subst. repeat split; simpl; eauto.
  - repeat split; assumption.
  - repeat split; simpl; [| assumption | assumption].
    unfold getData_shouldWrap in *. rewrite Hdata. exact Hw.
Qed.

Lemma handler_steps_wrapped i st st' :
  rtc handler_step st st' -> wrapped_state i st -> wrapped_state i st'.
Proof.
  induction 1 as [|st1 st2 st3 H12 _ IH]; intros Hw; [exact Hw |].
  apply IH. eapply handler_step_wrapped; eassumption.
Qed.

Lemma wrapped_exit
    (rename : string -> string -> list node -> list node)
    (i : string) (st : HState) (ds body : list node) :
  wrapped_state i st ->
  exists a',
    Program_exit rename (mkState (h_asset st) (h_scope st) (Program ds body))
    = Ok (a',
          Program []
            [VariableDeclaration "var"
               [VariableDeclarator (Identifier ("$" +:+ i +:+ "$exports"))
                  (Some
                     (CallExpression
                        (MemberExpression
                           (FunctionExpression None []
                              (BlockStatement []
                                 ([VariableDeclaration "var"
                                     [VariableDeclarator (Identifier "exports")
                                        (Some ThisExpression)];
                                   VariableDeclaration "var"
                                     [VariableDeclarator (Identifier "module")
                                        (Some
                                           (ObjectExpression
                                              [ObjectProperty (Identifier "exports")
                                                 ThisExpression false]))]]
                                  ++ ((if isES6Module (meta (h_asset st))
                          then [ExpressionStatement
                              (AssignmentExpression "="
                                 (MemberExpression (Identifier "exports")
                                    (Identifier "__esModule") false)
                                 (BooleanLiteral true))]
                          else [])
                         ++ with_pushed (h_scope st) body)
                                  ++ [ReturnStatement
                                        (Some
                                           (MemberExpression (Identifier "module")
                                              (Identifier "exports") false))])))
                           (Identifier "call") false)
                        [ObjectExpression []]))]])
    /\ symbols_get (symbols a') "*"
       = Some (mkSymbol ("$" +:+ i +:+ "$exports") false)
    /\ isCommonJS (meta a') = true
    /\ isES6Module (meta a') = false.
Proof.
  intros (Hw & [m Hm] & Hi).
  unfold Program_exit; simpl. rewrite Hw.
  unfold asset_symbols_set, getIdentifier, getName; simpl.
  rewrite Hm, Hi; simpl.
  eexists; split; [| split; [| split]].
  - destruct (isES6Module (meta (h_asset st))); reflexivity.
  - simpl. apply lookup_insert_eq.
  - reflexivity.
  - reflexivity.
Qed.

Lemma entered_wrapped (a : Asset) (ast : node) (st0 : State) :
  Program_enter a ast = Ok st0 ->
  ps_shouldWrap (prescan (crawl ast empty_scope) (enter_asset a) ast) = true ->
  wrapped_state (asset_id a) (mkH (st_asset st0) (st_scope st0)).
Proof.
  intros Henter Hwrap.
  destruct (Program_enter_returns a ast) as (st0' & E & Hdata & Hsym & Hid).
  rewrite Henter in E. inversion E; subst st0'; clear E.
  repeat split; simpl; [| exact Hsym | exact Hid].
  unfold getData_shouldWrap. rewrite Hdata, Hwrap. reflexivity.
Qed.

(** C3.  When the pre-scan set [shouldWrap], then whatever the handlers did
    in between, [Program.exit] leaves the symbol table of the asset mapping
    ["*"] to [$<asset.id>$exports], [isCommonJS] true, [isES6Module] false,
    and a program whose body is the single declaration
    [var $<asset.id>$exports = (function () { var exports = this;
    var module = {exports: this}; <body>; return module.exports; }).call({});]
    where [<body>] is made of the statements the program had on exit (after
    [exports.__esModule = true;] when the module was an ES module). *)
Theorem wrapped_module_on_exit
    (rename : string -> string -> list node -> list node)
    (a : Asset) (ast : node) (st0 : State) (st : HState)
    (ds body : list node) :
  Program_enter a ast = Ok st0 ->
  ps_shouldWrap (prescan (crawl ast empty_scope) (enter_asset a) ast) = true ->
  rtc handler_step (mkH (st_asset st0) (st_scope st0)) st ->
  exists a',
    Program_exit rename (mkState (h_asset st) (h_scope st) (Program ds body))
    = Ok (a',
          Program []
            [VariableDeclaration "var"
               [VariableDeclarator (Identifier ("$" +:+ asset_id a +:+ "$exports"))
                  (Some
                     (CallExpression
                        (MemberExpression
                           (FunctionExpression None []
                              (BlockStatement []
                                 ([VariableDeclaration "var"
                                     [VariableDeclarator (Identifier "exports")
                                        (Some ThisExpression)];
                                   VariableDeclaration "var"
                                     [VariableDeclarator (Identifier "module")
                                        (Some
                                           (ObjectExpression
                                              [ObjectProperty (Identifier "exports")
                                                 ThisExpression false]))]]
                                  ++ ((if isES6Module (meta (h_asset st))
                          then [ExpressionStatement
                              (AssignmentExpression "="
                                 (MemberExpression (Identifier "exports")
                                    (Identifier "__esModule") false)
                                 (BooleanLiteral true))]
                          else [])
                         ++ with_pushed (h_scope st) body)
                                  ++ [ReturnStatement
                                        (Some
                                           (MemberExpression (Identifier "module")
                                              (Identifier "exports") false))])))
                           (Identifier "call") false)
                        [ObjectExpression []]))]])
    /\ symbols_get (symbols a') "*"
       = Some (mkSymbol ("$" +:+ asset_id a +:+ "$exports") false)
    /\ isCommonJS (meta a') = true
    /\ isES6Module (meta a') = false.
Proof.
  intros Henter Hwrap Hsteps.
  apply wrapped_exit.
  eapply handler_steps_wrapped; [exact Hsteps |].
  eapply entered_wrapped; eassumption.
Qed.

(** The program [eval("x");], with one write to the scope between enter and
    exit: it comes out as
    [var $a1b2$exports = (function () { var exports = this;
    var module = {exports: this}; eval("x"); return module.exports;
    }).call({});]. *)
Lemma wrapped_module_on_exit_witness :
  exists a',
    Program_exit (fun _ _ body => body)
      (mkState (st_asset sample_eval_entered)
         (registerDeclaration (st_scope sample_eval_entered) ["x"])
         sample_eval)
    = Ok (a',
          Program []
            [VariableDeclaration "var"
               [VariableDeclarator (Identifier "$a1b2$exports")
                  (Some
                     (CallExpression
                        (MemberExpression
                           (FunctionExpression None []
                              (BlockStatement []
                                 [VariableDeclaration "var"
                                    [VariableDeclarator (Identifier "exports")
                                       (Some ThisExpression)];
                                  VariableDeclaration "var"
                                    [VariableDeclarator (Identifier "module")
                                       (Some
                                          (ObjectExpression
                                             [ObjectProperty
                                                (Identifier "exports")
                                                ThisExpression false]))];
                                  ExpressionStatement
                                    (CallExpression (Identifier "eval")
                                       [StringLiteral "x"]);
                                  ReturnStatement
                                    (Some
                                       (MemberExpression (Identifier "module")
                                          (Identifier "exports") false))]))
                           (Identifier "call") false)
                        [ObjectExpression []]))]])
    /\ symbols_get (symbols a') "*" = Some (mkSymbol "$a1b2$exports" false)
    /\ isCommonJS (meta a') = true
    /\ isES6Module (meta a') = false.
Proof.
  destruct (wrapped_module_on_exit (fun _ _ body => body) sample_asset
              sample_eval sample_eval_entered
              (mkH (st_asset sample_eval_entered)
                 (registerDeclaration (st_scope sample_eval_entered) ["x"]))
              []
              [ExpressionStatement
                 (CallExpression (Identifier "eval") [StringLiteral "x"])]
              eq_refl eq_refl
              (rtc_once _ _
                 (step_scope
                    (mkH (st_asset sample_eval_entered)
                       (st_scope sample_eval_entered))
                    (registerDeclaration (st_scope sample_eval_entered) ["x"])
                    eq_refl)))
    as (a' & Hexit & Hstar & Hcjs & Hes).
  exists a'. split; [exact Hexit |]. split; [exact Hstar |].
  split; [exact Hcjs | exact Hes].
Defined.

(** * Two runs of [hoist] *)

(** ** Names that share the prefix of the asset *)

Lemma eqb_app_head (i s1 s2 : string) :
  String.eqb (i +:+ s1) (i +:+ s2) = String.eqb s1 s2.
Proof.
  induction i as [|c i IH]; [reflexivity |].
  change (String c i +:+ s1) with (String c (i +:+ s1)).
  change (String c i +:+ s2) with (String c (i +:+ s2)).
  simpl. rewrite Ascii.eqb_refl. exact IH.
Qed.

Lemma prefix_app (i s : string) : String.prefix i (i +:+ s) = true.
Proof.
  induction i as [|c i IH]; [destruct s; reflexivity |].
  change (String c i +:+ s) with (String c (i +:+ s)).
  simpl. destruct (Ascii.ascii_dec c c); [exact IH | congruence].
Qed.

Lemma dollar_eqb (i s1 s2 : string) :
  String.eqb ("$" +:+ i +:+ s1) ("$" +:+ i +:+ s2) = String.eqb s1 s2.
Proof. apply (eqb_app_head ("$" +:+ i)). Qed.

Lemma dollar_prefix (i s : string) :
  String.prefix ("$" +:+ i) ("$" +:+ i +:+ s) = true.
Proof. apply (prefix_app ("$" +:+ i)). Qed.

Lemma dollar_not_builtin (s : string) :
  name_in ("$" +:+ s) Scope_globals
  || name_in ("$" +:+ s) Scope_contextVariables = false.
Proof. reflexivity. Qed.

(** ** [exports.foo = 1;] *)

Lemma exports_foo_walked i fp src isn m m0 deps :
  (let* st := Program_enter (mkAsset i fp src isn m (Some m0) deps)
                sample_exports_foo in
   walk_program st)
  = Ok (mkState
          (mkAsset i fp src isn
             (mkMeta (Some i) (Some ("$" +:+ i +:+ "$exports"))
                (isES6Module m) true (resolveExportsBailedOut m))
             (Some (<["foo" := mkSymbol ("$" +:+ i +:+ "$export$foo") false]>
                      m0))
             deps)
          (mkScope ["$" +:+ i +:+ "$export$foo"]
             ["$" +:+ i +:+ "$exports"; "exports"] (Some false) (Some false) [])
          (Program [] (exports_foo_body i))).
Proof. vm_compute. reflexivity. Qed.

(** [symbols.ensure()] makes an absent table an empty one. *)
Lemma Program_enter_ensures i fp src isn m deps ast :
  Program_enter (mkAsset i fp src isn m None deps) ast
  = Program_enter (mkAsset i fp src isn m (Some ∅) deps) ast.
Proof. reflexivity. Qed.

Lemma exports_foo_crawled i old :
  crawl (Program [] (exports_foo_body i)) old
  = mkScope ["$" +:+ i +:+ "$export$foo"] ["$" +:+ i +:+ "$exports"]
      None None (pushed old).
Proof.
  unfold crawl. f_equal. unfold free_names. cbn.
  rewrite !dollar_eqb. cbn. reflexivity.
Qed.

Lemma exports_foo_exit rename i fp src isn mi es m0 deps :
  Program_exit rename
    (mkState
       (mkAsset i fp src isn
          (mkMeta mi (Some ("$" +:+ i +:+ "$exports")) es true false)
          (Some m0) deps)
       (mkScope ["$" +:+ i +:+ "$export$foo"]
          ["$" +:+ i +:+ "$exports"; "exports"] (Some false) (Some false) [])
       (Program [] (exports_foo_body i)))
  = Ok (mkAsset i fp src isn
          (mkMeta mi (Some ("$" +:+ i +:+ "$exports")) es true false)
          (Some (<["*" := mkSymbol ("$" +:+ i +:+ "$exports") false]> m0))
          deps,
        exports_foo_hoisted i).
Proof.
  unfold Program_exit.
  cbn [st_asset st_scope st_ast getData_shouldWrap truthy data_shouldWrap
       with_pushed pushed].
  rewrite exports_foo_crawled.
  change (getIdentifier _ "exports" [])
    with (Identifier ("$" +:+ i +:+ "$exports")).
  cbn [bindings globals pushed data_shouldWrap data_cjsExportsReassigned
       asset_id node_name meta isCommonJS resolveExportsBailedOut].
  unfold rename_bindings. cbn [fold_left asset_id].
  rewrite dollar_prefix. cbn [fst snd app].
  unfold hasGlobal, program_hasBinding. cbn [bindings globals name_in existsb].
  rewrite <- !orb_assoc, dollar_not_builtin.
  rewrite String.eqb_refl, dollar_eqb.
  cbn. reflexivity.
Qed.

(** C2 as stated fails: the tree [hoist] leaves for [exports.foo = 1;]
    holds no call of [$parcel$export]. *)
Lemma exports_foo_emits_no_parcel_export :
  exists a' ast',
    hoist no_rename sample_asset (sample_ast sample_exports_foo)
    = Hoisted a' ast'
    /\ calls "$parcel$export" (ast_program ast') = false.
Proof. eexists; eexists; split; vm_compute; reflexivity. Qed.

(** C2 (as amended).  For [exports.foo = 1;] on an asset whose export
    resolution has not been given up, [hoist] returns with [isCommonJS]
    true, without wrapping, with ["foo"] mapped to [$<id>$export$foo] and
    ["*"] to [$<id>$exports] in the symbol table, and with the statements
    [var $<id>$exports = {}; var $<id>$export$foo = 1;
     $<id>$exports.foo = $<id>$export$foo;]: a hoisted declaration and an
    assignment to the exports object, and no call of [$parcel$export]. *)
Theorem exports_foo_hoist
    (rename : string -> string -> list node -> list node) (a : Asset) :
  resolveExportsBailedOut (meta a) = false ->
  exists a',
    hoist rename a (sample_ast sample_exports_foo)
    = Hoisted a' (sample_ast (exports_foo_hoisted (asset_id a)))
    /\ isCommonJS (meta a') = true
    /\ ps_shouldWrap (prescan (crawl sample_exports_foo empty_scope)
                        (enter_asset a) sample_exports_foo) = false
    /\ symbols_get (symbols a') "foo"
       = Some (mkSymbol ("$" +:+ asset_id a +:+ "$export$foo") false)
    /\ symbols_get (symbols a') "*"
       = Some (mkSymbol ("$" +:+ asset_id a +:+ "$exports") false)
    /\ calls "$parcel$export" (exports_foo_hoisted (asset_id a)) = false.
Proof.
  intros Hbail. destruct a as [i fp src isn m syms deps].
  destruct m as [mi ei es cj bo]. simpl in Hbail. subst bo.
  unfold hoist, traverse_program.
  change (negb (String.eqb (ast_type (sample_ast sample_exports_foo)) "babel")
          || negb (String.eqb (ast_version (sample_ast sample_exports_foo))
                     "7.0.0")) with false.
  cbv iota.
  change (ast_program (sample_ast sample_exports_foo))
    with sample_exports_foo.
  assert (Hrun : forall m0,
    (let* st := Program_enter
                  (mkAsset i fp src isn (mkMeta mi ei es cj false) (Some m0)
                     deps) sample_exports_foo in
     let* st' := walk_program st in Program_exit rename st')
    = Ok (mkAsset i fp src isn
            (mkMeta (Some i) (Some ("$" +:+ i +:+ "$exports")) es true false)
            (Some (<["*" := mkSymbol ("$" +:+ i +:+ "$exports") false]>
                     (<["foo" := mkSymbol ("$" +:+ i +:+ "$export$foo") false]>
                        m0)))
            deps,
          exports_foo_hoisted i)).
  { intros m0.
    pose proof (exports_foo_walked i fp src isn (mkMeta mi ei es cj false)
                  m0 deps) as Hw.
    cbn [isES6Module resolveExportsBailedOut] in Hw.
    destruct (Program_enter _ sample_exports_foo) as [st|e]; [| discriminate].
    cbn [bind] in Hw |- *. rewrite Hw. cbn [bind].
    apply exports_foo_exit. }
  assert (Hfacts : forall m0 : gmap string Symbol,
    symbols_get
      (Some (<["*" := mkSymbol ("$" +:+ i +:+ "$exports") false]>
               (<["foo" := mkSymbol ("$" +:+ i +:+ "$export$foo") false]> m0)))
      "foo"
    = Some (mkSymbol ("$" +:+ i +:+ "$export$foo") false)
    /\ symbols_get
         (Some (<["*" := mkSymbol ("$" +:+ i +:+ "$exports") false]>
                  (<["foo" := mkSymbol ("$" +:+ i +:+ "$export$foo") false]>
                     m0)))
         "*"
       = Some (mkSymbol ("$" +:+ i +:+ "$exports") false)).
  { intros t; split; cbn.
    - rewrite lookup_insert_ne by discriminate. apply lookup_insert_eq.
    - apply lookup_insert_eq. }
  destruct syms as [t|];
    [| rewrite Program_enter_ensures]; rewrite Hrun; cbn [fst snd];
    (eexists; split; [reflexivity |]);
    cbn [meta isCommonJS symbols asset_id];
    (split; [reflexivity |]);
    (split; [vm_compute; reflexivity |]);
    (split; [apply Hfacts |]);
    (split; [apply Hfacts | reflexivity]).
Qed.

Lemma exports_foo_hoist_witness :
  exists a',
    hoist no_rename sample_asset (sample_ast sample_exports_foo)
    = Hoisted a' (sample_ast (exports_foo_hoisted "a1b2"))
    /\ symbols_get (symbols a') "foo"
       = Some (mkSymbol "$a1b2$export$foo" false).
Proof.
  destruct (exports_foo_hoist no_rename sample_asset eq_refl)
    as (a' & Hrun & _ & _ & Hfoo & _).
  exists a'. split; [exact Hrun | exact Hfoo].
Defined.

(** ** [let {a, b} = await import("./m");] *)





(** The id of the dependency enters the local names identifier-encoded,
    like every part of a generated name.  With the id [9d] the symbols of
    [let {a, b} = await require("./m");] are [$a1b2$importAsync$d$a] and
    [$a1b2$importAsync$d$b], not [$a1b2$importAsync$9d$a] and
    [$a1b2$importAsync$9d$b]. *)
Lemma dependency_id_is_encoded :
  match hoist no_rename sample_digit_importing_asset
          (sample_ast (destructured_await require_m)) with
  | Hoisted a' _ =>
      exists d',
        dependencies a' !! 0%nat = Some d'
        /\ dep_id d' = "9d"
        /\ symbols_get (dep_symbols d') "a"
           = Some (mkSymbol "$a1b2$importAsync$d$a" false)
        /\ symbols_get (dep_symbols d') "b"
           = Some (mkSymbol "$a1b2$importAsync$d$b" false)
        /\ symbols_get (dep_symbols d') "a"
           <> Some (mkSymbol "$a1b2$importAsync$9d$a" false)
  | _ => False
  end.
Proof.
  vm_compute. eexists. repeat split. discriminate.
Qed.



(** * The walk is made of steps of the handlers *)

Lemma bind_Ok {A B : Type} (r : Result A) (f : A -> Result B) (y : B) :
  bind r f = Ok y -> exists x, r = Ok x /\ f x = Ok y.
Proof. destruct r; simpl; [eauto | discriminate]. Qed.

Section WalkLists.
Variable enter : node -> Key -> HState -> Walked node.

Lemma each_child_steps mk l :
  Forall (fun c => forall kc st, walked_steps st (enter c kc st)) l ->
  forall i st, walked_steps st (each_child enter mk i l st).
Proof.
  induction 1 as [|c l Hc _ IH]; intros i st st' x pending; simpl.
  - intros H; inversion H; subst. split; [reflexivity | constructor].
  - intros H.
    apply bind_Ok in H as ([[st1 c'] p1] & E1 & H).
    apply bind_Ok in H as ([[st2 l'] p2] & E2 & H).
    simpl in *. inversion H; subst; clear H.
    destruct (Hc _ _ _ _ _ E1) as [R1 F1].
    destruct (IH _ _ _ _ _ E2) as [R2 F2].
    split; [etrans; eassumption | apply Forall_app; auto].
Qed.

Lemma each_directive_steps l :
  Forall (fun c => forall kc st, walked_steps st (enter c kc st)) l ->
  forall i st, walked_steps st (each_directive enter i l st).
Proof.
  induction 1 as [|c l Hc _ IH]; intros i st st' x pending; simpl.
  - intros H; inversion H; subst. split; [reflexivity | constructor].
  - destruct (removes_itself c); [apply IH |].
    intros H.
    apply bind_Ok in H as ([[st1 c'] p1] & E1 & H).
    apply bind_Ok in H as ([[st2 l'] p2] & E2 & H).
    simpl in *. inversion H; subst; clear H.
    destruct (Hc _ _ _ _ _ E1) as [R1 F1].
    destruct (IH _ _ _ _ _ E2) as [R2 F2].
    split; [etrans; eassumption | apply Forall_app; auto].
Qed.

Lemma each_statement_steps l :
  Forall (fun c => forall kc st, walked_steps st (enter c kc st)) l ->
  forall i st st' items,
    each_statement enter i l st = Ok (st', items) ->
    rtc visitor_step st st' /\ Forall item_steps items.
Proof.
  induction 1 as [|c l Hc _ IH]; intros i st st' items; simpl.
  - intros H; inversion H; subst. split; [reflexivity | constructor].
  - intros H.
    apply bind_Ok in H as ([[st1 c'] p1] & E1 & H).
    apply bind_Ok in H as ([st2 its] & E2 & H).
    simpl in *. inversion H; subst; clear H.
    destruct (Hc _ _ _ _ _ E1) as [R1 F1].
    destruct (IH _ _ _ _ E2) as [R2 F2].
    split; [etrans; eassumption |].
    apply Forall_app; split.
    + apply Forall_fmap. exact F1.
    + constructor; [exact I | exact F2].
Qed.

Lemma finish_items_steps items :
  Forall item_steps items ->
  forall st st' l,
    finish_items items st = Ok (st', l) -> rtc visitor_step st st'.
Proof.
  induction 1 as [|it items Hit _ IH]; intros st st' l; simpl.
  - intros H; inversion H; subst. reflexivity.
  - destruct it as [s|f].
    + intros H. apply bind_Ok in H as ([st1 l1] & E1 & H).
      simpl in H. inversion H; subst. eapply IH; eassumption.
    + intros H. apply bind_Ok in H as ([st1 s1] & E1 & H).
      apply bind_Ok in H as ([st2 l2] & E2 & H).
      simpl in *. inversion H; subst.
      etrans; [eapply Hit; eassumption | eapply IH; eassumption].
Qed.

Lemma statement_list_steps l :
  Forall (fun c => forall kc st, walked_steps st (enter c kc st)) l ->
  forall st st' l',
    statement_list enter l st = Ok (st', l') -> rtc visitor_step st st'.
Proof.
  intros Hl st st' l' H. unfold statement_list in H.
  apply bind_Ok in H as ([st1 items] & E1 & H). simpl in H.
  destruct (each_statement_steps l Hl _ _ _ _ E1) as [R1 F1].
  etrans; [exact R1 | eapply finish_items_steps; eassumption].
Qed.

Lemma optional_child_steps o :
  option_all node (fun c => forall kc st, walked_steps st (enter c kc st)) o ->
  forall kc st, walked_steps st (optional_child enter o kc st).
Proof.
  intros Ho kc st st' x pending. destruct Ho as [c Hc|]; simpl.
  - intros H. apply bind_Ok in H as ([[st1 c'] p1] & E1 & H).
    simpl in H. inversion H; subst. eapply Hc; eassumption.
  - intros H; inversion H; subst. split; [reflexivity | constructor].
Qed.
End WalkLists.

Lemma list_all_enter (P : node -> Prop) (Q : node -> Prop) l :
  (forall c, P c -> Q c) -> list_all node P l -> Forall Q l.
Proof. intros HPQ H. induction H; constructor; auto. Qed.

Ltac split_binds H :=
  repeat (let E := fresh "E" in
          let r := fresh "r" in
          apply bind_Ok in H; destruct H as (r & E & H); simpl in H).
Ltac destruct_pairs :=
  repeat match goal with
  | x : (_ * _)%type |- _ => destruct x
  end; simpl in *.
Ltac use_children :=
  repeat match goal with
  | IH : forall k pp st, walked_steps st (walk ?c k pp st),
    E : walk ?c _ _ _ = Ok _ |- _ => apply IH in E as [? ?]
  | IH : list_all node _ ?l, E : each_child _ _ _ ?l _ = Ok _ |- _ =>
      eapply each_child_steps in E as [? ?];
      [| eapply list_all_enter; [| exact IH]; intros ? Hc ? ?; apply Hc]
  | IH : list_all node _ ?l, E : each_directive _ _ ?l _ = Ok _ |- _ =>
      eapply each_directive_steps in E as [? ?];
      [| eapply list_all_enter; [| exact IH]; intros ? Hc ? ?; apply Hc]
  | IH : list_all node _ ?l, E : statement_list _ ?l _ = Ok _ |- _ =>
      eapply statement_list_steps in E;
      [| eapply list_all_enter; [| exact IH]; intros ? Hc ? ?; apply Hc]
  | IH : option_all node _ ?o, E : optional_child _ ?o _ _ = Ok _ |- _ =>
      eapply optional_child_steps in E as [? ?];
      [| destruct IH as [? Hc|]; constructor; intros ? ?; apply Hc]
  end.
Ltac chain :=
  repeat match goal with
  | |- rtc _ ?a ?a => reflexivity
  | H : rtc _ ?a ?b |- rtc _ ?a ?c => (exact H) || (etrans; [exact H|]; clear H)
  end.
Ltac pendings :=
  repeat (apply Forall_app; split); try assumption; try constructor.

Lemma no_pending_steps (w : HState -> Walked node) (f : node -> node) :
  (forall st, walked_steps st (w st)) ->
  pending_steps
    (mkPending (fun st' => let* r' := no_pending (w st') in
                           Ok (fst r', f (snd r')))).
Proof.
  intros Hw s s' m H. simpl in H.
  apply bind_Ok in H as ([s1 n1] & E & H). simpl in H.
  inversion H; subst; clear H. unfold no_pending in E.
  apply bind_Ok in E as ([[s2 n2] p2] & E & H). simpl in H.
  destruct p2; [| discriminate H]. inversion H; subst.
  eapply Hw. exact E.
Qed.

Lemma walk_steps n : forall k pp st, walked_steps st (walk n k pp st).
Proof.
  induction n; intros k pp st st' x pending Hw; cbn [walk] in Hw.
  all: try discriminate Hw.
  all: try (split_binds Hw; destruct_pairs; inversion Hw; subst; clear Hw;
            use_children; split; [chain | pendings]; fail).
  all: try (inversion Hw; subst; split; [reflexivity | constructor]; fail).
  - (* DirectiveLiteral *)
    destruct (VISITOR_DirectiveLiteral _); [discriminate Hw |].
    inversion Hw; subst. split; [reflexivity | constructor].
  - (* Identifier *)
    destruct (isReferencedIdentifier _); inversion Hw; subst.
    + split; [apply rtc_once, visit_ReferencedIdentifier | constructor].
    + split; [reflexivity | constructor].
  - (* ThisExpression *)
    inversion Hw; subst.
    split; [apply rtc_once, visit_ThisExpression | constructor].
  - (* MemberExpression *)
    apply bind_Ok in Hw as ([s1 o] & E & Hw). simpl in Hw.
    assert (rtc visitor_step st s1)
      by (eapply rtc_once, visit_MemberExpression; exact E).
    destruct o as [n'|].
    + inversion Hw; subst. split; [assumption | constructor].
    + split_binds Hw; destruct_pairs; inversion Hw; subst; clear Hw.
      use_children. split; [chain | pendings].
  - (* CallExpression *)
    apply bind_Ok in Hw as ([s1 o] & E & Hw). simpl in Hw.
    assert (rtc visitor_step st s1)
      by (eapply rtc_once, visit_CallExpression; exact E).
    destruct o as [n'|].
    + inversion Hw; subst. split; [assumption | constructor].
    + split_binds Hw; destruct_pairs; inversion Hw; subst; clear Hw.
      use_children. split; [chain | pendings].
  - (* AssignmentExpression *)
    apply bind_Ok in Hw as ([s1 e] & E & Hw). simpl in Hw.
    assert (rtc visitor_step st s1)
      by (eapply rtc_once, visit_AssignmentExpression; exact E).
    destruct e as [|l'|node' before].
    + split_binds Hw; destruct_pairs; inversion Hw; subst; clear Hw.
      use_children. split; [chain | pendings].
    + split_binds Hw; destruct_pairs; inversion Hw; subst; clear Hw.
      use_children. split; [chain | pendings].
    + repeat match type of Hw with
             | context [match ?t with _ => _ end] =>
                 destruct t; try discriminate Hw
             end.
      * inversion Hw; subst. split; [assumption |].
        constructor; [| constructor].
        apply (no_pending_steps
                 (fun st' => walk n2 _ _ st')
                 (fun r' => ExpressionStatement (AssignmentExpression _ _ r'))).
        intros ?; apply IHn2.
      * inversion Hw; subst. split; [assumption |].
        constructor; [| constructor].
        apply (no_pending_steps
                 (fun st' => walk n2 _ _ st')
                 (fun r' => VariableDeclaration _ [VariableDeclarator _ (Some r')])).
        intros ?; apply IHn2.
  - (* UnaryExpression *)
    destruct (VISITOR_UnaryExpression _ _).
    + inversion Hw; subst. split; [reflexivity | constructor].
    + split_binds Hw; destruct_pairs; inversion Hw; subst; clear Hw.
      use_children. split; [chain | pendings].
  - (* ExpressionStatement *)
    split_binds Hw; destruct_pairs. use_children.
    destruct l.
    + inversion Hw; subst. split; [chain | constructor].
    + destruct (key_is_index k); [| discriminate Hw].
      inversion Hw; subst. split; [chain | assumption].
Qed.

Lemma walk_program_steps (st st' : State) :
  walk_program st = Ok st' ->
  rtc visitor_step (mkH (st_asset st) (st_scope st))
    (mkH (st_asset st') (st_scope st'))
  /\ exists ds body, st_ast st' = Program ds body.
Proof.
  unfold walk_program. intros Hw.
  destruct (st_ast st) as [ds b| | | | | | | | | | | | | | | | | | | | | | | |
                           | | | | | | | | | | | |] eqn:East;
    try discriminate Hw.
  apply bind_Ok in Hw as ([[s1 ds'] p1] & E1 & Hw). simpl in Hw.
  apply bind_Ok in Hw as ([s2 b'] & E2 & Hw). simpl in Hw.
  inversion Hw; subst; clear Hw. simpl.
  assert (Hall : forall l : list node,
             Forall (fun c => forall kc s,
                       walked_steps s
                         (walk c kc (Some (mkPath (Program ds b) K_root None)) s))
               l).
  { intros l. apply Forall_forall. intros c _ kc s. apply walk_steps. }
  apply each_directive_steps in E1 as [R1 _]; [| apply Hall].
  apply statement_list_steps in E2; [| apply Hall].
  split; [| eauto].
  destruct s2; simpl. etrans; eassumption.
Qed.

Lemma visitor_step_handler st st' :
  visitor_step st st' -> handler_step st st'.
Proof.
  destruct 1; [eapply step_MemberExpression | apply step_ReferencedIdentifier
              | apply step_ThisExpression | eapply step_AssignmentExpression
              | eapply step_CallExpression]; eassumption.
Qed.

Lemma visitor_steps_handler st st' :
  rtc visitor_step st st' -> rtc handler_step st st'.
Proof.
  induction 1 as [|? ? ? H _ IH]; [reflexivity |].
  eapply rtc_l; [apply visitor_step_handler, H | exact IH].
Qed.

(** The walk of this development between [Program.enter] and
    [Program.exit] is made of steps of the handlers: a module the pre-scan
    marked comes out of [traverse] wrapped. *)
Lemma traverse_program_wrapped
    (rename : string -> string -> list node -> list node)
    (a a' : Asset) (ast ast' : node) :
  ps_shouldWrap (prescan (crawl ast empty_scope) (enter_asset a) ast) = true ->
  traverse_program rename a ast = Ok (a', ast') ->
  (exists body,
      ast' = Program []
               [WRAPPER_TEMPLATE
                  (Identifier ("$" +:+ asset_id a +:+ "$exports")) body])
  /\ symbols_get (symbols a') "*"
     = Some (mkSymbol ("$" +:+ asset_id a +:+ "$exports") false)
  /\ isCommonJS (meta a') = true
  /\ isES6Module (meta a') = false.
Proof.
  intros Hwrap Ht. unfold traverse_program in Ht.
  apply bind_Ok in Ht as (st0 & Henter & Ht).
  apply bind_Ok in Ht as (st1 & Hwalk & Hexit).
  destruct (walk_program_steps _ _ Hwalk) as (Hsteps & ds & body & Hast).
  pose proof (entered_wrapped _ _ _ Henter Hwrap) as H0.
  pose proof (handler_steps_wrapped _ _ _ (visitor_steps_handler _ _ Hsteps) H0)
    as H1.
  destruct (wrapped_exit rename _ _ ds body H1) as (a1 & E & Hs & Hc & He).
  simpl in E. destruct st1 as [a1' sc1 ast1]; simpl in *. subst ast1.
  rewrite E in Hexit. inversion Hexit; subst.
  split; [eauto | auto].
Qed.

(** * What [Program.enter] leaves behind *)

(** ** Every path below the program has a parent *)

Lemma subs_Forall (P : NodePath -> Prop) (Q : node -> Prop)
    (f : node -> Key -> list NodePath) (mk : nat -> Key) (l : list node) :
  (forall c, Q c -> forall k, Forall P (f c k)) ->
  list_all node Q l ->
  forall i,
    Forall P
      ((fix go (i : nat) (l : list node) {struct l} : list NodePath :=
          match l with
          | [] => []
          | c :: r => f c (mk i) ++ go (S i) r
          end) i l).
Proof.
  intros HQ. induction 1 as [|c Hc l _ IH]; intros i; simpl; [constructor |].
  apply Forall_app; split; [apply HQ, Hc | apply IH].
Qed.

Lemma child_below (me : NodePath) (c : node) (kc : Key) (l : list NodePath) :
  Forall (rtc parent_of (mkPath c kc (Some me))) l ->
  Forall (rtc parent_of me) l.
Proof.
  intros H. eapply Forall_impl; [exact H |]. intros p Hp.
  eapply rtc_l; [| exact Hp]. reflexivity.
Qed.

Ltac below_children :=
  repeat (apply Forall_app; split);
  repeat match goal with
  | |- Forall _ [] => constructor
  | IH : forall k pp, Forall _ (paths ?c k pp) |- Forall _ (paths ?c _ _) =>
      eapply child_below; apply IH
  | IH : list_all node _ ?l |- Forall (rtc parent_of ?me) (_ _ ?l) =>
      apply (subs_Forall (rtc parent_of me) _
               (fun c k => paths c k (Some me)) _ l
               (fun c Hc k => child_below me c k _ (Hc k (Some me))) IH)
  | IH : option_all node _ ?o |- Forall _ (match ?o with _ => _ end) =>
      destruct IH as [? IH|]
  end.

Lemma paths_below n : forall k pp,
  Forall (rtc parent_of (mkPath n k pp)) (paths n k pp).
Proof.
  induction n; intros k pp; cbn [paths]; constructor; try reflexivity;
    below_children.
Qed.

Lemma subs_Forall_all (P : NodePath -> Prop)
    (f : node -> Key -> list NodePath) (mk : nat -> Key) :
  (forall c k, Forall P (f c k)) ->
  forall l i,
    Forall P
      ((fix go (i : nat) (l : list node) {struct l} : list NodePath :=
          match l with
          | [] => []
          | c :: r => f c (mk i) ++ go (S i) r
          end) i l).
Proof.
  intros Hf. induction l as [|c l IH]; intros i; simpl; [constructor |].
  apply Forall_app; split; [apply Hf | apply IH].
Qed.

(** What holds of everything below a child holds of every path but the
    first. *)
Lemma paths_tail (P : NodePath -> Prop) n k pp :
  (forall c kc q,
      rtc parent_of (mkPath c kc (Some (mkPath n k pp))) q -> P q) ->
  Forall P (tl (paths n k pp)).
Proof.
  intros HP.
  assert (Hc : forall c kc,
             Forall P (paths c kc (Some (mkPath n k pp)))).
  { intros c kc. eapply Forall_impl; [apply paths_below |].
    intros q Hq. eapply HP, Hq. }
  destruct n; cbn [paths tl];
    repeat (apply Forall_app; split);
    repeat match goal with
    | |- Forall _ [] => constructor
    | |- Forall _ (paths _ _ _) => apply Hc
    | |- Forall _ (match ?o with _ => _ end) => destruct o
    | |- Forall P (_ _ ?l) =>
        apply (subs_Forall_all P (fun c k => paths c k (Some _)) _
                 (fun c k => Hc c k) l)
    end.
Qed.

Lemma below_has_parent a q :
  is_Some (path_parentPath a) -> rtc parent_of a q ->
  is_Some (path_parentPath q).
Proof.
  intros Ha H. apply rtc_inv_r in H as [<- | (y & _ & Hy)]; [exact Ha |].
  unfold parent_of in Hy. rewrite Hy. eauto.
Qed.

Lemma program_paths_parent ast :
  Forall (fun p => is_Some (path_parentPath p)) (program_paths ast).
Proof.
  apply paths_tail. intros c kc q Hq.
  eapply below_has_parent; [| exact Hq]. simpl. eauto.
Qed.

Ltac bool_atom b :=
  lazymatch b with
  | hasBinding _ _ _ _ => idtac
  | isMemberExpression _ => idtac
  | isUnaryExpression _ => idtac
  | isAssignmentExpression _ => idtac
  | isIdentifier _ => idtac
  | isIdentifierNamed _ _ => idtac
  | node_computed _ => idtac
  | property_isIdentifier _ => idtac
  | property_isStringLiteral _ => idtac
  | key_is _ _ => idtac
  | String.eqb _ _ => idtac
  | pattern_parts_match _ _ => idtac
  | matchesPattern _ _ => idtac
  | isCommonJS (meta (ps_asset ?x)) => is_var x
  | isES6Module (meta (ps_asset ?x)) => is_var x
  | resolveExportsBailedOut (meta (ps_asset ?x)) => is_var x
  | isReferenced _ _ _ => idtac
  end.
Ltac kill_atom b :=
  bool_atom b;
  let E := fresh "E" in
  destruct b eqn:E; rewrite ?E in *; clear E.
Ltac split_ifs :=
  repeat match goal with
    | |- context [if ?c then _ else _] =>
        let E := fresh "C" in destruct c eqn:E; simpl
    end.
Ltac kill_atoms :=
  split_ifs;
  repeat (simpl in *; try discriminate;
          match goal with
          | |- context [?b] => kill_atom b
          | H : context [?b] |- _ => kill_atom b
          end);
  simpl in *; try discriminate.

Section Flags.
Variable sc : Scope.
Hypothesis fresh_data : getData_shouldWrap sc = false.

Lemma prescan_visit_flags p ps :
  is_Some (path_parentPath p) ->
  let a := ps_asset ps in
  let a' := ps_asset (prescan_visit sc p ps) in
  isES6Module (meta a') = isES6Module (meta a) || is_module_declaration p
  /\ isCommonJS (meta a')
     = isCommonJS (meta a)
       || (wrap_trigger sc p || free_exports_reference sc p
           || free_module_exports sc p)
  /\ resolveExportsBailedOut (meta a')
     = resolveExportsBailedOut (meta a) || unsafe_exports_use sc p.
Proof.
  intros [pp Hpp]. destruct p as [n k o]; simpl in Hpp; subst o.
  unfold unsafe_exports_use.
  unfold prescan_visit, is_module_declaration, wrap_trigger,
    free_module_reference, toplevel_return, free_eval_call,
    free_exports_reference, free_module_exports,
    isReferencedIdentifier, matchesPattern.
  destruct n; simpl;
    try (rewrite ?orb_false_r, ?orb_true_r; auto; fail).
  - (* Identifier *)
    unfold prescan_ReferencedIdentifier, parent_is_typeof,
      parent_is_dot_access, exports_safe, ps_wrap_and_stop, ps_with_asset,
      bail_out, isReferencedIdentifier, free_exports_reference,
      isReferencedIdentifier.
    simpl. rewrite fresh_data.
    destruct (String.eqb name "module") eqn:Em; simpl.
    + assert (String.eqb name "exports" = false) as Ee
        by (apply String.eqb_eq in Em; subst; reflexivity).
      rewrite Ee. kill_atoms; auto.
    + kill_atoms; auto.
  - (* MemberExpression *)
    unfold prescan_MemberExpression, exports_safe, ps_with_asset, bail_out,
      matchesPattern.
    simpl. rewrite fresh_data. kill_atoms; auto.
  - (* CallExpression *)
    unfold prescan_CallExpression, ps_wrap_and_stop.
    simpl. rewrite isIdentifierNamed_spec. kill_atoms; auto.
  - (* ReturnStatement *)
    unfold prescan_ReturnStatement. simpl.
    destruct (getFunctionParent _); simpl; kill_atoms; auto.
Qed.

Lemma prescan_visit_dependencies p ps :
  is_Some (path_parentPath p) ->
  dependencies (ps_asset (prescan_visit sc p ps))
  = if unsafe_exports_use sc p
    then add_or_merge (dependencies (ps_asset ps))
           (self_dependency (ps_asset ps))
    else dependencies (ps_asset ps).
Proof.
  intros [pp Hpp]. destruct p as [n k o]; simpl in Hpp; subst o.
  unfold unsafe_exports_use.
  unfold prescan_visit, free_exports_reference, free_module_exports,
    isReferencedIdentifier.
  destruct n; simpl; try reflexivity.
  - unfold prescan_ReferencedIdentifier, exports_safe, ps_wrap_and_stop,
      ps_with_asset, bail_out, addDependency.
    simpl. rewrite fresh_data.
    destruct (String.eqb name "module") eqn:Em; simpl.
    + assert (String.eqb name "exports" = false) as Ee
        by (apply String.eqb_eq in Em; subst; reflexivity).
      rewrite Ee. kill_atoms; auto.
    + kill_atoms; auto.
  - unfold prescan_MemberExpression, exports_safe, ps_with_asset, bail_out,
      addDependency.
    simpl. rewrite fresh_data. kill_atoms; auto.
  - unfold prescan_CallExpression, ps_wrap_and_stop.
    simpl. kill_atoms; auto.
  - unfold prescan_ReturnStatement. simpl.
    destruct (getFunctionParent _); simpl; auto.
Qed.

Lemma entered_Forall (P : NodePath -> Prop) l : forall e,
  Forall P l -> Forall P (entered_from sc e l).
Proof.
  intros e H. rewrite Forall_forall in H. apply Forall_forall.
  intros q Hq. apply H. eapply elem_of_sublist; [exact Hq |].
  apply entered_from_sublist.
Qed.

Lemma fold_visit_flags l : forall ps,
  Forall (fun p => is_Some (path_parentPath p)) l ->
  let a := ps_asset ps in
  let a' := ps_asset (fold_left (prescan_enter sc) l ps) in
  isES6Module (meta a') = isES6Module (meta a) || existsb is_module_declaration l
  /\ isCommonJS (meta a')
     = isCommonJS (meta a)
       || existsb (fun p => wrap_trigger sc p || free_exports_reference sc p
                            || free_module_exports sc p) l
  /\ resolveExportsBailedOut (meta a')
     = resolveExportsBailedOut (meta a) || existsb (unsafe_exports_use sc) l.
Proof.
  induction l as [|p l IH]; intros ps Hl; simpl.
  - rewrite !orb_false_r. auto.
  - inversion Hl as [|? ? Hp Hl']; subst.
    destruct (IH (prescan_enter sc ps p) Hl') as (-> & -> & ->).
    destruct (prescan_visit_flags p (ps_enter ps) Hp) as (H1 & H2 & H3).
    unfold prescan_enter. rewrite H1, H2, H3. simpl.
    rewrite !orb_assoc. auto.
Qed.

(** Asking twice for the same dependency is asking once. *)
Lemma mergeDependencies_idem x d :
  mergeDependencies (mergeDependencies x d) d = mergeDependencies x d.
Proof.
  unfold mergeDependencies. simpl. f_equal.
  destruct (dep_symbols x) as [mo|], (dep_symbols d) as [mn|]; simpl;
    try reflexivity.
  rewrite (assoc_L (∪)), (idemp_L (∪)). reflexivity.
Qed.

Lemma mergeDependencies_self d : mergeDependencies d d = d.
Proof.
  destruct d as [i s b m [t|]]; unfold mergeDependencies; simpl;
    [rewrite (idemp_L (∪)) |]; reflexivity.
Qed.

Lemma add_or_merge_idem d ds :
  add_or_merge (add_or_merge ds d) d = add_or_merge ds d.
Proof.
  induction ds as [|x ds IH]; simpl.
  - rewrite String.eqb_refl, mergeDependencies_self. reflexivity.
  - destruct (String.eqb (dep_id x) (dep_id d)) eqn:E; simpl.
    + rewrite String.eqb_refl, mergeDependencies_idem. reflexivity.
    + rewrite E, IH. reflexivity.
Qed.

Lemma add_or_merge_new d ds :
  Forall (fun x => dep_id x <> dep_id d) ds -> add_or_merge ds d = ds ++ [d].
Proof.
  induction 1 as [|x ds Hx _ IH]; simpl; [reflexivity |].
  apply String.eqb_neq in Hx. rewrite Hx, IH. reflexivity.
Qed.

Lemma add_or_merge_old d ds : forall i x,
  ds !! i = Some x -> dep_id x = dep_id d ->
  Forall (fun y => dep_id y <> dep_id d) (take i ds) ->
  add_or_merge ds d = <[i := mergeDependencies x d]> ds.
Proof.
  induction ds as [|y ds IH]; intros i x Hi Hx Hbefore; [discriminate |].
  destruct i as [|i]; simpl in *.
  - inversion Hi; subst. rewrite Hx, String.eqb_refl. reflexivity.
  - inversion Hbefore as [|? ? Hy Hrest]; subst.
    apply String.eqb_neq in Hy. rewrite Hy. f_equal.
    apply (IH i x); assumption.
Qed.

Lemma fold_visit_dependencies l : forall ps,
  Forall (fun p => is_Some (path_parentPath p)) l ->
  dependencies (ps_asset (fold_left (prescan_enter sc) l ps))
  = if existsb (unsafe_exports_use sc) l
    then add_or_merge (dependencies (ps_asset ps))
           (self_dependency (ps_asset ps))
    else dependencies (ps_asset ps).
Proof.
  induction l as [|p l IH]; intros ps Hl; simpl; [reflexivity |].
  inversion Hl as [|? ? Hp Hl']; subst.
  rewrite (IH (prescan_enter sc ps p) Hl').
  destruct (prescan_enter_identity sc p ps) as (Hid & Hfp & _).
  assert (Hself : self_dependency (ps_asset (prescan_enter sc ps p))
                  = self_dependency (ps_asset ps)).
  { unfold self_dependency, self_id, self_specifier. rewrite Hid, Hfp.
    reflexivity. }
  rewrite Hself. unfold prescan_enter at 1 2.
  rewrite (prescan_visit_dependencies p (ps_enter ps) Hp). simpl.
  destruct (unsafe_exports_use sc p); simpl; [| reflexivity].
  destruct (existsb (unsafe_exports_use sc) l); [| reflexivity].
  apply add_or_merge_idem.
Qed.

(** The visits that are ended when a walk reaches a path were ended by
    triggers that come before the path. *)
Lemma entered_from_app_triggers l1 : forall e l2,
  exists e',
    Forall (fun pos => exists p, p ∈ l1 /\ wrap_trigger sc p = true
                                 /\ pos = parent_position p) e'
    /\ entered_from sc e (l1 ++ l2)
       = entered_from sc e l1 ++ entered_from sc (e ++ e') l2.
Proof.
  induction l1 as [|p l1 IH]; intros e l2.
  - exists []. split; [constructor |]. rewrite app_nil_r. reflexivity.
  - cbn [app entered_from].
    assert (Hweak : forall e',
      Forall (fun pos => exists p0, p0 ∈ l1 /\ wrap_trigger sc p0 = true
                                    /\ pos = parent_position p0) e' ->
      Forall (fun pos => exists p0, p0 ∈ p :: l1 /\ wrap_trigger sc p0 = true
                                    /\ pos = parent_position p0) e').
    { intros e' H. eapply Forall_impl; [exact H |].
      intros pos (p0 & H0 & H1 & H2). exists p0. split; [right |]; auto. }
    destruct (skipped e p).
    + destruct (IH e l2) as (e' & He' & ->). exists e'.
      split; [apply Hweak, He' | reflexivity].
    + destruct (wrap_trigger sc p) eqn:Hp.
      * destruct (IH (e ++ [parent_position p]) l2) as (e' & He' & ->).
        exists (parent_position p :: e'). split.
        -- constructor; [| apply Hweak, He'].
           exists p. split; [left |]; auto.
        -- rewrite <- app_assoc. reflexivity.
      * destruct (IH e l2) as (e' & He' & ->). exists e'.
        split; [apply Hweak, He' | reflexivity].
Qed.

(** A path is entered when no trigger that comes before it has its parent
    at the path or above it. *)
Lemma entered_if_not_cut l1 q l2 :
  (forall p, p ∈ l1 -> wrap_trigger sc p = true ->
             ¬ parent_position p `prefix_of` position q) ->
  q ∈ entered sc (l1 ++ q :: l2).
Proof.
  intros Hcut. unfold entered.
  destruct (entered_from_app_triggers l1 [] (q :: l2)) as (e' & He' & ->).
  apply elem_of_app. right. cbn [app entered_from].
  assert (Hs : skipped e' q = false).
  { apply not_true_iff_false. unfold skipped. rewrite existsb_exists.
    intros (pos & Hin & Hpos). apply list_elem_of_In in Hin.
    rewrite Forall_forall in He'.
    destruct (He' pos Hin) as (p & Hp & Ht & ->).
    apply (Hcut p Hp Ht). apply starts_with_prefix, Hpos. }
  rewrite Hs. left.
Qed.

Lemma existsb_elem {A} (f : A -> bool) (l : list A) x :
  x ∈ l -> f x = true -> existsb f l = true.
Proof.
  intros Hx Hf. apply existsb_exists. exists x.
  split; [apply list_elem_of_In, Hx | exact Hf].
Qed.
End Flags.

(** ** The flags of [asset.meta] after the pre-scan *)

(** X2.  After the pre-scan, [asset.meta.isES6Module] is true exactly when
    it was true before or the pre-scan entered an import or export
    declaration.  The pre-scan goes on after a call of [path.stop()], which
    ends only the visit of the parent of the path it is called on: a
    declaration is entered, and the flag set, whenever no trigger that comes
    before the declaration has its parent at the declaration or above it. *)
Theorem prescan_marks_ES6_modules (a : Asset) (ast : node) :
  let sc := crawl ast empty_scope in
  let a' := ps_asset (prescan sc a ast) in
  isES6Module (meta a')
  = isES6Module (meta a)
    || existsb is_module_declaration (entered sc (program_paths ast))
  /\ forall l1 q l2,
       program_paths ast = l1 ++ q :: l2 ->
       is_module_declaration q = true ->
       (forall p, p ∈ l1 -> wrap_trigger sc p = true ->
                  ¬ parent_position p `prefix_of` position q) ->
       isES6Module (meta a') = true.
Proof.
  intros sc a'.
  assert (H : isES6Module (meta a')
              = isES6Module (meta a)
                || existsb is_module_declaration
                     (entered sc (program_paths ast))).
  { unfold a'. pose proof (prescan_entered a ast) as E. cbv zeta in E.
    fold sc in E. rewrite E.
    apply (fold_visit_flags sc (crawl_fresh_data _ _)).
    apply entered_Forall, program_paths_parent. }
  split; [exact H |].
  intros l1 q l2 Hsplit Hq Hcut. rewrite H.
  rewrite (existsb_elem is_module_declaration _ q);
    [apply orb_true_r | | exact Hq].
  rewrite Hsplit. apply entered_if_not_cut, Hcut.
Qed.

(** [if (c) { return 1; } export default 3;]: the walk goes on after the
    return statement in the block, and enters the export declaration. *)
Lemma prescan_marks_ES6_modules_witness :
  let ast := sample_export_after_return in
  isES6Module (meta (ps_asset (prescan (crawl ast empty_scope) sample_asset ast)))
  = true.
Proof.
  intros ast.
  destruct (prescan_marks_ES6_modules sample_asset ast) as [_ H].
  apply (H (take 5 (program_paths ast))
           (mkPath (ExportDefaultDeclaration (NumericLiteral 3)) (K_body 1%nat)
              (Some (mkPath ast K_root None)))
           (drop 6 (program_paths ast)) eq_refl eq_refl).
  intros p Hp Ht Hpre.
  apply list_elem_of_In in Hp. vm_compute in Hp.
  repeat (destruct Hp as [Hp|Hp]; [subst p; first [discriminate Ht | vm_compute in Hpre; destruct Hpre as [k Hk]; discriminate Hk] |]).
  exact Hp.
Defined.

(** X3.  After the pre-scan, [asset.meta.isCommonJS] is true exactly when it
    was true before or one of the paths the pre-scan entered is a wrap
    trigger, a free reference to [exports], or a [module.exports] with
    [module] free. *)
Theorem prescan_marks_CommonJS (a : Asset) (ast : node) :
  let sc := crawl ast empty_scope in
  isCommonJS (meta (ps_asset (prescan sc a ast)))
  = isCommonJS (meta a)
    || existsb (fun p => wrap_trigger sc p || free_exports_reference sc p
                         || free_module_exports sc p)
         (entered sc (program_paths ast)).
Proof.
  intros sc. pose proof (prescan_entered a ast) as E. cbv zeta in E.
  fold sc in E. rewrite E.
  apply (fold_visit_flags sc (crawl_fresh_data _ _)).
  apply entered_Forall, program_paths_parent.
Qed.

(** X4.  After the pre-scan, [asset.meta.resolveExportsBailedOut] is true
    exactly when it was true before or the pre-scan entered a free [exports]
    or [module.exports] used where the exports object may escape; such a use
    is entered whenever no trigger that comes before it has its parent at
    the use or above it.  When no such use is entered the dependencies of
    the asset are untouched.  When one is, however many there are, the asset
    ends with one dependency on itself: [./<basename>], not async, with
    ["*"] read as [@exports], added at the end when the asset had no
    dependency with that id, and else merged into that dependency, which
    keeps its [meta] and its other symbols. *)
Theorem prescan_gives_up_on_exports (a : Asset) (ast : node) :
  let sc := crawl ast empty_scope in
  let seen := entered sc (program_paths ast) in
  let a' := ps_asset (prescan sc a ast) in
  let self := "./" +:+ basename (filePath a) in
  let id := asset_id a +:+ ":" +:+ self in
  resolveExportsBailedOut (meta a')
  = resolveExportsBailedOut (meta a) || existsb (unsafe_exports_use sc) seen
  /\ (forall l1 q l2,
        program_paths ast = l1 ++ q :: l2 ->
        unsafe_exports_use sc q = true ->
        (forall p, p ∈ l1 -> wrap_trigger sc p = true ->
                   ¬ parent_position p `prefix_of` position q) ->
        existsb (unsafe_exports_use sc) seen = true)
  /\ (existsb (unsafe_exports_use sc) seen = false ->
      dependencies a' = dependencies a)
  /\ (existsb (unsafe_exports_use sc) seen = true ->
      (Forall (fun d => dep_id d <> id) (dependencies a) ->
       dependencies a'
       = dependencies a
         ++ [mkDependency id self false (mkDependencyMeta false false false)
               (Some {[ "*" := mkSymbol "@exports" false ]})])
      /\ (forall i d,
            dependencies a !! i = Some d -> dep_id d = id ->
            Forall (fun d => dep_id d <> id) (take i (dependencies a)) ->
            dependencies a'
            = <[i := mkDependency id self false (dep_meta d)
                       (insert "*" (mkSymbol "@exports" false)
                          <$> dep_symbols d)]> (dependencies a))).
Proof.
  intros sc seen a' self id.
  pose proof (prescan_entered a ast) as E. cbv zeta in E. fold sc in E.
  assert (Hp : Forall (fun p => is_Some (path_parentPath p)) seen)
    by apply entered_Forall, program_paths_parent.
  pose proof (fold_visit_dependencies sc (crawl_fresh_data _ _) seen
                (mkPreScan a false false []) Hp) as Hdeps.
  fold seen in E. rewrite <- E in Hdeps. fold a' in Hdeps. simpl in Hdeps.
  split; [| split; [| split]].
  - unfold a'. rewrite E.
    apply (fold_visit_flags sc (crawl_fresh_data _ _)), Hp.
  - intros l1 q l2 Hsplit Hq Hcut.
    apply (existsb_elem _ _ q); [| exact Hq].
    unfold seen. rewrite Hsplit. apply entered_if_not_cut, Hcut.
  - intros H. rewrite Hdeps, H. reflexivity.
  - intros H. rewrite H in Hdeps. split.
    + intros Hnew. rewrite Hdeps. apply (add_or_merge_new (self_dependency a)).
      exact Hnew.
    + intros i d Hi Hd Hbefore. rewrite Hdeps.
      rewrite (add_or_merge_old (self_dependency a) _ i d Hi Hd Hbefore).
      f_equal. unfold mergeDependencies, self_dependency. simpl. f_equal.
      destruct (dep_symbols d) as [m|]; simpl; [| reflexivity].
      rewrite insert_union_singleton_l. reflexivity.
Qed.

(** [if (c) { return 1; } foo(exports);] in [/src/index.js]: the walk goes
    on after the return statement in the block and reaches [foo(exports)]. *)
Lemma prescan_gives_up_on_exports_witness :
  let ast := sample_escape_after_return in
  let a' := ps_asset (prescan (crawl ast empty_scope) sample_asset ast) in
  resolveExportsBailedOut (meta a') = true
  /\ dependencies a'
     = [mkDependency "a1b2:./index.js" "./index.js" false
          (mkDependencyMeta false false false)
          (Some {[ "*" := mkSymbol "@exports" false ]})].
Proof.
  intros ast a'.
  destruct (prescan_gives_up_on_exports sample_asset ast)
    as (H1 & H2 & _ & H4).
  assert (Hseen : existsb (unsafe_exports_use (crawl ast empty_scope))
                    (entered (crawl ast empty_scope) (program_paths ast))
                  = true).
  { apply (H2 (take 8 (program_paths ast))
              (mkPath (Identifier "exports") (K_arguments 0%nat)
                 (Some (mkPath
                          (CallExpression (Identifier "foo")
                             [Identifier "exports"])
                          K_expression
                          (Some (mkPath
                                   (ExpressionStatement
                                      (CallExpression (Identifier "foo")
                                         [Identifier "exports"]))
                                   (K_body 1%nat)
                                   (Some (mkPath ast K_root None)))))))
              (drop 9 (program_paths ast)) eq_refl eq_refl).
    intros p Hp Ht Hpre.
    apply list_elem_of_In in Hp. vm_compute in Hp.
    repeat (destruct Hp as [Hp|Hp];
            [subst p;
             first [discriminate Ht
                   | vm_compute in Hpre; destruct Hpre as [k Hk];
                     discriminate Hk] |]).
    exact Hp. }
  split.
  - unfold a'. rewrite H1, Hseen. reflexivity.
  - destruct (H4 Hseen) as [Hnew _]. apply Hnew. constructor.
Defined.

Lemma prescan_visit_meta_names sc p ps :
  meta_id (meta (ps_asset (prescan_visit sc p ps)))
  = meta_id (meta (ps_asset ps))
  /\ exportsIdentifier (meta (ps_asset (prescan_visit sc p ps)))
     = exportsIdentifier (meta (ps_asset ps)).
Proof.
  unfold prescan_visit, prescan_ImportDeclaration, prescan_ExportDeclaration,
    prescan_CallExpression, prescan_ReturnStatement,
    prescan_ReferencedIdentifier, prescan_MemberExpression.
  destruct (path_node p); simpl;
    repeat match goal with
      | |- context [if ?c then _ else _] => destruct c; simpl
      | |- context [match ?o with Some _ => _ | None => _ end] =>
          destruct o; simpl
      end;
    auto.
Qed.


Lemma fold_enter_meta_names sc l : forall ps,
  meta_id (meta (ps_asset (fold_left (prescan_enter sc) l ps)))
  = meta_id (meta (ps_asset ps))
  /\ exportsIdentifier (meta (ps_asset (fold_left (prescan_enter sc) l ps)))
     = exportsIdentifier (meta (ps_asset ps)).
Proof.
  induction l as [|p l IH]; intros ps; simpl; [auto |].
  destruct (IH (prescan_enter sc ps p)) as [-> ->].
  apply (prescan_visit_meta_names sc p (ps_enter ps)).
Qed.

Lemma prescan_meta_names a ast :
  let ps := prescan (crawl ast empty_scope) a ast in
  meta_id (meta (ps_asset ps)) = meta_id (meta a)
  /\ exportsIdentifier (meta (ps_asset ps)) = exportsIdentifier (meta a).
Proof.
  intros ps. unfold ps. rewrite prescan_entered.
  apply (fold_enter_meta_names _ _ (mkPreScan a false false [])).
Qed.

(** ** What [Program.enter] returns *)

Lemma Program_enter_facts (a : Asset) (ast : node) :
  let ps := prescan (crawl ast empty_scope) (enter_asset a) ast in
  exists st,
    Program_enter a ast = Ok st
    /\ asset_id (st_asset st) = asset_id a
    /\ filePath (st_asset st) = filePath a
    /\ dependencies (st_asset st) = dependencies (ps_asset ps)
    /\ meta_id (meta (st_asset st)) = Some (asset_id a)
    /\ exportsIdentifier (meta (st_asset st))
       = Some ("$" +:+ asset_id a +:+ "$exports")
    /\ is_Some (symbols (st_asset st))
    /\ isCommonJS (meta (st_asset st)) || isES6Module (meta (st_asset st))
       = true
    /\ data_shouldWrap (st_scope st) = Some (ps_shouldWrap ps)
    /\ data_cjsExportsReassigned (st_scope st) = Some false.
Proof.
  intros ps.
  destruct (prescan_identity (enter_asset a) ast) as (Hid & Hfp & Hsym).
  destruct (prescan_meta_names (enter_asset a) ast) as (Hmi & Hei).
  fold ps in Hid, Hfp, Hsym, Hmi, Hei.
  simpl in Hid, Hfp, Hsym, Hmi, Hei.
  assert (Hens : is_Some (symbols_ensure (symbols a)))
    by (destruct (symbols a); simpl; eauto).
  unfold Program_enter. fold ps.
  destruct (isCommonJS (meta (ps_asset ps))) eqn:Ec;
    destruct (isES6Module (meta (ps_asset ps))) eqn:Ee; simpl.
  4: { unfold asset_symbols_set; simpl. rewrite Hsym.
       destruct Hens as [m ->]. simpl.
       eexists; repeat split; simpl; eauto. }
  all: eexists; repeat split; simpl; eauto;
    rewrite ?Ec, ?Ee, ?Hsym; auto.
Qed.

(** X1.  [Program.enter] never throws.  Afterwards [asset.meta.id] is the
    id of the asset, [asset.meta.exportsIdentifier] is [$<id>$exports], the
    symbol table of the asset exists, the asset is marked as a CommonJS or as
    an ES module (or both), and the program scope carries a value for
    [shouldWrap] and [false] for [cjsExportsReassigned]. *)
Theorem Program_enter_sets_up (a : Asset) (ast : node) :
  exists st,
    Program_enter a ast = Ok st
    /\ asset_id (st_asset st) = asset_id a
    /\ meta_id (meta (st_asset st)) = Some (asset_id a)
    /\ exportsIdentifier (meta (st_asset st))
       = Some ("$" +:+ asset_id a +:+ "$exports")
    /\ is_Some (symbols (st_asset st))
    /\ isCommonJS (meta (st_asset st)) || isES6Module (meta (st_asset st))
       = true
    /\ is_Some (data_shouldWrap (st_scope st))
    /\ data_cjsExportsReassigned (st_scope st) = Some false.
Proof.
  destruct (Program_enter_facts a ast)
    as (st & He & Hi & _ & _ & Hm & Hx & Hs & Hk & Hw & Hr).
  exists st. rewrite Hw. repeat split; eauto.
Qed.

(** X5.  When [Program.enter] stores [shouldWrap = false], the tree it
    leaves is the tree it was given: the pre-scan replaces nothing. *)
Theorem enter_keeps_unwrapped_tree (a : Asset) (ast : node) (st : State) :
  Program_enter a ast = Ok st ->
  data_shouldWrap (st_scope st) = Some false ->
  st_ast st = ast.
Proof.
  intros He Hw. unfold Program_enter in He.
  apply bind_Ok in He as (a1 & _ & He). inversion He; subst; clear He.
  simpl in *. inversion Hw as [Hw'].
  pose proof (prescan_over_trigger (crawl ast empty_scope)
                (crawl_fresh_data _ _) (program_paths ast)
                (mkPreScan (enter_asset a) false false [])) as Ht.
  fold (prescan (crawl ast empty_scope) (enter_asset a) ast) in Ht.
  rewrite Hw' in Ht. simpl in Ht. symmetry in Ht.
  unfold prescan_ast. rewrite prescan_entered.
  rewrite fold_enter_replaced. simpl.
  rewrite <- (entered_trigger (crawl ast empty_scope)) in Ht.
  induction (entered (crawl ast empty_scope) (program_paths ast))
    as [|p l IH]; [reflexivity |].
  simpl in Ht. apply orb_false_iff in Ht as [Hp Hl]. simpl.
  destruct (toplevel_return p) eqn:Er; [| apply IH, Hl].
  apply (toplevel_return_is_trigger (crawl ast empty_scope)) in Er.
  congruence.
Qed.

(** [f(1);] *)
Lemma enter_keeps_unwrapped_tree_witness :
  exists st,
    Program_enter sample_asset sample_plain_call = Ok st
    /\ st_ast st = sample_plain_call.
Proof.
  eexists. split; [reflexivity |].
  apply (enter_keeps_unwrapped_tree sample_asset sample_plain_call _
           eq_refl eq_refl).
Defined.

(** * What the walk keeps *)

Lemma kept_refl st : kept st st.
Proof. constructor; auto. Qed.

Lemma kept_trans st1 st2 st3 : kept st1 st2 -> kept st2 st3 -> kept st1 st3.
Proof.
  intros [] []. constructor; try congruence; auto.
  - etrans; eassumption.
  - etrans; eassumption.
Qed.

Lemma kept_scope st s sc' :
  kept st s ->
  data_shouldWrap sc' = data_shouldWrap (h_scope s) ->
  (getData_cjsExportsReassigned (h_scope s) = true ->
   getData_cjsExportsReassigned sc' = true) ->
  bindings (h_scope s) `prefix_of` bindings sc' ->
  pushed (h_scope s) `prefix_of` pushed sc' ->
  kept st (h_with_scope s sc').
Proof.
  intros [] Hw Hr Hb Hp. constructor; simpl; auto; try congruence.
  - etrans; eassumption.
  - etrans; eassumption.
Qed.

Lemma kept_isCommonJS_set st s :
  kept st s -> kept st (h_with_asset s (set_isCommonJS (h_asset s) true)).
Proof. intros []. constructor; simpl; auto. Qed.

Lemma kept_symbols_set st s x l a :
  kept st s ->
  asset_symbols_set (h_asset s) x l = Ok a ->
  kept st (h_with_asset s a).
Proof.
  intros [] H. unfold asset_symbols_set, symbols_set, bind in H.
  destruct (symbols (h_asset s)) as [m|] eqn:Em; [| discriminate].
  simpl in H. injection H as <-.
  constructor; simpl; auto.
  intros y Hy. specialize (kept_symbol0 y Hy).
  simpl in kept_symbol0.
  destruct (decide (x = y)) as [->|Hne].
  - rewrite lookup_insert_eq. eauto.
  - rewrite lookup_insert_ne by exact Hne. exact kept_symbol0.
Qed.

Lemma getExportsIdentifier_kept st s p :
  kept st s -> kept st (fst (getExportsIdentifier p s)).
Proof.
  intros H. unfold getExportsIdentifier.
  destruct (getData_shouldWrap (h_scope s)); [exact H |].
  destruct (negb _); [| exact H]. simpl.
  apply kept_scope; auto.
Qed.

Lemma getCJSExportsIdentifier_kept st s p :
  kept st s -> kept st (fst (getCJSExportsIdentifier p s)).
Proof.
  intros H. unfold getCJSExportsIdentifier.
  destruct (getData_shouldWrap (h_scope s)); [exact H |].
  destruct (getData_cjsExportsReassigned (h_scope s));
    [| apply getExportsIdentifier_kept, H].
  destruct (negb _); [| exact H]. simpl.
  apply kept_scope; simpl; auto.
  - apply prefix_app_r. reflexivity.
  - apply prefix_app_r. reflexivity.
Qed.

Lemma scope_push_kept st s i init :
  kept st s -> kept st (h_with_scope s (scope_push (h_scope s) i init)).
Proof.
  intros H. apply kept_scope; simpl; auto; apply prefix_app_r; reflexivity.
Qed.

Lemma registerDeclaration_kept st s names :
  kept st s ->
  kept st (h_with_scope s (registerDeclaration (h_scope s) names)).
Proof.
  intros H. apply kept_scope; simpl; auto.
  apply prefix_app_r; reflexivity.
Qed.

Lemma VISITOR_MemberExpression_kept p st st' r :
  VISITOR_MemberExpression p st = Ok (st', r) -> kept st st'.
Proof.
  unfold VISITOR_MemberExpression. intros H.
  repeat match type of H with
    | (if ?c then Ok (st, _) else _) = _ =>
        destruct c; [injection H as <- _; apply kept_refl |]
    | Ok (st, _) = _ => injection H as <- _; apply kept_refl
    end.
  destruct (matchesPattern (path_node p) ["module"; "exports"]).
  - destruct (getExportsIdentifier p st) as [st1 e] eqn:E.
    assert (K1 : kept st st1).
    { pose proof (getExportsIdentifier_kept st st p (kept_refl st)) as K.
      rewrite E in K. exact K. }
    apply bind_Ok in H as (a & Ea & H). injection H as <- _.
    pose proof (kept_symbols_set _ _ _ _ _ K1 Ea) as K2.
    destruct (negb _);
      [apply (scope_push_kept st (h_with_asset st1 a)) |]; exact K2.
  - repeat match type of H with
      | (if ?c then Ok (st, _) else _) = _ =>
          destruct c; [injection H as <- _; apply kept_refl |]
      | Ok (st, _) = _ => injection H as <- _; apply kept_refl
      end.
Qed.

Lemma VISITOR_ReferencedIdentifier_kept p st :
  kept st (fst (VISITOR_ReferencedIdentifier p st)).
Proof.
  unfold VISITOR_ReferencedIdentifier.
  destruct (_ && _ && _).
  - destruct (getCJSExportsIdentifier p st) as [st1 e] eqn:E.
    assert (K1 : kept st st1).
    { pose proof (getCJSExportsIdentifier_kept st st p (kept_refl st)) as K.
      rewrite E in K. exact K. }
    destruct (_ && _); simpl; apply kept_isCommonJS_set, K1.
  - destruct (_ && _); simpl; apply kept_refl.
Qed.

Lemma VISITOR_ThisExpression_kept p st :
  kept st (fst (VISITOR_ThisExpression p st)).
Proof.
  unfold VISITOR_ThisExpression.
  destruct (negb _); [| apply kept_refl].
  destruct (binds_this p); [apply kept_refl |].
  destruct (isES6Module _); [apply kept_refl |].
  destruct (getExportsIdentifier p st) as [st1 e] eqn:E.
  assert (K1 : kept st st1).
  { pose proof (getExportsIdentifier_kept st st p (kept_refl st)) as K.
    rewrite E in K. exact K. }
  simpl. apply kept_isCommonJS_set, K1.
Qed.

Lemma VISITOR_AssignmentExpression_kept p st st' e :
  VISITOR_AssignmentExpression p st = Ok (st', e) -> kept st st'.
Proof.
  unfold VISITOR_AssignmentExpression. intros H.
  destruct (getData_shouldWrap (h_scope st));
    [injection H as <- _; apply kept_refl |].
  destruct (path_node p) as [| | | | | | | | | | | | | | |op lhs rhs
                            | | | | | | | | | | | | | | | | | | | | |];
    try (injection H as <- _; apply kept_refl).
  match type of H with
  | (let '(st1, e1) := ?X in _) = _ =>
      destruct X as [st1 e1] eqn:E1
  end.
  assert (K1 : kept st st1).
  { destruct (_ && _ && _) in E1.
    - destruct (getCJSExportsIdentifier p _) as [s2 i] eqn:E2.
      injection E1 as <- _.
      apply kept_isCommonJS_set.
      pose proof (getCJSExportsIdentifier_kept st
                    (h_with_scope st
                       (setData_cjsExportsReassigned (h_scope st) true)) p)
        as K.
      rewrite E2 in K. apply K.
      apply kept_scope; simpl; auto using kept_refl.
    - injection E1 as <- _. apply kept_refl. }
  destruct lhs; try (injection H as <- _; exact K1).
  destruct (_ && _) in H; [| injection H as <- _; exact K1].
  destruct (getExportsIdentifier p st1) as [st2 exportsId] eqn:E2.
  assert (K2 : kept st st2).
  { pose proof (getExportsIdentifier_kept st st1 p K1) as K.
    rewrite E2 in K. exact K. }
  destruct (negb (program_hasBinding _ _)).
  - apply bind_Ok in H as (a & Ea & H).
    assert (K3 : kept st (h_with_asset st2 a)).
    { destruct (_ && _) in Ea.
      - eapply kept_symbols_set; eassumption.
      - injection Ea as <-. destruct st2; exact K2. }
    destruct (path_scope_is_program p); injection H as <- _.
    + apply (kept_isCommonJS_set st
               (h_with_scope (h_with_asset st2 a) _)).
      apply (registerDeclaration_kept st (h_with_asset st2 a)), K3.
    + apply (kept_isCommonJS_set st
               (h_with_scope (h_with_asset st2 a) _)).
      apply (scope_push_kept st (h_with_asset st2 a)), K3.
  - injection H as <- _. apply kept_isCommonJS_set, K2.
Qed.

Lemma find_dependency_from_lookup ds x i k d :
  find_dependency_from i ds x = Some (k, d) ->
  exists j, k = (i + j)%nat /\ ds !! j = Some d /\ moduleSpecifier d = x
            /\ forall j' d', (j' < j)%nat -> ds !! j' = Some d' ->
                             moduleSpecifier d' ≠ x.
Proof.
  revert i. induction ds as [|d0 ds IH]; intros i; simpl; [discriminate |].
  destruct (String.eqb (moduleSpecifier d0) x) eqn:E.
  - intros H. injection H as <- <-. exists 0%nat.
    repeat split; [lia | apply String.eqb_eq, E | intros; lia].
  - intros H. apply IH in H as (j & -> & Hj & Hx & Hfirst).
    exists (S j). repeat split; [lia | exact Hj | exact Hx |].
    intros [|j'] d' Hlt Hd'; simpl in Hd'.
    + injection Hd' as <-. apply String.eqb_neq, E.
    + eapply Hfirst; [| exact Hd']. lia.
Qed.

Lemma find_dependency_lookup a x k d :
  find_dependency a x = Some (k, d) ->
  dependencies a !! k = Some d /\ moduleSpecifier d = x
  /\ forall j d', (j < k)%nat -> dependencies a !! j = Some d' ->
                  moduleSpecifier d' ≠ x.
Proof.
  intros H. apply find_dependency_from_lookup in H as (j & -> & H).
  exact H.
Qed.

Lemma dep_symbols_set_identity d x l d' :
  dep_symbols_set d x l = Ok d' -> dep_identity d' = dep_identity d.
Proof.
  unfold dep_symbols_set, symbols_set, bind.
  destruct (dep_symbols d); [| discriminate]. simpl.
  intros H; injection H as <-. reflexivity.
Qed.

Lemma set_import_symbols_identity a names : forall d d',
  set_import_symbols a d names = Ok d' -> dep_identity d' = dep_identity d.
Proof.
  induction names as [|x names IH]; intros d d'; simpl.
  - intros H; injection H as <-. reflexivity.
  - intros H. apply bind_Ok in H as (d1 & E1 & H).
    apply IH in H. apply dep_symbols_set_identity in E1. congruence.
Qed.

Lemma insert_same_identity (ds : list Dependency) k d d' :
  ds !! k = Some d -> dep_identity d' = dep_identity d ->
  map dep_identity (<[k := d']> ds) = map dep_identity ds.
Proof.
  intros Hk Hd.
  change (map dep_identity) with (fmap (M:=list) dep_identity).
  rewrite list_fmap_insert, Hd.
  apply list_insert_id. rewrite list_lookup_fmap, Hk. reflexivity.
Qed.

Lemma VISITOR_CallExpression_kept getBinding p st st' r :
  VISITOR_CallExpression getBinding p st = Ok (st', r) -> kept st st'.
Proof.
  unfold VISITOR_CallExpression. intros H.
  destruct (path_node p) as [| | | | | | | | | | | | | |callee args
                            | | | | | | | | | | | | | | | | | | | | | |];
    try (injection H as <- _; apply kept_refl).
  destruct args as [|arg [|]]; try (injection H as <- _; apply kept_refl).
  destruct (_ || _); [injection H as <- _; apply kept_refl |].
  destruct (isIdentifierNamed callee "require");
    [| destruct (matchesPattern _ _); injection H as <- _; apply kept_refl].
  destruct (find_dependency (h_asset st) (node_value arg)) as [[i dep]|] eqn:Ef;
    [| injection H as <- _; apply kept_refl].
  apply find_dependency_lookup in Ef as (Hi & _ & _).
  apply bind_Ok in H as (nested & _ & H).
  apply bind_Ok in H as (accesses & _ & H).
  apply bind_Ok in H as (dep3 & E3 & H).
  injection H as <- _.
  assert (Hid : dep_identity dep3 = dep_identity dep).
  { destruct accesses.
    - apply set_import_symbols_identity in E3. rewrite E3.
      destruct nested; reflexivity.
    - apply dep_symbols_set_identity in E3. rewrite E3.
      destruct nested; reflexivity. }
  constructor; simpl; auto;
    try (destruct (negb (isAsync dep)); simpl; auto; fail).
  rewrite (insert_same_identity _ i dep dep3);
    destruct (negb (isAsync dep)); simpl; auto.
Qed.

Lemma visitor_step_kept st st' : visitor_step st st' -> kept st st'.
Proof.
  destruct 1.
  - eapply VISITOR_MemberExpression_kept; eassumption.
  - apply VISITOR_ReferencedIdentifier_kept.
  - apply VISITOR_ThisExpression_kept.
  - eapply VISITOR_AssignmentExpression_kept; eassumption.
  - eapply VISITOR_CallExpression_kept; eassumption.
Qed.

Lemma visitor_steps_kept st st' : rtc visitor_step st st' -> kept st st'.
Proof.
  induction 1 as [|? ? ? H _ IH]; [apply kept_refl |].
  eapply kept_trans; [apply visitor_step_kept, H | exact IH].
Qed.

Lemma walk_program_kept st st' :
  walk_program st = Ok st' ->
  kept (mkH (st_asset st) (st_scope st)) (mkH (st_asset st') (st_scope st')).
Proof.
  intros H. apply walk_program_steps in H as [H _].
  apply visitor_steps_kept, H.
Qed.

(** * What [hoist] returns *)

Lemma asset_symbols_set_sets a x l a' :
  asset_symbols_set a x l = Ok a' ->
  symbols_get (symbols a') x = Some (mkSymbol l false)
  /\ asset_id a' = asset_id a /\ filePath a' = filePath a
  /\ isSource a' = isSource a /\ env_isNode a' = env_isNode a
  /\ meta a' = meta a /\ dependencies a' = dependencies a.
Proof.
  unfold asset_symbols_set, symbols_set, bind.
  destruct (symbols a) as [m|]; [| discriminate]. simpl.
  intros H; injection H as <-. simpl.
  rewrite lookup_insert_eq. repeat split.
Qed.

Lemma Program_exit_asset rename st a' ast' :
  Program_exit rename st = Ok (a', ast') ->
  let a := st_asset st in
  asset_id a' = asset_id a /\ filePath a' = filePath a
  /\ isSource a' = isSource a /\ env_isNode a' = env_isNode a
  /\ dependencies a' = dependencies a
  /\ meta_id (meta a') = meta_id (meta a)
  /\ exportsIdentifier (meta a') = exportsIdentifier (meta a)
  /\ resolveExportsBailedOut (meta a') = resolveExportsBailedOut (meta a)
  /\ isCommonJS (meta a')
     = isCommonJS (meta a) || getData_shouldWrap (st_scope st)
  /\ isES6Module (meta a')
     = isES6Module (meta a) && negb (getData_shouldWrap (st_scope st))
  /\ (isCommonJS (meta a') = true ->
      symbols_get (symbols a') "*"
      = Some (mkSymbol ("$" +:+ asset_id a +:+ "$exports") false))
  /\ isProgram ast' = true.
Proof.
  unfold Program_exit. intros H.
  destruct (st_ast st); try discriminate H.
  destruct (getData_shouldWrap (st_scope st)).
  - apply bind_Ok in H as (a1 & E1 & H). injection H as <- <-.
    apply asset_symbols_set_sets in E1
      as (Hs & Hi & Hf & Hsrc & Henv & Hm & Hd).
    simpl. rewrite Hm. rewrite orb_true_r, andb_false_r.
    repeat split; auto.
  - apply bind_Ok in H as (a1 & E1 & H). injection H as <- <-.
    rewrite orb_false_r, andb_true_r.
    destruct (isCommonJS (meta (st_asset st))) eqn:Ec.
    + apply asset_symbols_set_sets in E1
        as (Hs & Hi & Hf & Hsrc & Henv & Hm & Hd).
      rewrite Hm.
      cbn [node_name getIdentifier] in Hs. rewrite getName_exports in Hs.
      destruct (resolveExportsBailedOut (meta (st_asset st))) eqn:Eb;
        simpl in *; repeat split; auto.
    + injection E1 as <-. repeat split; auto. congruence.
Qed.

Lemma hoist_Hoisted rename a ast a' ast' :
  hoist rename a ast = Hoisted a' ast' ->
  ast_type ast = "babel" /\ ast_version ast = "7.0.0"
  /\ ast_type ast' = ast_type ast /\ ast_version ast' = ast_version ast
  /\ traverse_program rename a (ast_program ast) = Ok (a', ast_program ast').
Proof.
  unfold hoist.
  destruct (String.eqb (ast_type ast) "babel") eqn:Et; simpl;
    [| discriminate].
  destruct (String.eqb (ast_version ast) "7.0.0") eqn:Ev; simpl;
    [| discriminate].
  apply String.eqb_eq in Et, Ev.
  destruct (traverse_program rename a (ast_program ast)) as [[a1 n1]|];
    [| discriminate].
  intros H; injection H as <- <-. simpl. auto.
Qed.

Lemma traverse_program_facts rename a ast a' ast' :
  traverse_program rename a ast = Ok (a', ast') ->
  let ps := prescan (crawl ast empty_scope) (enter_asset a) ast in
  asset_id a' = asset_id a /\ filePath a' = filePath a
  /\ meta_id (meta a') = Some (asset_id a)
  /\ exportsIdentifier (meta a') = Some ("$" +:+ asset_id a +:+ "$exports")
  /\ isCommonJS (meta a') || isES6Module (meta a') = true
  /\ (isCommonJS (meta a') = true ->
      symbols_get (symbols a') "*"
      = Some (mkSymbol ("$" +:+ asset_id a +:+ "$exports") false))
  /\ map dep_identity (dependencies a')
     = map dep_identity (dependencies (ps_asset ps))
  /\ isProgram ast' = true.
Proof.
  intros Ht ps. unfold traverse_program in Ht.
  apply bind_Ok in Ht as (st0 & Henter & Ht).
  apply bind_Ok in Ht as (st1 & Hwalk & Hexit).
  destruct (Program_enter_facts a ast)
    as (st0' & He & Hi & Hf & Hd & Hm & Hx & Hs & Hk & Hw & Hr).
  rewrite Henter in He. injection He as <-.
  destruct (walk_program_kept _ _ Hwalk) as []. simpl in *.
  apply Program_exit_asset in Hexit
    as (Ei & Ef & _ & _ & Ed & Em & Ex & _ & Ec & Ee & Estar & Ep).
  repeat split; try congruence.
  - rewrite Ec, Ee.
    destruct (getData_shouldWrap (st_scope st1)); simpl;
      rewrite ?orb_true_r, ?orb_false_r, ?andb_true_r; [reflexivity |].
    rewrite kept_isES6Module0.
    destruct (isCommonJS (meta (st_asset st0))) eqn:E0.
    + rewrite kept_isCommonJS0; reflexivity.
    + simpl in Hk. rewrite Hk. apply orb_true_r.
  - intros H. rewrite (Estar H). congruence.
  - rewrite Ed, kept_dependencies0, Hd. reflexivity.
Qed.

(** ** The module that comes out of [hoist] *)

(** X6.  When [hoist] succeeds, the asset is marked as a CommonJS or as an
    ES module (or both); [asset.meta.id] is the id of the asset and
    [asset.meta.exportsIdentifier] is [$<id>$exports]; and if it is marked
    as CommonJS, its symbol table maps ["*"] to [$<id>$exports].  The tree
    keeps its type and version and its program is a [Program]. *)
Theorem hoisted_module
    (rename : string -> string -> list node -> list node)
    (a a' : Asset) (ast ast' : AST) :
  hoist rename a ast = Hoisted a' ast' ->
  isCommonJS (meta a') || isES6Module (meta a') = true
  /\ (isCommonJS (meta a') = true ->
      symbols_get (symbols a') "*"
      = Some (mkSymbol ("$" +:+ asset_id a +:+ "$exports") false))
  /\ meta_id (meta a') = Some (asset_id a)
  /\ exportsIdentifier (meta a') = Some ("$" +:+ asset_id a +:+ "$exports")
  /\ ast_type ast' = "babel" /\ ast_version ast' = "7.0.0"
  /\ isProgram (ast_program ast') = true.
Proof.
  intros H. apply hoist_Hoisted in H as (Et & Ev & Et' & Ev' & H).
  apply traverse_program_facts in H
    as (_ & _ & Hm & Hx & Hk & Hstar & _ & Hp).
  repeat split; try assumption; congruence.
Qed.

(** [exports.foo = 1;] *)
Lemma hoisted_module_witness :
  match hoist no_rename sample_asset (sample_ast sample_exports_foo) with
  | Hoisted a' ast' =>
      isCommonJS (meta a') = true
      /\ symbols_get (symbols a') "*" = Some (mkSymbol "$a1b2$exports" false)
      /\ meta_id (meta a') = Some "a1b2"
  | _ => False
  end.
Proof.
  destruct (hoist no_rename sample_asset (sample_ast sample_exports_foo))
    as [a' ast'| |] eqn:E; try (vm_compute in E; discriminate E).
  destruct (hoisted_module _ _ _ _ _ E) as (_ & Hstar & Hm & _).
  assert (Hc : isCommonJS (meta a') = true)
    by (vm_compute in E; injection E as <- _; reflexivity).
  split; [exact Hc | split; [exact (Hstar Hc) | exact Hm]].
Defined.

(** X7.  On a program the walk of this development covers (one without
    import or export declarations, whose handlers are treated on their own
    further down): when [hoist] succeeds, it has, after the pre-scan, added
    no dependency, removed none and reordered none, and changed no
    dependency's id, specifier or [isAsync]; it keeps the id and the file
    path of the asset. *)
Theorem hoist_keeps_dependencies
    (rename : string -> string -> list node -> list node)
    (a a' : Asset) (ast ast' : AST) :
  hoist rename a ast = Hoisted a' ast' ->
  let ps := prescan (crawl (ast_program ast) empty_scope) (enter_asset a)
              (ast_program ast) in
  map dep_identity (dependencies a')
  = map dep_identity (dependencies (ps_asset ps))
  /\ asset_id a' = asset_id a /\ filePath a' = filePath a.
Proof.
  intros H. apply hoist_Hoisted in H as (_ & _ & _ & _ & H).
  apply traverse_program_facts in H as (Hi & Hf & _ & _ & _ & _ & Hd & _).
  auto.
Qed.

(** [const {a, b} = await require("./m");] with [./m] an async
    dependency. *)
Lemma hoist_keeps_dependencies_witness :
  match hoist no_rename sample_importing_asset
          (sample_ast (destructured_await require_m)) with
  | Hoisted a' _ =>
      map dep_identity (dependencies a')
      = [dep_identity sample_async_dependency]
  | _ => False
  end.
Proof.
  destruct (hoist no_rename sample_importing_asset
              (sample_ast (destructured_await require_m)))
    as [a' ast'| |] eqn:E; try (vm_compute in E; discriminate E).
  destruct (hoist_keeps_dependencies _ _ _ _ _ E) as (Hd & _).
  exact Hd.
Defined.

(** * The exports identifiers *)

Lemma below_program_sees_bindings sc p x :
  below_program p = true ->
  name_in x (bindings sc) = true ->
  scope_chain_has sc p x = true.
Proof.
  intros Hp Hx. induction p as [n k pp IH].
  destruct IH as [pp IH|]; simpl in *.
  - apply orb_true_iff in Hp as [Hn|Hpp].
    + destruct n; try discriminate Hn.
      unfold own_bindings; simpl. rewrite Hx. reflexivity.
    + rewrite (IH Hpp). apply orb_true_r.
  - destruct n; try discriminate Hp.
    unfold own_bindings; simpl. rewrite Hx. reflexivity.
Qed.

Lemma name_in_app x l1 l2 :
  name_in x (l1 ++ l2) = name_in x l1 || name_in x l2.
Proof. unfold name_in. apply existsb_app. Qed.

Lemma name_in_here x l : name_in x (x :: l) = true.
Proof. unfold name_in; simpl. rewrite String.eqb_refl. reflexivity. Qed.

Lemma dollar_not_global (s : string) : String.eqb ("$" +:+ s) "global" = false.
Proof. reflexivity. Qed.

Lemma hasBinding_pushed sc p x i init :
  below_program p = true ->
  name_in x (pattern_names i) = true ->
  hasBinding (scope_push sc i init) p x false = true.
Proof.
  intros Hp Hx. unfold hasBinding.
  rewrite (below_program_sees_bindings _ p x Hp); [reflexivity |].
  simpl. rewrite name_in_app, Hx. apply orb_true_r.
Qed.

Lemma getCJSExportsIdentifier_reassigned p st :
  getData_shouldWrap (h_scope st) = false ->
  getData_cjsExportsReassigned (h_scope st) = true ->
  let i := "$" +:+ asset_id (h_asset st) +:+ "$cjs_exports" in
  getCJSExportsIdentifier p st
  = if hasBinding (h_scope st) p i false then (st, Identifier i)
    else (h_with_scope st (scope_push (h_scope st) (Identifier i) None),
          Identifier i).
Proof.
  intros Hw Hr i. unfold getCJSExportsIdentifier. rewrite Hw, Hr.
  change (node_name (getIdentifier (h_asset st) "cjs_exports" [])) with i.
  change (getIdentifier (h_asset st) "cjs_exports" []) with (Identifier i).
  destruct (hasBinding (h_scope st) p i false); reflexivity.
Qed.

(** X8.  Once [exports] has been reassigned (the program scope carries
    [cjsExportsReassigned]) in a module that is not wrapped,
    [getCJSExportsIdentifier] returns [$<id>$cjs_exports] and declares it at
    most once: asked again from the same path it changes nothing; when the
    name had no binding, one declarator without initialiser is pushed on the
    program scope, after which the answer is the same from every path of the
    program; when the name had a binding, nothing is written. *)
Theorem cjs_exports_declared_once (p : NodePath) (st : HState) :
  getData_shouldWrap (h_scope st) = false ->
  getData_cjsExportsReassigned (h_scope st) = true ->
  below_program p = true ->
  let i := "$" +:+ asset_id (h_asset st) +:+ "$cjs_exports" in
  let st1 := fst (getCJSExportsIdentifier p st) in
  snd (getCJSExportsIdentifier p st) = Identifier i
  /\ getCJSExportsIdentifier p st1 = (st1, Identifier i)
  /\ (hasBinding (h_scope st) p i false = true -> st1 = st)
  /\ (hasBinding (h_scope st) p i false = false ->
      h_asset st1 = h_asset st
      /\ pushed (h_scope st1)
         = pushed (h_scope st) ++ [VariableDeclarator (Identifier i) None]
      /\ forall q, below_program q = true ->
                   getCJSExportsIdentifier q st1 = (st1, Identifier i)).
Proof.
  intros Hw Hr Hp i st1. subst st1.
  rewrite (getCJSExportsIdentifier_reassigned p st Hw Hr). fold i.
  destruct (hasBinding (h_scope st) p i false) eqn:Hb; simpl.
  - rewrite (getCJSExportsIdentifier_reassigned p st Hw Hr). fold i.
    rewrite Hb. repeat split; discriminate.
  - assert (Hq : forall q, below_program q = true ->
               getCJSExportsIdentifier q
                 (h_with_scope st (scope_push (h_scope st) (Identifier i) None))
               = (h_with_scope st (scope_push (h_scope st) (Identifier i) None),
                  Identifier i)).
    { intros q Hq.
      rewrite getCJSExportsIdentifier_reassigned by assumption.
      simpl. fold i.
      rewrite hasBinding_pushed;
        [reflexivity | exact Hq | exact (name_in_here i [])]. }
    repeat split; try discriminate; auto.
Qed.

(** [exports = 1;], seen from the assignment after [exports] was marked as
    reassigned. *)
Lemma cjs_exports_declared_once_witness :
  let st :=
    h_with_scope sample_state
      (setData_cjsExportsReassigned (h_scope sample_state) true) in
  let st1 := fst (getCJSExportsIdentifier exports_reassigned_path st) in
  snd (getCJSExportsIdentifier exports_reassigned_path st)
  = Identifier "$a1b2$cjs_exports"
  /\ getCJSExportsIdentifier exports_reassigned_path st1
     = (st1, Identifier "$a1b2$cjs_exports")
  /\ pushed (h_scope st1)
     = [VariableDeclarator (Identifier "$a1b2$cjs_exports") None].
Proof.
  destruct (cjs_exports_declared_once exports_reassigned_path
              (h_with_scope sample_state
                 (setData_cjsExportsReassigned (h_scope sample_state) true))
              eq_refl eq_refl eq_refl)
    as (H1 & H2 & _ & H4).
  destruct (H4 eq_refl) as (_ & H5 & _).
  split; [exact H1 | split; [exact H2 | exact H5]].
Defined.

Lemma VISITOR_ReferencedIdentifier_exports q st :
  path_node q = Identifier "exports" ->
  hasBinding (h_scope st) q "exports" false = false ->
  getData_shouldWrap (h_scope st) = false ->
  snd (VISITOR_ReferencedIdentifier q st)
  = Some (Identifier
            ("$" +:+ asset_id (h_asset st) +:+
             (if getData_cjsExportsReassigned (h_scope st)
              then "$cjs_exports" else "$exports"))).
Proof.
  intros Hn Hb Hw. unfold VISITOR_ReferencedIdentifier.
  rewrite Hn. cbn [node_name]. rewrite String.eqb_refl, Hb, Hw.
  cbn [negb andb].
  destruct (getData_cjsExportsReassigned (h_scope st)) eqn:Hr.
  - rewrite getCJSExportsIdentifier_reassigned by assumption.
    destruct (hasBinding (h_scope st) q
                ("$" +:+ asset_id (h_asset st) +:+ "$cjs_exports") false);
      reflexivity.
  - unfold getCJSExportsIdentifier, getExportsIdentifier.
    rewrite Hw, Hr.
    destruct (negb _); reflexivity.
Qed.

Lemma VISITOR_AssignmentExpression_exports p st op rhs :
  path_node p = AssignmentExpression op (Identifier "exports") rhs ->
  getData_shouldWrap (h_scope st) = false ->
  hasBinding (h_scope st) p "exports" false = false ->
  exists st1,
    VISITOR_AssignmentExpression p st
    = Ok (st1, AE_left (Identifier
                          ("$" +:+ asset_id (h_asset st) +:+ "$cjs_exports")))
    /\ getData_cjsExportsReassigned (h_scope st1) = true
    /\ isCommonJS (meta (h_asset st1)) = true.
Proof.
  intros Hn Hw Hb. unfold VISITOR_AssignmentExpression.
  rewrite Hw, Hn. cbn [isIdentifier node_name].
  rewrite String.eqb_refl, Hb. cbn [negb andb].
  rewrite getCJSExportsIdentifier_reassigned by (simpl; auto).
  cbn [h_asset h_with_scope h_scope].
  match goal with
  | |- context [if ?c then _ else _] => destruct c
  end; eexists; split; try reflexivity; auto.
Qed.

(** X9.  After the handler of assignments has seen [exports = ...] with
    [exports] free, in a module that is not wrapped, the left-hand side is
    [$<id>$cjs_exports], and every free [exports] the walk reaches later is
    replaced by [$<id>$cjs_exports]; a free [exports] reached while
    [cjsExportsReassigned] is still false is replaced by [$<id>$exports]. *)
Theorem exports_after_reassignment
    (p q : NodePath) (st st1 st2 : HState) (e : AssignmentEdit)
    (op : string) (rhs : node) :
  path_node p = AssignmentExpression op (Identifier "exports") rhs ->
  getData_shouldWrap (h_scope st) = false ->
  getData_cjsExportsReassigned (h_scope st) = false ->
  hasBinding (h_scope st) p "exports" false = false ->
  VISITOR_AssignmentExpression p st = Ok (st1, e) ->
  rtc visitor_step st1 st2 ->
  path_node q = Identifier "exports" ->
  hasBinding (h_scope st) q "exports" false = false ->
  hasBinding (h_scope st2) q "exports" false = false ->
  e = AE_left (Identifier ("$" +:+ asset_id (h_asset st) +:+ "$cjs_exports"))
  /\ snd (VISITOR_ReferencedIdentifier q st)
     = Some (Identifier ("$" +:+ asset_id (h_asset st) +:+ "$exports"))
  /\ snd (VISITOR_ReferencedIdentifier q st2)
     = Some (Identifier ("$" +:+ asset_id (h_asset st) +:+ "$cjs_exports")).
Proof.
  intros Hn Hw Hr Hb Ha Hsteps Hq Hb0 Hb2.
  destruct (VISITOR_AssignmentExpression_exports p st op rhs Hn Hw Hb)
    as (st1' & Ha' & Hr1 & _).
  rewrite Ha in Ha'. injection Ha' as <- ->.
  pose proof (VISITOR_AssignmentExpression_kept _ _ _ _ Ha) as K1.
  pose proof (visitor_steps_kept _ _ Hsteps) as K2.
  pose proof (kept_trans _ _ _ K1 K2) as K.
  split; [reflexivity | split].
  - rewrite (VISITOR_ReferencedIdentifier_exports q st Hq Hb0 Hw), Hr.
    reflexivity.
  - rewrite (VISITOR_ReferencedIdentifier_exports q st2 Hq Hb2).
    + rewrite (kept_reassigned _ _ K2 Hr1), (kept_id _ _ K). reflexivity.
    + unfold getData_shouldWrap in *. rewrite (kept_shouldWrap _ _ K).
      exact Hw.
Qed.

(** [exports = 1;] followed by a reference to [exports]. *)
Lemma exports_after_reassignment_witness :
  let st1 := h_with_asset
               (h_with_scope sample_state
                  (scope_push
                     (setData_cjsExportsReassigned (h_scope sample_state) true)
                     (Identifier "$a1b2$cjs_exports") None))
               (set_isCommonJS (h_asset sample_state) true) in
  snd (VISITOR_ReferencedIdentifier
         (statement_expression_path (Identifier "exports")) sample_state)
  = Some (Identifier "$a1b2$exports")
  /\ snd (VISITOR_ReferencedIdentifier
            (statement_expression_path (Identifier "exports")) st1)
     = Some (Identifier "$a1b2$cjs_exports").
Proof.
  destruct (exports_after_reassignment exports_reassigned_path
              (statement_expression_path (Identifier "exports"))
              sample_state _ _ _ "=" (NumericLiteral 1)
              eq_refl eq_refl eq_refl eq_refl eq_refl (rtc_refl _ _)
              eq_refl eq_refl eq_refl)
    as (_ & H1 & H2).
  split; [exact H1 | exact H2].
Defined.

Lemma hasBinding_addGlobal sc x p y b :
  hasBinding (addGlobal sc x) p y b = hasBinding sc p y b.
Proof.
  unfold hasBinding. f_equal.
  induction p as [n k pp IH]. destruct IH as [pp IH|]; simpl.
  - rewrite IH. reflexivity.
  - reflexivity.
Qed.

(** X10.  On [module.exports] with [module] free, in a module that is not
    wrapped, the handler of member expressions throws when the asset has no
    symbol table; otherwise it replaces the node by [$<id>$exports], records
    [$<id>$exports] under ["*"], leaves [asset.meta] as it is, and makes sure
    the name is bound where the node stands: when it was not, a declarator
    [$<id>$exports = {}] is pushed on the program scope. *)
Theorem module_exports_declared (p : NodePath) (st : HState) :
  getData_shouldWrap (h_scope st) = false ->
  hasBinding (h_scope st) p "module" false = false ->
  matchesPattern (path_node p) ["module"; "exports"] = true ->
  below_program p = true ->
  let i := "$" +:+ asset_id (h_asset st) +:+ "$exports" in
  match symbols (h_asset st) with
  | None => VISITOR_MemberExpression p st = Throw SymbolsCleared
  | Some m =>
      exists st',
        VISITOR_MemberExpression p st = Ok (st', Some (Identifier i))
        /\ symbols (h_asset st') = Some (<["*" := mkSymbol i false]> m)
        /\ meta (h_asset st') = meta (h_asset st)
        /\ hasBinding (h_scope st') p i false = true
        /\ (hasBinding (h_scope st) p i false = true ->
            pushed (h_scope st') = pushed (h_scope st))
        /\ (hasBinding (h_scope st) p i false = false ->
            pushed (h_scope st')
            = pushed (h_scope st)
              ++ [VariableDeclarator (Identifier i) (Some (ObjectExpression []))])
  end.
Proof.
  intros Hw Hb Hm Hp i.
  unfold VISITOR_MemberExpression. rewrite Hb, Hw, Hm. cbn [orb].
  unfold getExportsIdentifier. rewrite Hw.
  change (node_name (getIdentifier (h_asset st) "exports" [])) with i.
  change (getIdentifier (h_asset st) "exports" []) with (Identifier i).
  destruct (hasBinding (h_scope st) p i false) eqn:Hi; cbn [negb];
    unfold asset_symbols_set, symbols_set; cbn [h_asset h_with_scope bind];
    destruct (symbols (h_asset st)) as [m|] eqn:Es; cbn [bind];
    try reflexivity.
  - cbn [h_scope h_with_asset node_name]. rewrite Hi. cbn [negb].
    eexists. split; [reflexivity |]. cbn. rewrite Hi.
    repeat split; try discriminate; auto.
  - cbn [h_scope h_with_asset node_name addGlobal].
    change (h_scope (h_with_scope st (addGlobal (h_scope st) i)))
      with (addGlobal (h_scope st) i).
    rewrite hasBinding_addGlobal, Hi. cbn [negb].
    eexists. split; [reflexivity |].
    split; [reflexivity | split; [reflexivity |]].
    split; [| split; [discriminate | reflexivity]].
    apply hasBinding_pushed; [exact Hp | exact (name_in_here i [])].
Qed.

(** [module.exports;] *)
Lemma module_exports_declared_witness :
  exists st',
    VISITOR_MemberExpression module_exports_path sample_state
    = Ok (st', Some (Identifier "$a1b2$exports"))
    /\ symbols_get (symbols (h_asset st')) "*"
       = Some (mkSymbol "$a1b2$exports" false)
    /\ pushed (h_scope st')
       = [VariableDeclarator (Identifier "$a1b2$exports")
            (Some (ObjectExpression []))].
Proof.
  destruct (module_exports_declared module_exports_path sample_state
              eq_refl eq_refl eq_refl eq_refl)
    as (st' & H1 & H2 & _ & _ & _ & H6).
  exists st'. split; [exact H1 | split].
  - rewrite H2. apply lookup_insert_eq.
  - exact (H6 eq_refl).
Defined.

(** * What a [require] does to the dependencies *)

Lemma symbols_set_grows t x l w t' :
  symbols_set t x l w = Ok t' ->
  is_Some t'
  /\ forall y, is_Some (symbols_get t y) -> is_Some (symbols_get t' y).
Proof.
  unfold symbols_set. destruct t as [m|]; [| discriminate].
  intros H; injection H as <-. split; [eauto |].
  intros y Hy. simpl in *.
  destruct (decide (x = y)) as [->|Hne].
  - rewrite lookup_insert_eq. eauto.
  - rewrite lookup_insert_ne by exact Hne. exact Hy.
Qed.

Lemma dep_symbols_set_grows d x l d' :
  dep_symbols_set d x l = Ok d' ->
  dep_meta d' = dep_meta d
  /\ is_Some (dep_symbols d')
  /\ forall y, is_Some (symbols_get (dep_symbols d) y) ->
               is_Some (symbols_get (dep_symbols d') y).
Proof.
  unfold dep_symbols_set. intros H.
  apply bind_Ok in H as (t & Et & H). injection H as <-.
  apply symbols_set_grows in Et as [H1 H2]. simpl. auto.
Qed.

Lemma set_import_symbols_grows a names : forall d d',
  is_Some (dep_symbols d) ->
  set_import_symbols a d names = Ok d' ->
  dep_meta d' = dep_meta d
  /\ is_Some (dep_symbols d')
  /\ forall y, is_Some (symbols_get (dep_symbols d) y) ->
               is_Some (symbols_get (dep_symbols d') y).
Proof.
  induction names as [|x names IH]; intros d d' Hs; simpl.
  - intros H; injection H as <-. auto.
  - intros H. apply bind_Ok in H as (d1 & E1 & H).
    apply dep_symbols_set_grows in E1 as (M1 & S1 & G1).
    apply IH in H as (M2 & S2 & G2); [| exact S1].
    repeat split; [congruence | exact S2 | auto].
Qed.

Lemma symbols_ensure_grows t :
  is_Some (symbols_ensure t)
  /\ forall y, is_Some (symbols_get t y) ->
               is_Some (symbols_get (symbols_ensure t) y).
Proof. destruct t; simpl; split; eauto. Qed.

(** X11.  A call handled by [CallExpression] either leaves the dependencies
    of the asset as they are, or it is [require("<x>")] and exactly one
    dependency changes: the first whose specifier is [<x>].  That dependency
    keeps its id, its specifier and [isAsync]; its symbol table exists
    afterwards and has lost no entry; [meta.shouldWrap] is not reset; and the
    call is replaced by [$parcel$require("<asset id>", "<x>")]. *)
Theorem require_touches_one_dependency
    (getBinding : BindingSite -> string -> Result (option Binding))
    (p : NodePath) (st st' : HState) (r : option node) :
  VISITOR_CallExpression getBinding p st = Ok (st', r) ->
  dependencies (h_asset st') = dependencies (h_asset st)
  \/ exists x k d d',
       path_node p = CallExpression (Identifier "require") [StringLiteral x]
       /\ dependencies (h_asset st) !! k = Some d
       /\ moduleSpecifier d = x
       /\ (forall j d0, (j < k)%nat ->
             dependencies (h_asset st) !! j = Some d0 ->
             moduleSpecifier d0 ≠ x)
       /\ dependencies (h_asset st') = <[k := d']> (dependencies (h_asset st))
       /\ dep_identity d' = dep_identity d
       /\ is_Some (dep_symbols d')
       /\ (forall y, is_Some (symbols_get (dep_symbols d) y) ->
                     is_Some (symbols_get (dep_symbols d') y))
       /\ (dm_shouldWrap (dep_meta d) = true ->
           dm_shouldWrap (dep_meta d') = true)
       /\ r = Some (CallExpression (Identifier "$parcel$require")
                      [StringLiteral (asset_id (h_asset st)); StringLiteral x]).
Proof.
  unfold VISITOR_CallExpression. intros H.
  destruct (path_node p) as [| | | | | | | | | | | | | |callee args
                            | | | | | | | | | | | | | | | | | | | | | |];
    try (injection H as <- _; left; reflexivity).
  destruct args as [|arg [|]]; try (injection H as <- _; left; reflexivity).
  destruct (_ || _) eqn:Eg; [injection H as <- _; left; reflexivity |].
  apply orb_false_iff in Eg as [Earg _].
  destruct arg; try discriminate Earg.
  destruct (isIdentifierNamed callee "require") eqn:Ec;
    [| destruct (matchesPattern _ _); injection H as <- _; left; reflexivity].
  destruct callee; try discriminate Ec. simpl in Ec.
  apply String.eqb_eq in Ec; subst name.
  cbn [node_value] in H.
  destruct (find_dependency (h_asset st) value) as [[i dep]|] eqn:Ef;
    [| injection H as <- _; left; reflexivity].
  apply find_dependency_lookup in Ef as (Hi & Hx & Hfirst).
  apply bind_Ok in H as (nested & _ & H).
  apply bind_Ok in H as (accesses & _ & H).
  apply bind_Ok in H as (dep3 & E3 & H).
  injection H as <- <-.
  right. exists value, i, dep, dep3.
  set (dep1 := if nested then dep_set_shouldWrap dep else dep) in *.
  assert (H1 : dep_identity dep1 = dep_identity dep
               /\ (dm_shouldWrap (dep_meta dep) = true ->
                   dm_shouldWrap (dep_meta dep1) = true)
               /\ dep_symbols dep1 = dep_symbols dep)
    by (unfold dep1; destruct nested; simpl; auto).
  destruct H1 as (I1 & W1 & S1).
  destruct (symbols_ensure_grows (dep_symbols dep1)) as (Se & Ge).
  assert (H3 : dep_identity dep3 = dep_identity dep1
               /\ dm_shouldWrap (dep_meta dep3) = dm_shouldWrap (dep_meta dep1)
               /\ is_Some (dep_symbols dep3)
               /\ forall y, is_Some (symbols_get (dep_symbols dep1) y) ->
                            is_Some (symbols_get (dep_symbols dep3) y)).
  { destruct accesses.
    - pose proof (set_import_symbols_identity _ _ _ _ E3) as I3.
      apply set_import_symbols_grows in E3 as (M3 & S3 & G3); [| exact Se].
      repeat split; [exact I3 | rewrite M3; reflexivity | exact S3 |].
      intros y Hy. apply G3, Ge, Hy.
    - pose proof (dep_symbols_set_identity _ _ _ _ E3) as I3.
      apply dep_symbols_set_grows in E3 as (M3 & S3 & G3).
      repeat split; [exact I3 | rewrite M3; reflexivity | exact S3 |].
      intros y Hy. apply G3, Ge, Hy. }
  destruct H3 as (I3 & W3 & S3 & G3).
  repeat split; auto.
  - destruct (negb (isAsync dep)); reflexivity.
  - congruence.
  - intros y Hy. apply G3. rewrite S1. exact Hy.
  - intros Hw. rewrite W3. auto.
  - destruct (negb (isAsync dep)); reflexivity.
Qed.

(** [require("./m");] in an asset whose only dependency is [./m]. *)
Lemma require_touches_one_dependency_witness :
  match VISITOR_CallExpression no_bindings
          (statement_expression_path require_m)
          (mkH sample_importing_asset empty_scope) with
  | Ok (st', r) =>
      exists d',
        dependencies (h_asset st') = [d']
        /\ dep_identity d' = dep_identity sample_async_dependency
        /\ is_Some (dep_symbols d')
  | Throw _ => False
  end.
Proof.
  destruct (VISITOR_CallExpression no_bindings
              (statement_expression_path require_m)
              (mkH sample_importing_asset empty_scope))
    as [[st' r]|] eqn:E; [| vm_compute in E; discriminate E].
  destruct (require_touches_one_dependency _ _ _ _ _ E)
    as [H | (x & k & d & d' & Hn & Hk & _ & _ & Hd & Hi & Hs & _)].
  - vm_compute in E. injection E as <- _. discriminate H.
  - injection Hn as <-.
    destruct k as [|k]; [| destruct k; discriminate Hk].
    injection Hk as <-.
    exists d'. split; [exact Hd | split; [exact Hi | exact Hs]].
Defined.

(** X12.  A [require] of a known dependency that is the whole branch of a
    top-level [if], written without braces, is taken to be at the top level:
    [dep.meta.shouldWrap] is left as it was.  The same [require] in a braced
    branch sets [dep.meta.shouldWrap]. *)
Theorem require_in_unbraced_if
    (getBinding : BindingSite -> string -> Result (option Binding))
    (st : HState) (ds body : list node) (c : node) (alt : option node)
    (i k : nat) (x : string) (d : Dependency) :
  name_in "require" (bindings (h_scope st)) = false ->
  find_dependency (h_asset st) x = Some (k, d) ->
  isAsync d = false ->
  (exists st1 r1 d1,
      VISITOR_CallExpression getBinding
        (unbraced_require_path (Program ds body) c alt i x) st
      = Ok (st1, r1)
      /\ dependencies (h_asset st1) !! k = Some d1
      /\ dep_meta d1
         = mkDependencyMeta (dm_shouldWrap (dep_meta d))
             (dm_hasDefaultImport (dep_meta d)) true)
  /\ (exists st2 r2 d2,
      VISITOR_CallExpression getBinding
        (braced_require_path (Program ds body) c alt i x) st
      = Ok (st2, r2)
      /\ dependencies (h_asset st2) !! k = Some d2
      /\ dep_meta d2
         = mkDependencyMeta true (dm_hasDefaultImport (dep_meta d)) true).
Proof.
  intros Hb Hf Ha. unfold name_in in Hb.
  pose proof (find_dependency_lookup _ _ _ _ Hf) as (Hk & _ & _).
  assert (Hlt : (k < length (dependencies (h_asset st)))%nat)
    by (eapply lookup_lt_Some; exact Hk).
  split.
  - unfold VISITOR_CallExpression, unbraced_require_path.
    cbn [path_node isStringLiteral negb orb isIdentifierNamed node_value].
    unfold hasBinding. cbn [scope_chain_has own_bindings path_node
      path_parent path_parentPath fmap option_fmap option_map isFunction
      lexical_names flat_map lexical_decl_names app bindings
      function_bindings name_in existsb orb]. rewrite Hb.
    cbn. rewrite Hf, Ha. cbn.
    destruct (dep_symbols d); cbn;
      eexists _, _, _; (split; [reflexivity |]); cbn;
      rewrite list_lookup_insert_eq by exact Hlt; split; reflexivity.
  - unfold VISITOR_CallExpression, braced_require_path.
    cbn [path_node isStringLiteral negb orb isIdentifierNamed node_value].
    unfold hasBinding. cbn [scope_chain_has own_bindings path_node
      path_parent path_parentPath fmap option_fmap option_map isFunction
      lexical_names flat_map lexical_decl_names app bindings
      function_bindings name_in existsb orb]. rewrite Hb.
    cbn. rewrite Hf, Ha. cbn.
    destruct (dep_symbols d); cbn;
      eexists _, _, _; (split; [reflexivity |]); cbn;
      rewrite list_lookup_insert_eq by exact Hlt; split; reflexivity.
Qed.

(** [if (c) require("./m");] and [if (c) { require("./m"); }] *)
Lemma require_in_unbraced_if_witness :
  (exists st1 r1 d1,
      VISITOR_CallExpression no_bindings
        (unbraced_require_path (Program [] []) (Identifier "c") None 0 "./m")
        (mkH sample_requiring_asset empty_scope)
      = Ok (st1, r1)
      /\ dependencies (h_asset st1) !! 0%nat = Some d1
      /\ dep_meta d1 = mkDependencyMeta false false true)
  /\ (exists st2 r2 d2,
      VISITOR_CallExpression no_bindings
        (braced_require_path (Program [] []) (Identifier "c") None 0 "./m")
        (mkH sample_requiring_asset empty_scope)
      = Ok (st2, r2)
      /\ dependencies (h_asset st2) !! 0%nat = Some d2
      /\ dep_meta d2 = mkDependencyMeta true false true).
Proof.
  exact (require_in_unbraced_if no_bindings
           (mkH sample_requiring_asset empty_scope) [] [] (Identifier "c")
           None 0 0 "./m" _ eq_refl eq_refl eq_refl).
Defined.

(** * No ['use strict'] survives the walk *)

Section StrictLists.
Variable enter : node -> Key -> HState -> Walked node.

Lemma each_child_strict_free mk l :
  Forall (fun c => forall kc st, walked_strict_free (enter c kc st)) l ->
  forall i st, walked_all_strict_free (each_child enter mk i l st).
Proof.
  induction 1 as [|c l Hc _ IH]; intros i st st' x pending; simpl.
  - intros H; inversion H; subst. split; [reflexivity | constructor].
  - intros H.
    apply bind_Ok in H as ([[st1 c'] p1] & E1 & H).
    apply bind_Ok in H as ([[st2 l'] p2] & E2 & H).
    simpl in *. inversion H; subst; clear H.
    destruct (Hc _ _ _ _ _ E1) as [R1 F1].
    destruct (IH _ _ _ _ _ E2) as [R2 F2].
    simpl. rewrite R1, R2. split; [reflexivity | apply Forall_app; auto].
Qed.

Lemma each_directive_strict_free l :
  Forall (fun c => forall kc st, walked_strict_free (enter c kc st)) l ->
  forall i st, walked_all_strict_free (each_directive enter i l st).
Proof.
  induction 1 as [|c l Hc _ IH]; intros i st st' x pending; simpl.
  - intros H; inversion H; subst. split; [reflexivity | constructor].
  - destruct (removes_itself c); [apply IH |].
    intros H.
    apply bind_Ok in H as ([[st1 c'] p1] & E1 & H).
    apply bind_Ok in H as ([[st2 l'] p2] & E2 & H).
    simpl in *. inversion H; subst; clear H.
    destruct (Hc _ _ _ _ _ E1) as [R1 F1].
    destruct (IH _ _ _ _ _ E2) as [R2 F2].
    simpl. rewrite R1, R2. split; [reflexivity | apply Forall_app; auto].
Qed.

Lemma each_statement_strict_free l :
  Forall (fun c => forall kc st, walked_strict_free (enter c kc st)) l ->
  forall i st st' items,
    each_statement enter i l st = Ok (st', items) ->
    Forall item_strict_free items.
Proof.
  induction 1 as [|c l Hc _ IH]; intros i st st' items; simpl.
  - intros H; inversion H; subst. constructor.
  - intros H.
    apply bind_Ok in H as ([[st1 c'] p1] & E1 & H).
    apply bind_Ok in H as ([st2 its] & E2 & H).
    simpl in *. inversion H; subst; clear H.
    destruct (Hc _ _ _ _ _ E1) as [R1 F1].
    pose proof (IH _ _ _ _ E2) as F2.
    apply Forall_app; split.
    + apply Forall_fmap. exact F1.
    + constructor; [exact R1 | exact F2].
Qed.

Lemma finish_items_strict_free items :
  Forall item_strict_free items ->
  forall st st' l,
    finish_items items st = Ok (st', l) -> forallb strict_free l = true.
Proof.
  induction 1 as [|it items Hit _ IH]; intros st st' l; simpl.
  - intros H; inversion H; subst. reflexivity.
  - destruct it as [s|f].
    + intros H. apply bind_Ok in H as ([st1 l1] & E1 & H).
      simpl in H. inversion H; subst. simpl in *.
      rewrite Hit. eapply IH; eassumption.
    + intros H. apply bind_Ok in H as ([st1 s1] & E1 & H).
      apply bind_Ok in H as ([st2 l2] & E2 & H).
      simpl in *. inversion H; subst. simpl.
      rewrite (Hit _ _ _ E1). eapply IH; eassumption.
Qed.

Lemma statement_list_strict_free l :
  Forall (fun c => forall kc st, walked_strict_free (enter c kc st)) l ->
  forall st st' l',
    statement_list enter l st = Ok (st', l') ->
    forallb strict_free l' = true.
Proof.
  intros Hl st st' l' H. unfold statement_list in H.
  apply bind_Ok in H as ([st1 items] & E1 & H). simpl in H.
  eapply finish_items_strict_free; [| exact H].
  eapply each_statement_strict_free; eassumption.
Qed.

Lemma optional_child_strict_free o :
  option_all node (fun c => forall kc st, walked_strict_free (enter c kc st)) o ->
  forall kc st st' x pending,
    optional_child enter o kc st = Ok (st', x, pending) ->
    match x with Some c => strict_free c | None => true end = true
    /\ Forall finishes_strict_free pending.
Proof.
  intros Ho kc st st' x pending. destruct Ho as [c Hc|]; simpl.
  - intros H. apply bind_Ok in H as ([[st1 c'] p1] & E1 & H).
    simpl in H. inversion H; subst. eapply Hc; eassumption.
  - intros H; inversion H; subst. split; [reflexivity | constructor].
Qed.
End StrictLists.

Lemma isIdentifier_strict_free n : isIdentifier n = true -> strict_free n = true.
Proof. destruct n; try discriminate; reflexivity. Qed.

Lemma getExportsIdentifier_isIdentifier p st :
  isIdentifier (snd (getExportsIdentifier p st)) = true.
Proof.
  unfold getExportsIdentifier.
  destruct (getData_shouldWrap _); [reflexivity |].
  destruct (negb _); reflexivity.
Qed.

Lemma getCJSExportsIdentifier_isIdentifier p st :
  isIdentifier (snd (getCJSExportsIdentifier p st)) = true.
Proof.
  unfold getCJSExportsIdentifier.
  destruct (getData_shouldWrap _); [reflexivity |].
  destruct (getData_cjsExportsReassigned _);
    [destruct (negb _); reflexivity | apply getExportsIdentifier_isIdentifier].
Qed.

Lemma VISITOR_ReferencedIdentifier_strict_free p st x :
  strict_free (default (Identifier x) (snd (VISITOR_ReferencedIdentifier p st)))
  = true.
Proof.
  unfold VISITOR_ReferencedIdentifier.
  destruct (_ && _ && _).
  - pose proof (getCJSExportsIdentifier_isIdentifier p st) as Hi.
    destruct (getCJSExportsIdentifier p st) as [st1 i]. simpl in Hi.
    destruct (_ && _); simpl; [reflexivity |].
    apply isIdentifier_strict_free, Hi.
  - destruct (_ && _); reflexivity.
Qed.

Lemma VISITOR_ThisExpression_strict_free p st :
  strict_free (default ThisExpression (snd (VISITOR_ThisExpression p st)))
  = true.
Proof.
  unfold VISITOR_ThisExpression.
  destruct (negb _); [| reflexivity].
  destruct (binds_this p); [reflexivity |].
  destruct (isES6Module _); [reflexivity |].
  pose proof (getExportsIdentifier_isIdentifier p st) as Hi.
  destruct (getExportsIdentifier p st) as [st1 i]. simpl in *.
  apply isIdentifier_strict_free, Hi.
Qed.

Lemma VISITOR_MemberExpression_strict_free p st st' n' :
  VISITOR_MemberExpression p st = Ok (st', Some n') -> strict_free n' = true.
Proof.
  unfold VISITOR_MemberExpression. intros H.
  destruct (_ || _); [discriminate H |].
  destruct (matchesPattern (path_node p) ["module"; "exports"]).
  - pose proof (getExportsIdentifier_isIdentifier p st) as Hi.
    destruct (getExportsIdentifier p st) as [st1 i]. simpl in Hi.
    apply bind_Ok in H as (a & _ & H). injection H as _ <-.
    apply isIdentifier_strict_free, Hi.
  - repeat match type of H with
      | (if ?c then _ else _) = _ => destruct c
      end; try discriminate H; injection H as _ <-; reflexivity.
Qed.

Lemma VISITOR_UnaryExpression_strict_free p st n' :
  VISITOR_UnaryExpression p st = Some n' -> strict_free n' = true.
Proof.
  unfold VISITOR_UnaryExpression. intros H.
  repeat match type of H with
    | match ?x with _ => _ end = _ => destruct x; try discriminate H
    end.
  injection H as <-. reflexivity.
Qed.

Lemma VISITOR_CallExpression_strict_free gb p st st' n' :
  VISITOR_CallExpression gb p st = Ok (st', Some n') -> strict_free n' = true.
Proof.
  unfold VISITOR_CallExpression. intros H.
  destruct (path_node p) as [| | | | | | | | | | | | | |callee args
                            | | | | | | | | | | | | | | | | | | | | | |];
    try discriminate H.
  destruct args as [|arg [|]]; try discriminate H.
  destruct (_ || _) eqn:Eg; [discriminate H |].
  apply orb_false_iff in Eg as [Earg _].
  destruct arg; try discriminate Earg.
  destruct (isIdentifierNamed callee "require").
  - destruct (find_dependency _ _) as [[i dep]|]; [| discriminate H].
    apply bind_Ok in H as (nested & _ & H).
    apply bind_Ok in H as (accesses & _ & H).
    apply bind_Ok in H as (dep3 & _ & H).
    injection H as _ <-. reflexivity.
  - destruct (matchesPattern _ _); [| discriminate H].
    injection H as _ <-. reflexivity.
Qed.

(** What [AssignmentExpression] asks for: the new left-hand side is an
    identifier; the rewritten export holds no statement; what is inserted
    before is a declaration of, or an assignment to, an identifier, with the
    right-hand side of the assignment as its value. *)
Lemma VISITOR_AssignmentExpression_edit p st st' e :
  VISITOR_AssignmentExpression p st = Ok (st', e) ->
  match e with
  | AE_keep => True
  | AE_left l' => isIdentifier l' = true
  | AE_export node' before =>
      strict_free node' = true
      /\ exists kd i rhs,
           (before = VariableDeclaration kd [VariableDeclarator i (Some rhs)]
            \/ before = ExpressionStatement (AssignmentExpression "=" i rhs))
           /\ isIdentifier i = true
  end.
Proof.
  unfold VISITOR_AssignmentExpression. intros H.
  destruct (getData_shouldWrap (h_scope st)); [injection H as _ <-; exact I |].
  destruct (path_node p) as [| | | | | | | | | | | | | | |op lhs rhs
                            | | | | | | | | | | | | | | | | | | | | |];
    try (injection H as _ <-; exact I).
  match type of H with
  | (let '(st1, e1) := ?X in _) = _ =>
      destruct X as [st1 e1] eqn:E1
  end.
  assert (K1 : match e1 with
               | AE_keep => True
               | AE_left l' => isIdentifier l' = true
               | AE_export _ _ => False
               end).
  { destruct (_ && _ && _) in E1.
    - pose proof (getCJSExportsIdentifier_isIdentifier p
                    (h_with_scope st
                       (setData_cjsExportsReassigned (h_scope st) true))) as Hi.
      destruct (getCJSExportsIdentifier p _) as [s2 i].
      injection E1 as _ <-. exact Hi.
    - injection E1 as _ <-. exact I. }
  assert (K1' : match e1 with
                | AE_keep => True
                | AE_left l' => isIdentifier l' = true
                | AE_export node' before =>
                    strict_free node' = true
                    /\ exists kd i rhs,
                         (before = VariableDeclaration kd
                                     [VariableDeclarator i (Some rhs)]
                          \/ before = ExpressionStatement
                                        (AssignmentExpression "=" i rhs))
                         /\ isIdentifier i = true
                end)
    by (destruct e1; [exact I | exact K1 | destruct K1]).
  destruct lhs as [| | | | | | | | | | | | |object property computed
                  | | | | | | | | | | | | | | | | | | | | | | |];
    try (injection H as _ <-; exact K1').
  destruct (_ && _) eqn:Ec in H; [| injection H as _ <-; exact K1'].
  apply andb_true_iff in Ec as [_ Eprop].
  pose proof (getExportsIdentifier_isIdentifier p st1) as Hi.
  destruct (getExportsIdentifier p st1) as [st2 exportsId]. simpl in Hi.
  assert (Hnode :
            strict_free
              (AssignmentExpression op
                 (MemberExpression exportsId property computed)
                 (getExportIdentifier (h_asset st1)
                    (if isIdentifier property then node_name property
                     else node_value property))) = true).
  { simpl. rewrite (isIdentifier_strict_free _ Hi). simpl.
    destruct property; simpl in *; try discriminate Eprop; reflexivity. }
  destruct (negb (program_hasBinding _ _)).
  - apply bind_Ok in H as (a & _ & H).
    destruct (path_scope_is_program p); injection H as _ <-;
      (split; [exact Hnode |]); eexists "var", _, _; split; eauto.
  - injection H as _ <-. split; [exact Hnode |].
    eexists "var", _, _; split; eauto.
Qed.

Lemma no_pending_strict_free (w : HState -> Walked node) (f : node -> node) :
  (forall st, walked_strict_free (w st)) ->
  (forall m, strict_free m = true -> strict_free (f m) = true) ->
  finishes_strict_free
    (mkPending (fun st' => let* r' := no_pending (w st') in
                           Ok (fst r', f (snd r')))).
Proof.
  intros Hw Hf s s' m H. simpl in H.
  apply bind_Ok in H as ([s1 n1] & E & H). simpl in H.
  inversion H; subst; clear H. unfold no_pending in E.
  apply bind_Ok in E as ([[s2 n2] p2] & E & H). simpl in H.
  destruct p2; [| discriminate H]. inversion H; subst.
  apply Hf. eapply Hw. exact E.
Qed.

Ltac use_children_sf :=
  repeat match goal with
  | IH : forall k pp st, walked_strict_free (walk ?c k pp st),
    E : walk ?c _ _ _ = Ok _ |- _ => apply IH in E as [? ?]
  | IH : list_all node _ ?l, E : each_child _ _ _ ?l _ = Ok _ |- _ =>
      eapply each_child_strict_free in E as [? ?];
      [| eapply list_all_enter; [| exact IH]; intros ? Hc ? ?; apply Hc]
  | IH : list_all node _ ?l, E : each_directive _ _ ?l _ = Ok _ |- _ =>
      eapply each_directive_strict_free in E as [? ?];
      [| eapply list_all_enter; [| exact IH]; intros ? Hc ? ?; apply Hc]
  | IH : list_all node _ ?l, E : statement_list _ ?l _ = Ok _ |- _ =>
      eapply statement_list_strict_free in E;
      [| eapply list_all_enter; [| exact IH]; intros ? Hc ? ?; apply Hc]
  | IH : option_all node _ ?o, E : optional_child _ ?o _ _ = Ok _ |- _ =>
      eapply optional_child_strict_free in E as [? ?];
      [| destruct IH as [? Hc|]; constructor; intros ? ?; apply Hc]
  end.
Ltac strict_free_node :=
  cbn [strict_free];
  repeat match goal with
  | H : strict_free _ = true |- _ => rewrite H; clear H
  | H : forallb strict_free _ = true |- _ => rewrite H; clear H
  | H : match ?o with Some _ => _ | None => _ end = true |- _ =>
      rewrite H; clear H
  end;
  reflexivity.

Lemma walk_strict_free n : forall k pp st, walked_strict_free (walk n k pp st).
Proof.
  induction n; intros k pp st st' x pending Hw; cbn [walk] in Hw.
  all: try discriminate Hw.
  all: try (split_binds Hw; destruct_pairs; inversion Hw; subst; clear Hw;
            use_children_sf; split; [strict_free_node | pendings]; fail).
  all: try (inversion Hw; subst; split; [reflexivity | constructor]; fail).
  - (* DirectiveLiteral *)
    unfold VISITOR_DirectiveLiteral in Hw. cbn [path_node] in Hw.
    destruct (String.eqb value "use strict") eqn:Ev; [discriminate Hw |].
    inversion Hw; subst. cbn [strict_free]. rewrite Ev.
    split; [reflexivity | constructor].
  - (* Identifier *)
    destruct (isReferencedIdentifier _); inversion Hw; subst.
    + split; [apply VISITOR_ReferencedIdentifier_strict_free | constructor].
    + split; [reflexivity | constructor].
  - (* ThisExpression *)
    inversion Hw; subst.
    split; [apply VISITOR_ThisExpression_strict_free | constructor].
  - (* MemberExpression *)
    apply bind_Ok in Hw as ([s1 o] & E & Hw). simpl in Hw.
    destruct o as [n'|].
    + inversion Hw; subst.
      split; [eapply VISITOR_MemberExpression_strict_free, E | constructor].
    + split_binds Hw; destruct_pairs; inversion Hw; subst; clear Hw.
      use_children_sf. split; [strict_free_node | pendings].
  - (* CallExpression *)
    apply bind_Ok in Hw as ([s1 o] & E & Hw). simpl in Hw.
    destruct o as [n'|].
    + inversion Hw; subst.
      split; [eapply VISITOR_CallExpression_strict_free, E | constructor].
    + split_binds Hw; destruct_pairs; inversion Hw; subst; clear Hw.
      use_children_sf. split; [strict_free_node | pendings].
  - (* AssignmentExpression *)
    apply bind_Ok in Hw as ([s1 e] & E & Hw). simpl in Hw.
    apply VISITOR_AssignmentExpression_edit in E.
    destruct e as [|l'|node' before].
    + split_binds Hw; destruct_pairs; inversion Hw; subst; clear Hw.
      use_children_sf. split; [strict_free_node | pendings].
    + split_binds Hw; destruct_pairs; inversion Hw; subst; clear Hw.
      use_children_sf. apply isIdentifier_strict_free in E.
      split; [strict_free_node | pendings].
    + destruct E as (Hnode & kd & i & rhs & Hbefore & Hi).
      apply isIdentifier_strict_free in Hi.
      repeat match type of Hw with
             | context [match ?t with _ => _ end] =>
                 destruct t; try discriminate Hw
             end.
      * destruct Hbefore as [Hb|Hb]; [discriminate Hb |].
        injection Hb as -> -> ->.
        inversion Hw; subst. split; [assumption |].
        constructor; [| constructor].
        apply (no_pending_strict_free
                 (fun st' => walk n2 _ _ st')
                 (fun r' => ExpressionStatement (AssignmentExpression _ _ r'))).
        -- intros ?; apply IHn2.
        -- intros m Hm. cbn [strict_free]. rewrite Hi, Hm. reflexivity.
      * destruct Hbefore as [Hb|Hb]; [| discriminate Hb].
        injection Hb as -> -> ->.
        inversion Hw; subst. split; [assumption |].
        constructor; [| constructor].
        apply (no_pending_strict_free
                 (fun st' => walk n2 _ _ st')
                 (fun r' => VariableDeclaration _ [VariableDeclarator _ (Some r')])).
        -- intros ?; apply IHn2.
        -- intros m Hm. cbn [strict_free forallb]. rewrite Hi, Hm. reflexivity.
  - (* UnaryExpression *)
    destruct (VISITOR_UnaryExpression _ _) eqn:E.
    + inversion Hw; subst.
      split; [eapply VISITOR_UnaryExpression_strict_free, E | constructor].
    + split_binds Hw; destruct_pairs; inversion Hw; subst; clear Hw.
      use_children_sf. split; [strict_free_node | pendings].
  - (* ExpressionStatement *)
    split_binds Hw; destruct_pairs. use_children_sf.
    destruct l.
    + inversion Hw; subst. split; [strict_free_node | constructor].
    + destruct (key_is_index k); [| discriminate Hw].
      inversion Hw; subst. split; [strict_free_node | assumption].
Qed.

(** A directive that stays is walked without any change. *)
Lemma walk_directive v k pp st :
  String.eqb v "use strict" = false ->
  walk (Directive (DirectiveLiteral v)) k pp st
  = Ok (st, Directive (DirectiveLiteral v), []).
Proof.
  intros Hv. cbn [walk]. unfold VISITOR_DirectiveLiteral. cbn [path_node].
  rewrite Hv. reflexivity.
Qed.

Lemma each_directive_literals pp ds : forall i st,
  Forall (fun d => is_directive d = true) ds ->
  each_directive (fun c kc => walk c kc pp) i ds st
  = Ok (st, List.filter (fun d => negb (removes_itself d)) ds, []).
Proof.
  induction ds as [|d ds IH]; intros i st H; [reflexivity |].
  inversion H as [|? ? Hd Hds]; subst.
  destruct d; try discriminate Hd. destruct d; try discriminate Hd.
  cbn [each_directive List.filter removes_itself].
  unfold VISITOR_DirectiveLiteral. cbn [path_node].
  destruct (String.eqb value "use strict") eqn:Ev; cbn [negb].
  - apply IH, Hds.
  - rewrite walk_directive by exact Ev. cbn [bind fst snd].
    rewrite IH by exact Hds. reflexivity.
Qed.

(** X13.  On a program the walk of this development covers (one without
    import or export declarations): when the walk of the main visitor
    succeeds the tree it leaves holds no ['use strict'] directive, neither
    at the top of the program nor in the body of any function, and the
    other directives of the program are kept, in their order. *)
Theorem walk_removes_use_strict (st st' : State) :
  walk_program st = Ok st' ->
  strict_free (st_ast st') = true
  /\ forall ds b,
       st_ast st = Program ds b ->
       Forall (fun d => is_directive d = true) ds ->
       exists b',
         st_ast st'
         = Program
             (List.filter
                (fun d => match d with
                          | Directive (DirectiveLiteral v) =>
                              negb (String.eqb v "use strict")
                          | _ => true
                          end) ds)
             b'.
Proof.
  unfold walk_program. intros Hw.
  destruct (st_ast st) as [ds b| | | | | | | | | | | | | | | | | | | | | | | |
                           | | | | | | | | | | | |] eqn:East;
    try discriminate Hw.
  apply bind_Ok in Hw as ([[s1 ds'] p1] & E1 & Hw). simpl in Hw.
  apply bind_Ok in Hw as ([s2 b'] & E2 & Hw). simpl in Hw.
  inversion Hw; subst; clear Hw. simpl.
  assert (Hall : forall l : list node,
             Forall (fun c => forall kc s,
                       walked_strict_free
                         (walk c kc (Some (mkPath (Program ds b) K_root None)) s))
               l).
  { intros l. apply Forall_forall. intros c _ kc s. apply walk_strict_free. }
  split.
  - apply each_directive_strict_free in E1 as [R1 _]; [| apply Hall].
    apply statement_list_strict_free in E2; [| apply Hall].
    rewrite R1, E2. reflexivity.
  - intros ds0 b0 E Hds. injection E as <- <-. exists b'.
    rewrite each_directive_literals in E1 by exact Hds.
    injection E1 as _ <- _. f_equal.
    clear. induction ds as [|d ds IH]; [reflexivity |].
    cbn [List.filter]. rewrite IH.
    destruct d; try reflexivity. destruct d; reflexivity.
Qed.

(** ['use asm'; 'use strict'; function f() { 'use strict'; 'use asm'; }] *)
Lemma walk_removes_use_strict_witness :
  strict_free sample_directives = false
  /\ match walk_program (mkState sample_asset empty_scope sample_directives)
     with
     | Ok st' =>
         strict_free (st_ast st') = true
         /\ (exists b',
              st_ast st'
              = Program [Directive (DirectiveLiteral "use asm")] b')
         /\ st_ast st'
            = Program [Directive (DirectiveLiteral "use asm")]
                [FunctionDeclaration (Identifier "f") []
                   (BlockStatement [Directive (DirectiveLiteral "use asm")] [])]
     | Throw _ => False
     end.
Proof.
  split; [reflexivity |].
  destruct (walk_program (mkState sample_asset empty_scope sample_directives))
    as [st'|] eqn:E; [| vm_compute in E; discriminate E].
  destruct (walk_removes_use_strict _ _ E) as [Hfree Hkept].
  split; [exact Hfree |]. split.
  - apply (Hkept _ _ eq_refl). repeat constructor.
  - vm_compute in E. injection E as <-. reflexivity.
Defined.

(** * [Program.exit] on a module that is not wrapped *)

(** X14.  At the exit of a module that is not wrapped: an asset that is not
    marked CommonJS is returned as it is; an asset marked CommonJS gets
    ["*"] mapped to [$<id>$exports] in its symbol table, which is emptied
    first when resolving the exports was given up, so that ["*"] is then its
    only entry; and the exit throws when the asset is marked CommonJS and
    has no symbol table. *)
Theorem unwrapped_exit_asset
    (rename : string -> string -> list node -> list node)
    (st : State) (ds body : list node) :
  st_ast st = Program ds body ->
  getData_shouldWrap (st_scope st) = false ->
  let a := st_asset st in
  let star := mkSymbol ("$" +:+ asset_id a +:+ "$exports") false in
  if isCommonJS (meta a) then
    match symbols a with
    | None => Program_exit rename st = Throw SymbolsCleared
    | Some m =>
        exists ast',
          Program_exit rename st
          = Ok (with_symbols a
                  (Some (if resolveExportsBailedOut (meta a)
                         then {[ "*" := star ]}
                         else <["*" := star]> m)),
                ast')
    end
  else exists ast', Program_exit rename st = Ok (a, ast').
Proof.
  intros Hast Hw a star. unfold Program_exit. rewrite Hast, Hw.
  fold a. destruct (isCommonJS (meta a)); [| eexists; reflexivity].
  unfold asset_symbols_set, symbols_set.
  destruct (symbols a) as [m|] eqn:Es;
    destruct (resolveExportsBailedOut (meta a)); cbn;
    rewrite ?Es; cbn; try reflexivity; eexists; reflexivity.
Qed.

(** An asset marked CommonJS and bailed out, holding two symbols. *)
Lemma unwrapped_exit_asset_witness :
  exists ast',
    Program_exit no_rename
      (mkState sample_bailed_out_asset
         (setData_shouldWrap empty_scope false) (Program [] []))
    = Ok (with_symbols sample_bailed_out_asset
            (Some {[ "*" := mkSymbol "$a1b2$exports" false ]}),
          ast').
Proof.
  exact (unwrapped_exit_asset no_rename
           (mkState sample_bailed_out_asset
              (setData_shouldWrap empty_scope false) (Program [] []))
           [] [] eq_refl eq_refl).
Defined.

(** ** The renaming loop *)

Lemma rename_bindings_acc
    (rename : string -> string -> list node -> list node) (a : Asset)
    (names : list string) : forall (body : list node) (done : list string),
  fold_left (fun (acc : list node * list string) name =>
    if String.prefix ("$" +:+ asset_id a) name
    then (fst acc, snd acc ++ [name])
    else (rename name (getName a "var" [name]) (fst acc),
          snd acc ++ [getName a "var" [name]]))
    names (body, done)
  = (fold_left (fun b name => rename name (getName a "var" [name]) b)
       (List.filter (fun name => negb (String.prefix ("$" +:+ asset_id a) name))
          names) body,
     done ++ map (fun name =>
                    if String.prefix ("$" +:+ asset_id a) name then name
                    else getName a "var" [name]) names).
Proof.
  induction names as [|n names IH]; intros body done; simpl.
  - rewrite app_nil_r. reflexivity.
  - destruct (String.prefix ("$" +:+ asset_id a) n) eqn:E; simpl;
      rewrite IH, <- app_assoc; reflexivity.
Qed.

Lemma getName_prefix a type rest :
  String.prefix ("$" +:+ asset_id a) (getName a type rest) = true.
Proof. unfold getName. apply dollar_prefix. Qed.

(** X15.  The loop of [Program.exit] over the bindings of the program scope
    leaves every binding with a name that starts with [$<id>]: a name that
    starts with it already is kept and the renamer is not called for it;
    every other name [n] becomes [$<id>$var$<n>], the renamer being called
    once for each, in the order of the bindings. *)
Theorem rename_bindings_prefixes
    (rename : string -> string -> list node -> list node)
    (a : Asset) (names : list string) (body : list node) :
  let prefixed name := String.prefix ("$" +:+ asset_id a) name in
  let renamed := rename_bindings rename a names body in
  snd renamed
  = map (fun name => if prefixed name then name else getName a "var" [name])
      names
  /\ forallb prefixed (snd renamed) = true
  /\ fst renamed
     = fold_left (fun b name => rename name (getName a "var" [name]) b)
         (List.filter (fun name => negb (prefixed name)) names) body
  /\ (forallb prefixed names = true -> renamed = (body, names)).
Proof.
  intros prefixed renamed. unfold renamed, rename_bindings.
  rewrite rename_bindings_acc. cbn [fst snd app].
  split; [reflexivity | split; [| split; [reflexivity |]]].
  - apply forallb_forall. intros x Hx. apply in_map_iff in Hx as (n & <- & _).
    unfold prefixed.
    destruct (String.prefix ("$" +:+ asset_id a) n) eqn:E;
      [exact E | apply getName_prefix].
  - intros Hall. f_equal.
    + induction names as [|n names IH]; [reflexivity |].
      simpl in *. apply andb_true_iff in Hall as [Hn Hr].
      unfold prefixed in Hn. rewrite Hn. simpl. apply IH, Hr.
    + induction names as [|n names IH]; [reflexivity |].
      simpl in *. apply andb_true_iff in Hall as [Hn Hr].
      unfold prefixed in Hn. rewrite Hn. f_equal. apply IH, Hr.
Qed.

(** * The handlers of import and export declarations *)

(** ** Statements hoisted to the top *)

Lemma insert_at_length j (x : node) l :
  length (insert_at j x l) = S (length l).
Proof.
  unfold insert_at. rewrite length_app. simpl.
  rewrite length_take, length_drop. lia.
Qed.

Lemma take_S_insert_at n (x : node) l :
  n <= length l -> take (S n) (insert_at n x l) = take n l ++ [x].
Proof.
  intros H. unfold insert_at. rewrite take_app, length_take.
  replace (S n - n `min` length l) with 1 by lia.
  rewrite take_take. replace (S n `min` n) with n by lia. reflexivity.
Qed.

Lemma drop_S_insert_at n (x : node) l :
  n <= length l -> drop (S n) (insert_at n x l) = drop n l.
Proof.
  intros H. unfold insert_at. rewrite drop_app, length_take.
  replace (S n - n `min` length l) with 1 by lia.
  rewrite drop_ge by (rewrite length_take; lia). reflexivity.
Qed.

Lemma addImport_Ok s m :
  m_hoistedImport m <> Removed ->
  hoisted_end (m_hoistedImport m) <= length (m_body m) ->
  addImport (Some s) m =
    Ok (m_with_hoistedImport
          (body_insert (hoisted_end (m_hoistedImport m))
             (hoisted_require (m_asset m) s) m)
          (At (hoisted_end (m_hoistedImport m)))).
Proof.
  intros Hr Hl. unfold addImport, hoisted_require.
  destruct (m_hoistedImport m) as [| |h] eqn:E; try congruence.
  - reflexivity.
  - simpl in *. unfold insertAfter.
    destruct (Nat.ltb_spec h (length (m_body m))); [reflexivity | lia].
Qed.

Lemma addImports_Ok sources : forall m,
  m_hoistedImport m <> Removed ->
  hoisted_end (m_hoistedImport m) <= length (m_body m) ->
  exists m',
    addImports sources m = Ok m' /\
    m_body m' =
      take (hoisted_end (m_hoistedImport m)) (m_body m)
      ++ map (hoisted_require (m_asset m)) sources
      ++ drop (hoisted_end (m_hoistedImport m)) (m_body m) /\
    (sources <> [] ->
     m_hoistedImport m' =
       At (hoisted_end (m_hoistedImport m) + length sources - 1)) /\
    (sources = [] -> m_hoistedImport m' = m_hoistedImport m) /\
    m_asset m' = m_asset m /\ m_scope m' = m_scope m /\
    m_directives m' = m_directives m.
Proof.
  induction sources as [|s r IH]; intros m Hr Hl.
  - exists m. simpl. rewrite take_drop. repeat split; congruence.
  - cbn [addImports]. rewrite addImport_Ok by assumption. cbn [bind].
    set (n := hoisted_end (m_hoistedImport m)) in *.
    set (m1 := m_with_hoistedImport _ _).
    destruct (IH m1) as (m' & E & Hb & Hh & Hh0 & Ha & Hs & Hd).
    + discriminate.
    + simpl. rewrite insert_at_length. lia.
    + exists m'. split; [exact E |].
      simpl in Hb, Hh, Hh0, Ha, Hs, Hd.
      repeat split; try congruence.
      * rewrite Hb.
        rewrite take_S_insert_at, drop_S_insert_at by assumption.
        rewrite <- !app_assoc. reflexivity.
      * intros _. destruct r as [|s' r'].
        -- rewrite Hh0 by reflexivity. f_equal. simpl. lia.
        -- rewrite Hh by discriminate. f_equal. simpl. lia.
Qed.

(** X16. [addImport] keeps the order of the declarations it is called for:
    the [$parcel$require] statements of a run of declarations stand in the
    order of the run, right after the statements hoisted before them, and
    the other statements of the program keep their order. *)
Theorem hoisted_imports_keep_order (sources : list node) (m : Module) :
  m_hoistedImport m <> Removed ->
  hoisted_end (m_hoistedImport m) <= length (m_body m) ->
  exists m',
    addImports sources m = Ok m' /\
    m_body m' =
      take (hoisted_end (m_hoistedImport m)) (m_body m)
      ++ map (hoisted_require (m_asset m)) sources
      ++ drop (hoisted_end (m_hoistedImport m)) (m_body m) /\
    hoisted_end (m_hoistedImport m') =
      hoisted_end (m_hoistedImport m) + length sources /\
    m_asset m' = m_asset m /\ m_scope m' = m_scope m.
Proof.
  intros Hr Hl.
  destruct (addImports_Ok sources m Hr Hl)
    as (m' & E & Hb & Hh & Hh0 & Ha & Hs & _).
  exists m'. repeat split; try assumption.
  destruct sources as [|s r].
  - rewrite Hh0 by reflexivity. simpl. lia.
  - rewrite Hh by discriminate. simpl. lia.
Qed.


(** ** The exports identifier asked from a declaration *)

Lemma module_exportsIdentifier_facts m :
  let r := module_exportsIdentifier m in
  snd r = Identifier (exports_name m) /\
  m_asset (fst r) = m_asset m /\
  m_body (fst r) = m_body m /\
  m_directives (fst r) = m_directives m /\
  m_path (fst r) = m_path m /\
  m_hoistedImport (fst r) = m_hoistedImport m /\
  bindings (m_scope (fst r)) = bindings (m_scope m) /\
  data_shouldWrap (m_scope (fst r)) = data_shouldWrap (m_scope m) /\
  data_cjsExportsReassigned (m_scope (fst r)) =
    data_cjsExportsReassigned (m_scope m) /\
  pushed (m_scope (fst r)) = pushed (m_scope m).
Proof.
  unfold module_exportsIdentifier, getExportsIdentifier, exports_name.
  cbn [h_scope h_asset].
  destruct (getData_shouldWrap (m_scope m)); [cbn; repeat split |].
  destruct (negb _); cbn; repeat split.
Qed.

Lemma hoisted_imports_keep_order_witness :
  exists m',
    addImports [StringLiteral "./a"; StringLiteral "./b"]
      (sample_module (ExportAllDeclaration (StringLiteral "./m"))) = Ok m' /\
    m_body m' =
      [hoisted_require
         (m_asset (sample_module (ExportAllDeclaration (StringLiteral "./m"))))
         (StringLiteral "./a");
       hoisted_require
         (m_asset (sample_module (ExportAllDeclaration (StringLiteral "./m"))))
         (StringLiteral "./b")]
      ++ m_body (sample_module (ExportAllDeclaration (StringLiteral "./m"))) /\
    hoisted_end (m_hoistedImport m') = 2 /\
    m_asset m' =
      m_asset (sample_module (ExportAllDeclaration (StringLiteral "./m"))) /\
    m_scope m' =
      m_scope (sample_module (ExportAllDeclaration (StringLiteral "./m"))).
Proof.
  apply (hoisted_imports_keep_order
           [StringLiteral "./a"; StringLiteral "./b"]
           (sample_module (ExportAllDeclaration (StringLiteral "./m")))).
  - discriminate.
  - simpl. lia.
Defined.

(** ** [export * from '...'] *)

Lemma ensured_set t name local w :
  exists m, symbols_set (symbols_ensure t) name local w = Ok (Some m) /\
            sym_local <$> m !! name = Some local /\
            forall x, x <> name ->
              m !! x = symbols_get (symbols_ensure t) x.
Proof.
  destruct t as [m0|]; simpl.
  - eexists. split; [reflexivity |].
    split; [rewrite lookup_insert_eq; reflexivity |].
    intros x Hx. apply lookup_insert_ne. congruence.
  - eexists. split; [reflexivity |].
    split; [rewrite lookup_insert_eq; reflexivity |].
    intros x Hx. apply lookup_insert_ne. congruence.
Qed.

Lemma take_delete_le {A} (n i : nat) (l : list A) :
  n <= i -> take n (delete i l) = take n l.
Proof.
  revert i l. induction n as [|n IH]; intros i l H; [reflexivity |].
  destruct i as [|i]; [lia |]. destruct l as [|x l]; [reflexivity |].
  simpl. f_equal. apply IH. lia.
Qed.

(** X17. [export * from 's'] gives way to one statement
    [$parcel$exportWildcard(<exports>, $parcel$require(<id>, 's'))], placed
    right after the statements hoisted before and hoisted itself; the
    statements around it keep their order.  The symbols and the meta data of
    the asset stay as they are: the only record of the re-export is the
    symbol ['*'] with local name ['*'] on the dependency with that
    specifier, whose other symbols stay; without such a dependency no
    dependency is written to. *)
Theorem export_all_hoisted (m : Module) (i : nat) (source : node) :
  m_path m = At i ->
  m_body m !! i = Some (ExportAllDeclaration source) ->
  m_hoistedImport m <> Removed ->
  hoisted_end (m_hoistedImport m) <= i ->
  exists m',
    VISITOR_ExportAllDeclaration m = Ok m' /\
    m_body m' =
      take (hoisted_end (m_hoistedImport m)) (m_body m)
      ++ EXPORT_ALL_TEMPLATE (Identifier (exports_name m))
           (StringLiteral (asset_id (m_asset m)))
           (StringLiteral (node_value source))
      :: drop (hoisted_end (m_hoistedImport m)) (delete i (m_body m)) /\
    m_hoistedImport m' = At (hoisted_end (m_hoistedImport m)) /\
    m_path m' = Removed /\
    symbols (m_asset m') = symbols (m_asset m) /\
    meta (m_asset m') = meta (m_asset m) /\
    match find_dependency (m_asset m) (node_value source) with
    | Some (k, dep) =>
        exists dep',
          dependencies (m_asset m') = <[k := dep']> (dependencies (m_asset m)) /\
          moduleSpecifier dep' = moduleSpecifier dep /\
          dep_meta dep' = dep_meta dep /\
          sym_local <$> symbols_get (dep_symbols dep') "*" = Some "*" /\
          forall x, x <> "*" ->
            symbols_get (dep_symbols dep') x = symbols_get (dep_symbols dep) x
    | None => dependencies (m_asset m') = dependencies (m_asset m)
    end.
Proof.
  intros Hp Hi Hr Hn.
  assert (Hlen : i < length (m_body m)) by (eapply lookup_lt_Some; eauto).
  unfold VISITOR_ExportAllDeclaration, path_statement.
  rewrite Hp, Hi. cbn [bind].
  match goal with
  | |- context [bind ?r _] =>
      assert (Ha : exists a1, r = Ok a1 /\
                asset_id a1 = asset_id (m_asset m) /\
                symbols a1 = symbols (m_asset m) /\
                meta a1 = meta (m_asset m) /\
                match find_dependency (m_asset m) (node_value source) with
                | Some (k, dep) =>
                    exists dep',
                      dependencies a1 = <[k := dep']> (dependencies (m_asset m)) /\
                      moduleSpecifier dep' = moduleSpecifier dep /\
                      dep_meta dep' = dep_meta dep /\
                      sym_local <$> symbols_get (dep_symbols dep') "*" = Some "*" /\
                      forall x, x <> "*" ->
                        symbols_get (dep_symbols dep') x =
                        symbols_get (dep_symbols dep) x
                | None => dependencies a1 = dependencies (m_asset m)
                end)
  end.
  { destruct (find_dependency (m_asset m) (node_value source)) as [[k dep]|].
    - unfold dep_symbols_set_weak. cbn [dep_symbols with_dep_symbols].
      destruct (ensured_set (dep_symbols dep) "*" "*" true)
        as (t & -> & Hs & Ho).
      cbn [bind]. eexists. split; [reflexivity |].
      repeat split. eexists. split; [reflexivity |].
      cbn. repeat split.
      + rewrite Hs. reflexivity.
      + intros x Hx. rewrite Ho by assumption.
        destruct (dep_symbols dep); reflexivity.
    - eexists. split; [reflexivity |]. repeat split. }
  destruct Ha as (a1 & -> & Hid & Hsy & Hme & Hdep). cbn [bind].
  pose proof (module_exportsIdentifier_facts (m_with_asset m a1)) as F.
  destruct (module_exportsIdentifier (m_with_asset m a1)) as [m2 exportsId].
  cbn [fst snd] in F.
  destruct F as (-> & Fa & Fb & Fd & Fp & Fh & _).
  cbn [m_with_asset m_asset m_body m_path m_hoistedImport m_directives] in *.
  unfold path_remove. rewrite Fp, Hp, Fb, Hi. cbn [bind].
  cbn [m_hoistedImport]. rewrite Fh.
  assert (Hex : exports_name (m_with_asset m a1) = exports_name m).
  { unfold exports_name, getName. cbn. rewrite Hid. reflexivity. }
  rewrite Hex, Fa, Hid.
  destruct (m_hoistedImport m) as [| |h] eqn:Eh; try congruence.
  - cbn. eexists. split; [reflexivity |]. cbn.
    rewrite drop_0. repeat split; assumption.
  - cbn [hoisted_end ref_removed] in *.
    destruct (Nat.eqb_spec h i); [lia |].
    destruct (Nat.ltb_spec i h); [lia |].
    unfold insertAfter. cbn [m_body].
    rewrite length_delete by (apply lookup_lt_is_Some; lia).
    destruct (Nat.ltb_spec h (length (m_body m) - 1)); [| lia].
    cbn. eexists. split; [reflexivity |]. cbn.
    unfold insert_at. rewrite take_delete_le by lia.
    repeat split; assumption.
Qed.

Lemma export_all_hoisted_witness :
  exists m',
    VISITOR_ExportAllDeclaration
      (sample_module (ExportAllDeclaration (StringLiteral "./m"))) = Ok m' /\
    m_body m' =
      [ExpressionStatement
         (CallExpression (Identifier "$parcel$exportWildcard")
            [Identifier "$a1b2$exports";
             CallExpression (Identifier "$parcel$require")
               [StringLiteral "a1b2"; StringLiteral "./m"]]);
       ExpressionStatement (CallExpression (Identifier "f") []);
       ExpressionStatement (CallExpression (Identifier "f") [Identifier "x"])] /\
    m_hoistedImport m' = At 0 /\
    m_path m' = Removed /\
    symbols (m_asset m') = Some ∅ /\
    meta (m_asset m') =
      mkMeta (Some "a1b2") (Some "$a1b2$exports") true false false /\
    exists dep',
      dependencies (m_asset m') =
        [mkDependency "d0" "./k" false (mkDependencyMeta false false false) None;
         dep'] /\
      moduleSpecifier dep' = "./m" /\
      dep_meta dep' = mkDependencyMeta false false false /\
      sym_local <$> symbols_get (dep_symbols dep') "*" = Some "*" /\
      forall x, x <> "*" -> symbols_get (dep_symbols dep') x = None.
Proof.
  apply (export_all_hoisted
           (sample_module (ExportAllDeclaration (StringLiteral "./m"))) 1
           (StringLiteral "./m")).
  - reflexivity.
  - reflexivity.
  - discriminate.
  - simpl. lia.
Defined.

(** ** [export {a as b} from '...'] *)

Lemma getName_not_empty a type rest : getName a type rest <> "".
Proof. unfold getName. simpl. discriminate. Qed.

Lemma existing_local_spec t name l :
  existing_local t name = Some l <->
  sym_local <$> symbols_get t name = Some l /\ l <> "".
Proof.
  unfold existing_local. destruct (symbols_get t name) as [s|]; simpl.
  - destruct (String.eqb_spec (sym_local s) ""); split.
    + discriminate.
    + intros [H1 H2]. congruence.
    + intros H. injection H as <-. split; [reflexivity | assumption].
    + intros [H1 _]. exact H1.
  - split; [discriminate | intros [H _]; discriminate].
Qed.

Lemma insertAfter_asset ref stmt m r :
  insertAfter ref stmt m = Ok r -> m_asset (fst r) = m_asset m.
Proof.
  unfold insertAfter. destruct ref; try discriminate.
  destruct (_ <? _); [| discriminate]. intros H. injection H as <-.
  reflexivity.
Qed.

Lemma dep_write a k dep0 dep name id0 w dep' :
  dependencies a !! k = Some dep0 ->
  dep_symbols dep = dep_symbols dep0 ->
  dep_symbols_set_weak dep name
    (default id0 (existing_local (dep_symbols dep) name)) w = Ok dep' ->
  id0 <> "" ->
  default id0 (existing_local (dep_symbols dep) name) <> "" /\
  dep_local (set_dep a k dep') k name =
    Some (default id0 (existing_local (dep_symbols dep) name)) /\
  (forall x, x <> name ->
     dep_local (set_dep a k dep') k x = dep_local a k x) /\
  (forall l0, dep_local a k name = Some l0 -> l0 <> "" ->
     default id0 (existing_local (dep_symbols dep) name) = l0).
Proof.
  intros Hk Hs Hw Hid.
  assert (Hlt : k < length (dependencies a)) by (eapply lookup_lt_Some; eauto).
  unfold dep_symbols_set_weak, symbols_set in Hw.
  unfold dep_local, set_dep. cbn [dependencies with_dependencies].
  rewrite list_lookup_insert_eq by assumption. rewrite Hk. cbn [mbind option_bind].
  rewrite <- Hs.
  destruct (dep_symbols dep) as [t|] eqn:Et; [| discriminate].
  cbn [bind] in Hw. injection Hw as <-. cbn [dep_symbols with_dep_symbols].
  split; [| split; [| split]].
  - destruct (existing_local (Some t) name) as [l|] eqn:E; [| exact Hid].
    apply existing_local_spec in E. simpl. tauto.
  - unfold symbols_get. cbn [mbind option_bind].
    rewrite lookup_insert_eq. reflexivity.
  - intros x Hx. unfold symbols_get. cbn [mbind option_bind].
    rewrite lookup_insert_ne by congruence. reflexivity.
  - intros l0 Hl0 Hne.
    assert (E : existing_local (Some t) name = Some l0)
      by (apply existing_local_spec; split; assumption).
    rewrite E. reflexivity.
Qed.

Lemma reexport_turn k s m m' :
  reexport_specifier (Some k) s m = Ok m' ->
  exists i e,
    s = ExportSpecifier (Identifier i) (Identifier e) /\
    asset_id (m_asset m') = asset_id (m_asset m) /\
    (forall x, x <> e ->
       export_local (m_asset m') x = export_local (m_asset m) x) /\
    (forall x, x <> i ->
       dep_local (m_asset m') k x = dep_local (m_asset m) k x) /\
    (forall l, dep_local (m_asset m) k i = Some l -> l <> "" ->
       dep_local (m_asset m') k i = Some l) /\
    (i <> "" ->
     exists l, l <> "" /\ dep_local (m_asset m') k i = Some l /\
               export_local (m_asset m') e = Some l).
Proof.
  unfold reexport_specifier.
  destruct s; try discriminate.
  destruct s1; try discriminate. destruct s2; try discriminate.
  rename name into i, name0 into e.
  intros H. exists i, e. split; [reflexivity |].
  apply bind_Ok in H as ([a1 l] & E1 & H). cbn [fst snd] in H.
  apply bind_Ok in H as (a2 & E2 & H).
  pose proof (module_exportsIdentifier_facts (m_with_asset m a2)) as F.
  destruct (module_exportsIdentifier (m_with_asset m a2)) as [m3 exportsId].
  cbn [fst snd] in F. destruct F as (_ & Fa & _).
  apply bind_Ok in H as (r & E3 & H). injection H as <-.
  apply insertAfter_asset in E3. rewrite E3, Fa. cbn [m_with_asset m_asset].
  unfold asset_symbols_set, symbols_set in E2.
  destruct (symbols a1) as [t|] eqn:Et; [| discriminate].
  cbn [bind] in E2. injection E2 as <-.
  assert (Hexp : forall x, export_local (with_symbols a1
                     (Some (<[e := mkSymbol l false]> t))) x =
                 if String.eqb x e then Some l
                 else sym_local <$> symbols_get (symbols a1) x).
  { intros x. unfold export_local, symbols_get. rewrite Et.
    cbn [symbols with_symbols mbind option_bind].
    destruct (String.eqb_spec x e) as [->|Hx].
    - rewrite lookup_insert_eq. reflexivity.
    - rewrite lookup_insert_ne by congruence. reflexivity. }
  assert (Hdl : forall x, dep_local (with_symbols a1
                     (Some (<[e := mkSymbol l false]> t))) k x =
                dep_local a1 k x) by reflexivity.
  destruct (String.eqb_spec i "") as [->|Hi]; cbn [negb] in E1.
  - injection E1 as <- <-. split; [reflexivity |].
    split; [| split; [| split]].
    + intros x Hx. rewrite Hexp.
      destruct (String.eqb_spec x e); [contradiction | reflexivity].
    + intros x _. apply Hdl.
    + intros l0 Hl0 _. rewrite Hdl. exact Hl0.
    + intros C. contradiction.
  - apply bind_Ok in E1 as (dep & Ed & E1).
    apply bind_Ok in E1 as (dep' & Ew & E1). injection E1 as <- <-.
    unfold dep_at in Ed.
    destruct (dependencies (m_asset m) !! k) as [dep0|] eqn:Ek;
      [| discriminate].
    injection Ed as ->.
    destruct (dep_write (m_asset m) k dep dep i
                (getName (m_asset m) "import" [e]) true dep' Ek eq_refl Ew
                (getName_not_empty _ _ _)) as (W1 & W2 & W3 & W4).
    split; [reflexivity |]. split; [| split; [| split]].
    + intros x Hx. rewrite Hexp.
      destruct (String.eqb_spec x e); [contradiction | reflexivity].
    + intros x Hx. rewrite Hdl. apply W3, Hx.
    + intros l0 Hl0 Hne. rewrite Hdl, W2. f_equal. apply W4; assumption.
    + intros _. eexists. split; [exact W1 |]. split.
      * rewrite Hdl. exact W2.
      * rewrite Hexp, String.eqb_refl. reflexivity.
Qed.

Lemma reexport_loop k specs : forall m m',
  each_specifier (reexport_specifier (Some k)) specs m = Ok m' ->
  NoDup (map specifier_exported specs) ->
  asset_id (m_asset m') = asset_id (m_asset m) /\
  (forall x, ~ In x (map specifier_exported specs) ->
     export_local (m_asset m') x = export_local (m_asset m) x) /\
  (forall i l, dep_local (m_asset m) k i = Some l -> l <> "" ->
     dep_local (m_asset m') k i = Some l) /\
  (forall i e, In (ExportSpecifier (Identifier i) (Identifier e)) specs ->
     i <> "" ->
     exists l, l <> "" /\ dep_local (m_asset m') k i = Some l /\
               export_local (m_asset m') e = Some l).
Proof.
  induction specs as [|s r IH]; intros m m' H Hnd.
  - injection H as <-. repeat split; try tauto. intros i e [].
  - cbn [each_specifier] in H. apply bind_Ok in H as (m1 & E1 & H).
    cbn [map] in Hnd. apply NoDup_cons in Hnd as [Hnotin Hnd].
    apply reexport_turn in E1 as (i0 & e0 & -> & T1 & T2 & T3 & T4 & T5).
    cbn [specifier_exported node_name] in Hnotin.
    destruct (IH m1 m' H Hnd) as (I1 & I2 & I3 & I4).
    assert (Hstable : forall i l, dep_local (m_asset m) k i = Some l ->
                        l <> "" -> dep_local (m_asset m1) k i = Some l).
    { intros i l Hl Hne. destruct (String.eqb_spec i i0) as [->|Hi].
      - apply T4; assumption.
      - rewrite T3 by assumption. exact Hl. }
    split; [congruence |]. split; [| split].
    + intros x Hx. cbn [map specifier_exported node_name] in Hx.
      rewrite I2 by (intros C; apply Hx; right; exact C).
      apply T2. intros ->. apply Hx. left. reflexivity.
    + intros i l Hl Hne. apply I3; [| exact Hne]. apply Hstable; assumption.
    + intros i e [Heq | Hin] Hi.
      * injection Heq as <- <-.
        destruct (T5 Hi) as (l & Hne & Hd & He).
        exists l. split; [exact Hne |]. split.
        -- apply I3; assumption.
        -- rewrite I2; [exact He |]. rewrite list_elem_of_In in Hnotin.
           exact Hnotin.
      * apply I4; assumption.
Qed.

(** X18. [export {a as b} from 's'], when the asset has a dependency with
    that specifier: for each pair the handler went through, the asset
    records export [b] under the very local name the dependency records for
    [a], so the one resolves to the other.  That name is the local name the
    dependency had for [a] before, when it had one. *)
Theorem reexport_shares_local rename (m m' : Module)
    (declaration : option node) (specifiers : list node) (source : node)
    (k : nat) (dep : Dependency) :
  path_statement m =
    Ok (ExportNamedDeclaration declaration specifiers (Some source)) ->
  find_dependency (m_asset m) (node_value source) = Some (k, dep) ->
  NoDup (map specifier_exported specifiers) ->
  VISITOR_ExportNamedDeclaration rename m = Ok m' ->
  forall a b,
    In (ExportSpecifier (Identifier a) (Identifier b)) specifiers ->
    a <> "" ->
    exists l,
      l <> "" /\
      dep_local (m_asset m') k a = Some l /\
      export_local (m_asset m') b = Some l /\
      (forall l0, existing_local (dep_symbols dep) a = Some l0 -> l = l0).
Proof.
  intros Hp Hf Hnd H a b Hin Ha.
  unfold VISITOR_ExportNamedDeclaration in H. rewrite Hp in H.
  cbn [bind] in H. rewrite Hf in H. cbn [bind fst snd] in H.
  apply bind_Ok in H as (m2 & E2 & H).
  apply bind_Ok in H as (m3 & E3 & H).
  assert (Ha3 : m_asset m' = m_asset m2).
  { unfold path_remove in H. destruct (m_path m3); try discriminate.
    destruct (_ !! _); [| discriminate]. injection H as <-.
    cbn [m_asset]. unfold addImport in E3.
    destruct (m_hoistedImport m2).
    - injection E3 as <-. reflexivity.
    - discriminate.
    - apply bind_Ok in E3 as (r & E3 & E4). injection E4 as <-.
      cbn [m_with_hoistedImport m_asset].
      eapply insertAfter_asset, E3. }
  rewrite Ha3.
  destruct (reexport_loop k specifiers _ _ E2 Hnd) as (_ & _ & L3 & L4).
  destruct (L4 a b Hin Ha) as (l & Hne & Hd & He).
  exists l. repeat split; try assumption.
  intros l0 Hl0. apply existing_local_spec in Hl0 as [Hl0 Hne0].
  apply find_dependency_lookup in Hf as (Hk & _).
  assert (Hlt : k < length (dependencies (m_asset m)))
    by (eapply lookup_lt_Some; eauto).
  assert (Hs : dep_local
                 (m_asset (m_with_asset m
                    (set_dep (m_asset m) k
                       (with_dep_symbols dep
                          (symbols_ensure (dep_symbols dep)))))) k a
               = Some l0).
  { unfold dep_local, set_dep.
    cbn [m_with_asset m_asset dependencies with_dependencies].
    rewrite list_lookup_insert_eq by assumption.
    cbn [mbind option_bind dep_symbols with_dep_symbols].
    destruct (dep_symbols dep); [exact Hl0 | discriminate]. }
  apply L3 in Hs; [| exact Hne0]. congruence.
Qed.

Lemma reexport_shares_local_witness :
  exists l,
    l <> "" /\
    dep_local (m_asset sample_reexported) 1 "a" = Some l /\
    export_local (m_asset sample_reexported) "c" = Some l /\
    (forall l0, existing_local None "a" = Some l0 -> l = l0).
Proof.
  apply (reexport_shares_local rename_nothing sample_reexport
           sample_reexported None
           [ExportSpecifier (Identifier "a") (Identifier "b");
            ExportSpecifier (Identifier "a") (Identifier "c")]
           (StringLiteral "./m") 1
           (mkDependency "d1" "./m" false (mkDependencyMeta false false false)
              None)).
  - reflexivity.
  - reflexivity.
  - apply NoDup_cons. split.
    + rewrite list_elem_of_In. simpl. intros [C | []]. discriminate C.
    + apply NoDup_cons. split; [| apply NoDup_nil; exact I].
      rewrite list_elem_of_In. simpl. intros [].
  - vm_compute. reflexivity.
  - simpl. right. left. reflexivity.
  - discriminate.
Defined.

(** ** [addExport] *)

(** X19. [addExport] never replaces an export that is recorded already, and
    it writes no other symbol, no dependency and no meta data.  A new export
    is recorded under the local name itself when that name is the local
    name of an import or of an export, and under [$<id>$export$<name>]
    otherwise.  The renamer is asked once, to rename the local name to that
    name, and the [$parcel$export] statement is placed after the
    declaration once the renaming is done. *)
Theorem addExport_records rename (local exported : string) (m m' : Module) :
  addExport rename local exported m = Ok m' ->
  dependencies (m_asset m') = dependencies (m_asset m) /\
  meta (m_asset m') = meta (m_asset m) /\
  (forall x, x <> exported ->
     symbols_get (symbols (m_asset m')) x = symbols_get (symbols (m_asset m)) x) /\
  symbols_get (symbols (m_asset m')) exported =
    Some (default (mkSymbol (export_identifier (m_asset m) local exported) false)
            (symbols_get (symbols (m_asset m)) exported)) /\
  exists sc0 sc' body' i,
    rename sc0 local (export_identifier (m_asset m) local exported) (m_body m)
      = Ok (sc', body') /\
    m_path m = At i /\
    m_scope m' = sc' /\
    m_body m' =
      insert_at (S i)
        (EXPORT_TEMPLATE (Identifier (exports_name m)) (StringLiteral exported)
           (Identifier (export_identifier (m_asset m) local exported)))
        body'.
Proof.
  unfold addExport. fold (export_identifier (m_asset m) local exported).
  set (identifier := export_identifier (m_asset m) local exported).
  pose proof (module_exportsIdentifier_facts m) as F.
  destruct (module_exportsIdentifier m) as [m1 exportsId].
  cbn [fst snd] in F. destruct F as (-> & Fa & Fb & Fd & Fp & Fh & _).
  intros H. apply bind_Ok in H as (a2 & E2 & H).
  apply bind_Ok in H as (m3 & E3 & H).
  apply bind_Ok in H as (r & E4 & H). injection H as <-.
  unfold module_rename in E3. apply bind_Ok in E3 as ([sc' body'] & Er & E3).
  injection E3 as <-.
  cbn [m_path m_body m_scope m_asset m_with_asset fst snd] in *.
  unfold insertAfter in E4. rewrite Fp in E4.
  destruct (m_path m) as [| |i] eqn:Ep; try discriminate.
  cbn [m_body] in E4.
  destruct (_ <? _); [| discriminate]. injection E4 as <-. cbn.
  rewrite Fb in Er.
  assert (Ha : dependencies a2 = dependencies (m_asset m) /\
               meta a2 = meta (m_asset m) /\
               (forall x, x <> exported ->
                  symbols_get (symbols a2) x =
                  symbols_get (symbols (m_asset m)) x) /\
               symbols_get (symbols a2) exported =
                 Some (default (mkSymbol identifier false)
                         (symbols_get (symbols (m_asset m)) exported))).
  { rewrite Fa in E2. unfold symbols_hasExportSymbol in E2.
    destruct (symbols_get (symbols (m_asset m)) exported) as [s|] eqn:Es;
      cbn [negb] in E2.
    - injection E2 as <-. repeat split. exact Es.
    - unfold asset_symbols_set, symbols_set in E2.
      destruct (symbols (m_asset m)) as [t|]; [| discriminate].
      cbn [bind] in E2. injection E2 as <-. cbn. repeat split.
      + intros x Hx. apply lookup_insert_ne. congruence.
      + rewrite lookup_insert_eq. reflexivity. }
  destruct Ha as (A1 & A2 & A3 & A4).
  repeat split; try assumption.
  exists (m_scope m1), sc', body', i. repeat split. exact Er.
Qed.

Lemma addExport_records_witness :
  dependencies (m_asset sample_exported) =
    dependencies (m_asset (sample_module (Identifier "x"))) /\
  meta (m_asset sample_exported) =
    meta (m_asset (sample_module (Identifier "x"))) /\
  (forall x, x <> "y" ->
     symbols_get (symbols (m_asset sample_exported)) x =
     symbols_get (Some ∅) x) /\
  symbols_get (symbols (m_asset sample_exported)) "y" =
    Some (mkSymbol "$a1b2$export$y" false) /\
  exists sc0 sc' body' i,
    rename_nothing sc0 "x" "$a1b2$export$y"
      (m_body (sample_module
                 (ExportNamedDeclaration None
                    [ExportSpecifier (Identifier "x") (Identifier "y")] None)))
      = Ok (sc', body') /\
    At 1 = At i /\
    m_scope sample_exported = sc' /\
    m_body sample_exported =
      insert_at (S i)
        (EXPORT_TEMPLATE (Identifier "$a1b2$exports") (StringLiteral "y")
           (Identifier "$a1b2$export$y"))
        body'.
Proof.
  apply (addExport_records rename_nothing "x" "y"
           (sample_module
              (ExportNamedDeclaration None
                 [ExportSpecifier (Identifier "x") (Identifier "y")] None))
           sample_exported).
  vm_compute. reflexivity.
Defined.

(** ** [export default] *)

Lemma name_in_no_dollar x y l :
  forallb (fun g => match g with
                    | String "$" _ => false
                    | _ => true
                    end) l = true ->
  name_in x l = true -> String.eqb x (String "$" y) = false.
Proof.
  unfold name_in. induction l as [|g l IH]; simpl; [discriminate |].
  intros Hall Hin. apply andb_prop in Hall as [Hg Hall].
  apply orb_prop in Hin as [Hin | Hin]; [| apply IH; assumption].
  apply String.eqb_eq in Hin as ->. apply String.eqb_neq. intros ->.
  discriminate Hg.
Qed.

Lemma global_no_dollar x y :
  name_in x Scope_globals || name_in x Scope_contextVariables = true ->
  String.eqb x (String "$" y) = false.
Proof.
  intros H. apply orb_prop in H as [H | H];
    (eapply name_in_no_dollar; [| exact H]); reflexivity.
Qed.

(** X20. [export default x], where [x] is a name Babel takes for bound
    without a binding (a built-in global such as [undefined] or [Array]),
    is not declared in the program and is not the local name of an export:
    the handler throws, for [safeRename] finds no binding to rename. *)
Theorem export_default_global_throws rename getBinding (m : Module)
    (x : string) :
  path_statement m = Ok (ExportDefaultDeclaration (Identifier x)) ->
  name_in x Scope_globals || name_in x Scope_contextVariables = true ->
  hasExport (m_asset m) x = false ->
  (forall sc body, getBinding sc body x = None) ->
  VISITOR_ExportDefaultDeclaration rename getBinding m = Throw BabelError.
Proof.
  intros Hp Hg He Hb.
  unfold VISITOR_ExportDefaultDeclaration. rewrite Hp. cbn [bind].
  rewrite He, andb_false_r.
  pose proof (module_exportsIdentifier_facts m) as F.
  destruct (module_exportsIdentifier m) as [m1 exportsId].
  cbn [fst snd] in F. destruct F as (-> & Fa & Fb & Fd & Fp & Fh & Fbi & _).
  unfold path_statement in Hp.
  destruct (m_path m) as [| |i] eqn:Ep; try discriminate.
  destruct (m_body m !! i) as [n|] eqn:Ei; [| discriminate].
  assert (Hlen : i < length (m_body m)) by (eapply lookup_lt_Some; eauto).
  unfold insertAfter. rewrite Fp, Fb.
  destruct (Nat.ltb_spec i (length (m_body m))); [| lia].
  cbn [bind fst].
  assert (Hh : program_hasBinding (m_scope (body_insert (S i)
                 (EXPORT_TEMPLATE (Identifier (exports_name m))
                    (StringLiteral "default")
                    (Identifier (node_name
                       (getExportIdentifier (m_asset m) "default")))) m1)) x
               = true).
  { unfold program_hasBinding. rewrite <- orb_assoc, Hg. apply orb_true_r. }
  rewrite Hh. unfold safeRename.
  assert (Hne : String.eqb x
                  (node_name (getExportIdentifier (m_asset m) "default"))
                = false) by (apply global_no_dollar, Hg).
  rewrite Hne, Hb. reflexivity.
Qed.

Lemma export_default_global_throws_witness :
  VISITOR_ExportDefaultDeclaration rename_nothing (fun _ _ _ => None)
    (sample_module (ExportDefaultDeclaration (Identifier "undefined")))
  = Throw BabelError.
Proof.
  apply (export_default_global_throws rename_nothing (fun _ _ _ => None)
           (sample_module (ExportDefaultDeclaration (Identifier "undefined")))
           "undefined").
  - reflexivity.
  - reflexivity.
  - reflexivity.
  - intros sc body. reflexivity.
Defined.

(** ** [import ... from '...'] *)

Lemma writes_dep_refl k a : writes_dep k a a.
Proof. constructor; try reflexivity. intros j d d' H1 H2. split_and?; congruence. Qed.

Lemma writes_dep_trans k a b c :
  writes_dep k a b -> writes_dep k b c -> writes_dep k a c.
Proof.
  intros [] []. constructor; try congruence.
  - intros j Hj. rewrite wd_others1, wd_others0 by assumption. reflexivity.
  - intros j d d' H1 H2.
    destruct (dependencies b !! j) as [d1|] eqn:E.
    + destruct (wd_same0 j d d1 H1 E) as (? & ? & ?).
      destruct (wd_same1 j d1 d' E H2) as (? & ? & ?).
      split_and?; congruence.
    + apply lookup_lt_Some in H1. apply lookup_ge_None in E. lia.
Qed.

Lemma set_dep_writes a k d d' :
  dependencies a !! k = Some d ->
  dep_id d' = dep_id d -> moduleSpecifier d' = moduleSpecifier d ->
  isAsync d' = isAsync d ->
  writes_dep (Some k) a (set_dep a k d').
Proof.
  intros Hk H1 H2 H3.
  assert (Hlt : k < length (dependencies a)) by (eapply lookup_lt_Some; eauto).
  constructor; try reflexivity.
  - unfold set_dep. cbn. apply length_insert.
  - intros j Hj. unfold set_dep. cbn.
    apply list_lookup_insert_ne. congruence.
  - intros j d0 d0' Hd0 Hd0'. unfold set_dep in Hd0'. cbn in Hd0'.
    destruct (Nat.eq_dec k j) as [<-|Hne].
    + rewrite list_lookup_insert_eq in Hd0' by assumption.
      split_and?; congruence.
    + rewrite list_lookup_insert_ne in Hd0' by assumption.
      split_and?; congruence.
Qed.

Lemma dep_symbols_set_weak_same d name l w d' :
  dep_symbols_set_weak d name l w = Ok d' ->
  dep_id d' = dep_id d /\ moduleSpecifier d' = moduleSpecifier d /\
  isAsync d' = isAsync d /\ dep_meta d' = dep_meta d.
Proof.
  unfold dep_symbols_set_weak. intros H.
  apply bind_Ok in H as (t & _ & H). injection H as <-. repeat split.
Qed.

Lemma dep_at_Some a k d : dep_at a k = Ok d -> dependencies a !! k = Some d.
Proof.
  unfold dep_at. destruct (dependencies a !! k); [| discriminate].
  intros H. injection H as ->. reflexivity.
Qed.

Lemma namespace_reference_writes k local acc p acc' :
  namespace_reference k local acc p = Ok acc' ->
  writes_dep (Some k) (m_asset (fst acc)) (m_asset (fst acc')) /\
  same_paths (fst acc) (fst acc').
Proof.
  unfold namespace_reference.
  destruct (_ && _).
  - intros H. apply bind_Ok in H as (dep & Ed & H).
    apply bind_Ok in H as (dep' & Ew & H).
    apply bind_Ok in H as (m' & Er & H). injection H as <-.
    apply dep_at_Some in Ed. apply dep_symbols_set_weak_same in Ew as (?&?&?&?).
    unfold replace_parent in Er.
    destruct (path_parentPath p); [| discriminate].
    destruct (replace_at _ _ _); try discriminate.
    injection Er as <-. cbn. split; [| split; reflexivity].
    eapply set_dep_writes; eassumption.
  - intros H. injection H as <-. cbn.
    split; [apply writes_dep_refl | split; reflexivity].
Qed.

Lemma each_reference_writes k local refs : forall acc acc',
  each_reference k local refs acc = Ok acc' ->
  writes_dep (Some k) (m_asset (fst acc)) (m_asset (fst acc')) /\
  same_paths (fst acc) (fst acc').
Proof.
  induction refs as [|p r IH]; intros acc acc' H.
  - injection H as <-. split; [apply writes_dep_refl | split; reflexivity].
  - cbn [each_reference] in H. apply bind_Ok in H as (acc1 & E1 & H).
    apply namespace_reference_writes in E1 as [W1 [P1 Q1]].
    apply IH in H as [W2 [P2 Q2]].
    split; [eapply writes_dep_trans; eassumption |].
    split; congruence.
Qed.

Lemma writes_dep_none k a a' : writes_dep None a a' -> writes_dep k a a'.
Proof.
  intros []. constructor; try assumption.
  intros j _. apply wd_others0. discriminate.
Qed.

Lemma module_rename_keeps rename from to m m' :
  module_rename rename from to m = Ok m' ->
  m_asset m' = m_asset m /\ same_paths m m'.
Proof.
  unfold module_rename. intros H. apply bind_Ok in H as (r & _ & H).
  injection H as <-. repeat split.
Qed.

Lemma import_specifier_writes rename getBinding k s m m' :
  import_specifier rename getBinding k s m = Ok m' ->
  writes_dep k (m_asset m) (m_asset m') /\ same_paths m m'.
Proof.
  unfold import_specifier.
  destruct (specifier_local s) as [|local [|]] eqn:Es; try discriminate.
  destruct (getBinding _ _ _) as [binding|]; [| discriminate].
  destruct (_ && _).
  { intros H. injection H as <-.
    split; [apply writes_dep_refl | split; reflexivity]. }
  intros H. apply bind_Ok in H as ([m1 id] & E & H). cbn [fst snd] in H.
  apply module_rename_keeps in H as [Ha [P Q]].
  rewrite Ha. unfold same_paths. rewrite P, Q. clear Ha P Q m'.
  destruct k as [k|].
  2:{ injection E as <- _. split; [apply writes_dep_refl | split; reflexivity]. }
  destruct s; try discriminate Es.
  - (* ImportSpecifier *)
    apply bind_Ok in E as (dep & Ed & E).
    apply bind_Ok in E as ([imported dep1] & E1 & E). cbn [fst snd] in E.
    apply bind_Ok in E as (dep' & Ew & E). injection E as <- _.
    apply dep_at_Some in Ed.
    apply dep_symbols_set_weak_same in Ew as (?&?&?&?).
    destruct s2; try discriminate. injection E1 as _ <-.
    split; [| split; reflexivity].
    eapply set_dep_writes; eassumption.
  - (* ImportDefaultSpecifier *)
    apply bind_Ok in E as (dep & Ed & E).
    apply bind_Ok in E as ([imported dep1] & E1 & E). cbn [fst snd] in E.
    apply bind_Ok in E as (dep' & Ew & E). injection E as <- _.
    apply dep_at_Some in Ed.
    apply dep_symbols_set_weak_same in Ew as (?&?&?&?).
    injection E1 as _ <-.
    split; [| split; reflexivity].
    eapply set_dep_writes; try eassumption.
  - (* ImportNamespaceSpecifier *)
    apply bind_Ok in E as ([m2 bailedOut] & Er & E). cbn [fst snd] in E.
    apply each_reference_writes in Er as [W [P Q]]. cbn [fst] in W, P, Q.
    destruct bailedOut.
    + apply bind_Ok in E as (dep & Ed & E).
      apply bind_Ok in E as (dep' & Ew & E). injection E as <- _.
      apply dep_at_Some in Ed.
      apply dep_symbols_set_weak_same in Ew as (?&?&?&?).
      split; [| split; assumption].
      eapply writes_dep_trans; [exact W |].
      eapply set_dep_writes; eassumption.
    + injection E as <- _. split; [exact W | split; assumption].
Qed.

Lemma each_live_specifier_writes (f : node -> Module -> Result Module) k :
  (forall s m m', f s m = Ok m' ->
     writes_dep k (m_asset m) (m_asset m') /\ same_paths m m') ->
  forall count j m m',
    each_live_specifier f j count m = Ok m' ->
    writes_dep k (m_asset m) (m_asset m') /\ same_paths m m'.
Proof.
  intros Hf. induction count as [|c IH]; intros j m m' H.
  - injection H as <-. split; [apply writes_dep_refl | split; reflexivity].
  - cbn [each_live_specifier] in H. apply bind_Ok in H as (n & _ & H).
    destruct (node_specifiers n !! j) as [s|]; [| discriminate].
    apply bind_Ok in H as (m1 & E1 & H).
    apply Hf in E1 as [W1 [P1 Q1]]. apply IH in H as [W2 [P2 Q2]].
    split; [eapply writes_dep_trans; eassumption |].
    split; congruence.
Qed.

Lemma insert_at_lookup n (x : node) l :
  n <= length l -> insert_at n x l !! n = Some x.
Proof.
  intros H. unfold insert_at.
  apply list_lookup_middle. rewrite length_take. lia.
Qed.

Lemma insert_at_lookup_before n (x : node) l i :
  i < n -> n <= length l -> insert_at n x l !! i = l !! i.
Proof.
  intros Hi Hn. unfold insert_at.
  rewrite lookup_app_l by (rewrite length_take; lia).
  apply lookup_take_lt. exact Hi.
Qed.

Lemma removeBindings_nil sc : bindings (removeBindings sc []) = bindings sc.
Proof.
  unfold removeBindings. cbn [bindings].
  induction (bindings sc) as [|x l IH]; simpl; [reflexivity |].
  f_equal. exact IH.
Qed.

Lemma insert_at_lookup_after n (x : node) l i :
  n <= i -> i < length l -> insert_at n x l !! S i = l !! i.
Proof.
  intros Hn Hi. unfold insert_at.
  rewrite lookup_app_r by (rewrite length_take; lia).
  rewrite length_take, Nat.min_l by lia.
  replace (S i - n) with (S (i - n)) by lia.
  rewrite lookup_cons, lookup_drop. f_equal. lia.
Qed.

(** What [addImport] and [path.remove()] leave, one after the other. *)
Lemma hoisted_and_removed source m m3 m' :
  addImport (Some source) m = Ok m3 ->
  path_remove m3 = Ok m' ->
  m_asset m' = m_asset m /\
  m_path m' = Removed /\
  exists h, m_hoistedImport m' = At h /\
            m_body m' !! h = Some (hoisted_require (m_asset m) source).
Proof.
  intros Ea Er.
  assert (Hn : m_hoistedImport m <> Removed /\
               hoisted_end (m_hoistedImport m) <= length (m_body m)).
  { unfold addImport in Ea. destruct (m_hoistedImport m) as [| |h].
    - split; [discriminate | simpl; lia].
    - discriminate.
    - unfold insertAfter in Ea.
      destruct (Nat.ltb_spec h (length (m_body m))); [| discriminate].
      split; [discriminate | simpl; lia]. }
  destruct Hn as [Hr Hl]. rewrite addImport_Ok in Ea by assumption.
  injection Ea as <-.
  set (n := hoisted_end (m_hoistedImport m)) in *.
  unfold path_remove in Er.
  cbn [m_with_hoistedImport body_insert m_path m_body m_asset m_scope
       m_directives m_hoistedImport] in Er.
  destruct (ref_inserted n (m_path m)) as [| |i'] eqn:Ei; try discriminate.
  destruct (_ !! i') as [stmt|]; [| discriminate]. injection Er as <-.
  cbn [m_asset m_scope m_path m_hoistedImport m_body].
  unfold ref_removed.
  repeat split.
  assert (Hne : i' <> n).
  { unfold ref_inserted in Ei. destruct (m_path m) as [| |i]; try discriminate.
    destruct (Nat.leb_spec n i); injection Ei as <-; lia. }
  destruct (Nat.eqb_spec n i'); [congruence |].
  destruct (Nat.ltb_spec i' n).
  - exists (pred n). split; [reflexivity |].
    rewrite list_lookup_delete_ge by lia.
    replace (S (pred n)) with n by lia.
    apply insert_at_lookup, Hl.
  - exists n. split; [reflexivity |].
    rewrite list_lookup_delete_lt by lia.
    apply insert_at_lookup, Hl.
Qed.

(** X21. An import declaration writes to no symbol and to no meta data of
    the asset, and to no dependency but the first one with the specifier it
    imports from, whose specifier stays; without such a dependency it
    leaves all dependencies as they are.  The declaration is removed, and
    the statement hoisted last is [$parcel$require(<id>, <specifier>)]. *)
Theorem import_writes_one_dependency rename getBinding (m m' : Module)
    (specifiers : list node) (source : node) :
  path_statement m = Ok (ImportDeclaration specifiers source) ->
  VISITOR_ImportDeclaration rename getBinding m = Ok m' ->
  symbols (m_asset m') = symbols (m_asset m) /\
  meta (m_asset m') = meta (m_asset m) /\
  length (dependencies (m_asset m')) = length (dependencies (m_asset m)) /\
  (forall j d d',
     dependencies (m_asset m) !! j = Some d ->
     dependencies (m_asset m') !! j = Some d' ->
     moduleSpecifier d' = moduleSpecifier d /\
     (fst <$> find_dependency (m_asset m) (node_value source) <> Some j ->
      d' = d)) /\
  m_path m' = Removed /\
  exists h, m_hoistedImport m' = At h /\
            m_body m' !! h = Some (hoisted_require (m_asset m) source).
Proof.
  intros Hp H. unfold VISITOR_ImportDeclaration in H. rewrite Hp in H.
  cbn [bind] in H.
  apply bind_Ok in H as (m2 & E2 & H). apply bind_Ok in H as (m3 & E3 & H).
  destruct (hoisted_and_removed _ _ _ _ E3 H) as (Ha & Hpath & Hh).
  apply (each_live_specifier_writes _ _
           (import_specifier_writes rename getBinding _)) in E2 as [W _].
  assert (W0 : writes_dep
                 (fst <$> find_dependency (m_asset m) (node_value source))
                 (m_asset m) (m_asset m2)).
  { destruct (find_dependency (m_asset m) (node_value source))
      as [[k0 dep]|] eqn:Ef;
      cbn [fst snd fmap option_fmap option_map m_asset m_with_asset] in *.
    - eapply writes_dep_trans; [| exact W].
      apply find_dependency_lookup in Ef as (Hk & _).
      eapply set_dep_writes; [exact Hk | reflexivity ..].
    - exact W. }
  pose proof (wd_id _ _ _ W0) as Hid.
  destruct W0. rewrite Ha.
  split; [assumption |]. split; [assumption |]. split; [assumption |].
  split; [| split; [exact Hpath |]].
  - intros j d d' Hd Hd'. split; [eapply wd_same0; eassumption |].
    intros Hj. rewrite wd_others0 in Hd' by congruence. congruence.
  - destruct Hh as (h & Hh1 & Hh2). exists h. split; [exact Hh1 |].
    rewrite Hh2. unfold hoisted_require. f_equal. f_equal. f_equal.
    f_equal. exact Hid.
Qed.

Lemma import_writes_one_dependency_witness :
  symbols (m_asset sample_imported) = symbols (m_asset sample_import) /\
  meta (m_asset sample_imported) = meta (m_asset sample_import) /\
  length (dependencies (m_asset sample_imported)) = 2 /\
  (forall j d d',
     dependencies (m_asset sample_import) !! j = Some d ->
     dependencies (m_asset sample_imported) !! j = Some d' ->
     moduleSpecifier d' = moduleSpecifier d /\
     (Some 1 <> Some j -> d' = d)) /\
  m_path sample_imported = Removed /\
  exists h, m_hoistedImport sample_imported = At h /\
            m_body sample_imported !! h =
              Some (hoisted_require (m_asset sample_import)
                      (StringLiteral "./m")).
Proof.
  apply (import_writes_one_dependency rename_nothing referenced_binding
           sample_import sample_imported
           [ImportSpecifier (Identifier "x") (Identifier "y")]
           (StringLiteral "./m")).
  - reflexivity.
  - vm_compute. reflexivity.
Defined.

Lemma delete_S_insert_at {A} n (x : A) : forall i l,
  n <= i ->
  delete (S i) (take n l ++ x :: drop n l) =
  take n (delete i l) ++ x :: drop n (delete i l).
Proof.
  induction n as [|n IH]; intros i l H.
  - simpl. rewrite !drop_0. reflexivity.
  - destruct i as [|i]; [lia |]. destruct l as [|y l].
    + reflexivity.
    + simpl. f_equal. apply IH. lia.
Qed.

Lemma skipped_turns rename getBinding k specifiers source (m : Module) :
  path_statement m = Ok (ImportDeclaration specifiers source) ->
  isSource (m_asset m) = false ->
  (forall s, In s specifiers ->
     exists x b, specifier_local s = [x] /\
                 getBinding (m_scope m) (m_body m) x = Some b /\
                 b_referenced b = false) ->
  forall count j,
    j + count = length specifiers ->
    each_live_specifier (import_specifier rename getBinding k) j count m
    = Ok m.
Proof.
  intros Hp Hs Hb. induction count as [|c IH]; intros j Hj; [reflexivity |].
  cbn [each_live_specifier]. rewrite Hp. cbn [bind node_specifiers].
  destruct (specifiers !! j) as [s|] eqn:Es.
  2:{ apply lookup_ge_None in Es. lia. }
  assert (Hin : In s specifiers).
  { apply list_elem_of_In. eapply list_elem_of_lookup_2, Es. }
  destruct (Hb s Hin) as (x & b & Hx & Hg & Hr).
  unfold import_specifier at 1. rewrite Hx, Hg, Hr, Hs. cbn [negb andb bind].
  apply IH. lia.
Qed.

(** X22. In an asset that is not source code, an import declaration none
    of whose bindings is referenced records no symbol and renames nothing:
    all it does is to make sure that the dependency has a symbol table and
    to put [$parcel$require(<id>, <specifier>)], hoisted, in the place of
    the declaration.  With the declaration, [path.remove()] takes the
    bindings it declared out of the scope. *)
Theorem unused_imports_skipped rename getBinding (m : Module) (i : nat)
    (specifiers : list node) (source : node) :
  m_path m = At i ->
  m_body m !! i = Some (ImportDeclaration specifiers source) ->
  isSource (m_asset m) = false ->
  (forall s, In s specifiers ->
     exists x b, specifier_local s = [x] /\
                 getBinding (m_scope m) (m_body m) x = Some b /\
                 b_referenced b = false) ->
  m_hoistedImport m <> Removed ->
  hoisted_end (m_hoistedImport m) <= i ->
  exists m',
    VISITOR_ImportDeclaration rename getBinding m = Ok m' /\
    m_scope m'
    = mkScope
        (List.filter
           (fun x => negb (name_in x (flat_map specifier_local specifiers)))
           (bindings (m_scope m)))
        (globals (m_scope m)) (data_shouldWrap (m_scope m))
        (data_cjsExportsReassigned (m_scope m)) (pushed (m_scope m)) /\
    m_body m' =
      take (hoisted_end (m_hoistedImport m)) (m_body m)
      ++ hoisted_require (m_asset m) source
      :: drop (hoisted_end (m_hoistedImport m)) (delete i (m_body m)) /\
    m_hoistedImport m' = At (hoisted_end (m_hoistedImport m)) /\
    symbols (m_asset m') = symbols (m_asset m) /\
    meta (m_asset m') = meta (m_asset m) /\
    dependencies (m_asset m') =
      match find_dependency (m_asset m) (node_value source) with
      | Some (k, dep) =>
          <[k := with_dep_symbols dep (symbols_ensure (dep_symbols dep))]>
            (dependencies (m_asset m))
      | None => dependencies (m_asset m)
      end.
Proof.
  intros Hp Hi Hs Hb Hr Hn.
  assert (Hlen : i < length (m_body m)) by (eapply lookup_lt_Some; eauto).
  assert (Hst : path_statement m = Ok (ImportDeclaration specifiers source))
    by (unfold path_statement; rewrite Hp, Hi; reflexivity).
  unfold VISITOR_ImportDeclaration. rewrite Hst. cbn [bind].
  set (r1 := match find_dependency (m_asset m) (node_value source) with
             | Some (k, dep) => _
             | None => _
             end).
  assert (Hr1 : asset_id (fst r1) = asset_id (m_asset m) /\
                isSource (fst r1) = false /\
                symbols (fst r1) = symbols (m_asset m) /\
                meta (fst r1) = meta (m_asset m) /\
                dependencies (fst r1) =
                  match find_dependency (m_asset m) (node_value source) with
                  | Some (k, dep) =>
                      <[k := with_dep_symbols dep
                               (symbols_ensure (dep_symbols dep))]>
                        (dependencies (m_asset m))
                  | None => dependencies (m_asset m)
                  end).
  { subst r1. destruct (find_dependency _ _) as [[k dep]|]; cbn;
      repeat split; assumption. }
  destruct Hr1 as (R1 & R2 & R3 & R4 & R5).
  rewrite (skipped_turns rename getBinding (snd r1) specifiers source
             (m_with_asset m (fst r1)));
    [| exact Hst | exact R2 | exact Hb | cbn; lia].
  cbn [bind].
  rewrite addImport_Ok;
    [| exact Hr | cbn [m_with_asset m_hoistedImport m_body]; lia].
  cbn [bind].
  cbn [m_with_asset m_hoistedImport m_body m_asset].
  set (n := hoisted_end (m_hoistedImport m)) in *.
  unfold path_remove.
  cbn [m_with_hoistedImport m_with_asset body_insert m_path m_body m_asset
       m_scope m_directives m_hoistedImport].
  rewrite Hp. unfold ref_inserted.
  destruct (Nat.leb_spec n i); [| lia].
  rewrite insert_at_lookup_after, Hi by assumption.
  eexists. split; [reflexivity |].
  cbn [m_scope m_body m_hoistedImport m_asset]. unfold ref_removed.
  destruct (Nat.eqb_spec n (S i)); [lia |].
  destruct (Nat.ltb_spec (S i) n); [lia |].
  unfold insert_at. rewrite delete_S_insert_at by assumption.
  rewrite take_delete_le by assumption.
  unfold hoisted_require. rewrite R1.
  repeat split; assumption.
Qed.

Lemma unused_imports_skipped_witness :
  exists m',
    VISITOR_ImportDeclaration rename_throws unreferenced_binding
      sample_library_import = Ok m' /\
    m_scope m' = mkScope [] [] None None [] /\
    m_body m' =
      [ExpressionStatement
         (CallExpression (Identifier "$parcel$require")
            [StringLiteral "c3d4"; StringLiteral "./m"]);
       ExpressionStatement (CallExpression (Identifier "f") [])] /\
    m_hoistedImport m' = At 0 /\
    symbols (m_asset m') = Some ∅ /\
    meta (m_asset m') = meta (m_asset sample_library_import) /\
    dependencies (m_asset m') =
      [mkDependency "d0" "./m" false (mkDependencyMeta false false false)
         (Some ∅)].
Proof.
  apply (unused_imports_skipped rename_throws unreferenced_binding
           sample_library_import 0
           [ImportDefaultSpecifier (Identifier "x");
            ImportSpecifier (Identifier "y") (Identifier "y")]
           (StringLiteral "./m")).
  - reflexivity.
  - reflexivity.
  - reflexivity.
  - intros s [<- | [<- | []]].
    + exists "x", (mkDeclBinding true false []). repeat split.
    + exists "y", (mkDeclBinding true false []). repeat split.
  - discriminate.
  - simpl. lia.
Defined.

(** X23. An import of a name, in an asset that is source code and has the
    dependency: the binding is renamed to the local name the dependency
    records for the imported name from then on, which is the local name it
    recorded before, when it had one, and [$<id>$import$<local>]
    otherwise.  The default import is the import of ['default']. *)
Theorem import_renames_to_recorded_local rename getBinding (k : nat)
    (s : node) (local imported : string) (m m' : Module) :
  s = ImportSpecifier (Identifier local) (Identifier imported) \/
  (s = ImportDefaultSpecifier (Identifier local) /\ imported = "default") ->
  isSource (m_asset m) = true ->
  import_specifier rename getBinding (Some k) s m = Ok m' ->
  exists dep l,
    dependencies (m_asset m) !! k = Some dep /\
    l = default (getName (m_asset m) "import" [local])
          (existing_local (dep_symbols dep) imported) /\
    l <> "" /\
    dep_local (m_asset m') k imported = Some l /\
    rename (m_scope m) local l (m_body m) = Ok (m_scope m', m_body m').
Proof.
  intros Hs Hsrc H. unfold import_specifier in H.
  assert (Hl : specifier_local s = [local])
    by (destruct Hs as [-> | [-> _]]; reflexivity).
  rewrite Hl in H.
  destruct (getBinding _ _ _) as [binding|]; [| discriminate].
  rewrite Hsrc, andb_false_r in H.
  apply bind_Ok in H as ([m1 id] & E & H). cbn [fst snd] in H.
  unfold module_rename in H. apply bind_Ok in H as ([sc' body'] & Er & H).
  injection H as <-. cbn [m_asset m_scope m_body fst snd].
  assert (E' : exists dep dep1 dep',
             dependencies (m_asset m) !! k = Some dep /\
             dep_symbols dep1 = dep_symbols dep /\
             dep_symbols_set_weak dep1 imported
               (default (getName (m_asset m) "import" [local])
                  (existing_local (dep_symbols dep1) imported))
               (only_reexported binding) = Ok dep' /\
             m1 = m_with_asset m (set_dep (m_asset m) k dep') /\
             id = default (getName (m_asset m) "import" [local])
                    (existing_local (dep_symbols dep1) imported)).
  { destruct Hs as [-> | [-> ->]].
    - apply bind_Ok in E as (dep & Ed & E). cbn [bind fst snd] in E.
      apply bind_Ok in E as (dep' & Ew & E). injection E as <- <-.
      apply dep_at_Some in Ed. exists dep, dep, dep'. repeat split; assumption.
    - apply bind_Ok in E as (dep & Ed & E). cbn [bind fst snd] in E.
      apply bind_Ok in E as (dep' & Ew & E). injection E as <- <-.
      apply dep_at_Some in Ed.
      exists dep, (dep_set_hasDefaultImport dep), dep'.
      repeat split; assumption. }
  destruct E' as (dep & dep1 & dep' & Hk & Hsy & Ew & -> & ->).
  destruct (dep_write (m_asset m) k dep dep1 imported
              (getName (m_asset m) "import" [local])
              (only_reexported binding) dep' Hk Hsy Ew
              (getName_not_empty _ _ _)) as (W1 & W2 & _ & _).
  cbn [m_with_asset m_asset m_scope m_body] in *.
  exists dep, (default (getName (m_asset m) "import" [local])
                 (existing_local (dep_symbols dep1) imported)).
  rewrite <- Hsy. repeat split; assumption.
Qed.

Lemma import_renames_to_recorded_local_witness :
  exists dep l,
    dependencies (m_asset sample_second_import) !! 0 = Some dep /\
    l = default (getName (m_asset sample_second_import) "import" ["x"])
          (existing_local (dep_symbols dep) "default") /\
    l <> "" /\
    dep_local (m_asset sample_second_imported) 0 "default" = Some l /\
    rename_nothing (m_scope sample_second_import) "x" l
      (m_body sample_second_import)
    = Ok (m_scope sample_second_imported, m_body sample_second_imported).
Proof.
  apply (import_renames_to_recorded_local rename_nothing referenced_binding 0
           (ImportDefaultSpecifier (Identifier "x")) "x" "default"
           sample_second_import sample_second_imported).
  - right. split; reflexivity.
  - reflexivity.
  - vm_compute. reflexivity.
Defined.

(** ** [export default] of an expression and of a binding *)

Lemma insert_after_replace {A} (i : nat) (x y : A) l :
  i < length l ->
  <[i := x]> (take (S i) l ++ y :: drop (S i) l) =
  take i l ++ [x; y] ++ drop (S i) l.
Proof.
  revert l. induction i as [|i IH]; intros [|z l] H; simpl in H; try lia.
  - simpl. rewrite drop_0. reflexivity.
  - simpl. f_equal. apply IH. lia.
Qed.

Lemma default_symbol_set (a : Asset) (identifier : string) t :
  symbols a = Some t ->
  exists a',
    (if negb (symbols_hasExportSymbol (symbols a) "default")
     then asset_symbols_set a "default" identifier
     else Ok a) = Ok a' /\
    dependencies a' = dependencies a /\ meta a' = meta a /\
    asset_id a' = asset_id a /\
    (forall x, x <> "default" ->
       symbols_get (symbols a') x = symbols_get (symbols a) x) /\
    symbols_get (symbols a') "default" =
      Some (default (mkSymbol identifier false)
              (symbols_get (symbols a) "default")).
Proof.
  intros Ht. unfold symbols_hasExportSymbol.
  destruct (symbols_get (symbols a) "default") as [s|] eqn:Es; cbn [negb].
  - exists a. repeat split. exact Es.
  - unfold asset_symbols_set, symbols_set. rewrite Ht. cbn [bind].
    eexists. split; [reflexivity |]. cbn. repeat split.
    + intros x Hx. apply lookup_insert_ne. congruence.
    + rewrite lookup_insert_eq. reflexivity.
Qed.

(** X24. [export default <expression>], for an expression that is no
    identifier: the declaration becomes
    [var $<id>$export$default = <expression>], followed by the
    [$parcel$export] statement for ['default'], and the variable is
    registered as a binding of the program.  The export is recorded under
    that name unless a default export is recorded already; no other symbol
    and no dependency is written to, and the renamer is not used. *)
Theorem export_default_expression rename getBinding (m : Module) (i : nat)
    (e : node) (t : gmap string Symbol) :
  m_path m = At i ->
  m_body m !! i = Some (ExportDefaultDeclaration e) ->
  isExpression e = true ->
  isIdentifier e = false ->
  symbols (m_asset m) = Some t ->
  exists m',
    VISITOR_ExportDefaultDeclaration rename getBinding m = Ok m' /\
    m_body m' =
      take i (m_body m)
      ++ [VariableDeclaration "var"
            [VariableDeclarator
               (Identifier (getName (m_asset m) "export" ["default"]))
               (Some e)];
          EXPORT_TEMPLATE (Identifier (exports_name m))
            (StringLiteral "default")
            (Identifier (getName (m_asset m) "export" ["default"]))]
      ++ drop (S i) (m_body m) /\
    bindings (m_scope m') =
      bindings (m_scope m) ++ [getName (m_asset m) "export" ["default"]] /\
    m_path m' = At i /\
    dependencies (m_asset m') = dependencies (m_asset m) /\
    (forall x, x <> "default" ->
       symbols_get (symbols (m_asset m')) x =
       symbols_get (symbols (m_asset m)) x) /\
    symbols_get (symbols (m_asset m')) "default" =
      Some (default
              (mkSymbol (getName (m_asset m) "export" ["default"]) false)
              (symbols_get (symbols (m_asset m)) "default")).
Proof.
  intros Hp Hi He Hid Ht.
  assert (Hlen : i < length (m_body m)) by (eapply lookup_lt_Some; eauto).
  unfold VISITOR_ExportDefaultDeclaration, path_statement.
  rewrite Hp, Hi. cbn [bind].
  pose proof (module_exportsIdentifier_facts m) as F.
  destruct (module_exportsIdentifier m) as [m1 exportsId].
  cbn [fst snd] in F.
  destruct F as (-> & Fa & Fb & Fd & Fp & Fh & Fbi & _).
  assert (Hname : match e with
                  | FunctionDeclaration (Identifier x) _ _ => Some x
                  | Identifier x => Some x
                  | _ => None
                  end = None).
  { destruct e; try reflexivity; discriminate. }
  rewrite Hname.
  unfold insertAfter. rewrite Fp, Hp, Fb.
  destruct (Nat.ltb_spec i (length (m_body m))); [| lia].
  cbn [bind fst].
  assert (Hbranch :
    forall (A : Type) (k1 : string -> A) (k2 : A),
      match e with Identifier x => k1 x | _ => k2 end = k2).
  { intros A k1 k2. destruct e; try reflexivity; discriminate. }
  rewrite Hbranch. rewrite He. cbn [orb].
  unfold toExpression.
  assert (Hn1 : match e with ExpressionStatement e' => e' | _ => e end = e).
  { destruct e; try reflexivity; discriminate. }
  rewrite Hn1, He. cbn [bind].
  unfold path_replaceWith.
  cbn [body_insert m_path m_body m_asset m_scope m_directives m_hoistedImport].
  rewrite Fp, Hp. unfold ref_inserted.
  destruct (Nat.leb_spec (S i) i); [lia |].
  rewrite Fb, insert_at_length.
  destruct (Nat.ltb_spec i (S (length (m_body m)))); [| lia].
  cbn [bind m_with_scope m_asset m_scope m_body m_path m_with_asset].
  rewrite Fa.
  destruct (default_symbol_set (m_asset m)
              (node_name (getExportIdentifier (m_asset m) "default")) t Ht)
    as (a' & -> & A1 & A2 & A3 & A4 & A5).
  cbn [bind]. eexists. split; [reflexivity |].
  unfold insert_at. rewrite insert_after_replace by assumption.
  cbn [m_with_asset m_with_scope m_body m_scope m_path m_asset
       registerDeclaration bindings].
  rewrite Fbi. repeat split; assumption.
Qed.

Lemma export_default_expression_witness :
  exists m',
    VISITOR_ExportDefaultDeclaration rename_throws (fun _ _ _ => None)
      (sample_module (ExportDefaultDeclaration (NumericLiteral 42))) = Ok m' /\
    m_body m' =
      [ExpressionStatement (CallExpression (Identifier "f") []);
       VariableDeclaration "var"
         [VariableDeclarator (Identifier "$a1b2$export$default")
            (Some (NumericLiteral 42))];
       ExpressionStatement
         (CallExpression (Identifier "$parcel$export")
            [Identifier "$a1b2$exports"; StringLiteral "default";
             FunctionExpression None []
               (BlockStatement []
                  [ReturnStatement
                     (Some (Identifier "$a1b2$export$default"))])]);
       ExpressionStatement (CallExpression (Identifier "f") [Identifier "x"])] /\
    bindings (m_scope m') = ["x"; "f"; "$a1b2$export$default"] /\
    m_path m' = At 1 /\
    dependencies (m_asset m') =
      dependencies
        (m_asset (sample_module (ExportDefaultDeclaration (NumericLiteral 42)))) /\
    (forall x, x <> "default" ->
       symbols_get (symbols (m_asset m')) x = symbols_get (Some ∅) x) /\
    symbols_get (symbols (m_asset m')) "default" =
      Some (mkSymbol "$a1b2$export$default" false).
Proof.
  apply (export_default_expression rename_throws (fun _ _ _ => None)
           (sample_module (ExportDefaultDeclaration (NumericLiteral 42))) 1
           (NumericLiteral 42) ∅); reflexivity.
Defined.

Lemma delete_after_two_inserts {A} (i : nat) (x y : A) l :
  i < length l ->
  delete i (take (S i) (take (S i) l ++ y :: drop (S i) l)
            ++ x :: drop (S i) (take (S i) l ++ y :: drop (S i) l)) =
  take i l ++ [x; y] ++ drop (S i) l.
Proof.
  revert l. induction i as [|i IH]; intros [|z l] H; simpl in H; try lia.
  - simpl. rewrite drop_0. reflexivity.
  - simpl. f_equal. apply IH. lia.
Qed.

(** X25. [export default x], for a binding [x] of the program that is
    assigned to again: the binding keeps its name and the renamer is not
    used.  In the place of the declaration stands
    [var $<id>$export$default = x], a new binding of the program, followed
    by the [$parcel$export] statement for ['default']. *)
Theorem export_default_reassigned rename getBinding (m : Module) (i : nat)
    (x : string) (b : DeclBinding) (t : gmap string Symbol) :
  m_path m = At i ->
  m_body m !! i = Some (ExportDefaultDeclaration (Identifier x)) ->
  name_in x (bindings (m_scope m)) = true ->
  hasExport (m_asset m) x = false ->
  x <> getName (m_asset m) "export" ["default"] ->
  (forall sc body, getBinding sc body x = Some b) ->
  b_constant b = false ->
  symbols (m_asset m) = Some t ->
  exists m',
    VISITOR_ExportDefaultDeclaration rename getBinding m = Ok m' /\
    m_body m' =
      take i (m_body m)
      ++ [VariableDeclaration "var"
            [VariableDeclarator
               (Identifier (getName (m_asset m) "export" ["default"]))
               (Some (Identifier x))];
          EXPORT_TEMPLATE (Identifier (exports_name m))
            (StringLiteral "default")
            (Identifier (getName (m_asset m) "export" ["default"]))]
      ++ drop (S i) (m_body m) /\
    bindings (m_scope m') =
      bindings (m_scope m) ++ [getName (m_asset m) "export" ["default"]] /\
    m_path m' = Removed /\
    dependencies (m_asset m') = dependencies (m_asset m) /\
    (forall y, y <> "default" ->
       symbols_get (symbols (m_asset m')) y =
       symbols_get (symbols (m_asset m)) y) /\
    symbols_get (symbols (m_asset m')) "default" =
      Some (default
              (mkSymbol (getName (m_asset m) "export" ["default"]) false)
              (symbols_get (symbols (m_asset m)) "default")).
Proof.
  intros Hp Hi Hx He Hne Hb Hc Ht.
  assert (Hlen : i < length (m_body m)) by (eapply lookup_lt_Some; eauto).
  unfold VISITOR_ExportDefaultDeclaration, path_statement.
  rewrite Hp, Hi. cbn [bind].
  rewrite He, andb_false_r.
  pose proof (module_exportsIdentifier_facts m) as F.
  destruct (module_exportsIdentifier m) as [m1 exportsId].
  cbn [fst snd] in F.
  destruct F as (-> & Fa & Fb & Fd & Fp & Fh & Fbi & _).
  unfold insertAfter at 1. rewrite Fp, Hp, Fb.
  destruct (Nat.ltb_spec i (length (m_body m))); [| lia].
  cbn [bind fst].
  unfold program_hasBinding at 1.
  cbn [body_insert m_scope]. rewrite Fbi, Hx. cbn [orb].
  unfold safeRename.
  change (node_name (getExportIdentifier (m_asset m) "default"))
    with (getName (m_asset m) "export" ["default"]).
  destruct (String.eqb_spec x (getName (m_asset m) "export" ["default"]));
    [contradiction |].
  rewrite Hb, Hc. unfold insertAfter.
  cbn [body_insert m_path m_body]. rewrite Fp, Hp. unfold ref_inserted.
  destruct (Nat.leb_spec (S i) i); [lia |].
  rewrite Fb, insert_at_length.
  destruct (Nat.ltb_spec i (S (length (m_body m)))); [| lia].
  cbn [bind fst]. unfold path_remove.
  assert (Hle : (S i <=? i) = false) by (apply Nat.leb_gt; lia).
  assert (Hlt : (i <? S (S (length (m_body m)))) = true)
    by (apply Nat.ltb_lt; lia).
  cbn [body_insert m_with_scope m_path m_body m_asset m_scope m_directives
       m_hoistedImport].
  rewrite Fp, Hp. unfold ref_inserted at 1 2.
  rewrite Hle. cbv beta iota. rewrite Hle.
  rewrite Fb, !insert_at_lookup_before, Hi
    by (rewrite ?insert_at_length; lia).
  cbn [bind m_asset]. rewrite Fa.
  destruct (default_symbol_set (m_asset m)
              (getName (m_asset m) "export" ["default"]) t Ht)
    as (a' & -> & A1 & A2 & A3 & A4 & A5).
  eexists. split; [reflexivity |].
  unfold insert_at. rewrite delete_after_two_inserts by assumption.
  cbn [m_with_asset m_with_scope m_body m_scope m_path m_asset
       getBindingIdentifiers].
  rewrite removeBindings_nil. cbn [registerDeclaration bindings].
  rewrite Fbi. repeat split; assumption.
Qed.

Lemma export_default_reassigned_witness :
  exists m',
    VISITOR_ExportDefaultDeclaration rename_throws
      (fun _ _ _ => Some (mkDeclBinding false true []))
      (sample_module (ExportDefaultDeclaration (Identifier "x"))) = Ok m' /\
    m_body m' =
      [ExpressionStatement (CallExpression (Identifier "f") []);
       VariableDeclaration "var"
         [VariableDeclarator (Identifier "$a1b2$export$default")
            (Some (Identifier "x"))];
       ExpressionStatement
         (CallExpression (Identifier "$parcel$export")
            [Identifier "$a1b2$exports"; StringLiteral "default";
             FunctionExpression None []
               (BlockStatement []
                  [ReturnStatement
                     (Some (Identifier "$a1b2$export$default"))])]);
       ExpressionStatement (CallExpression (Identifier "f") [Identifier "x"])] /\
    bindings (m_scope m') = ["x"; "f"; "$a1b2$export$default"] /\
    m_path m' = Removed /\
    dependencies (m_asset m') =
      dependencies
        (m_asset (sample_module (ExportDefaultDeclaration (Identifier "x")))) /\
    (forall y, y <> "default" ->
       symbols_get (symbols (m_asset m')) y = symbols_get (Some ∅) y) /\
    symbols_get (symbols (m_asset m')) "default" =
      Some (mkSymbol "$a1b2$export$default" false).
Proof.
  apply (export_default_reassigned rename_throws
           (fun _ _ _ => Some (mkDeclBinding false true []))
           (sample_module (ExportDefaultDeclaration (Identifier "x"))) 1
           "x" (mkDeclBinding false true []) ∅);
    first [reflexivity | discriminate].
Defined.

(** ** [import * as ns from '...'] *)

Lemma namespace_reference_spec k local acc p acc' :
  namespace_reference k local acc p = Ok acc' ->
  snd acc' = snd acc || negb (static_member_use p) /\
  (forall x, (static_member_use p = true -> member_reference_name p <> x) ->
     dep_local (m_asset (fst acc')) k x = dep_local (m_asset (fst acc)) k x) /\
  (forall x l, dep_local (m_asset (fst acc)) k x = Some l -> l <> "" ->
     dep_local (m_asset (fst acc')) k x = Some l) /\
  (static_member_use p = true ->
   exists l, l <> "" /\
     dep_local (m_asset (fst acc')) k (member_reference_name p) = Some l).
Proof.
  unfold namespace_reference. fold (static_member_use p).
  destruct (static_member_use p).
  - intros H. apply bind_Ok in H as (dep & Ed & H).
    apply bind_Ok in H as (dep' & Ew & H).
    apply bind_Ok in H as (m' & Er & H). injection H as <-.
    apply dep_at_Some in Ed.
    destruct (dep_write (m_asset (fst acc)) k dep dep
                (member_reference_name p)
                (getName (m_asset (fst acc)) "import"
                   [local; member_reference_name p])
                false dep' Ed eq_refl Ew (getName_not_empty _ _ _))
      as (W1 & W2 & W3 & W4).
    assert (Ha : m_asset m' = set_dep (m_asset (fst acc)) k dep').
    { unfold replace_parent in Er.
      destruct (path_parentPath p); [| discriminate].
      destruct (replace_at _ _ _); try discriminate.
      injection Er as <-. reflexivity. }
    cbn [fst snd]. rewrite Ha.
    split; [rewrite orb_false_r; reflexivity |].
    split; [| split].
    + intros x Hx. apply W3. intros ->. apply Hx; reflexivity.
    + intros x l Hl Hne.
      destruct (String.eqb_spec x (member_reference_name p)) as [->|Hx].
      * rewrite W2. f_equal. apply W4; assumption.
      * rewrite W3 by assumption. exact Hl.
    + intros _. eexists. split; [exact W1 | exact W2].
  - intros H. injection H as <-. cbn [fst snd].
    split; [rewrite orb_true_r; reflexivity |].
    split; [reflexivity |]. split; [tauto | discriminate].
Qed.

Lemma each_reference_spec k local refs : forall acc acc',
  each_reference k local refs acc = Ok acc' ->
  snd acc' = snd acc || existsb (fun p => negb (static_member_use p)) refs /\
  (forall x,
     (forall p, In p refs -> static_member_use p = true ->
                member_reference_name p <> x) ->
     dep_local (m_asset (fst acc')) k x = dep_local (m_asset (fst acc)) k x) /\
  (forall x l, dep_local (m_asset (fst acc)) k x = Some l -> l <> "" ->
     dep_local (m_asset (fst acc')) k x = Some l) /\
  (forall p, In p refs -> static_member_use p = true ->
     exists l, l <> "" /\
       dep_local (m_asset (fst acc')) k (member_reference_name p) = Some l).
Proof.
  induction refs as [|p r IH]; intros acc acc' H.
  - injection H as <-. cbn [existsb]. rewrite orb_false_r.
    repeat split; try tauto. intros p [].
  - cbn [each_reference] in H. apply bind_Ok in H as (acc1 & E1 & H).
    apply namespace_reference_spec in E1 as (N1 & N2 & N3 & N4).
    apply IH in H as (I1 & I2 & I3 & I4).
    split; [| split; [| split]].
    + rewrite I1, N1. cbn [existsb]. rewrite orb_assoc. reflexivity.
    + intros x Hx. rewrite I2.
      * apply N2. intros Hs. apply (Hx p); [left; reflexivity | exact Hs].
      * intros q Hq. apply Hx. right. exact Hq.
    + intros x l Hl Hne. apply I3; [| exact Hne]. apply N3; assumption.
    + intros q [<- | Hq] Hs.
      * destruct (N4 Hs) as (l & Hne & Hl). exists l. split; [exact Hne |].
        apply I3; assumption.
      * apply I4; assumption.
Qed.

(** X26. [import * as ns from 's'], with a dependency for ['s'] and a
    binding that is referenced: each member [ns.a] or [ns['a']] that is
    read by name is recorded as a symbol of the dependency under its own
    name.  The whole namespace, symbol ['*'], is recorded when some
    reference to [ns] is anything else, and is left as it was when every
    reference reads a member other than ['*'] by name. *)
Theorem namespace_import_symbols rename getBinding (k : nat)
    (local : string) (binding : DeclBinding) (m m' : Module) :
  getBinding (m_scope m) (m_body m) local = Some binding ->
  b_referenced binding = true ->
  import_specifier rename getBinding (Some k)
    (ImportNamespaceSpecifier (Identifier local)) m = Ok m' ->
  (forall p, In p (b_referencePaths binding) ->
     static_member_use p = true ->
     exists l, l <> "" /\
       dep_local (m_asset m') k (member_reference_name p) = Some l) /\
  (existsb (fun p => negb (static_member_use p)) (b_referencePaths binding)
   = true ->
   exists l, l <> "" /\ dep_local (m_asset m') k "*" = Some l) /\
  (forallb static_member_use (b_referencePaths binding) = true ->
   (forall p, In p (b_referencePaths binding) ->
      member_reference_name p <> "*") ->
   dep_local (m_asset m') k "*" = dep_local (m_asset m) k "*").
Proof.
  intros Hg Hr H. unfold import_specifier in H.
  cbn [specifier_local pattern_names] in H.
  rewrite Hg, Hr in H. cbn [negb andb] in H.
  apply bind_Ok in H as ([m1 id] & E & H). cbn [fst snd] in H.
  apply module_rename_keeps in H as [Ha _]. rewrite Ha. clear Ha m'.
  apply bind_Ok in E as ([m2 bailedOut] & Er & E). cbn [fst snd] in E.
  apply each_reference_spec in Er as (S1 & S2 & S3 & S4).
  cbn [fst snd orb] in S1, S2, S3, S4.
  destruct bailedOut.
  - apply bind_Ok in E as (dep & Ed & E).
    apply bind_Ok in E as (dep' & Ew & E). injection E as <- _.
    apply dep_at_Some in Ed.
    destruct (dep_write (m_asset m2) k dep dep "*"
                (getName (m_asset m) "import" [local]) false dep' Ed eq_refl
                Ew (getName_not_empty _ _ _)) as (W1 & W2 & W3 & W4).
    cbn [m_with_asset m_asset].
    split; [| split].
    + intros p Hp Hs. destruct (S4 p Hp Hs) as (l & Hne & Hl).
      exists l. split; [exact Hne |].
      destruct (String.eqb_spec (member_reference_name p) "*") as [Hx|Hx].
      * rewrite Hx in *. rewrite W2. f_equal. apply W4; assumption.
      * rewrite W3 by assumption. exact Hl.
    + intros _. eexists. split; [exact W1 | exact W2].
    + intros Hall _. exfalso.
      assert (Hex : existsb (fun p => negb (static_member_use p))
                      (b_referencePaths binding) = false).
      { clear -Hall. induction (b_referencePaths binding) as [|p r IH];
          [reflexivity |].
        cbn [forallb existsb] in *. apply andb_prop in Hall as [-> Hall].
        cbn. apply IH, Hall. }
      congruence.
  - injection E as <- _.
    split; [| split].
    + exact S4.
    + intros Hex. congruence.
    + intros _ Hn. apply S2. intros p Hp _. apply Hn, Hp.
Qed.

Lemma namespace_import_symbols_witness :
  (forall p, In p (b_referencePaths sample_namespace_binding) ->
     static_member_use p = true ->
     exists l, l <> "" /\
       dep_local (m_asset sample_namespace_imported) 0
         (member_reference_name p) = Some l) /\
  (existsb (fun p => negb (static_member_use p))
     (b_referencePaths sample_namespace_binding) = true ->
   exists l, l <> "" /\
     dep_local (m_asset sample_namespace_imported) 0 "*" = Some l) /\
  (forallb static_member_use (b_referencePaths sample_namespace_binding)
   = true ->
   (forall p, In p (b_referencePaths sample_namespace_binding) ->
      member_reference_name p <> "*") ->
   dep_local (m_asset sample_namespace_imported) 0 "*" =
   dep_local (m_asset sample_namespace_import) 0 "*").
Proof.
  apply (namespace_import_symbols rename_nothing
           (fun _ _ _ => Some sample_namespace_binding) 0 "ns"
           sample_namespace_binding sample_namespace_import
           sample_namespace_imported).
  - reflexivity.
  - reflexivity.
  - vm_compute. reflexivity.
Defined.
